(* ===== verification/_CoqProject ===== *)
-Q . S2P
Prelude.v
Bytes.v
Header.v
GoStd.v
Netip.v
Float64.v
GoTime.v
Types.v
Store.v
MemStore.v
Ipam.v
Auth.v
Controller.v
Grpc.v
Streams.v
Registry.v
Middleware.v
Base64.v
GoSync.v
Queue.v
NodePeer.v
NoiseLaws.v
NodeCore.v
Transport.v
PeerWp.v
Lifecycle.v
PeerData.v
Hazards.v
Retry.v
Dispatch.v
Sync.v
Overlay.v
WinTun.v
NixTun.v
Boot.v
NodeLife.v
Link.v
Devices.v
View.v
Commands.v
Serve.v
Cmdline.v
Logger.v
