(* ===== verification/Prelude.v ===== *)
(** * zeronet: a verification development

    zeronet is an overlay network. A controller (src/controller) keeps a database of peers,
    gives each an address of the overlay's prefix and tells the connected ones about each
    other over gRPC streams. A node (src/node) logs in at the controller, follows its stream,
    and carries packets between its tunnel device and its UDP socket, encrypted per peer with
    keys a Noise IK handshake agrees on. Both use a 16-byte wire header (src/pkg/header).

    This library translates both programs into executable definitions and proves what they do.
    A handler is a [go S A]: a program on a state [S] that finishes with a value, crashes the
    process (a panic, a fatal error of the run time) or blocks (a lock that is held, a channel
    nobody receives from); the state at that point is kept.  Integers have the width the
    code gives them, buffers are windows on arrays, shared objects live in a heap.

    ** The files, and what they model

    - This file: outcomes and their rules, machine integers, reachability of a step relation.
    - Bytes, GoStd, GoTime, Float64, Base64, Netip, GoSync: what the program uses of Go's
      standard library - slices with capacity, [strings], instants and durations, the float64
      arithmetic behind [Duration.Hours], base64, addresses and prefixes and their text,
      mutexes, timers, pools.
    - Header: pkg/header/header.go.
    - Types: controller/types/peer.go.  Store: controller/db/peer.go, over the class [Gorm];
      MemStore is a table in memory that satisfies gorm's laws, for concrete runs.  Ipam:
      controller/db/ipam.go, over the class [NetipX].  Auth: controller/auth/oauth.go, over the
      class [IdP].  Controller: controller/controller.go and controller/peer_updates.go.  Grpc:
      controller/grpc_v1.go and controller/util.go, every handler with its status codes.
      Streams: the update streams of the same two files as goroutines that interleave.
      Registry: no new code, the controller's steps against a register of leases.
      Middleware: controller/middleware/interceptors.go and controller/auth/jwt.go, over the
      class [JwtLib].
    - Queue: node/queue.go.  NodePeer: node/peer.go, node/peer_transport.go, node/noise.go -
      the peer, its handshake, its three goroutines, each split where it waits - over the class
      [Noise]; NoiseLaws has that library's laws and an instance.  NodeCore: node/node.go,
      node/packets.go, node/grpcclient.go, node/stun.go, node/service.go and the address
      helpers of node/helpers.go, over the class [NodeExt].
    - WinTun: the calls of node/tun/tun_win.go.  NixTun: the address configuration of
      node/tun/tun_nix.go.  Devices: node/conn, the making and closing of both tunnels, and the
      node's start and stop with them, over the class [Platform].
    - Boot: what the two programs make of their surroundings to come up, and the key file, over
      the class [World].  Commands: node/authflow.go, node/cmd/service.go, node/cmd/root.go,
      node/cmd/keypair.go, over the class [Desktop].  Serve: controller/cmd/root.go and
      controller/db/db.go.  Cmdline: the commands and flags both declare.
    - Logger: pkg/logger/logger.go, which nothing imports.
    - Transport, PeerWp, Lifecycle, PeerData, Hazards, Retry, Dispatch, Sync, Overlay, NodeLife,
      Link, View: no new code but the theorems that need several of the above, see below.

    Code outside the repository is a class of operations ([Gorm], [NetipX], [IdP], [MapOrder],
    [Noise], [NodeExt], [World], [Desktop], the argument [Driver]) whose documented behaviour, where a theorem needs
    it, is a class of laws with an instance; the theorems are proved against the class, and
    their witnesses run the instance.

    ** How the parts meet

    [NodeCore.Node] holds the peers in a heap that two maps point into; a peer's program runs on
    the pair of the peer and the part of the node it uses ([NodePeer.PS]) and is lifted to the
    node by [on_peer].  What a node sends ends up in [net_out], what it asks the controller in
    [punches] and [endpoint_reports]; what the controller sends ends up in [delivered], per channel.
    Overlay feeds one into the other; Commands puts a command, the node it calls and the
    controller behind it side by side.  [NodeLife.node_step] is a step of a whole node,
    [Registry.reg_step] one of the controller with its streams, [Serve.turn] one of the
    controller's process, [Link.link_step] one of two nodes and the network between them,
    [Devices.host_step] one of a node with what it has open.

    ** What is shown

    - Wire header (C1, C2): encoding and parsing are inverse, and the parser accepts
      exactly the encodings.
    - Controller data (C3, C5 to C7): expiry to the nanosecond through the float arithmetic; the
      allocator finds the least free address and leaves the prefix exactly
      when it is full; a token is accepted only if the provider vouches for it.
    - The controller as a whole (C8, C34, C31): in every interleaving of handlers and streams
      the table of peers is well-formed and implements a register of leases; its process,
      once it begins to stop, comes to an end with both servers down.
    - Controller handlers (C9, C11 to C16): who is told of a connection; what a login, a
      registration and an endpoint update write, and who may; that a disabled
      peer is refused everywhere; what the end of a stream closes.
    - Streams (C4, C39): a peer that disconnects while another is announced to it crashes the
      controller; two peers that connect at the same time block everyone for good.
    - Packets (C17, C26): the pools' invariant over any sequence of operations; where a
      packet of the tunnel goes.
    - The node as a whole (C29, C18, C32): an invariant of its maps, peers, queues and pools over
      every sequence of steps, built from the peer's life and the invariant of its data
      (PeerData); that no packet takes a node down on the data path, in any state it can reach;
      that what it knows of the overlay is the effect of the controller's updates in their
      order, and of nothing else.
    - The node and the system under it (C33): on both platforms it has its socket and its tunnel
      open while it runs and nothing otherwise, however a start fails.
    - Sessions (C19, C20, C25, C27): the handshake establishes matching ciphers; a packet
      crosses unchanged; a first packet starts the handshake and is delivered; a
      handshake nobody answers ends.
    - Two nodes and a hostile network (C10, C28): a session implements a channel that loses,
      repeats and reorders packets and does not invent any, and uses no counter twice; what it
      does repeat: a datagram delivered again is a packet delivered again.
    - The peer's life (C21 to C24): an invariant of lock discipline and state over every
      sequence of steps (weakest preconditions in PeerWp), and the ways a peer's life takes the
      process down or hangs it.
    - Control plane (C30, C35): the first list; what the login command comes to, for every
      answer of the controller and the browser.
    - The system (C36 to C38): a machine that logs in is reachable for every node whose list has
      it; a text the controller takes for an endpoint takes nodes down; a punch request
      crosses controller and stream.
    - The tunnel (C40): any interleaving of reads, writes and [Close] uses the session only
      while it is open, and [Close] comes to its end.

    Some theorems state a defect: they show what the code does in a case where that is not
    what it means to do.

    ** Bounds and fuel

    The allocator's scan ([Ipam.next_free]) has as much fuel as addresses are taken: the code's
    loop leaves it after at most that many steps, since each step passes a taken address
    ([Ipam.next_free_ends]).  [Retry] bounds the retries by the code's own constant.  The
    termination of [Close] and of the controller's process is by a count of the turns that are
    left.  Nothing else is bounded: pools, queues, heaps
    and traces are of any size, the queues with the code's capacities.

    ** Not modelled

    What only hands calls on: gorm's migration, the gateway's routing; the format of the log
    and embedded files; the goroutine that logs the pools' counters, and the texts of headers
    and errors nobody prints.  The parsing of a command line is cobra's.
    A handler of the controller and a program of a peer run in one
    piece except where Streams, WinTun and the goroutines of NodePeer take them apart, so data
    races on single fields are not covered; nor is the memory behind slices shared between
    goroutines. *)

From stdpp Require Export base gmap list strings numbers tactics.
From Stdlib Require Export ZArith Lia.
#[global] Open Scope Z_scope.

(** ** Record update

    [r <| field := v |>] rebuilds a record with one field replaced.  A record type opts
    in by an instance of [Rebuild]: the identity written field by field. *)

Class Rebuild (R : Type) := mkRebuild { rebuild : R -> R }.
Class FieldUpd {R T : Type} (proj : R -> T) := mkFieldUpd { field_upd : (T -> T) -> R -> R }.
Arguments field_upd {R T} proj {_} _ _ /.

Ltac solve_field_upd :=
  lazymatch goal with
  | |- @FieldUpd ?R ?T ?proj =>
      let body := eval hnf in (@rebuild R _) in
      lazymatch eval pattern proj in body with
      | ?g _ => exact (mkFieldUpd R T proj (fun h r => ltac:(let t := eval cbv beta in (g (fun r' => h (proj r')) r) in exact t)))
      end
  end.

#[export] Hint Extern 1 (FieldUpd _) => solve_field_upd : typeclass_instances.

Notation "r <| p := v |>" := (field_upd p (fun _ => v) r)
  (at level 1, left associativity, v at level 99, format "r  <| p  :=  v |>").
Notation "r <| p ::= f |>" := (field_upd p f r)
  (at level 1, left associativity, f at level 99, format "r  <| p  ::=  f |>").

(** ** Results and outcomes

    A Go function that returns [(value, error)] returns a [result]; the error is the text
    or status the code builds.  A handler that reads and writes state is a [go S A]: it
    finishes with a value, crashes the process (a panic or a fatal runtime error) or
    blocks (a lock that is held, a channel with nobody at the other end).  The state at
    the point of the crash or of the block is kept. *)

Inductive result (E A : Type) : Type :=
| Ok (a : A)
| Err (e : E).
Arguments Ok {E A} a.
Arguments Err {E A} e.

#[export] Instance result_ret {E} : MRet (result E) := @Ok E.
#[export] Instance result_bind {E} : MBind (result E) := fun A B f r =>
  match r with Ok a => f a | Err e => Err e end.
#[export] Instance result_eq_dec {E A} `{EqDecision E, EqDecision A} : EqDecision (result E A).
Proof. solve_decision. Defined.

Inductive crash : Type :=
| NilDeref
| PanicWith (msg : string)
| SendOnClosed
| CloseOfClosed
| UnlockOfUnlocked
| SliceOutOfRange
| IndexOutOfRange.
#[export] Instance crash_eq_dec : EqDecision crash.
Proof. solve_decision. Defined.

(** [WaitForever] is a loop that does not end. *)
Inductive wait : Type := WaitLock | WaitChan | WaitGroup | WaitForever.
#[export] Instance wait_eq_dec : EqDecision wait.
Proof. solve_decision. Defined.

Inductive outcome (S A : Type) : Type :=
| Done (a : A) (s : S)
| Crash (c : crash) (s : S)
| Blocked (w : wait) (s : S).
Arguments Done {S A} a s.
Arguments Crash {S A} c s.
Arguments Blocked {S A} w s.

Definition go (S A : Type) : Type := S -> outcome S A.

#[export] Instance go_ret {S} : MRet (go S) := fun A a s => Done a s.
#[export] Instance go_bind {S} : MBind (go S) := fun A B f m s =>
  match m s with
  | Done a s' => f a s'
  | Crash c s' => Crash c s'
  | Blocked w s' => Blocked w s'
  end.

Definition reads {S A} (f : S -> A) : go S A := fun s => Done (f s) s.
Definition modify {S} (f : S -> S) : go S unit := fun s => Done tt (f s).
Definition panic {S A} (c : crash) : go S A := fun s => Crash c s.
Definition block {S A} (w : wait) : go S A := fun s => Blocked w s.
Definition when {S} (b : bool) (m : go S unit) : go S unit := if b then m else mret tt.

(** [holds m s Q]: if [m] finishes from [s], its value and state satisfy [Q].
    [ends m s Q]: [m] does finish from [s], and they do. *)
Definition holds {S A} (m : go S A) (s : S) (Q : A -> S -> Prop) : Prop :=
  match m s with Done a s' => Q a s' | _ => True end.
Definition ends {S A} (m : go S A) (s : S) (Q : A -> S -> Prop) : Prop :=
  match m s with Done a s' => Q a s' | _ => False end.
(** [crashes m s c]: [m] takes the process down from [s], for the reason [c]. *)
Definition crashes {S A} (m : go S A) (s : S) (c : crash) : Prop :=
  match m s with Crash c' _ => c' = c | _ => False end.

(** The value of a run that finishes, for concrete runs. *)
Definition out_val {S A} (o : outcome S A) : option A :=
  match o with Done a _ => Some a | _ => None end.
Lemma out_val_inv {S A} (o : outcome S A) a : out_val o = Some a -> exists s, o = Done a s.
Proof. destruct o; cbn; [intros [= ->]; eauto|done..]. Qed.
(** [run m s a] names the final state of the closed run of [m] from [s], which ends with [a]. *)
Tactic Notation "run_of" constr(o) "to" constr(a) "as" ident(s) ident(E) :=
  let K := fresh in
  assert (K : out_val o = Some a) by (vm_compute; reflexivity);
  apply out_val_inv in K as [s E].

(** The state a run leaves, however it ends. *)
Definition final {S A} (m : go S A) (s : S) : S := match m s with Done _ s' | Crash _ s' | Blocked _ s' => s' end.
Lemma final_run {S A} (m : go S A) (s : S) a : out_val (m s) = Some a -> m s = Done a (final m s).
Proof. unfold final. by destruct (m s); intros [= ->]. Qed.

Section outcome_lemmas.
Context {S : Type}.

Lemma bind_done {A B} (m : go S A) (f : A -> go S B) s a s' :
  m s = Done a s' -> (m ≫= f) s = f a s'.
Proof. intros H. unfold mbind, go_bind. by rewrite H. Qed.

Lemma bind_crash {A B} (m : go S A) (f : A -> go S B) s c s' :
  m s = Crash c s' -> (m ≫= f) s = Crash c s'.
Proof. intros H. unfold mbind, go_bind. by rewrite H. Qed.

Lemma bind_done_inv {A B} (m : go S A) (f : A -> go S B) s b s'' :
  (m ≫= f) s = Done b s'' -> exists a s', m s = Done a s' /\ f a s' = Done b s''.
Proof. unfold mbind, go_bind. destruct (m s); naive_solver. Qed.

Lemma holds_bind {A B} (m : go S A) (f : A -> go S B) s Q :
  holds m s (fun a s' => holds (f a) s' Q) -> holds (m ≫= f) s Q.
Proof. unfold holds, mbind, go_bind. by destruct (m s). Qed.

Lemma holds_mono {A} (m : go S A) s (P Q : A -> S -> Prop) :
  (forall a s', P a s' -> Q a s') -> holds m s P -> holds m s Q.
Proof. unfold holds. destruct (m s); naive_solver. Qed.

Lemma ends_bind {A B} (m : go S A) (f : A -> go S B) s Q :
  ends m s (fun a s' => ends (f a) s' Q) -> ends (m ≫= f) s Q.
Proof. unfold ends, mbind, go_bind. by destruct (m s). Qed.

Lemma ends_holds {A} (m : go S A) s Q : ends m s Q -> holds m s Q.
Proof. unfold ends, holds. by destruct (m s). Qed.

Lemma holds_and {A} (m : go S A) s (P Q : A -> S -> Prop) :
  holds m s P -> holds m s Q -> holds m s (fun a s' => P a s' /\ Q a s').
Proof. unfold holds. destruct (m s); naive_solver. Qed.
End outcome_lemmas.

Create HintDb zeronet.
Create Rewrite HintDb zeronet.
#[export] Hint Resolve holds_bind ends_bind ends_holds : zeronet.

(** Closes a closed arithmetic or equational side condition by evaluation. *)
Ltac by_compute := vm_compute; repeat split; congruence.

(** ** Machine integers *)

Definition u8 (x : Z) : Prop := 0 <= x < 2 ^ 8.
Definition u16 (x : Z) : Prop := 0 <= x < 2 ^ 16.
Definition u32 (x : Z) : Prop := 0 <= x < 2 ^ 32.
Definition u64 (x : Z) : Prop := 0 <= x < 2 ^ 64.
(** Addition at width 64, as [atomic.Uint64.Add] does it. *)
Definition add64 (x y : Z) : Z := (x + y) mod 2 ^ 64.

Lemma add64_u64 x y : u64 (add64 x y).
Proof. unfold u64, add64. apply Z.mod_pos_bound. lia. Qed.
Lemma add64_small x y : 0 <= x + y < 2 ^ 64 -> add64 x y = x + y.
Proof. apply Z.mod_small. Qed.
(** [Add(^uint64(0))] is a decrement. *)
Lemma add64_pred x : u64 x -> 0 < x -> add64 x (2 ^ 64 - 1) = x - 1.
Proof.
  unfold u64, add64. intros Hx Hp.
  replace (x + (2 ^ 64 - 1)) with (x - 1 + 1 * 2 ^ 64) by lia.
  rewrite Z.mod_add by lia. apply Z.mod_small. lia.
Qed.
Lemma add64_succ_pred x : u64 x -> add64 (add64 x 1) (2 ^ 64 - 1) = x.
Proof.
  unfold u64, add64. intros Hx. rewrite Z.add_mod_idemp_l by lia.
  replace (x + 1 + (2 ^ 64 - 1)) with (x + 1 * 2 ^ 64) by lia.
  rewrite Z.mod_add by lia. by apply Z.mod_small.
Qed.
#[export] Hint Resolve add64_u64 : zeronet.

(** ** Reachability of a step relation *)

Inductive reach {A} (R : A -> A -> Prop) (a : A) : A -> Prop :=
| reach_refl : reach R a a
| reach_step b c : reach R a b -> R b c -> reach R a c.

Lemma reach_invariant {A} (R : A -> A -> Prop) (I : A -> Prop) a b :
  I a -> (forall x y, I x -> R x y -> I y) -> reach R a b -> I b.
Proof. intros Ha Hpres Hr. induction Hr; eauto. Qed.
Lemma reach_trans {A} (R : A -> A -> Prop) a b c :
  reach R a b -> reach R b c -> reach R a c.
Proof. intros Hab Hbc. induction Hbc; [done|]. eapply reach_step; eauto. Qed.
#[export] Hint Constructors reach : zeronet.

(** ** Finite maps *)

Lemma gmap_alter_insert_ne {A} (m : gmap Z A) (f : A -> A) (i j : Z) (x : A) :
  i <> j -> alter f i (<[j := x]> m) = <[j := x]> (alter f i m).
Proof.
  intros Hij. apply map_eq. intros k. rewrite lookup_alter, !lookup_insert, lookup_alter.
  repeat case_decide; subst; done.
Qed.
