(* ===== verification/Bytes.v ===== *)
(** Byte sequences the way Go has them: bytes as integers below 256, big-endian words
    ([encoding/binary]) and slices, which are a window of a given length on an array that
    may reach further (the capacity). *)

From S2P Require Import Prelude.

(** ** Big-endian words *)

(** [be_bytes n v]: the [n] bytes of [v], most significant first. *)
Fixpoint be_bytes (n : nat) (v : Z) : list Z :=
  match n with
  | O => []
  | S n' => be_bytes n' (Z.shiftr v 8) ++ [Z.land v 255]
  end.

Definition be_word (bs : list Z) : Z :=
  foldl (fun acc b => Z.lor (Z.shiftl acc 8) b) 0 bs.

Lemma be_bytes_length n v : length (be_bytes n v) = n.
Proof. revert v. induction n; intros; simpl; [done|]. rewrite length_app, IHn. simpl. lia. Qed.

Lemma be_bytes_u8 n v : Forall u8 (be_bytes n v).
Proof.
  revert v. induction n; intros; simpl; [constructor|].
  apply Forall_app_2; [done|]. constructor; [|constructor].
  unfold u8. change 255 with (Z.ones 8). rewrite Z.land_ones by lia.
  apply Z.mod_pos_bound. lia.
Qed.

Lemma lor_shiftl_add a b : u8 b -> Z.lor (Z.shiftl a 8) b = a * 2 ^ 8 + b.
Proof.
  unfold u8. intros Hb. rewrite <- Z.shiftl_mul_pow2 by lia.
  symmetry. apply Z.add_nocarry_lor.
  apply Z.bits_inj'. intros i Hi. rewrite Z.land_spec, Z.bits_0.
  destruct (decide (i < 8)).
  - by rewrite Z.shiftl_spec_low by lia.
  - rewrite (Z.bits_above_log2 b i), andb_false_r; [done|lia|].
    destruct (decide (b = 0)) as [->|]; [simpl; lia|].
    apply Z.lt_le_trans with 8; [|lia]. apply Z.log2_lt_pow2; lia.
Qed.

Lemma be_word_snoc bs b : u8 b -> be_word (bs ++ [b]) = be_word bs * 2 ^ 8 + b.
Proof. intros Hb. unfold be_word. rewrite foldl_app. simpl. by apply lor_shiftl_add. Qed.

Lemma be_word_bytes n v : be_word (be_bytes n v) = v mod 2 ^ (8 * Z.of_nat n).
Proof.
  revert v. induction n as [|n IH]; intros v; [by rewrite Z.mod_1_r|].
  cbn [be_bytes]. change 255 with (Z.ones 8). rewrite Z.land_ones by lia.
  rewrite be_word_snoc by (unfold u8; apply Z.mod_pos_bound; lia).
  rewrite IH, Z.shiftr_div_pow2 by lia.
  replace (8 * Z.of_nat (S n)) with (8 + 8 * Z.of_nat n) by lia.
  rewrite Z.pow_add_r by lia.
  assert (0 < 2 ^ (8 * Z.of_nat n)) by (apply Z.pow_pos_nonneg; lia).
  rewrite Z.rem_mul_r by lia. ring.
Qed.

Lemma be_word_bytes_small n v :
  0 <= v < 2 ^ (8 * Z.of_nat n) -> be_word (be_bytes n v) = v.
Proof. intros Hv. rewrite be_word_bytes. by apply Z.mod_small. Qed.

Lemma be_word_bound bs : Forall u8 bs -> 0 <= be_word bs < 2 ^ (8 * Z.of_nat (length bs)).
Proof.
  induction bs as [|b bs IH] using rev_ind; intros Hbs; [done|].
  apply Forall_app in Hbs as [Hbs Hb]. rewrite Forall_singleton in Hb.
  rewrite be_word_snoc, length_app by done. simpl.
  replace (8 * Z.of_nat (length bs + 1)) with (8 * Z.of_nat (length bs) + 8) by lia.
  rewrite Z.pow_add_r by lia. specialize (IH Hbs). unfold u8 in Hb. nia.
Qed.

Lemma be_bytes_word bs : Forall u8 bs -> be_bytes (length bs) (be_word bs) = bs.
Proof.
  induction bs as [|b bs IH] using rev_ind; intros Hbs; [done|].
  apply Forall_app in Hbs as [Hbs Hb]. rewrite Forall_singleton in Hb.
  rewrite length_app, Nat.add_comm, be_word_snoc by done. cbn [length Nat.add be_bytes].
  change 255 with (Z.ones 8). rewrite Z.land_ones, Z.shiftr_div_pow2 by lia.
  unfold u8 in Hb. rewrite Z.div_add_l, Z.div_small, Z.add_0_r, IH by (done || lia).
  do 2 f_equal. rewrite Z.add_comm, Z.mod_add by lia. by apply Z.mod_small.
Qed.

#[export] Hint Rewrite be_bytes_length : zeronet.
#[export] Hint Resolve be_bytes_u8 : zeronet.

(** ** Slices

    [s_arr] is the array from the first element of the slice to the end of its capacity;
    the slice's own elements are the first [s_len] of it.  The nil slice is the empty one
    with no capacity. *)

Record slice : Type := Slice { s_arr : list Z; s_len : nat }.
#[export] Instance slice_eq_dec : EqDecision slice.
Proof. solve_decision. Defined.

Definition slice_ok (b : slice) : Prop := (s_len b <= length (s_arr b))%nat.
Definition s_cap (b : slice) : Z := Z.of_nat (length (s_arr b)).
(** The elements of the slice. *)
Definition s_bytes (b : slice) : list Z := take (s_len b) (s_arr b).
Definition nil_slice : slice := Slice [] 0.
Definition make_slice (n : nat) : slice := Slice (replicate n 0) n.
Definition of_bytes (bs : list Z) : slice := Slice bs (length bs).

(** [b[lo:hi]]: the bounds are checked against the capacity; [None] is the run-time panic. *)
Definition reslice (b : slice) (lo hi : Z) : option slice :=
  if decide (0 <= lo /\ lo <= hi /\ hi <= s_cap b)
  then Some (Slice (drop (Z.to_nat lo) (s_arr b)) (Z.to_nat (hi - lo)))
  else None.

(** [clear(b)] zeroes the slice's elements, not the rest of the array. *)
Definition clear (b : slice) : slice :=
  Slice (replicate (s_len b) 0 ++ drop (s_len b) (s_arr b)) (s_len b).

(** Writing [bs] at offset [off] of the array. *)
Definition put_at (off : nat) (bs arr : list Z) : list Z :=
  take off arr ++ bs ++ drop (off + length bs) arr.

Lemma put_at_length off bs arr :
  (off + length bs <= length arr)%nat -> length (put_at off bs arr) = length arr.
Proof. intros H. unfold put_at. rewrite !length_app, length_take, length_drop. lia. Qed.

Lemma clear_make n : clear (make_slice n) = make_slice n.
Proof.
  unfold clear, make_slice. simpl. f_equal. rewrite drop_ge; [apply app_nil_r|].
  by rewrite length_replicate.
Qed.

Lemma clear_full b : s_len b = length (s_arr b) -> clear b = make_slice (s_len b).
Proof. intros H. unfold clear, make_slice. rewrite drop_ge by lia. by rewrite app_nil_r. Qed.
