(* ===== verification/Header.v ===== *)
(** The 16-byte wire header of every overlay datagram: pkg/header/header.go. *)

From S2P Require Import Prelude Bytes.

(** ** Constants *)

Definition HeaderVersion : Z := 1.
Definition HeaderLen : Z := 16.
Definition HeaderPadding : Z := 0xfeed.

(** Message types; the code's names clash with other identifiers, hence the prefix. *)
Definition MsgNone : Z := 0.
Definition MsgHandshake : Z := 1.
Definition MsgData : Z := 2.
Definition MsgReset : Z := 3.
Definition MsgRekey : Z := 4.
Definition MsgClose : Z := 5.
Definition MsgDiscovery : Z := 6.
Definition MsgPunch : Z := 0xff.

Record Header : Type := mkHeader {
  Version : Z;
  MsgType : Z;
  SenderIndex : Z;
  Counter : Z;
  Padding : Z
}.
#[export] Instance Header_eq_dec : EqDecision Header.
Proof. solve_decision. Defined.
#[export] Instance Header_rebuild : Rebuild Header := {| rebuild := fun h =>
  mkHeader (Version h) (MsgType h) (SenderIndex h) (Counter h) (Padding h) |}.

(** The fields have Go's widths. *)
Definition header_ok (h : Header) : Prop :=
  u8 (Version h) /\ u8 (MsgType h) /\ u32 (SenderIndex h) /\ u64 (Counter h) /\ u16 (Padding h).

Definition NewHeader : Header := mkHeader 0 0 0 0 0.

Definition Reset (h : Header) : Header :=
  h <| Version := HeaderVersion |> <| MsgType := 0 |> <| SenderIndex := 0 |>
    <| Counter := 0 |> <| Padding := HeaderPadding |>.

(** ** Encoding

    [None] for the slice is the panic of [b[:HeaderLen]]; [Encode] excludes it. *)

Definition encodeToSlice (b : slice) (h : Header) : option slice :=
  b ← reslice b 0 HeaderLen;
  let arr := put_at 0 [Version h] (s_arr b) in
  let arr := put_at 1 [MsgType h] arr in
  let arr := put_at 2 (be_bytes 4 (SenderIndex h)) arr in
  let arr := put_at 6 (be_bytes 8 (Counter h)) arr in
  let arr := put_at 14 (be_bytes 2 (Padding h)) arr in
  Some (Slice arr (s_len b)).

(** A method on [*Header]: the receiver may be nil.  The receiver after the call, and the
    slice or the error. *)
Definition Encode (h : option Header) (b : slice) (t index counter : Z) :
    option Header * result string slice :=
  match h with
  | None => (None, Err "header cannot be nil")
  | Some h =>
      if bool_decide (s_cap b < HeaderLen)
      then (Some h, Err "slice capacity too small to encode header")
      else
        let h := h <| Version := HeaderVersion |> <| MsgType := t |>
                   <| SenderIndex := index |> <| Counter := counter |>
                   <| Padding := HeaderPadding |> in
        match encodeToSlice b h with
        | Some out => (Some h, Ok out)
        | None => (Some h, Err "slice bounds out of range")
        end
  end.

(** ** Parsing

    The receiver's fields are overwritten before the version and the padding are checked,
    so a failed parse leaves them with the datagram's values. *)

Definition bytes_at (off n : nat) (bs : list Z) : list Z := take n (drop off bs).

Definition Parse (h : option Header) (b : slice) : option Header * option string :=
  match h with
  | None => (None, Some "header cannot be nil")
  | Some h =>
      if bool_decide (Z.of_nat (s_len b) < HeaderLen)
      then (Some h, Some "header length too short")
      else
        let bs := s_bytes b in
        let h := h <| Version := be_word (bytes_at 0 1 bs) |>
                   <| MsgType := be_word (bytes_at 1 1 bs) |>
                   <| SenderIndex := be_word (bytes_at 2 4 bs) |>
                   <| Counter := be_word (bytes_at 6 8 bs) |>
                   <| Padding := be_word (bytes_at 14 2 bs) |> in
        if bool_decide (Version h <> HeaderVersion)
        then (Some h, Some "header version mismatch")
        else if bool_decide (Padding h <> HeaderPadding)
        then (Some h, Some "padding invalid, malformed header")
        else (Some h, None)
  end.

(** ** The layout

    The 16 bytes a header is written as, which the encoder and the parser agree on. *)

Definition header_bytes (h : Header) : list Z :=
  [Version h; MsgType h] ++ be_bytes 4 (SenderIndex h) ++ be_bytes 8 (Counter h)
  ++ be_bytes 2 (Padding h).

Lemma header_bytes_length h : length (header_bytes h) = 16%nat.
Proof. unfold header_bytes. rewrite !length_app, !be_bytes_length. done. Qed.

Lemma header_bytes_u8 h : header_ok h -> Forall u8 (header_bytes h).
Proof.
  intros (Hv & Ht & _). unfold header_bytes. rewrite !Forall_app.
  repeat split; auto with zeronet.
Qed.

Lemma encodeToSlice_layout b h :
  HeaderLen <= s_cap b ->
  encodeToSlice b h = Some (Slice (header_bytes h ++ drop 16 (s_arr b)) 16).
Proof.
  unfold encodeToSlice, s_cap, HeaderLen. intros Hcap. unfold reslice, s_cap.
  rewrite decide_True by lia. cbn [mbind option_bind s_arr s_len].
  destruct b as [arr len]. cbn [s_arr] in *. change (Z.to_nat 0) with 0%nat. rewrite drop_0.
  f_equal. f_equal.
  do 16 (destruct arr as [|? arr]; [simpl in Hcap; lia|]).
  unfold put_at, header_bytes. rewrite !be_bytes_length. cbn. done.
Qed.

Lemma Encode_ok h b t i c :
  HeaderLen <= s_cap b ->
  let h' := mkHeader HeaderVersion t i c HeaderPadding in
  Encode (Some h) b t i c
  = (Some h', Ok (Slice (header_bytes h' ++ drop 16 (s_arr b)) 16)).
Proof.
  intros Hcap h'. unfold Encode. rewrite bool_decide_false by lia.
  rewrite encodeToSlice_layout by done. done.
Qed.

(** ** Lemmas on the parser *)

Lemma bytes_at_u8 off n bs : Forall u8 bs -> Forall u8 (bytes_at off n bs).
Proof. intros H. unfold bytes_at. apply Forall_take, Forall_drop, H. Qed.

Lemma bytes_at_length off n bs :
  (off + n <= length bs)%nat -> length (bytes_at off n bs) = n.
Proof. intros H. unfold bytes_at. rewrite length_take, length_drop. lia. Qed.

Lemma be_bytes_bytes_at off n bs :
  (off + n <= length bs)%nat -> Forall u8 bs ->
  be_bytes n (be_word (bytes_at off n bs)) = bytes_at off n bs.
Proof.
  intros Hlen Hbs. rewrite <- (bytes_at_length off n bs) at 1 by done.
  apply be_bytes_word, bytes_at_u8, Hbs.
Qed.

Lemma be_word_bytes_at_bound off n bs :
  (off + n <= length bs)%nat -> Forall u8 bs ->
  0 <= be_word (bytes_at off n bs) < 2 ^ (8 * Z.of_nat n).
Proof.
  intros Hlen Hbs. rewrite <- (bytes_at_length off n bs) at 3 by done.
  apply be_word_bound, bytes_at_u8, Hbs.
Qed.

Lemma bytes_at_1 off bs :
  (off < length bs)%nat -> Forall u8 bs -> [be_word (bytes_at off 1 bs)] = bytes_at off 1 bs.
Proof.
  intros Hlen Hbs. pose proof (bytes_at_length off 1 bs ltac:(lia)) as L.
  pose proof (bytes_at_u8 off 1 bs Hbs) as U.
  destruct (bytes_at off 1 bs) as [|x [|]]; [done| |done].
  unfold be_word. simpl. rewrite Z.shiftl_0_l. done.
Qed.

(** The header a datagram spells, without the checks. *)
Definition header_of (bs : list Z) : Header :=
  mkHeader (be_word (bytes_at 0 1 bs)) (be_word (bytes_at 1 1 bs))
    (be_word (bytes_at 2 4 bs)) (be_word (bytes_at 6 8 bs)) (be_word (bytes_at 14 2 bs)).

Lemma header_of_ok bs : (16 <= length bs)%nat -> Forall u8 bs -> header_ok (header_of bs).
Proof.
  intros Hlen Hbs. unfold header_ok, u8, u16, u32, u64; cbn [header_of Version MsgType
    SenderIndex Counter Padding].
  pose proof (be_word_bytes_at_bound 0 1 bs ltac:(lia) Hbs).
  pose proof (be_word_bytes_at_bound 1 1 bs ltac:(lia) Hbs).
  pose proof (be_word_bytes_at_bound 2 4 bs ltac:(lia) Hbs).
  pose proof (be_word_bytes_at_bound 6 8 bs ltac:(lia) Hbs).
  pose proof (be_word_bytes_at_bound 14 2 bs ltac:(lia) Hbs).
  cbn in *. lia.
Qed.

Lemma header_of_layout bs :
  (16 <= length bs)%nat -> Forall u8 bs -> header_bytes (header_of bs) = take 16 bs.
Proof.
  intros Hlen Hbs. unfold header_bytes. cbn [header_of Version MsgType SenderIndex Counter Padding].
  change ([be_word (bytes_at 0 1 bs); be_word (bytes_at 1 1 bs)])
    with ([be_word (bytes_at 0 1 bs)] ++ [be_word (bytes_at 1 1 bs)]).
  rewrite !bytes_at_1, !be_bytes_bytes_at by (done || lia).
  do 16 (destruct bs as [|? bs]; [simpl in Hlen; lia|]). done.
Qed.

Lemma header_of_header_bytes h rest : header_ok h -> header_of (header_bytes h ++ rest) = h.
Proof.
  intros (Hv & Ht & Hs & Hc & Hp). unfold header_of, header_bytes, bytes_at.
  rewrite <- !app_assoc. cbn [app drop take].
  pose proof (be_bytes_length 4 (SenderIndex h)) as L4.
  pose proof (be_bytes_length 8 (Counter h)) as L8.
  pose proof (be_bytes_length 2 (Padding h)) as L2.
  rewrite take_0, drop_0, take_app_le, (take_ge (be_bytes 4 _)) by lia.
  rewrite (drop_app_ge _ _ 4) by lia. rewrite L4.
  rewrite (drop_app_ge _ _ 12) by lia. rewrite L4.
  rewrite (drop_app_ge _ _ (12 - 4)) by lia. rewrite L8. cbn [Nat.sub]. rewrite !drop_0.
  rewrite (take_app_le (be_bytes 8 _)), (take_ge (be_bytes 8 _)) by lia.
  rewrite (take_app_le (be_bytes 2 _)), (take_ge (be_bytes 2 _)) by lia.
  rewrite !be_word_bytes_small by assumption.
  unfold be_word. simpl. destruct h. simpl. f_equal.
Qed.

Lemma Parse_long g b :
  HeaderLen <= Z.of_nat (s_len b) ->
  Parse (Some g) b =
    let h := header_of (s_bytes b) in
    (Some h, if bool_decide (Version h <> HeaderVersion) then Some "header version mismatch"
             else if bool_decide (Padding h <> HeaderPadding)
             then Some "padding invalid, malformed header" else None).
Proof.
  intros Hlen. unfold Parse. rewrite bool_decide_false by lia. cbn.
  repeat case_bool_decide; done.
Qed.

Lemma Parse_accepts g b h :
  slice_ok b ->
  Parse (Some g) b = (Some h, None) <->
  HeaderLen <= Z.of_nat (s_len b) /\ h = header_of (s_bytes b) /\
  Version h = HeaderVersion /\ Padding h = HeaderPadding.
Proof.
  intros Hok. destruct (decide (HeaderLen <= Z.of_nat (s_len b))) as [Hlen|Hlen].
  - rewrite Parse_long by done. cbn zeta.
    repeat case_bool_decide; (split; [intros [= <-]|intros (_ & -> & ? & ?)]);
      first [done | by destruct_and? ].
  - unfold Parse. rewrite bool_decide_true by lia. split; [naive_solver|lia].
Qed.

#[export] Hint Resolve header_of_ok header_bytes_u8 : zeronet.
#[export] Hint Rewrite header_bytes_length : zeronet.

(** ** Properties *)

(** C1. Round trip of the wire format: whatever slice with room for a header the sender
    encodes into, and whatever payload follows, the receiver's parse of the datagram
    succeeds and returns exactly the type, index and counter that were sent, whatever its
    header object held before. *)
Theorem parse_encode_roundtrip (h g : Header) (b : slice) (t i c : Z) (payload : list Z)
    (Hcap : HeaderLen <= s_cap b) (Ht : u8 t) (Hi : u32 i) (Hc : u64 c) :
  exists h' out,
    Encode (Some h) b t i c = (Some h', Ok out) /\
    s_len out = 16%nat /\ drop 16 (s_arr out) = drop 16 (s_arr b) /\
    Parse (Some g) (of_bytes (s_bytes out ++ payload))
    = (Some (mkHeader HeaderVersion t i c HeaderPadding), None).
Proof.
  eexists _, _. split; [by apply Encode_ok|]. split_and!; [done| |].
  - cbn [s_arr]. rewrite drop_app_ge; rewrite header_bytes_length; [done|lia].
  - unfold s_bytes. cbn [s_arr s_len]. rewrite take_app_le by (rewrite header_bytes_length; lia).
    rewrite take_ge by (rewrite header_bytes_length; lia).
    apply Parse_accepts; [unfold slice_ok, of_bytes; simpl; lia|].
    unfold of_bytes at 1, s_bytes, of_bytes; cbn [s_len s_arr].
    rewrite length_app, header_bytes_length, take_ge by (rewrite ?length_app, ?header_bytes_length; lia).
    rewrite header_of_header_bytes by (unfold header_ok, u16; cbn; split_and!; done || lia).
    unfold HeaderLen. split_and!; (done || lia).
Qed.

Lemma parse_encode_roundtrip_witness :
  exists h' out,
    Encode (Some NewHeader) (make_slice 1600) MsgData 7 258 = (Some h', Ok out) /\
    s_len out = 16%nat /\ drop 16 (s_arr out) = drop 16 (s_arr (make_slice 1600)) /\
    Parse (Some NewHeader) (of_bytes (s_bytes out ++ [1; 2; 3]))
    = (Some (mkHeader HeaderVersion MsgData 7 258 HeaderPadding), None).
Proof.
  apply (parse_encode_roundtrip NewHeader NewHeader (make_slice 1600) MsgData 7 258 [1; 2; 3]);
    by_compute.
Defined.

(** C2. The parser accepts exactly the datagrams that start with the encoding of a header
    of this version and padding, and reports the header they encode: the format is
    canonical, no two accepted headers share a spelling. *)
Theorem parse_accepts_canonical (g h : Header) (b : slice)
    (Hok : slice_ok b) (Hbytes : Forall u8 (s_bytes b)) :
  Parse (Some g) b = (Some h, None) <->
  (take 16 (s_bytes b) = header_bytes h /\ header_ok h /\
   Version h = HeaderVersion /\ Padding h = HeaderPadding).
Proof.
  assert (Hlen : length (s_bytes b) = s_len b).
  { unfold s_bytes. rewrite length_take. unfold slice_ok in Hok. lia. }
  rewrite Parse_accepts by done. unfold HeaderLen. split.
  - intros (H16 & -> & Hv & Hp). split_and!; [|apply header_of_ok|..]; try (done || lia).
    rewrite header_of_layout; (done || lia).
  - intros (Ht & Hh & Hv & Hp).
    assert (16 <= length (s_bytes b))%nat.
    { pose proof (header_bytes_length h) as L. rewrite <- Ht, length_take in L. lia. }
    split_and!; [lia| |done..].
    rewrite <- (take_drop 16 (s_bytes b)), Ht. symmetry. by apply header_of_header_bytes.
Qed.

Lemma parse_accepts_canonical_witness :
  Parse (Some NewHeader) (of_bytes (header_bytes (mkHeader 1 2 7 9 0xfeed)))
    = (Some (mkHeader 1 2 7 9 0xfeed), None) <->
  (take 16 (s_bytes (of_bytes (header_bytes (mkHeader 1 2 7 9 0xfeed))))
     = header_bytes (mkHeader 1 2 7 9 0xfeed) /\ header_ok (mkHeader 1 2 7 9 0xfeed) /\
   Version (mkHeader 1 2 7 9 0xfeed) = HeaderVersion /\
   Padding (mkHeader 1 2 7 9 0xfeed) = HeaderPadding).
Proof.
  apply (parse_accepts_canonical NewHeader); [unfold slice_ok; vm_compute; lia|].
  repeat constructor; by_compute.
Defined.
