(* ===== verification/GoStd.v ===== *)
(** What the code uses of Go's [strings], [strconv] and of byte classes, on
    strings as byte sequences. *)

From S2P Require Import Prelude.
From Stdlib Require Export Ascii.
From Stdlib Require String.
#[global] Open Scope Z_scope.

Definition byte_val (c : ascii) : Z := Z.of_N (N_of_ascii c).
Definition byte_chr (z : Z) : ascii := ascii_of_N (Z.to_N z).

Definition between (lo hi : Z) (c : ascii) : bool :=
  bool_decide (lo <= byte_val c) && bool_decide (byte_val c <= hi).
(** '0'..'9', 'a'..'z', 'A'..'Z' and the underscore. *)
Definition is_digit (c : ascii) : bool := between 48 57 c.
Definition is_lower (c : ascii) : bool := between 97 122 c.
Definition is_upper (c : ascii) : bool := between 65 90 c.
Definition is_word (c : ascii) : bool :=
  is_digit c || is_lower c || is_upper c || bool_decide (byte_val c = 95).

Fixpoint str_forallb (f : ascii -> bool) (s : string) : bool :=
  match s with
  | EmptyString => true
  | String c s' => f c && str_forallb f s'
  end.

Definition str_len (s : string) : Z := Z.of_nat (String.length s).

(** The text after a prefix; [None] when the prefix is not there. *)
Fixpoint strip_prefix (p s : string) : option string :=
  match p, s with
  | EmptyString, _ => Some s
  | String c p', String d s' => if bool_decide (c = d) then strip_prefix p' s' else None
  | _, _ => None
  end.

(** [strings.Index]-style cut at the first occurrence of [sep]: the text before it and the
    text after it.  [strings.Cut] with a non-empty separator. *)
Fixpoint cut (sep s : string) : option (string * string) :=
  match strip_prefix sep s with
  | Some rest => Some (EmptyString, rest)
  | None =>
      match s with
      | EmptyString => None
      | String c s' => '(a, b) ← cut sep s'; Some (String c a, b)
      end
  end.

(** [strings.Split] for a non-empty separator: cut repeatedly. Each cut consumes at least one
    byte, so [length s] rounds suffice. *)
Fixpoint split_fuel (fuel : nat) (sep s : string) : list string :=
  match fuel with
  | O => [s]
  | S fuel' =>
      match cut sep s with
      | None => [s]
      | Some (a, b) => a :: split_fuel fuel' sep b
      end
  end.
Definition strings_Split (s sep : string) : list string := split_fuel (String.length s) sep s.

(** [strings.LastIndexByte]-style cut at the last occurrence of a byte. *)
Fixpoint cut_last (c : ascii) (s : string) : option (string * string) :=
  match s with
  | EmptyString => None
  | String d s' =>
      match cut_last c s' with
      | Some (a, b) => Some (String d a, b)
      | None => if bool_decide (d = c) then Some (EmptyString, s') else None
      end
  end.

(** ** Decimal numbers *)

Definition digit (d : Z) : ascii := byte_chr (48 + d).
Definition digit_val (c : ascii) : option Z :=
  if is_digit c then Some (byte_val c - 48) else None.

(** [strconv.Itoa] on a natural number; a number below [10^fuel] has at most [fuel] digits. *)
Fixpoint itoa_fuel (fuel : nat) (n : Z) (acc : string) : string :=
  match fuel with
  | O => acc
  | S fuel' =>
      if bool_decide (n < 10) then String (digit n) acc
      else itoa_fuel fuel' (n / 10) (String (digit (n mod 10)) acc)
  end.
Definition itoa (n : Z) : string := itoa_fuel 20 n EmptyString.

(** [strconv.Atoi] on unsigned decimal text. *)
Fixpoint atoi_acc (s : string) (acc : Z) : option Z :=
  match s with
  | EmptyString => Some acc
  | String c s' => d ← digit_val c; atoi_acc s' (10 * acc + d)
  end.
Definition atoi (s : string) : option Z :=
  match s with EmptyString => None | _ => atoi_acc s 0 end.

Definition hex_digit (d : Z) : ascii := if bool_decide (d < 10) then digit d else byte_chr (87 + d).
Definition hex_val (c : ascii) : option Z :=
  if is_digit c then Some (byte_val c - 48)
  else if between 97 102 c then Some (byte_val c - 87)
  else if between 65 70 c then Some (byte_val c - 55)
  else None.

Lemma byte_val_chr z : 0 <= z < 256 -> byte_val (byte_chr z) = z.
Proof. intros Hz. unfold byte_val, byte_chr. rewrite N_ascii_embedding by lia. lia. Qed.

Lemma digit_val_digit d : 0 <= d < 10 -> digit_val (digit d) = Some d.
Proof.
  intros Hd. unfold digit_val, is_digit, between, digit.
  rewrite byte_val_chr by lia. rewrite !bool_decide_true by lia. simpl. f_equal. lia.
Qed.

Lemma digit_is_digit d : 0 <= d < 10 -> is_digit (digit d) = true.
Proof.
  intros Hd. unfold is_digit, between, digit. rewrite byte_val_chr by lia.
  by rewrite !bool_decide_true by lia.
Qed.

Lemma itoa_1 n : 0 <= n < 10 -> itoa n = String (digit n) EmptyString.
Proof. intros Hn. unfold itoa. cbn [itoa_fuel]. by rewrite bool_decide_true by lia. Qed.
Lemma itoa_2 n :
  10 <= n < 100 -> itoa n = String (digit (n / 10)) (String (digit (n mod 10)) EmptyString).
Proof.
  intros Hn. unfold itoa. cbn [itoa_fuel]. rewrite bool_decide_false by lia.
  rewrite bool_decide_true; [done|]. apply Z.div_lt_upper_bound; lia.
Qed.
Lemma itoa_3 n :
  100 <= n < 1000 ->
  itoa n = String (digit (n / 100)) (String (digit (n / 10 mod 10))
             (String (digit (n mod 10)) EmptyString)).
Proof.
  intros Hn. unfold itoa. cbn [itoa_fuel]. rewrite bool_decide_false by lia.
  assert (10 <= n / 10 < 100).
  { split; [apply Z.div_le_lower_bound|apply Z.div_lt_upper_bound]; lia. }
  rewrite bool_decide_false by lia. rewrite Z.div_div by lia.
  rewrite bool_decide_true; [done|]. apply Z.div_lt_upper_bound; lia.
Qed.


Lemma str_app_cons c s r : (String c s +:+ r)%string = String c (s +:+ r).
Proof. done. Qed.
Lemma str_app_nil_l r : ("" +:+ r)%string = r.
Proof. done. Qed.
Lemma str_app_nil_r s : (s +:+ "")%string = s.
Proof. induction s as [|c s IH]; [done|]. by rewrite str_app_cons, IH. Qed.
Lemma str_app_assoc a b c : ((a +:+ b) +:+ c)%string = (a +:+ (b +:+ c))%string.
Proof. induction a as [|x a IH]; [done|]. by rewrite !str_app_cons, IH. Qed.

Example split_bearer : strings_Split "Bearer abc" "Bearer " = [""; "abc"]%string.
Proof. reflexivity. Qed.
Example split_none : strings_Split "abc" "Bearer " = ["abc"]%string.
Proof. reflexivity. Qed.
