(* ===== verification/Netip.v ===== *)
(** Go's [net/netip] and the part of [net] the code uses: addresses, prefixes, their text
    and [net.UDPAddr].  IPv4 and IPv6 are both modelled; the round trip through text is
    proved for IPv4, which is what the overlay's own addresses are. *)

From S2P Require Import Prelude Bytes GoStd.

(** ** Addresses *)

(** [netip.Addr]: the zero value, an IPv4 address, or an IPv6 address with its zone. *)
Inductive Addr : Type :=
| AddrZero
| Addr4 (n : Z)
| Addr6 (n : Z) (zone : string).
#[export] Instance Addr_eq_dec : EqDecision Addr.
Proof. solve_decision. Defined.
#[export] Instance Addr_countable : Countable Addr.
Proof.
  refine (inj_countable'
    (fun a => match a with AddrZero => inl () | Addr4 n => inr (inl n) | Addr6 n z => inr (inr (n, z)) end)
    (fun c => match c with inl _ => AddrZero | inr (inl n) => Addr4 n | inr (inr (n, z)) => Addr6 n z end) _).
  by intros [].
Defined.

Definition addr_ok (a : Addr) : Prop :=
  match a with
  | AddrZero => False
  | Addr4 n => u32 n
  | Addr6 n _ => 0 <= n < 2 ^ 128
  end.
Definition has_zone (a : Addr) : bool :=
  match a with Addr6 _ z => bool_decide (z <> ""%string) | _ => false end.
Definition BitLen (a : Addr) : Z :=
  match a with AddrZero => 0 | Addr4 _ => 32 | Addr6 _ _ => 128 end.
Definition addr_num (a : Addr) : Z :=
  match a with AddrZero => 0 | Addr4 n => n | Addr6 n _ => n end.

(** [Addr.Next]: the following address; the zero [Addr] after the last one. *)
Definition Next (a : Addr) : Addr :=
  match a with
  | AddrZero => AddrZero
  | Addr4 n => if bool_decide (n = 2 ^ 32 - 1) then AddrZero else Addr4 (n + 1)
  | Addr6 n z => if bool_decide (n = 2 ^ 128 - 1) then AddrZero else Addr6 (n + 1) z
  end.

(** [Addr.Compare]: bit length first, then the number, then the zone; 0 exactly on equal
    addresses. *)
Definition str_compare (a b : string) : Z :=
  match String.compare a b with Eq => 0 | Lt => -1 | Gt => 1 end.
Definition z_compare (a b : Z) : Z :=
  match Z.compare a b with Eq => 0 | Lt => -1 | Gt => 1 end.
Definition zone_of (a : Addr) : string := match a with Addr6 _ z => z | _ => ""%string end.
Definition AddrCompare (a b : Addr) : Z :=
  let c := z_compare (BitLen a) (BitLen b) in
  if bool_decide (c <> 0) then c
  else
    let c := z_compare (addr_num a) (addr_num b) in
    if bool_decide (c <> 0) then c else str_compare (zone_of a) (zone_of b).

Lemma z_compare_0 a b : z_compare a b = 0 <-> a = b.
Proof. unfold z_compare. destruct (Z.compare_spec a b); lia. Qed.
Lemma str_compare_0 a b : str_compare a b = 0 <-> a = b.
Proof.
  unfold str_compare. split.
  - intros H. apply String.compare_eq_iff. by destruct (String.compare a b).
  - intros ->. pose proof (String.compare_antisym b b) as H. by destruct (String.compare b b).
Qed.
Lemma AddrCompare_eq a b : AddrCompare a b = 0 <-> a = b.
Proof.
  unfold AddrCompare. cbn zeta. split.
  - repeat case_bool_decide; intros H1; try done.
    rewrite z_compare_0 in H, H0. rewrite str_compare_0 in H1.
    destruct a, b; cbn in *; simplify_eq; done.
  - intros ->. rewrite !(proj2 (z_compare_0 _ _)) by done. cbn. by apply str_compare_0.
Qed.

(** [AddrFromSlice] and [AsSlice]: 4 or 16 bytes. *)
Definition AddrFromSlice (bs : list Z) : Addr :=
  if bool_decide (length bs = 4%nat) then Addr4 (be_word bs)
  else if bool_decide (length bs = 16%nat) then Addr6 (be_word bs) ""
  else AddrZero.
Definition AsSlice (a : Addr) : list Z :=
  match a with
  | AddrZero => []
  | Addr4 n => be_bytes 4 n
  | Addr6 n _ => be_bytes 16 n
  end.

Lemma AddrFromSlice_AsSlice4 n : u32 n -> AddrFromSlice (AsSlice (Addr4 n)) = Addr4 n.
Proof.
  intros Hn. unfold AddrFromSlice, AsSlice. rewrite be_bytes_length, bool_decide_true by done.
  by rewrite be_word_bytes_small.
Qed.

(** ** Prefixes *)

(** [netip.Prefix]; a negative [bits] marks the invalid prefix. *)
Record Prefix : Type := mkPrefix { p_addr : Addr; p_bits : Z }.
#[export] Instance Prefix_eq_dec : EqDecision Prefix.
Proof. solve_decision. Defined.

Definition prefix_ok (p : Prefix) : Prop :=
  addr_ok (p_addr p) /\ has_zone (p_addr p) = false /\ 0 <= p_bits p <= BitLen (p_addr p).
(** The number of addresses a prefix spans. *)
Definition prefix_size (p : Prefix) : Z := 2 ^ (BitLen (p_addr p) - p_bits p).

(** [Prefix.Masked]: the host bits cleared; the zero prefix for an invalid one. *)
Definition mask_num (n len bits : Z) : Z := Z.shiftl (Z.shiftr n (len - bits)) (len - bits).
Definition Masked (p : Prefix) : Prefix :=
  if bool_decide (0 <= p_bits p <= BitLen (p_addr p)) then
    match p_addr p with
    | AddrZero => mkPrefix AddrZero (-1)
    | Addr4 n => mkPrefix (Addr4 (mask_num n 32 (p_bits p))) (p_bits p)
    | Addr6 n _ => mkPrefix (Addr6 (mask_num n 128 (p_bits p)) "") (p_bits p)
    end
  else mkPrefix AddrZero (-1).

(** [Prefix.Contains]: same family, no zone, and the same leading bits. *)
Definition Contains (p : Prefix) (a : Addr) : bool :=
  match p_addr p, a with
  | Addr4 n, Addr4 m =>
      bool_decide (0 <= p_bits p <= 32) &&
      bool_decide (Z.shiftr (Z.lxor m n) (32 - p_bits p) = 0)
  | Addr6 n _, Addr6 m z =>
      bool_decide (0 <= p_bits p <= 128) && bool_decide (z = ""%string) &&
      bool_decide (Z.shiftr (Z.lxor m n) (128 - p_bits p) = 0)
  | _, _ => false
  end.

(** ** Text of an address *)

Definition addr4_octets (n : Z) : list Z := be_bytes 4 n.
Definition string4 (n : Z) : string :=
  match addr4_octets n with
  | [a; b; c; d] => itoa a +:+ "." +:+ itoa b +:+ "." +:+ itoa c +:+ "." +:+ itoa d
  | _ => ""
  end.

Definition appendHex (x : Z) : string :=
  (if bool_decide (0x1000 <= x) then String (hex_digit (Z.shiftr x 12)) "" else "") +:+
  (if bool_decide (0x100 <= x) then String (hex_digit (Z.land (Z.shiftr x 8) 15)) "" else "") +:+
  (if bool_decide (0x10 <= x) then String (hex_digit (Z.land (Z.shiftr x 4) 15)) "" else "") +:+
  String (hex_digit (Z.land x 15)) "".

(** The groups of an IPv6 address, and the longest run of at least two zero groups, the
    first of the longest ones. *)
Definition v6_groups (n : Z) : list Z := (fun i => Z.land (Z.shiftr n (112 - 16 * i)) 0xffff) <$> [0;1;2;3;4;5;6;7].
Fixpoint zero_run (gs : list Z) : nat :=
  match gs with g :: gs' => if bool_decide (g = 0) then S (zero_run gs') else O | [] => O end.
Fixpoint best_run (i : nat) (gs : list Z) (best : nat * nat) : nat * nat :=
  match gs with
  | [] => best
  | _ :: gs' =>
      let l := zero_run gs in
      best_run (S i) gs'
        (if bool_decide (2 <= l)%nat && bool_decide (best.2 < l)%nat then (i, l) else best)
  end.
Definition join_groups (gs : list Z) : string := String.concat ":" (appendHex <$> gs).
Definition string6 (n : Z) : string :=
  let gs := v6_groups n in
  let '(st, len) := best_run 0 gs (0, 0)%nat in
  if bool_decide (len = 0%nat) then join_groups gs
  else join_groups (take st gs) +:+ "::" +:+ join_groups (drop (st + len) gs).

Definition addr_string (a : Addr) : string :=
  match a with
  | AddrZero => "invalid IP"
  | Addr4 n => string4 n
  | Addr6 n z =>
      (if bool_decide (Z.shiftr n 32 = 0xffff) then "::ffff:" +:+ string4 (Z.land n 0xffffffff)
       else string6 n) +:+
      (if bool_decide (z = ""%string) then "" else "%" +:+ z)
  end.

(** ** Parsing an address *)

(** [parseIPv4Fields]: [first] is "at the first byte", [dot] is "the previous byte was a
    dot", [acc] the fields so far and [val], [dig] the current one and its digits. *)
Fixpoint parse4 (s : string) (first dot : bool) (acc : list Z) (val : Z) (dig : nat) : option (list Z) :=
  match s with
  | EmptyString => if bool_decide (length acc < 3)%nat then None else Some (acc ++ [val])
  | String c s' =>
      match digit_val c with
      | Some d =>
          if bool_decide (dig = 1%nat) && bool_decide (val = 0) then None
          else
            let val := val * 10 + d in
            if bool_decide (255 < val) then None
            else parse4 s' false false acc val (S dig)
      | None =>
          if bool_decide (c = "."%char) then
            if first || bool_decide (s' = EmptyString) || dot then None
            else if bool_decide (length acc = 3%nat) then None
            else parse4 s' false true (acc ++ [val]) 0 0
          else None
      end
  end.
Definition parseIPv4 (s : string) : option Addr :=
  fs ← parse4 s true false [] 0 0; Some (Addr4 (be_word fs)).

(** One hexadecimal group: at most four digits; the value, the number of digits, the rest. *)
Fixpoint parse_hex (s : string) (off : nat) (acc : Z) : option (Z * nat * string) :=
  match s with
  | EmptyString => Some (acc, off, s)
  | String c s' =>
      match hex_val c with
      | Some d =>
          if bool_decide (3 < off)%nat then None
          else parse_hex s' (S off) (Z.shiftl acc 4 + d)
      | None => Some (acc, off, s)
      end
  end.

(** The loop of [parseIPv6]; [ip] holds the bytes so far, at most 16, so 9 rounds suffice. *)
Fixpoint parse6_loop (fuel : nat) (s : string) (ip : list Z) (ell : option nat) : option (list Z * option nat) :=
  match fuel with
  | O => None
  | S fuel' =>
      if bool_decide (16 <= length ip)%nat then
        if bool_decide (s = EmptyString) then Some (ip, ell) else None
      else
        '(acc, off, rest) ← parse_hex s 0 0;
        if bool_decide (off = 0%nat) then None
        else
          let put := ip ++ [Z.land (Z.shiftr acc 8) 255; Z.land acc 255] in
          match rest with
          | EmptyString => Some (put, ell)
          | String c rest' =>
              if bool_decide (c = "."%char) then
                if (bool_decide (ell = None) && bool_decide (length ip <> 12%nat))
                   || bool_decide (16 < length ip + 4)%nat then None
                else fs ← parse4 s true false [] 0 0; Some (ip ++ fs, ell)
              else if bool_decide (c <> ":"%char) then None
              else
                match rest' with
                | EmptyString => None
                | String c2 rest'' =>
                    if bool_decide (c2 = ":"%char) then
                      match ell with
                      | Some _ => None
                      | None =>
                          if bool_decide (rest'' = EmptyString)
                          then Some (put, Some (length put))
                          else parse6_loop fuel' rest'' put (Some (length put))
                      end
                    else parse6_loop fuel' rest' put ell
                end
          end
  end.
Definition expand6 (ip : list Z) (ell : option nat) : option (list Z) :=
  if bool_decide (length ip < 16)%nat then
    e ← ell; Some (take e ip ++ replicate (16 - length ip) 0 ++ drop e ip)
  else match ell with Some _ => None | None => Some ip end.
Definition parseIPv6 (s : string) : option Addr :=
  '(s, zone) ← (match cut "%" s with
                | Some (a, b) => if bool_decide (b = ""%string) then None else Some (a, b)
                | None => Some (s, ""%string)
                end);
  '(s, ell) ← Some (match strip_prefix "::" s with Some r => (r, Some 0%nat) | None => (s, None) end);
  if bool_decide (ell = Some 0%nat) && bool_decide (s = EmptyString) then Some (Addr6 0 zone)
  else
    '(ip, ell) ← parse6_loop 9 s [] ell;
    bs ← expand6 ip ell;
    Some (Addr6 (be_word bs) zone).

(** [netip.ParseAddr]: the first of '.', ':' and '%' decides the family. *)
Fixpoint addr_kind (s : string) : option ascii :=
  match s with
  | EmptyString => None
  | String c s' =>
      if bool_decide (c = "."%char) || bool_decide (c = ":"%char) || bool_decide (c = "%"%char)
      then Some c else addr_kind s'
  end.
Definition parse_addr (s : string) : option Addr :=
  c ← addr_kind s;
  if bool_decide (c = "."%char) then parseIPv4 s
  else if bool_decide (c = ":"%char) then parseIPv6 s
  else None.

Definition prefix_string (p : Prefix) : string :=
  if bool_decide (0 <= p_bits p <= BitLen (p_addr p)) && bool_decide (p_addr p <> AddrZero)
  then addr_string (p_addr p) +:+ "/" +:+ itoa (p_bits p)
  else "invalid Prefix".

(** [netip.ParsePrefix]. *)
Definition parse_prefix (s : string) : option Prefix :=
  '(a, b) ← cut_last "/" s;
  ip ← parse_addr a;
  if has_zone ip then None
  else
    match b with
    | EmptyString => None
    | String c EmptyString => n ← atoi b; if bool_decide (n <= BitLen ip) then Some (mkPrefix ip n) else None
    | String c _ =>
        if is_digit c && bool_decide (c <> "0"%char) then
          n ← atoi b; if bool_decide (n <= BitLen ip) then Some (mkPrefix ip n) else None
        else None
    end.

Example string4_ex : addr_string (Addr4 0x64460001) = "100.70.0.1"%string.
Proof. reflexivity. Qed.
Example parse4_ex : parse_addr "100.70.0.254" = Some (Addr4 0x644600fe).
Proof. reflexivity. Qed.
Example parse4_bad : parse_addr "100.70.00.254" = None /\ parse_addr "1.2.3" = None /\ parse_addr "1.2.3.256" = None.
Proof. repeat split; reflexivity. Qed.
Example parse6_ex : parse_addr "2001:db8::1%eth0" = Some (Addr6 0x20010db8000000000000000000000001 "eth0").
Proof. reflexivity. Qed.
Example string6_ex : addr_string (Addr6 0x20010db8000000000000000000000001 "eth0") = "2001:db8::1%eth0"%string.
Proof. reflexivity. Qed.
Example parse6_v4 : parse_addr "::ffff:1.2.3.4" = Some (Addr6 0xffff01020304 "").
Proof. reflexivity. Qed.
Example prefix_ex : parse_prefix "100.70.0.0/24" = Some (mkPrefix (Addr4 0x64460000) 24).
Proof. reflexivity. Qed.

(** ** IPv4 text round trip *)

Lemma parse4_digit d s first dot acc val dig :
  0 <= d < 10 -> (dig = 1%nat -> val <> 0) -> val * 10 + d <= 255 ->
  parse4 (String (digit d) s) first dot acc val dig
  = parse4 s false false acc (val * 10 + d) (S dig).
Proof.
  intros Hd Hz Hmax. cbn [parse4]. rewrite digit_val_digit by done.
  rewrite (bool_decide_false (255 < _)) by lia.
  destruct (decide (dig = 1%nat)) as [->|Hdig].
  - rewrite (bool_decide_false (val = 0)) by auto. by rewrite andb_false_r.
  - by rewrite (bool_decide_false (dig = 1%nat)).
Qed.

(** Scanning the decimal text of an octet leaves the octet in the accumulator. *)
Lemma parse4_itoa v first dot acc :
  u8 v ->
  exists k, forall rest,
    parse4 (itoa v +:+ rest) first dot acc 0 0 = parse4 rest false false acc v k.
Proof.
  unfold u8. intros Hv.
  destruct (decide (v < 10)); [|destruct (decide (v < 100))].
  - exists 1%nat. intros rest. rewrite itoa_1 by lia. rewrite ?str_app_cons, ?str_app_nil_l.
    by rewrite parse4_digit by lia.
  - assert (1 <= v / 10 < 10)
      by (split; [apply Z.div_le_lower_bound|apply Z.div_lt_upper_bound]; lia).
    pose proof (Z.mod_pos_bound v 10). pose proof (Z.div_mod v 10).
    exists 2%nat. intros rest. rewrite itoa_2 by lia. rewrite ?str_app_cons, ?str_app_nil_l.
    rewrite !parse4_digit by lia. f_equal; lia.
  - assert (1 <= v / 100 < 10)
      by (split; [apply Z.div_le_lower_bound|apply Z.div_lt_upper_bound]; lia).
    assert (v / 100 = v / 10 / 10) by (rewrite Z.div_div by lia; done).
    pose proof (Z.mod_pos_bound v 10). pose proof (Z.mod_pos_bound (v / 10) 10).
    pose proof (Z.div_mod v 10). pose proof (Z.div_mod (v / 10) 10).
    exists 3%nat. intros rest. rewrite itoa_3 by lia. rewrite ?str_app_cons, ?str_app_nil_l.
    rewrite !parse4_digit by lia. f_equal; lia.
Qed.

Lemma parse4_dot s acc val dig :
  s <> ""%string -> (length acc <> 3)%nat ->
  parse4 ("." +:+ s) false false acc val dig = parse4 s false true (acc ++ [val]) 0 0.
Proof.
  intros Hs Hacc. rewrite str_app_cons, str_app_nil_l. cbn [parse4].
  change (digit_val ".") with (@None Z). cbv iota. rewrite (bool_decide_true ("."%char = _)) by done.
  rewrite (bool_decide_false (s = _)), (bool_decide_false (length acc = _)) by done. done.
Qed.

Lemma itoa_app_nonempty v rest : u8 v -> (itoa v +:+ rest)%string <> ""%string.
Proof.
  unfold u8. intros Hv. destruct (decide (v < 10)); [|destruct (decide (v < 100))];
    [rewrite itoa_1 by lia|rewrite itoa_2 by lia|rewrite itoa_3 by lia]; done.
Qed.

Lemma addr_kind_digit d s : 0 <= d < 10 -> addr_kind (String (digit d) s) = addr_kind s.
Proof.
  intros Hd. cbn [addr_kind]. pose proof (digit_is_digit d Hd) as Hdig.
  rewrite !bool_decide_false; [done|..]; intros E; rewrite E in Hdig; discriminate.
Qed.

Lemma addr_kind_dot s : addr_kind ("." +:+ s) = Some "."%char.
Proof. done. Qed.

Lemma addr_kind_itoa v s : u8 v -> addr_kind (itoa v +:+ s) = addr_kind s.
Proof.
  unfold u8. intros Hv.
  assert (Hmod : forall x, 0 <= x mod 10 < 10) by (intros; apply Z.mod_pos_bound; lia).
  assert (Hdiv : forall x y, 0 < y -> 0 <= x < 10 * y -> 0 <= x / y < 10)
    by (intros; split; [apply Z.div_pos|apply Z.div_lt_upper_bound]; lia).
  destruct (decide (v < 10)); [|destruct (decide (v < 100))];
    [rewrite itoa_1 by lia|rewrite itoa_2 by lia|rewrite itoa_3 by lia]; rewrite ?str_app_cons, ?str_app_nil_l;
    rewrite !addr_kind_digit; first [done | apply Hmod | apply Hdiv; lia | lia].
Qed.

Lemma string4_octets n :
  exists a b c d, addr4_octets n = [a; b; c; d] /\ u8 a /\ u8 b /\ u8 c /\ u8 d.
Proof.
  pose proof (be_bytes_length 4 n) as L. pose proof (be_bytes_u8 4 n) as U.
  unfold addr4_octets. destruct (be_bytes 4 n) as [|a [|b [|c [|d [|]]]]]; try done.
  decompose_Forall_hyps. eauto 10.
Qed.

(** The text of an IPv4 address parses back to it. *)
Lemma parse_addr_string4 n : u32 n -> parse_addr (addr_string (Addr4 n)) = Some (Addr4 n).
Proof.
  intros Hn. destruct (string4_octets n) as (a & b & c & d & E & Ha & Hb & Hc & Hd).
  cbn [addr_string]. unfold string4. rewrite E. unfold parse_addr.
  rewrite addr_kind_itoa by done. rewrite addr_kind_dot.
  cbn [mbind option_bind]. rewrite bool_decide_true by done. unfold parseIPv4.
  destruct (parse4_itoa a true false [] Ha) as [ka Eka]; rewrite Eka.
  rewrite parse4_dot; [|by apply itoa_app_nonempty|done].
  destruct (parse4_itoa b false true ([] ++ [a]) Hb) as [kb Ekb]; rewrite Ekb.
  rewrite parse4_dot; [|by apply itoa_app_nonempty|done].
  destruct (parse4_itoa c false true (([] ++ [a]) ++ [b]) Hc) as [kc Ekc]; rewrite Ekc.
  assert (itoa d <> ""%string).
  { rewrite <- (str_app_nil_r (itoa d)). by apply itoa_app_nonempty. }
  rewrite parse4_dot by done.
  destruct (parse4_itoa d false true ((([] ++ [a]) ++ [b]) ++ [c]) Hd) as [kd Hk].
  specialize (Hk ""%string). rewrite str_app_nil_r in Hk. rewrite Hk. cbn.
  rewrite <- E. unfold addr4_octets. rewrite bool_decide_false by lia.
  cbn [mbind option_bind]. by rewrite be_word_bytes_small.
Qed.

Lemma addr_string4_inj n m :
  u32 n -> u32 m -> addr_string (Addr4 n) = addr_string (Addr4 m) -> n = m.
Proof.
  intros Hn Hm E. apply (f_equal parse_addr) in E.
  rewrite !parse_addr_string4 in E by done. congruence.
Qed.

(** ** Address and port: [netip.AddrPort] *)

Record AddrPort : Type := mkAddrPort { ap_addr : Addr; ap_port : Z }.
#[export] Instance AddrPort_eq_dec : EqDecision AddrPort.
Proof. solve_decision. Defined.

(** [strconv.ParseUint(s, 10, 16)] *)
Definition parse_uint16 (s : string) : option Z :=
  n ← atoi s; if bool_decide (n < 2 ^ 16) then Some n else None.

(** [[addr]] without its brackets. *)
Definition unbracket (s : string) : option string :=
  match s with
  | String "[" t => '(a, b) ← cut_last "]" t; if bool_decide (b = EmptyString) then Some a else None
  | _ => None
  end.
Definition starts_bracket (s : string) : bool :=
  match s with String "[" _ => true | _ => false end.

(** [netip.ParseAddrPort]: an IPv6 address needs brackets, an IPv4 address must not have them. *)
Definition parse_addr_port (s : string) : option AddrPort :=
  '(ip, port) ← cut_last ":" s;
  if bool_decide (ip = EmptyString) || bool_decide (port = EmptyString) then None
  else
    p ← parse_uint16 port;
    if starts_bracket ip then
      t ← unbracket ip;
      a ← parse_addr t;
      match a with Addr6 _ _ => Some (mkAddrPort a p) | _ => None end
    else
      a ← parse_addr ip;
      match a with Addr4 _ => Some (mkAddrPort a p) | _ => None end.

Definition addr_port_string (ap : AddrPort) : string :=
  match ap_addr ap with
  | AddrZero => "invalid AddrPort"
  | Addr4 _ => addr_string (ap_addr ap) +:+ ":" +:+ itoa (ap_port ap)
  | Addr6 _ _ => "[" +:+ addr_string (ap_addr ap) +:+ "]:" +:+ itoa (ap_port ap)
  end.

Example addr_port_ex :
  parse_addr_port "192.0.2.7:5000" = Some (mkAddrPort (Addr4 0xc0000207) 5000) /\
  parse_addr_port "[fe80::1]:80" = Some (mkAddrPort (Addr6 0xfe800000000000000000000000000001 "") 80) /\
  parse_addr_port "fe80::1:80" = None /\ parse_addr_port "1.2.3.4:65536" = None /\ parse_addr_port "1.2.3.4" = None.
Proof. vm_compute. repeat split. Qed.

(** ** IPv4 prefix text round trip *)

Definition no_slash (s : string) : Prop := str_forallb (fun c => bool_decide (c <> "/"%char)) s = true.

Lemma no_slash_cons c s : no_slash (String c s) <-> c <> "/"%char /\ no_slash s.
Proof. unfold no_slash. cbn [str_forallb]. by rewrite andb_true_iff, bool_decide_eq_true. Qed.
Lemma no_slash_app a b : no_slash a -> no_slash b -> no_slash (a +:+ b).
Proof.
  intros Ha Hb. induction a as [|c a IH]; [done|].
  apply no_slash_cons in Ha as [Hc Ha]. rewrite str_app_cons. apply no_slash_cons. auto.
Qed.
Lemma no_slash_digit d s : 0 <= d < 10 -> no_slash s -> no_slash (String (digit d) s).
Proof.
  intros Hd Hs. apply no_slash_cons. split; [|done]. intros E.
  pose proof (digit_is_digit d Hd) as Hdig. by rewrite E in Hdig.
Qed.
Lemma no_slash_itoa v : u8 v -> no_slash (itoa v).
Proof.
  unfold u8. intros Hv.
  assert (Hmod : forall x, 0 <= x mod 10 < 10) by (intros; apply Z.mod_pos_bound; lia).
  assert (Hdiv : forall x y, 0 < y -> 0 <= x < 10 * y -> 0 <= x / y < 10)
    by (intros; split; [apply Z.div_pos|apply Z.div_lt_upper_bound]; lia).
  destruct (decide (v < 10)); [|destruct (decide (v < 100))];
    [rewrite itoa_1 by lia|rewrite itoa_2 by lia|rewrite itoa_3 by lia];
    repeat apply no_slash_digit; first [done | apply Hmod | apply Hdiv; lia | lia].
Qed.
Lemma no_slash_string4 n : no_slash (addr_string (Addr4 n)).
Proof.
  destruct (string4_octets n) as (a & b & c & d & E & Ha & Hb & Hc & Hd).
  cbn [addr_string]. unfold string4. rewrite E.
  repeat first [apply no_slash_app | apply no_slash_itoa; assumption | done].
Qed.

Lemma cut_slash a b : no_slash a -> cut "/" (a +:+ "/" +:+ b) = Some (a, b).
Proof.
  induction a as [|c a IH]; intros Ha; [done|].
  apply no_slash_cons in Ha as [Hc Ha]. rewrite str_app_cons. cbn [cut strip_prefix].
  rewrite bool_decide_false by congruence. rewrite IH by done. done.
Qed.
Lemma cut_no_slash a : no_slash a -> cut "/" a = None.
Proof.
  induction a as [|c a IH]; intros Ha; [done|].
  apply no_slash_cons in Ha as [Hc Ha]. cbn [cut strip_prefix].
  rewrite bool_decide_false by congruence. by rewrite IH.
Qed.
Lemma cut_last_no_slash a : no_slash a -> cut_last "/" a = None.
Proof.
  induction a as [|c a IH]; intros Ha; [done|].
  apply no_slash_cons in Ha as [Hc Ha]. cbn [cut_last]. rewrite IH by done. by rewrite bool_decide_false.
Qed.
Lemma cut_last_slash a b : no_slash b -> cut_last "/" (a +:+ "/" +:+ b) = Some (a, b).
Proof.
  intros Hb. induction a as [|c a IH].
  - rewrite str_app_nil_l, str_app_cons, str_app_nil_l. cbn [cut_last]. by rewrite cut_last_no_slash.
  - rewrite str_app_cons. cbn [cut_last]. by rewrite IH.
Qed.

(** The number of bits as text: no leading zero, and the number again. *)
Definition bits_text_ok (bits : Z) : bool :=
  bool_decide (atoi (itoa bits) = Some bits) &&
  match itoa bits with
  | EmptyString => false
  | String _ EmptyString => true
  | String c _ => is_digit c && bool_decide (c <> "0"%char)
  end.
Lemma bits_text bits : 0 <= bits <= 128 -> bits_text_ok bits = true.
Proof.
  intros Hb. assert (Hall : forallb bits_text_ok (seqZ 0 129) = true) by (vm_compute; reflexivity).
  rewrite forallb_forall in Hall. apply Hall, list_elem_of_In, elem_of_seqZ. lia.
Qed.

Lemma split_prefix_text n bits :
  0 <= bits <= 32 ->
  strings_Split (prefix_string (mkPrefix (Addr4 n) bits)) "/" = [addr_string (Addr4 n); itoa bits].
Proof.
  intros Hb. unfold prefix_string. cbn [p_bits p_addr BitLen]. rewrite !bool_decide_true by done. cbn [andb].
  unfold strings_Split.
  assert (Hlen : exists k, String.length (addr_string (Addr4 n) +:+ "/" +:+ itoa bits) = S (S k)).
  { destruct (string4_octets n) as (a & b & c & d & E & Ha & Hb' & Hc & Hd).
    cbn [addr_string]. unfold string4. rewrite E.
    destruct (itoa a +:+ "." +:+ itoa b +:+ "." +:+ itoa c +:+ "." +:+ itoa d) as [|x s] eqn:Es;
      [by apply itoa_app_nonempty in Es|].
    rewrite str_app_cons. cbn [String.length]. destruct s as [|y s]; eexists; [by rewrite str_app_nil_l, str_app_cons|].
    by rewrite str_app_cons. }
  destruct Hlen as [k ->]. cbn [split_fuel]. rewrite cut_slash by apply no_slash_string4.
  by rewrite cut_no_slash by (apply no_slash_itoa; unfold u8; lia).
Qed.

(** The text of an IPv4 prefix parses back to it. *)
Lemma parse_prefix_text n bits :
  u32 n -> 0 <= bits <= 32 ->
  parse_prefix (addr_string (Addr4 n) +:+ "/" +:+ itoa bits) = Some (mkPrefix (Addr4 n) bits).
Proof.
  intros Hn Hb. unfold parse_prefix. rewrite cut_last_slash by (apply no_slash_itoa; unfold u8; lia).
  cbn [mbind option_bind]. rewrite parse_addr_string4 by done. cbn [mbind option_bind has_zone].
  pose proof (bits_text bits ltac:(lia)) as HB. unfold bits_text_ok in HB.
  apply andb_true_iff in HB as [HA HB]. apply bool_decide_eq_true in HA.
  destruct (itoa bits) as [|c [|c' s]] eqn:E; [done| |rewrite HB];
    rewrite HA; cbn [mbind option_bind BitLen]; by rewrite bool_decide_true by lia.
Qed.
