(* ===== verification/Float64.v ===== *)
(** IEEE-754 binary64 arithmetic, as far as [time.Duration.Hours] and the comparisons built
    on it need it: the value of a float is a rational, and every operation rounds its exact
    result to 53 significant bits, ties to even.  The values that occur stay far from the
    ends of the exponent range (below [2^63 / 24], above [1 / (3600 * 10^9)] when not zero),
    so overflow and subnormal numbers are left out. *)

From S2P Require Import Prelude.
From Stdlib Require Export QArith Qround Qpower Qabs Lqa.
#[global] Open Scope Z_scope.

(** Round to the nearest integer, ties to even. *)
Definition rne (x : Q) : Z :=
  let f := Qfloor x in
  match Qcompare (x - inject_Z f) (1 # 2) with
  | Lt => f
  | Gt => f + 1
  | Eq => if Z.even f then f else f + 1
  end.

Definition pow2 (e : Z) : Q := Qpower 2 e.

(** The exponent of a positive rational: [2 ^ flog2 x <= x < 2 ^ (flog2 x + 1)]. *)
Definition flog2 (x : Q) : Z :=
  let k := Z.log2 (Qnum x) - Z.log2 (Zpos (Qden x)) in
  if Qle_bool (pow2 k) x then k else k - 1.

Definition round_pos (x : Q) : Q :=
  let e := flog2 x - 52 in (inject_Z (rne (x / pow2 e)) * pow2 e)%Q.

(** The nearest float to a rational. *)
Definition round64 (x : Q) : Q :=
  match Qcompare x 0 with
  | Eq => 0%Q
  | Gt => round_pos x
  | Lt => (- round_pos (- x))%Q
  end.

Definition float_of_int (n : Z) : Q := round64 (inject_Z n).
Definition fadd (x y : Q) : Q := round64 (x + y).
Definition fdiv (x y : Q) : Q := round64 (x / y).
(** [x >= y] on floats. *)
Definition fge (x y : Q) : bool := Qle_bool y x.

(** ** Rounding to an integer is monotone *)

Lemma rne_bounds x : Qfloor x <= rne x <= Qfloor x + 1.
Proof. unfold rne. destruct (Qcompare _ _); [destruct (Z.even _)|..]; lia. Qed.

Lemma rne_mono x y : (x <= y)%Q -> rne x <= rne y.
Proof.
  intros Hxy. pose proof (Qfloor_resp_le x y Hxy) as Hf.
  pose proof (rne_bounds x). pose proof (rne_bounds y).
  destruct (decide (Qfloor x < Qfloor y)); [lia|].
  assert (E : Qfloor x = Qfloor y) by lia. unfold rne. rewrite E.
  destruct (Qcompare_spec (x - inject_Z (Qfloor y)) (1 # 2));
    destruct (Qcompare_spec (y - inject_Z (Qfloor y)) (1 # 2));
    try (destruct (Z.even _)); try lia; exfalso; lra.
Qed.

Lemma rne_Z n : rne (inject_Z n) = n.
Proof.
  unfold rne. rewrite Qfloor_Z.
  destruct (Qcompare_spec (inject_Z n - inject_Z n) (1 # 2)); [exfalso; lra|done|exfalso; lra].
Qed.

#[export] Instance rne_proper : Proper (Qeq ==> eq) rne.
Proof. intros x y E. apply Z.le_antisymm; apply rne_mono; rewrite E; apply Qle_refl. Qed.

(** ** The exponent *)

Lemma pow2_pos e : (0 < pow2 e)%Q.
Proof. apply Qpower_0_lt. reflexivity. Qed.
Lemma pow2_add a b : (pow2 (a + b) == pow2 a * pow2 b)%Q.
Proof. apply Qpower_plus. intros H. inversion H. Qed.
Lemma pow2_le a b : a <= b -> (pow2 a <= pow2 b)%Q.
Proof. intros H. apply Qpower_le_compat_l; [done|]. by apply Qle_bool_iff. Qed.
Lemma pow2_lt_inv a b : (pow2 a < pow2 b)%Q -> a < b.
Proof. intros H. apply (Qpower_lt_compat_l_inv 2); [done|]. reflexivity. Qed.
Lemma pow2_Z n : 0 <= n -> (pow2 n == inject_Z (2 ^ n))%Q.
Proof. intros H. unfold pow2. by rewrite Zpower_Qpower. Qed.

Lemma flog2_spec x : (0 < x)%Q -> (pow2 (flog2 x) <= x /\ x < pow2 (flog2 x + 1))%Q.
Proof.
  intros Hx. destruct x as [n d]. unfold Qlt in Hx. simpl in Hx.
  assert (Hn : 0 < n) by lia. unfold flog2. cbn [Qnum Qden].
  set (ln := Z.log2 n). set (ld := Z.log2 (Zpos d)).
  pose proof (Z.log2_spec n Hn) as [Hn1 Hn2]. pose proof (Z.log2_spec (Zpos d) eq_refl) as [Hd1 Hd2].
  fold ln in Hn1, Hn2. fold ld in Hd1, Hd2.
  assert (0 <= ln) by apply Z.log2_nonneg. assert (0 <= ld) by apply Z.log2_nonneg.
  assert (E : (n # d == inject_Z n / inject_Z (Zpos d))%Q) by apply Qmake_Qdiv.
  assert (Hdpos : (0 < inject_Z (Zpos d))%Q) by (unfold Qlt; simpl; lia).
  assert (U : (n # d < pow2 (ln - ld + 1))%Q).
  { rewrite E. apply Qlt_shift_div_r; [done|].
    apply Qlt_le_trans with (pow2 (Z.succ ln)).
    - rewrite pow2_Z by lia. by rewrite <- Zlt_Qlt.
    - replace (Z.succ ln) with ((ln - ld + 1) + ld) by lia. rewrite pow2_add.
      apply Qmult_le_l; [apply pow2_pos|]. rewrite pow2_Z by lia. by rewrite <- Zle_Qle. }
  assert (L : (pow2 (ln - ld - 1) <= n # d)%Q).
  { rewrite E. apply Qle_shift_div_l; [done|].
    apply Qle_trans with (pow2 ln); [|rewrite pow2_Z by lia; by rewrite <- Zle_Qle].
    replace ln with ((ln - ld - 1) + Z.succ ld) at 2 by lia. rewrite pow2_add.
    apply Qmult_le_l; [apply pow2_pos|]. rewrite pow2_Z by lia. rewrite <- Zle_Qle. lia. }
  destruct (Qle_bool _ _) eqn:B.
  - apply Qle_bool_iff in B. done.
  - split; [done|]. replace (ln - ld - 1 + 1) with (ln - ld) by lia.
    apply Qnot_le_lt. intros C. apply Qle_bool_iff in C. congruence.
Qed.

Lemma flog2_mono x y : (0 < x)%Q -> (x <= y)%Q -> flog2 x <= flog2 y.
Proof.
  intros Hx Hxy. destruct (flog2_spec x Hx) as [Lx _].
  destruct (flog2_spec y ltac:(lra)) as [_ Uy].
  assert (flog2 x < flog2 y + 1) by (apply pow2_lt_inv; lra). lia.
Qed.

(** ** Rounding a positive rational is monotone *)

Lemma scaled_bounds x :
  (0 < x)%Q -> let e := flog2 x - 52 in 2 ^ 52 <= rne (x / pow2 e) <= 2 ^ 53.
Proof.
  intros Hx e. destruct (flog2_spec x Hx) as [L U]. pose proof (pow2_pos e) as He.
  split.
  - rewrite <- (rne_Z (2 ^ 52)). apply rne_mono. apply Qle_shift_div_l; [done|].
    rewrite <- pow2_Z by lia. rewrite <- pow2_add. by replace (52 + e) with (flog2 x) by lia.
  - rewrite <- (rne_Z (2 ^ 53)). apply rne_mono. apply Qle_shift_div_r; [done|].
    rewrite <- pow2_Z by lia. rewrite <- pow2_add.
    replace (53 + e) with (flog2 x + 1) by lia. lra.
Qed.

Lemma round_pos_mono x y : (0 < x)%Q -> (x <= y)%Q -> (round_pos x <= round_pos y)%Q.
Proof.
  intros Hx Hxy. assert (Hy : (0 < y)%Q) by lra.
  pose proof (flog2_mono x y Hx Hxy) as He. unfold round_pos. cbn zeta.
  pose proof (scaled_bounds x Hx) as Bx. pose proof (scaled_bounds y Hy) as By. cbn zeta in Bx, By.
  destruct (decide (flog2 x = flog2 y)) as [E|NE].
  - rewrite E. apply Qmult_le_compat_r; [|apply Qlt_le_weak, pow2_pos].
    rewrite <- Zle_Qle. apply rne_mono. apply Qmult_le_compat_r; [done|].
    apply Qlt_le_weak, Qinv_lt_0_compat, pow2_pos.
  - apply Qle_trans with (pow2 (53 + (flog2 x - 52))).
    + rewrite pow2_add, (pow2_Z 53) by lia. apply Qmult_le_compat_r;
        [rewrite <- Zle_Qle; lia | apply Qlt_le_weak, pow2_pos].
    + apply Qle_trans with (pow2 (52 + (flog2 y - 52))); [apply pow2_le; lia|].
      rewrite pow2_add, (pow2_Z 52) by lia. apply Qmult_le_compat_r;
        [rewrite <- Zle_Qle; lia | apply Qlt_le_weak, pow2_pos].
Qed.

Lemma round_pos_nonneg x : (0 < x)%Q -> (0 < round_pos x)%Q.
Proof.
  intros Hx. unfold round_pos. cbn zeta. pose proof (scaled_bounds x Hx) as B. cbn zeta in B.
  apply Qmult_lt_0_compat; [|apply pow2_pos]. change 0%Q with (inject_Z 0). rewrite <- Zlt_Qlt. lia.
Qed.

Lemma round64_mono x y : (x <= y)%Q -> (round64 x <= round64 y)%Q.
Proof.
  intros Hxy. unfold round64.
  destruct (Qcompare_spec x 0) as [Hx|Hx|Hx], (Qcompare_spec y 0) as [Hy|Hy|Hy];
    try (exfalso; lra); try lra.
  - pose proof (round_pos_nonneg y Hy). lra.
  - pose proof (round_pos_nonneg (- x) ltac:(lra)). lra.
  - pose proof (round_pos_mono (- y) (- x) ltac:(lra) ltac:(lra)). lra.
  - pose proof (round_pos_nonneg (- x) ltac:(lra)). pose proof (round_pos_nonneg y Hy). lra.
  - by apply round_pos_mono.
Qed.

#[export] Instance round64_proper : Proper (Qeq ==> Qeq) round64.
Proof. intros x y E. apply Qle_antisym; apply round64_mono; rewrite E; apply Qle_refl. Qed.
#[export] Hint Resolve round64_mono : zeronet.
