(* ===== verification/GoTime.v ===== *)
(** Go's [time]: instants as nanoseconds since the zero time, durations as 64-bit
    nanosecond counts, and the float the code takes hours from. *)

From S2P Require Import Prelude Float64.

Definition Nanosecond : Z := 1.
Definition Second : Z := 1000000000.
Definition Minute : Z := 60 * Second.
Definition Hour : Z := 60 * Minute.

Definition minDuration : Z := - 2 ^ 63.
Definition maxDuration : Z := 2 ^ 63 - 1.
Definition duration_ok (d : Z) : Prop := minDuration <= d <= maxDuration.

(** [t.Sub(u)] saturates at the ends of the 64-bit range. *)
Definition Sub (t u : Z) : Z := Z.max minDuration (Z.min maxDuration (t - u)).

(** [Duration.Hours]: [/] and [%] truncate towards zero. *)
Definition Hours (d : Z) : Q :=
  let hour := Z.quot d Hour in
  let nsec := Z.rem d Hour in
  fadd (float_of_int hour) (fdiv (float_of_int nsec) (inject_Z (60 * 60 * 1000000000))).

Lemma Sub_ok t u : duration_ok (Sub t u).
Proof. unfold duration_ok, Sub, minDuration, maxDuration. lia. Qed.
Lemma Sub_ge t u d : d <= maxDuration -> minDuration < d -> d <= Sub t u <-> d <= t - u.
Proof. unfold Sub. lia. Qed.
#[export] Hint Resolve Sub_ok : zeronet.

(** The largest duration below [n] whole hours has [n - 1] of them and this many
    nanoseconds more. *)
Definition last_nsec : Z := Hour - 1.

Lemma Hours_lower n d : 0 <= n -> n * Hour <= d ->
  (fadd (float_of_int n) 0 <= Hours d)%Q.
Proof.
  intros Hn Hd. unfold Hours, fadd. cbn zeta.
  assert (Hh : n <= Z.quot d Hour).
  { apply Z.quot_le_lower_bound; [done|]. lia. }
  assert (Hr : 0 <= Z.rem d Hour) by (apply Z.rem_nonneg; unfold Hour, Minute, Second in *; lia).
  apply round64_mono. apply Qplus_le_compat.
  - apply round64_mono. by rewrite <- Zle_Qle.
  - change 0%Q with (round64 0). unfold fdiv. apply round64_mono.
    apply Qle_shift_div_l; [reflexivity|]. rewrite Qmult_0_l.
    unfold float_of_int. change 0%Q with (round64 0). apply round64_mono.
    change 0%Q with (inject_Z 0). by rewrite <- Zle_Qle.
Qed.

Lemma Hours_upper n d : 0 < n -> d < n * Hour ->
  (Hours d <= fadd (float_of_int (n - 1))
                (fdiv (float_of_int last_nsec) (inject_Z (60 * 60 * 1000000000))))%Q.
Proof.
  intros Hn Hd. unfold Hours, fadd. cbn zeta.
  assert (Hh : Z.quot d Hour <= n - 1).
  { assert (0 < Hour) by done. destruct (decide (0 <= d)).
    - assert (Z.quot d Hour < n) by (apply Z.quot_lt_upper_bound; lia). lia.
    - assert (Z.quot d Hour <= 0); [|lia].
      replace d with (- (- d)) by lia. rewrite Z.quot_opp_l by lia.
      assert (0 <= Z.quot (- d) Hour) by (apply Z.quot_pos; lia). lia. }
  assert (Hr : Z.rem d Hour <= last_nsec).
  { pose proof (Z.rem_bound_abs d Hour ltac:(done)). unfold last_nsec.
    assert (0 < Hour) by done. lia. }
  apply round64_mono. apply Qplus_le_compat.
  - apply round64_mono. by rewrite <- Zle_Qle.
  - unfold fdiv. apply round64_mono.
    apply Qmult_le_compat_r; [|by apply Qle_bool_iff].
    apply round64_mono. by rewrite <- Zle_Qle.
Qed.
