(* ===== verification/Types.v ===== *)
(** The controller's peer record and the messages built from it: controller/types/peer.go,
    with the message types of proto/controller/v1. *)

From S2P Require Import Prelude Float64 GoTime.

(** ** Messages of proto/controller/v1/peer.proto and controller.proto *)

Record PeerMsg : Type := mkPeerMsg {
  m_Id : Z; m_PublicKey : string; m_Hostname : string; m_Ip : string; m_Endpoint : string;
  m_Prefix : string; m_User : string; m_Connected : bool
}.
Record PeerDetails : Type := mkPeerDetails {
  d_MachineId : string; d_Id : Z; d_PublicKey : string; d_Hostname : string; d_Ip : string;
  d_Endpoint : string; d_Prefix : string; d_User : string; d_Connected : bool;
  d_Disabled : bool; d_LastLogin : string; d_LastAuth : string; d_CreatedAt : string;
  d_UpdatedAt : string
}.
Record PeerConfig : Type := mkPeerConfig { c_PeerId : Z; c_TunnelIp : string; c_Prefix : string }.
Record LoginPeerRequest : Type := mkLoginPeerRequest {
  MachineId : string; PublicKey : string; ReqHostname : string; ReqEndpoint : string;
  AccessToken : string
}.
Record PeerList : Type := mkPeerList { Peers : list PeerMsg; Count : Z }.
Inductive UpdateType : Type := INIT | CONNECT | DISCONNECT | PUNCH | LOGOUT.
(** [PeerList] is a pointer in Go: [None] is nil. *)
Record UpdateResponse : Type := mkUpdateResponse {
  UType : UpdateType; UPeerList : option PeerList; PunchEndpoint : string
}.
#[export] Instance PeerMsg_eq_dec : EqDecision PeerMsg.
Proof. solve_decision. Defined.
#[export] Instance PeerList_eq_dec : EqDecision PeerList.
Proof. solve_decision. Defined.
#[export] Instance UpdateType_eq_dec : EqDecision UpdateType.
Proof. solve_decision. Defined.
#[export] Instance UpdateResponse_eq_dec : EqDecision UpdateResponse.
Proof. solve_decision. Defined.

(** ** The peer record *)

Record Peer : Type := mkPeer {
  ID : Z;
  MachineID : string;
  NoisePublicKey : string;
  IP : string;
  PPrefix : string;
  Endpoint : string;
  Hostname : string;
  LoggedIn : bool;
  Connected : bool;
  User : string;
  Disabled : bool;
  LastLogin : Z;
  LastAuth : Z;
  CreatedAt : Z;
  UpdatedAt : Z
}.
#[export] Instance Peer_eq_dec : EqDecision Peer.
Proof. solve_decision. Defined.
#[export] Instance Peer_rebuild : Rebuild Peer := {| rebuild := fun p =>
  mkPeer (ID p) (MachineID p) (NoisePublicKey p) (IP p) (PPrefix p) (Endpoint p) (Hostname p)
    (LoggedIn p) (Connected p) (User p) (Disabled p) (LastLogin p) (LastAuth p) (CreatedAt p)
    (UpdatedAt p) |}.

(** The zero value of the struct. *)
Definition zeroPeer : Peer := mkPeer 0 "" "" "" "" "" "" false false "" false 0 0 0 0.

(** The composite literal of [Copy] is positional: its eighth and ninth values land in
    [LoggedIn] and [Connected], in this order. *)
Definition Copy (p : Peer) : Peer :=
  mkPeer (ID p) (MachineID p) (NoisePublicKey p) (IP p) (PPrefix p) (Endpoint p) (Hostname p)
    (Connected p) (LoggedIn p) (User p) (Disabled p) (LastLogin p) (LastAuth p) (CreatedAt p)
    (UpdatedAt p).

Definition Proto (p : Peer) : PeerMsg :=
  mkPeerMsg (ID p) (NoisePublicKey p) (Hostname p) (IP p) (Endpoint p) (PPrefix p) (User p)
    (Connected p).

Section Details.
(** [Time.Format] with the code's layout, in the host's time zone. *)
Context (format_time : Z -> string).
Definition ProtoDetails (p : Peer) : PeerDetails :=
  mkPeerDetails (MachineID p) (ID p) (NoisePublicKey p) (Hostname p) (IP p) (Endpoint p)
    (PPrefix p) (User p) (Connected p) (Disabled p) (format_time (LastLogin p))
    (format_time (LastAuth p)) (format_time (CreatedAt p)) (format_time (UpdatedAt p)).
End Details.

Definition ProtoConfig (p : Peer) : PeerConfig := mkPeerConfig (ID p) (IP p) (PPrefix p).

Definition IsLoggedIn (p : Peer) : bool := LoggedIn p.
Definition IsConnected (p : Peer) : bool := Connected p.
Definition IsDisabled (p : Peer) : bool := Disabled p.

(** [now] is the reading of [time.Now]. *)
Definition IsAuthExpired (now : Z) (p : Peer) : bool :=
  let duration := Sub now (LastAuth p) in
  let days := fdiv (Hours duration) (inject_Z 24) in
  fge days (inject_Z 30).

Definition UpdateAuth (now : Z) (p : Peer) : Peer := p <| LastAuth := now |>.

(** Thirty days, the lifetime of an authentication. *)
Definition AuthLifetime : Z := 30 * 24 * Hour.

(** The float computation decides the 30-day limit exactly on durations. *)
Lemma auth_days_exact d :
  fge (fdiv (Hours d) (inject_Z 24)) (inject_Z 30) = true <-> AuthLifetime <= d.
Proof.
  unfold fge, fdiv, AuthLifetime. rewrite Qle_bool_iff. split.
  - intros H. destruct (Z_lt_le_dec d (30 * 24 * Hour)) as [Hlt|]; [exfalso|done].
    pose proof (Hours_upper 720 d ltac:(done) Hlt) as HU.
    assert (HR : (round64 (Hours d / inject_Z 24) < inject_Z 30)%Q); [|apply (Qlt_not_le _ _ HR H)].
    eapply Qle_lt_trans.
    + apply round64_mono. apply Qmult_le_compat_r; [exact HU|by apply Qle_bool_iff].
    + by vm_compute.
  - intros H. pose proof (Hours_lower 720 d ltac:(done) H) as HL.
    apply Qle_trans with (round64 (fadd (float_of_int 720) 0 / inject_Z 24)).
    + by apply Qle_bool_iff.
    + apply round64_mono. apply Qmult_le_compat_r; [exact HL|by apply Qle_bool_iff].
Qed.

(** ** Properties *)

(** C3. An authentication expires exactly thirty days after it was made, to the
    nanosecond: the detour of [IsAuthExpired] through the saturating [Time.Sub], hours in
    float64 and a float division by 24 neither extends nor shortens the limit. *)
Theorem auth_expired_iff (now : Z) (p : Peer) :
  IsAuthExpired now p = true <-> AuthLifetime <= now - LastAuth p.
Proof.
  unfold IsAuthExpired. cbn zeta. rewrite auth_days_exact.
  apply Sub_ge; done.
Qed.

(** [Copy] is not the identity: it exchanges the logged-in and connected flags, so a
    copy equals its original exactly when the two flags agree, and copying twice restores
    the record. *)
Theorem copy_swaps_flags (p : Peer) :
  LoggedIn (Copy p) = Connected p /\ Connected (Copy p) = LoggedIn p /\
  (Copy p = p <-> LoggedIn p = Connected p) /\ Copy (Copy p) = p.
Proof.
  destruct p; unfold Copy; cbn. split_and!; [done|done| |done].
  split; [by intros [=]|by intros ->].
Qed.
