(* ===== verification/Store.v ===== *)
(** The controller's store: controller/db/peer.go, over an interface to gorm.

    gorm is third-party code: its calls are the operations of the class [Gorm], what the
    code relies on is the class [GormLaws], in terms of the table's rows by primary key.
    The laws are gorm's documentation: [First] by condition finds a matching row or
    reports an error, [Updates] with a struct writes the non-zero fields only, [Update]
    writes one column, [Create] fills in the key and refuses a duplicate in the unique
    index on [ip].  An operation may also fail for reasons of its own (the disk), in which
    case it changes nothing. *)

From S2P Require Import Prelude Types.

(** ** The interface to gorm

    The first argument of the writing operations is the reading of [time.Now], which gorm
    stores in the time-stamp columns; they return the error, the record the pointer they
    were given points to afterwards, and the database. *)

Class Gorm : Type := {
  DB : Type;
  gorm_first_machine : DB -> string -> result string Peer;
  gorm_first_id : DB -> Z -> result string Peer;
  gorm_find : DB -> result string (list Peer);
  gorm_find_connected : DB -> bool -> result string (list Peer);
  gorm_pluck_ip : DB -> result string (list string);
  gorm_update_connected : Z -> DB -> Peer -> bool -> option string * Peer * DB;
  gorm_update_endpoint : Z -> DB -> Peer -> string -> option string * Peer * DB;
  gorm_updates : Z -> DB -> Peer -> option string * Peer * DB;
  gorm_create : Z -> DB -> Peer -> option string * Peer * DB;
  gorm_delete : DB -> Peer -> option string * DB
}.

(** [Updates] with a struct: each non-zero field replaces the row's. *)
Definition keep_str (new old : string) : string := if bool_decide (new = ""%string) then old else new.
Definition keep_num (new old : Z) : Z := if bool_decide (new = 0) then old else new.
Definition merge_nonzero (now : Z) (p row : Peer) : Peer :=
  mkPeer (ID row) (keep_str (MachineID p) (MachineID row))
    (keep_str (NoisePublicKey p) (NoisePublicKey row)) (keep_str (IP p) (IP row))
    (keep_str (PPrefix p) (PPrefix row)) (keep_str (Endpoint p) (Endpoint row))
    (keep_str (Hostname p) (Hostname row)) (LoggedIn p || LoggedIn row)
    (Connected p || Connected row) (keep_str (User p) (User row)) (Disabled p || Disabled row)
    (keep_num (LastLogin p) (LastLogin row)) (keep_num (LastAuth p) (LastAuth row))
    (keep_num (CreatedAt p) (CreatedAt row)) now.

Class GormLaws `{Gorm} : Type := {
  rows : DB -> gmap Z Peer;
  rows_key d i p : rows d !! i = Some p -> ID p = i;
  first_machine_found d m p :
    gorm_first_machine d m = Ok p -> rows d !! ID p = Some p /\ MachineID p = m;
  first_machine_missing d m :
    (forall i p, rows d !! i = Some p -> MachineID p <> m) ->
    exists e, gorm_first_machine d m = Err e;
  first_id_found d i p : gorm_first_id d i = Ok p -> rows d !! i = Some p;
  first_id_missing d i : rows d !! i = None -> exists e, gorm_first_id d i = Err e;
  find_rows d ps : gorm_find d = Ok ps -> NoDup ps /\ forall p, p ∈ ps <-> rows d !! ID p = Some p;
  find_connected_rows d v ps :
    gorm_find_connected d v = Ok ps ->
    NoDup ps /\ forall p, p ∈ ps <-> rows d !! ID p = Some p /\ Connected p = v;
  pluck_ip_rows d ips :
    gorm_pluck_ip d = Ok ips -> forall s, s ∈ ips <-> exists i p, rows d !! i = Some p /\ IP p = s;
  update_connected_rows now d p v e p' d' :
    gorm_update_connected now d p v = (e, p', d') -> ID p <> 0 ->
    rows d' = match e with
              | None => alter (fun r => r <| Connected := v |> <| UpdatedAt := now |>) (ID p) (rows d)
              | Some _ => rows d
              end /\ ID p' = ID p;
  update_endpoint_rows now d p s e p' d' :
    gorm_update_endpoint now d p s = (e, p', d') -> ID p <> 0 ->
    rows d' = match e with
              | None => alter (fun r => r <| Endpoint := s |> <| UpdatedAt := now |>) (ID p) (rows d)
              | Some _ => rows d
              end /\ ID p' = ID p;
  updates_rows now d p e p' d' :
    gorm_updates now d p = (e, p', d') -> ID p <> 0 ->
    rows d' = match e with
              | None => alter (merge_nonzero now p) (ID p) (rows d)
              | Some _ => rows d
              end /\ p' = match e with None => p <| UpdatedAt := now |> | Some _ => p' end /\
    ID p' = ID p /\ IP p' = IP p /\ PPrefix p' = PPrefix p;
  create_rows now d p e p' d' :
    gorm_create now d p = (e, p', d') -> ID p = 0 ->
    match e with
    | None =>
        p' = p <| ID := ID p' |> <| CreatedAt := CreatedAt p' |> <| UpdatedAt := UpdatedAt p' |> /\
        ID p' <> 0 /\ rows d !! ID p' = None /\ rows d' = <[ID p' := p']> (rows d) /\
        (forall i r, rows d !! i = Some r -> IP r <> IP p)
    | Some _ => rows d' = rows d
    end;
  delete_rows d p e d' :
    gorm_delete d p = (e, d') -> ID p <> 0 ->
    rows d' = match e with None => delete (ID p) (rows d) | Some _ => rows d end
}.

(** ** The store's methods *)

Section Store.
Context `{Gorm}.

Definition GetPeerByMachineID (d : DB) (machineID : string) : option Peer :=
  match gorm_first_machine d machineID with Ok p => Some p | Err _ => None end.

Definition GetPeers (d : DB) : result string (list Peer) :=
  match gorm_find d with Ok ps => Ok ps | Err e => Err e end.

Definition db_GetConnectedPeers (d : DB) : result string (list Peer) :=
  match gorm_find_connected d true with Ok ps => Ok ps | Err e => Err e end.

Definition GetPeerbyID (d : DB) (id : Z) : option Peer :=
  match gorm_first_id d id with Ok p => Some p | Err _ => None end.

Definition SetPeerConnected (now : Z) (d : DB) (p : Peer) (connected : bool) :
    option string * Peer * DB :=
  gorm_update_connected now d p connected.

Definition UpdatePeerEndpoint (now : Z) (d : DB) (id : Z) (endpoint : string) :
    option string * DB :=
  let '(e, _, d') := gorm_update_endpoint now d (zeroPeer <| ID := id |>) endpoint in (e, d').

Definition UpdatePeer (now : Z) (d : DB) (p : Peer) : option string * Peer * DB :=
  gorm_updates now d p.

Definition CreatePeer (now : Z) (d : DB) (p : Peer) : option string * Peer * DB :=
  gorm_create now d p.

Definition db_DeletePeer (d : DB) (p : Peer) : option string * DB := gorm_delete d p.
End Store.

(** ** What the methods mean on the rows *)

Section StoreLemmas.
Context `{GormLaws}.
Implicit Types (d : DB) (p : Peer).

Lemma GetPeerByMachineID_row d m p :
  GetPeerByMachineID d m = Some p -> rows d !! ID p = Some p /\ MachineID p = m.
Proof.
  unfold GetPeerByMachineID. destruct (gorm_first_machine d m) eqn:E; [|done].
  intros [= <-]. by apply first_machine_found in E.
Qed.

Lemma GetPeerByMachineID_missing d m :
  (forall i p, rows d !! i = Some p -> MachineID p <> m) -> GetPeerByMachineID d m = None.
Proof.
  intros Hno. unfold GetPeerByMachineID.
  by destruct (first_machine_missing d m Hno) as [e ->].
Qed.

Lemma GetPeerbyID_row d i p : GetPeerbyID d i = Some p -> rows d !! i = Some p /\ ID p = i.
Proof.
  unfold GetPeerbyID. destruct (gorm_first_id d i) eqn:E; [|done].
  intros [= <-]. apply first_id_found in E. eauto using rows_key.
Qed.

Lemma GetPeerbyID_missing d i : rows d !! i = None -> GetPeerbyID d i = None.
Proof.
  intros Hno. unfold GetPeerbyID. by destruct (first_id_missing d i Hno) as [e ->].
Qed.

Lemma GetConnectedPeers_rows d ps :
  db_GetConnectedPeers d = Ok ps ->
  NoDup ps /\ forall p, p ∈ ps <-> rows d !! ID p = Some p /\ Connected p = true.
Proof.
  unfold db_GetConnectedPeers. destruct (gorm_find_connected d true) eqn:E; [|done].
  intros [= <-]. by apply find_connected_rows.
Qed.

Lemma SetPeerConnected_rows now d p v e p' d' :
  SetPeerConnected now d p v = (e, p', d') -> ID p <> 0 ->
  rows d' = match e with
            | None => alter (fun r => r <| Connected := v |> <| UpdatedAt := now |>) (ID p) (rows d)
            | Some _ => rows d
            end /\ ID p' = ID p.
Proof. apply update_connected_rows. Qed.

Lemma UpdatePeerEndpoint_rows now d i s e d' :
  UpdatePeerEndpoint now d i s = (e, d') -> i <> 0 ->
  rows d' = match e with
            | None => alter (fun r => r <| Endpoint := s |> <| UpdatedAt := now |>) i (rows d)
            | Some _ => rows d
            end.
Proof.
  unfold UpdatePeerEndpoint. destruct (gorm_update_endpoint _ _ _ _) as [[e1 p1] d1] eqn:E.
  intros [= <- <-] Hi. by eapply update_endpoint_rows in E as [? _].
Qed.
End StoreLemmas.
