(* ===== verification/MemStore.v ===== *)
(** A table in memory that satisfies the laws of [Store.GormLaws]: the instance the concrete
    runs of the development use.  It models no code of the repository. *)

From S2P Require Import Prelude Types Store.

Abbreviation table := (list Peer).
Definition table_rows (d : table) : gmap Z Peer := list_to_map ((fun p => (ID p, p)) <$> d).
Definition table_all (d : table) : list Peer := (map_to_list (table_rows d)).*2.
Definition first_where (f : Peer -> bool) (d : table) : result string Peer :=
  match filter (fun p => f p = true) (table_all d) with
  | p :: _ => Ok p
  | [] => Err "record not found"
  end.
Definition table_alter (f : Peer -> Peer) (i : Z) (d : table) : table :=
  (fun r => if bool_decide (ID r = i) then f r else r) <$> d.
Definition table_next (d : table) : Z := foldr (fun p n => Z.max (ID p + 1) n) 1 d.

#[export] Instance mem_gorm : Gorm := {|
  DB := table;
  gorm_first_machine d m := first_where (fun p => bool_decide (MachineID p = m)) d;
  gorm_first_id d i := first_where (fun p => bool_decide (ID p = i)) d;
  gorm_find d := Ok (table_all d);
  gorm_find_connected d v := Ok (filter (fun p => Connected p = v) (table_all d));
  gorm_pluck_ip d := Ok (IP <$> table_all d);
  gorm_update_connected now d p v :=
    (None, p <| Connected := v |> <| UpdatedAt := now |>,
     table_alter (fun r => r <| Connected := v |> <| UpdatedAt := now |>) (ID p) d);
  gorm_update_endpoint now d p s :=
    (None, p <| Endpoint := s |> <| UpdatedAt := now |>,
     table_alter (fun r => r <| Endpoint := s |> <| UpdatedAt := now |>) (ID p) d);
  gorm_updates now d p := (None, p <| UpdatedAt := now |>, table_alter (merge_nonzero now p) (ID p) d);
  gorm_create now d p :=
    if bool_decide (IP p ∈ IP <$> table_all d) then (Some "UNIQUE constraint failed: peers.ip"%string, p, d)
    else
      let p' := p <| ID := table_next d |> <| CreatedAt := now |> <| UpdatedAt := now |> in
      (None, p', p' :: d);
  gorm_delete d p := (None, filter (fun r => ID r <> ID p) d)
|}.

Lemma table_rows_cons p d : table_rows (p :: d) = <[ID p := p]> (table_rows d).
Proof. done. Qed.

Lemma table_rows_key d i p : table_rows d !! i = Some p -> ID p = i.
Proof.
  intros Hp. apply elem_of_list_to_map_2 in Hp.
  by apply list_elem_of_fmap in Hp as (q & [= -> ->] & _).
Qed.

Lemma table_all_elem d p : p ∈ table_all d <-> table_rows d !! ID p = Some p.
Proof.
  unfold table_all. rewrite list_elem_of_fmap. split.
  - intros ([i q] & -> & Hq). apply elem_of_map_to_list in Hq.
    cbn. by rewrite (table_rows_key _ _ _ Hq).
  - intros Hp. exists (ID p, p). split; [done|]. by apply elem_of_map_to_list.
Qed.

Lemma table_all_nodup d : NoDup (table_all d).
Proof.
  unfold table_all. apply NoDup_fmap_2_strong; [|apply NoDup_map_to_list].
  intros [i p] [j q] Hi Hj E. cbn in E. subst q.
  apply elem_of_map_to_list in Hi, Hj. apply table_rows_key in Hi, Hj. congruence.
Qed.

Lemma table_alter_rows f i d :
  (forall r, ID (f r) = ID r) -> table_rows (table_alter f i d) = alter f i (table_rows d).
Proof.
  intros Hf. induction d as [|p d IH]; [done|].
  unfold table_alter in *. rewrite fmap_cons, !table_rows_cons, IH.
  case_bool_decide as E.
  - subst i. by rewrite Hf, alter_insert_eq, insert_alter_eq.
  - by rewrite gmap_alter_insert_ne by congruence.
Qed.

Lemma table_filter_rows i d :
  table_rows (filter (fun r => ID r <> i) d) = delete i (table_rows d).
Proof.
  induction d as [|p d IH]; [symmetry; apply (delete_empty (M := gmap Z))|].
  rewrite filter_cons, table_rows_cons. case_decide as E.
  - rewrite table_rows_cons, IH. by rewrite delete_insert_ne by congruence.
  - subst i. rewrite IH. by rewrite delete_insert_eq.
Qed.

Lemma first_where_found f d p : first_where f d = Ok p -> table_rows d !! ID p = Some p /\ f p = true.
Proof.
  unfold first_where. destruct (filter _ _) as [|q l] eqn:E; [done|]. intros [= <-].
  assert (Hq : q ∈ filter (fun p => f p = true) (table_all d)) by (rewrite E; left).
  apply list_elem_of_filter in Hq as [? ?]. by rewrite <- table_all_elem.
Qed.

Lemma first_where_missing f d :
  (forall i p, table_rows d !! i = Some p -> f p = false) -> exists e, first_where f d = Err e.
Proof.
  intros Hno. unfold first_where. destruct (filter _ _) as [|q l] eqn:E; [eauto|].
  assert (Hq : q ∈ filter (fun p => f p = true) (table_all d)) by (rewrite E; left).
  apply list_elem_of_filter in Hq as [Hf Hq]. apply table_all_elem in Hq.
  apply Hno in Hq. congruence.
Qed.

Lemma table_next_fresh d : 1 <= table_next d /\ table_rows d !! table_next d = None.
Proof.
  assert (H : 1 <= table_next d /\ forall p, p ∈ d -> ID p < table_next d).
  { unfold table_next. induction d as [|p d [IH1 IH2]]; cbn [foldr].
    - split; [done|]. by intros ? ?%not_elem_of_nil.
    - split; [lia|]. intros q [->|Hq]%elem_of_cons; [lia|]. specialize (IH2 q Hq). lia. }
  destruct H as [H1 H2]. split; [done|]. destruct (table_rows d !! table_next d) as [p|] eqn:E; [|done].
  pose proof (table_rows_key _ _ _ E) as K. apply elem_of_list_to_map_2 in E.
  apply list_elem_of_fmap in E as (q & [= _ ->] & Hq). apply H2 in Hq. lia.
Qed.

#[export] Instance mem_gorm_laws : GormLaws.
Proof.
  refine {| rows := table_rows |}.
  - apply table_rows_key.
  - intros d m p Hp. apply first_where_found in Hp as [? Hm].
    by apply bool_decide_eq_true in Hm.
  - intros d m Hno. apply first_where_missing. intros i p Hp.
    apply bool_decide_eq_false. eauto.
  - intros d i p Hp. apply first_where_found in Hp as [? Hm].
    apply bool_decide_eq_true in Hm. by subst i.
  - intros d i Hno. apply first_where_missing. intros j p Hp.
    apply bool_decide_eq_false. intros <-. pose proof (table_rows_key _ _ _ Hp). congruence.
  - intros d ps [= <-]. split; [apply table_all_nodup|apply table_all_elem].
  - intros d v ps [= <-]. split; [apply list.NoDup_filter, table_all_nodup|].
    intros p. rewrite list_elem_of_filter, table_all_elem. tauto.
  - intros d ips [= <-] s. rewrite list_elem_of_fmap. split.
    + intros (p & -> & Hp). apply table_all_elem in Hp. eauto.
    + intros (i & p & Hp & <-). exists p. split; [done|]. apply table_all_elem.
      by rewrite (table_rows_key _ _ _ Hp).
  - intros now d p v e p' d' [= <- <- <-] _. split; [by apply table_alter_rows|done].
  - intros now d p v e p' d' [= <- <- <-] _. split; [by apply table_alter_rows|done].
  - intros now d p e p' d' [= <- <- <-] _. split_and!; try done. by apply table_alter_rows.
  - intros now d p e p' d' Hc _. cbn in Hc. case_bool_decide as Hin; simplify_eq; [done|].
    destruct (table_next_fresh d) as [Hn Hf]. split_and!; try done; [cbn; lia|].
    intros i r Hr E. apply Hin. rewrite <- E. apply list_elem_of_fmap. exists r. split; [done|].
    apply table_all_elem. by rewrite (table_rows_key _ _ _ Hr).
  - intros d p e d' [= <- <-] _. apply table_filter_rows.
Defined.
