(* ===== verification/Ipam.v ===== *)
(** Address allocation: controller/db/ipam.go, over an interface to go4.org/netipx.

    netipx is third-party code: [NetipX] has the calls, [NetipXLaws] their documentation on
    IPv4 ([RangeOfPrefix] is the inclusive range the prefix covers, a built [IPSet] contains
    exactly the addresses that were added). *)

From S2P Require Import Prelude GoStd Netip Types Store MemStore.

Class NetipX : Type := {
  IPSet : Type;
  RangeOfPrefix : Prefix -> Addr * Addr;
  build_ipset : list Addr -> result string IPSet;
  ipset_contains : IPSet -> Addr -> bool
}.

Definition is4 (a : Addr) : Prop := match a with Addr4 n => u32 n | _ => False end.
#[export] Instance is4_dec a : Decision (is4 a).
Proof. destruct a; cbn; unfold u32; apply _. Defined.

(** An IPv4 prefix: its base address, and the first and last address it covers. *)
Definition prefix4 (p : Prefix) : Prop := is4 (p_addr p) /\ 0 <= p_bits p <= 32.
Definition net_num (p : Prefix) : Z := mask_num (addr_num (p_addr p)) 32 (p_bits p).
Definition bcast_num (p : Prefix) : Z := net_num p + 2 ^ (32 - p_bits p) - 1.

Class NetipXLaws `{NetipX} : Prop := {
  range_of_prefix4 p : prefix4 p -> RangeOfPrefix p = (Addr4 (net_num p), Addr4 (bcast_num p));
  ipset_built l : Forall is4 l ->
    exists s, build_ipset l = Ok s /\ forall a, ipset_contains s a = bool_decide (a ∈ l)
}.

(** ** The allocator *)

Section Ipam.
Context `{Gorm, NetipX}.

(** Every address in the [ip] column that parses; the others are skipped. *)
Definition GetAllocatedIPs (d : DB) : result string (list Addr) :=
  match gorm_pluck_ip d with
  | Err e => Err e
  | Ok ips => Ok (omap parse_addr ips)
  end.

(** The loop [for { if ipSet.Contains(addr) { addr = addr.Next(); continue }; break }];
    [None] when the fuel runs out first. *)
Fixpoint next_free (fuel : nat) (s : IPSet) (a : Addr) : option Addr :=
  if ipset_contains s a then
    match fuel with
    | O => None
    | S fuel' => next_free fuel' s (Next a)
    end
  else Some a.

(** The fuel is the number of addresses added to the set: the loop leaves it after as many
    rounds at most. [None] is a loop that does not end. *)
Definition AllocatePeerIP (d : DB) (prefix : Prefix) : option (result string string) :=
  match GetAllocatedIPs d with
  | Err _ => Some (Err "error retrieving allocated IPs from store")
  | Ok allocatedIPs =>
      let '(net, bcast) := RangeOfPrefix prefix in
      let added := net :: bcast :: allocatedIPs in
      match build_ipset added with
      | Err _ => Some (Err "error building IP set")
      | Ok ipSet =>
          match next_free (length added) ipSet (p_addr prefix) with
          | Some addr => Some (Ok (addr_string addr))
          | None => None
          end
      end
  end.
End Ipam.

(** ** The loop finds the first free address *)

(** Addresses from [start] on, in the order [Next] walks them: the zero [Addr] ends the walk. *)
Definition addr_from (start : Z) (k : nat) : Addr :=
  if bool_decide (start + Z.of_nat k < 2 ^ 32) then Addr4 (start + Z.of_nat k) else AddrZero.

Lemma addr_from_0 n : u32 n -> addr_from n 0 = Addr4 n.
Proof. unfold u32, addr_from. intros. rewrite bool_decide_true by lia. f_equal. lia. Qed.

Lemma Next_addr_from n k : u32 n -> Next (addr_from n k) = addr_from n (S k).
Proof.
  unfold u32, addr_from. intros Hn. case_bool_decide as E.
  - cbn [Next]. repeat case_bool_decide; try lia; [done|]. f_equal. lia.
  - rewrite bool_decide_false by lia. done.
Qed.

Section NextFree.
Context `{NetipXLaws}.

Lemma next_free_spec fuel s n k0 :
  u32 n ->
  match next_free fuel s (addr_from n k0) with
  | Some a => exists k, (k0 <= k)%nat /\ a = addr_from n k /\ ipset_contains s a = false /\
                        forall j, (k0 <= j < k)%nat -> ipset_contains s (addr_from n j) = true
  | None => forall j, (k0 <= j <= k0 + fuel)%nat -> ipset_contains s (addr_from n j) = true
  end.
Proof.
  intros Hn. revert k0. induction fuel as [|fuel IH]; intros k0; cbn [next_free].
  - destruct (ipset_contains s (addr_from n k0)) eqn:E.
    + intros j Hj. by replace j with k0 by lia.
    + exists k0. split_and!; [lia|done|done|lia].
  - destruct (ipset_contains s (addr_from n k0)) eqn:E.
    + rewrite Next_addr_from by done. specialize (IH (S k0)).
      destruct (next_free fuel s (addr_from n (S k0))) as [a|].
      * destruct IH as (k & Hk & -> & Hc & Hall). exists k. split_and!; [lia|done|done|].
        intros j Hj. destruct (decide (j = k0)) as [->|]; [done|]. apply Hall. lia.
      * intros j Hj. destruct (decide (j = k0)) as [->|]; [done|]. apply IH. lia.
    + exists k0. split_and!; [lia|done|done|lia].
Qed.

(** Pigeonhole: among [length l + 1] consecutive addresses one is not in [l]. *)
Lemma next_free_ends l s n :
  u32 n -> Forall is4 l -> (forall a, ipset_contains s a = bool_decide (a ∈ l)) ->
  exists a, next_free (length l) s (Addr4 n) = Some a.
Proof.
  intros Hn Hl Hs. rewrite <- addr_from_0 by done.
  pose proof (next_free_spec (length l) s n 0 Hn) as Hspec.
  destruct (next_free _ _ _) as [a|]; [eauto|exfalso].
  assert (Hin : forall j, (j <= length l)%nat -> addr_from n j ∈ l).
  { intros j Hj. specialize (Hspec j ltac:(lia)). rewrite Hs in Hspec.
    by apply bool_decide_eq_true in Hspec. }
  assert (Hlt : forall j, (j <= length l)%nat -> n + Z.of_nat j < 2 ^ 32).
  { intros j Hj. specialize (Hin j Hj). unfold addr_from in Hin.
    case_bool_decide; [done|]. rewrite list.Forall_forall in Hl.
    apply Hl in Hin. done. }
  assert (Hsub : addr_from n <$> seq 0 (S (length l)) ⊆ l).
  { intros a (j & -> & Hj%elem_of_seq)%list_elem_of_fmap. apply Hin. lia. }
  assert (Hnd : NoDup (addr_from n <$> seq 0 (S (length l)))).
  { apply NoDup_fmap_2_strong; [|apply NoDup_seq].
    intros i j Hi%elem_of_seq Hj%elem_of_seq. unfold addr_from.
    rewrite !bool_decide_true by (apply Hlt; lia). intros [= E]. lia. }
  pose proof (NoDup_submseteq _ _ Hnd Hsub) as Hsm. apply submseteq_length in Hsm.
  rewrite length_fmap, length_seq in Hsm. lia.
Qed.
End NextFree.

(** ** Concrete netipx for the runs *)

#[export] Instance list_netipx : NetipX := {|
  IPSet := list Addr;
  RangeOfPrefix p := (Addr4 (net_num p), Addr4 (bcast_num p));
  build_ipset l := Ok l;
  ipset_contains s a := bool_decide (a ∈ s)
|}.
#[export] Instance list_netipx_laws : NetipXLaws.
Proof. split; [done|]. intros l _. by exists l. Qed.

(** ** What the allocator hands out *)

(** Membership in an IPv4 prefix is lying between its first and last address. *)
Lemma Contains4 p m :
  prefix4 p -> u32 m -> Contains p (Addr4 m) = true <-> net_num p <= m <= bcast_num p.
Proof.
  intros [Ha Hb] Hm. unfold is4 in Ha. unfold Contains, bcast_num, net_num, mask_num.
  destruct (p_addr p) as [|n|]; [done| |done]. cbn [addr_num].
  rewrite bool_decide_true by done. cbn [andb]. rewrite bool_decide_eq_true.
  set (k := 32 - p_bits p) in *. assert (Hk : 0 <= k) by lia.
  rewrite Z.shiftr_lxor, Z.lxor_eq_0_iff by done.
  rewrite !Z.shiftr_div_pow2, Z.shiftl_mul_pow2 by done.
  assert (0 < 2 ^ k) by (apply Z.pow_pos_nonneg; lia).
  pose proof (Z.div_mod m (2 ^ k) ltac:(lia)) as E.
  pose proof (Z.mod_pos_bound m (2 ^ k) ltac:(lia)) as B.
  set (K := 2 ^ k) in *. clearbody K.
  split.
  - intros <-. lia.
  - intros HLU. clear E B. generalize dependent (n / K). intros q HLU.
    symmetry. apply Z.div_unique with (m - q * K); lia.
Qed.

Section Alloc.
Context `{GormLaws, NetipXLaws}.
Implicit Types (d : DB) (p : Prefix) (n : Z).

(** The rows' addresses that parse are IPv4 addresses. *)
Definition rows4 d : Prop :=
  forall i r a, rows d !! i = Some r -> parse_addr (IP r) = Some a -> is4 a.
Definition taken d p n : Prop :=
  n = net_num p \/ n = bcast_num p \/
  exists i r, rows d !! i = Some r /\ parse_addr (IP r) = Some (Addr4 n).

Lemma GetAllocatedIPs_elem d l a :
  GetAllocatedIPs d = Ok l ->
  a ∈ l <-> exists i r, rows d !! i = Some r /\ parse_addr (IP r) = Some a.
Proof.
  unfold GetAllocatedIPs. destruct (gorm_pluck_ip d) as [ips|] eqn:E; [|done].
  intros [= <-]. rewrite list_elem_of_omap. pose proof (pluck_ip_rows d ips E) as Hips.
  split.
  - intros (s & Hs & Hp). apply Hips in Hs as (i & r & Hr & <-). eauto.
  - intros (i & r & Hr & Hp). exists (IP r). split; [|done]. apply Hips. eauto.
Qed.

Lemma net_num_u32 p : prefix4 p -> u32 (net_num p) /\ u32 (bcast_num p).
Proof.
  intros [Ha Hb]. unfold is4 in Ha. unfold bcast_num, net_num, mask_num, u32 in *.
  destruct (p_addr p) as [|n|]; [done| |done]. cbn [addr_num].
  set (k := 32 - p_bits p) in *. assert (Hk : 0 <= k <= 32) by lia.
  rewrite Z.shiftr_div_pow2, Z.shiftl_mul_pow2 by lia.
  assert (0 < 2 ^ k) by (apply Z.pow_pos_nonneg; lia).
  assert (0 <= n / 2 ^ k) by (apply Z.div_pos; lia).
  assert (n / 2 ^ k + 1 <= 2 ^ (32 - k)); [|].
  { assert (n / 2 ^ k < 2 ^ (32 - k)); [|lia]. apply Z.div_lt_upper_bound; [lia|].
    rewrite <- Z.pow_add_r by lia. replace (k + (32 - k)) with 32 by lia. lia. }
  assert (2 ^ (32 - k) * 2 ^ k = 2 ^ 32).
  { rewrite <- Z.pow_add_r by lia. by replace (32 - k + k) with 32 by lia. }
  nia.
Qed.

(** The allocator walks up from the prefix's base address and stops at the first address
    that is not taken. *)
Lemma AllocatePeerIP_walk d p start ips :
  prefix4 p -> p_addr p = Addr4 start -> rows4 d -> gorm_pluck_ip d = Ok ips ->
  exists k, AllocatePeerIP d p = Some (Ok (addr_string (addr_from start k))) /\
    (forall j, (j < k)%nat -> start + Z.of_nat j < 2 ^ 32 /\ taken d p (start + Z.of_nat j)) /\
    (start + Z.of_nat k < 2 ^ 32 -> ~ taken d p (start + Z.of_nat k)).
Proof.
  intros Hp Hstart H4 Hips. unfold AllocatePeerIP.
  destruct (GetAllocatedIPs d) as [l|] eqn:El.
  2: { unfold GetAllocatedIPs in El. by rewrite Hips in El. }
  rewrite range_of_prefix4 by done.
  set (added := Addr4 (net_num p) :: Addr4 (bcast_num p) :: l).
  assert (Hn : u32 start) by (destruct Hp as [Ha _]; by rewrite Hstart in Ha).
  assert (Hadded : Forall is4 added).
  { destruct (net_num_u32 p Hp). constructor; [done|]. constructor; [done|].
    apply list.Forall_forall. intros a Ha.
    apply (GetAllocatedIPs_elem d l a El) in Ha as (i & r & Hr & Hpr). by eapply H4. }
  assert (Htaken : forall n, Addr4 n ∈ added <-> taken d p n).
  { intros n. unfold added, taken. rewrite !elem_of_cons, (GetAllocatedIPs_elem d l _ El).
    assert (Hinj : forall m, Addr4 n = Addr4 m <-> n = m) by (intros; split; congruence).
    by rewrite !Hinj. }
  destruct (ipset_built added Hadded) as (s & -> & Hs). rewrite Hstart.
  pose proof (next_free_ends added s start Hn Hadded Hs) as [a Ha].
  pose proof (next_free_spec (length added) s start 0 Hn) as Hspec.
  rewrite addr_from_0, Ha in Hspec by done. rewrite Ha.
  destruct Hspec as (k & _ & -> & Hfree & Hbefore). exists k. split_and!; [done| |].
  - intros j Hj. specialize (Hbefore j ltac:(lia)). rewrite Hs in Hbefore.
    apply bool_decide_eq_true in Hbefore. unfold addr_from in Hbefore.
    case_bool_decide; [split; [done|by apply Htaken]|].
    rewrite list.Forall_forall in Hadded. by apply Hadded in Hbefore.
  - intros Hlt. rewrite Hs in Hfree. apply bool_decide_eq_false in Hfree.
    unfold addr_from in Hfree. rewrite bool_decide_true in Hfree by done.
    by rewrite <- Htaken.
Qed.

Lemma net_le_start p start : prefix4 p -> p_addr p = Addr4 start -> net_num p <= start.
Proof.
  intros [Ha Hb] Hstart. unfold net_num, mask_num. rewrite Hstart. cbn [addr_num].
  rewrite Z.shiftr_div_pow2, Z.shiftl_mul_pow2 by lia.
  pose proof (Z.mul_div_le start (2 ^ (32 - p_bits p))).
  assert (0 < 2 ^ (32 - p_bits p)) by (apply Z.pow_pos_nonneg; lia). lia.
Qed.

(** While the prefix has a free address, the allocated one is an address of the prefix. *)
Lemma AllocatePeerIP_within d p start ips n :
  prefix4 p -> p_addr p = Addr4 start -> rows4 d -> gorm_pluck_ip d = Ok ips ->
  start <= n <= bcast_num p -> ~ taken d p n ->
  exists a, u32 a /\ net_num p <= a <= bcast_num p /\ AllocatePeerIP d p = Some (Ok (addr_string (Addr4 a))).
Proof.
  intros Hp Hstart H4 Hio Hr Hnt.
  destruct (AllocatePeerIP_walk d p start ips Hp Hstart H4 Hio) as (k & E & Hbefore & _).
  pose proof (net_le_start p start Hp Hstart) as Hnet. destruct (net_num_u32 p Hp) as [Hn0 Hbc].
  assert (Hk : start + Z.of_nat k <= n).
  { destruct (Z_le_gt_dec (start + Z.of_nat k) n); [done|exfalso].
    apply Hnt. replace n with (start + Z.of_nat (Z.to_nat (n - start))) by lia. apply Hbefore. lia. }
  unfold u32 in *. exists (start + Z.of_nat k). split_and!; try lia.
  rewrite E. unfold addr_from. by rewrite bool_decide_true by lia.
Qed.

(** C5. The allocator always terminates, and unless the address space above the prefix is
    used up it hands out the least address from the prefix's base on that is neither the
    network nor the broadcast address nor the address of a registered peer: in particular
    no peer has its text, so the unique index accepts the new peer. *)
Theorem alloc_least_free d p start ips
    (Hp : prefix4 p) (Hstart : p_addr p = Addr4 start) (H4 : rows4 d)
    (Hio : gorm_pluck_ip d = Ok ips) :
  exists a, AllocatePeerIP d p = Some (Ok (addr_string a)) /\
    (a = AddrZero /\ (forall m, start <= m < 2 ^ 32 -> taken d p m) \/
     exists n, a = Addr4 n /\ start <= n < 2 ^ 32 /\ ~ taken d p n /\
       (forall m, start <= m < n -> taken d p m) /\
       (forall i r, rows d !! i = Some r -> IP r <> addr_string (Addr4 n))).
Proof.
  assert (Hn : u32 start) by (destruct Hp as [Ha _]; by rewrite Hstart in Ha).
  destruct (AllocatePeerIP_walk d p start ips Hp Hstart H4 Hio) as (k & -> & Hbefore & Hfree).
  exists (addr_from start k). split; [done|]. unfold addr_from, u32 in *.
  case_bool_decide as Hk.
  - right. exists (start + Z.of_nat k). specialize (Hfree Hk).
    split_and!; [done|lia|done|done| |].
    + intros m Hm. replace m with (start + Z.of_nat (Z.to_nat (m - start))) by lia.
      apply Hbefore. lia.
    + intros i r Hr E. apply Hfree. right; right. exists i, r. split; [done|].
      rewrite E. apply parse_addr_string4. unfold u32. lia.
  - left. split; [done|]. intros m Hm.
    replace m with (start + Z.of_nat (Z.to_nat (m - start))) by lia. apply Hbefore. lia.
Qed.

(** C6. The allocator does not stop at the end of the network: the address it hands out
    lies in the prefix exactly when some host address from the base on is still free. When
    the network is full a new peer gets an address outside of it, not an error. *)
Theorem alloc_in_prefix_iff d p start ips
    (Hp : prefix4 p) (Hstart : p_addr p = Addr4 start) (H4 : rows4 d)
    (Hio : gorm_pluck_ip d = Ok ips) :
  exists a, AllocatePeerIP d p = Some (Ok (addr_string a)) /\
    (Contains p a = true <-> exists n, start <= n <= bcast_num p /\ ~ taken d p n).
Proof.
  assert (Hn : u32 start) by (destruct Hp as [Ha _]; by rewrite Hstart in Ha).
  destruct (AllocatePeerIP_walk d p start ips Hp Hstart H4 Hio) as (k & -> & Hbefore & Hfree).
  exists (addr_from start k). split; [done|].
  pose proof (net_le_start p start Hp Hstart) as Hnet.
  destruct (net_num_u32 p Hp) as [_ Hbc].
  assert (Hfirst : forall n, start <= n < 2 ^ 32 -> ~ taken d p n -> start + Z.of_nat k <= n).
  { intros n Hr Hnt. destruct (Z_le_gt_dec (start + Z.of_nat k) n); [done|exfalso].
    apply Hnt. replace n with (start + Z.of_nat (Z.to_nat (n - start))) by lia.
    apply Hbefore. lia. }
  unfold addr_from, u32 in *. case_bool_decide as Hk.
  - rewrite Contains4 by (done || (unfold u32; lia)). split.
    + intros [_ Hle]. exists (start + Z.of_nat k). split; [lia|auto].
    + intros (n & Hr & Hnt). specialize (Hfirst n ltac:(lia) Hnt). lia.
  - split; [unfold Contains; by destruct (p_addr p)|]. intros (n & Hr & Hnt).
    specialize (Hfirst n ltac:(lia) Hnt). lia.
Qed.
End Alloc.

(** A table of one peer, at the network's only host address but one. *)
Definition alloc_table : @DB mem_gorm := [zeroPeer <| ID := 1 |> <| IP := "100.70.0.1"%string |>].
Lemma alloc_table_rows4 : rows4 alloc_table.
Proof.
  intros i r a Hr Ha. cbn in Hr. unfold alloc_table, table_rows in Hr. cbn in Hr.
  apply lookup_insert_Some in Hr as [[_ <-]|[_ Hr]]; [|by rewrite lookup_empty in Hr].
  vm_compute in Ha. injection Ha as <-. cbn. unfold u32. lia.
Qed.

Lemma alloc_least_free_witness :
  exists a, AllocatePeerIP alloc_table (mkPrefix (Addr4 0x64460000) 24) = Some (Ok (addr_string a)) /\
    (a = AddrZero /\ (forall m, 0x64460000 <= m < 2 ^ 32 -> taken alloc_table (mkPrefix (Addr4 0x64460000) 24) m) \/
     exists n, a = Addr4 n /\ 0x64460000 <= n < 2 ^ 32 /\ ~ taken alloc_table (mkPrefix (Addr4 0x64460000) 24) n /\
       (forall m, 0x64460000 <= m < n -> taken alloc_table (mkPrefix (Addr4 0x64460000) 24) m) /\
       (forall i r, rows alloc_table !! i = Some r -> IP r <> addr_string (Addr4 n))).
Proof.
  apply (alloc_least_free alloc_table (mkPrefix (Addr4 0x64460000) 24) 0x64460000 ["100.70.0.1"%string]);
    [by_compute|reflexivity|apply alloc_table_rows4|reflexivity].
Defined.

Lemma alloc_in_prefix_iff_witness :
  exists a, AllocatePeerIP alloc_table (mkPrefix (Addr4 0x64460000) 31) = Some (Ok (addr_string a)) /\
    (Contains (mkPrefix (Addr4 0x64460000) 31) a = true <->
     exists n, 0x64460000 <= n <= bcast_num (mkPrefix (Addr4 0x64460000) 31) /\
               ~ taken alloc_table (mkPrefix (Addr4 0x64460000) 31) n).
Proof.
  apply (alloc_in_prefix_iff alloc_table (mkPrefix (Addr4 0x64460000) 31) 0x64460000 ["100.70.0.1"%string]);
    [by_compute|reflexivity|apply alloc_table_rows4|reflexivity].
Defined.

(** The three allocations of controller/db/ipam_test.go. *)
Definition test_peers (n : nat) : @DB mem_gorm :=
  (fun i => zeroPeer <| ID := Z.of_nat i |> <| IP := "100.70.0." +:+ itoa (Z.of_nat i) |>) <$> seq 1 n.
Example alloc_tests :
  AllocatePeerIP (test_peers 0) (mkPrefix (Addr4 0x64460000) 24) = Some (Ok "100.70.0.1"%string) /\
  AllocatePeerIP (test_peers 1) (mkPrefix (Addr4 0x64460000) 24) = Some (Ok "100.70.0.2"%string) /\
  AllocatePeerIP (test_peers 253) (mkPrefix (Addr4 0x64460000) 24) = Some (Ok "100.70.0.254"%string) /\
  AllocatePeerIP (test_peers 254) (mkPrefix (Addr4 0x64460000) 24) = Some (Ok "100.70.1.0"%string).
Proof. vm_compute. done. Qed.
