(* ===== verification/Auth.v ===== *)
(** The controller's token validator and its user cache: controller/auth/oauth.go.

    JWT parsing with the identity provider's keys (keyfunc, golang-jwt), the HTTP call to
    its userinfo endpoint and the JSON decoding of the answer are parameters: class [IdP]. *)

From S2P Require Import Prelude Float64 GoTime.

Record UserInfo : Type := mkUserInfo {
  Name : string; GivenName : string; FamilyName : string; Email : string; Nickname : string;
  InfoUpdatedAt : Z
}.
#[export] Instance UserInfo_rebuild : Rebuild UserInfo := {| rebuild := fun u =>
  mkUserInfo (Name u) (GivenName u) (FamilyName u) (Email u) (Nickname u) (InfoUpdatedAt u) |}.

(** [now] is the reading of [time.Now]. *)
Definition NeedsRefresh (now : Z) (u : UserInfo) : bool :=
  let duration := Sub now (InfoUpdatedAt u) in
  let hours := Hours duration in
  fge hours (inject_Z 1).

Record OpenIDConfig : Type := mkOpenIDConfig {
  Issuer : string; AuthEndpoint : string; TokenEndpoint : string; JWKSEndpoint : string;
  Scopes : list string; IdClaims : list string; UserInfoEndpoint : string
}.

(** The immutable part of the validator; its cache is passed along. *)
Record TokenValidator : Type := mkTokenValidator {
  config : OpenIDConfig; clientID : string; audience : string; redirectUri : string
}.

(** What the code reads of a parsed [*jwt.Token]. *)
Record Token : Type := mkToken {
  Raw : string; Valid : bool;
  GetSubject : result string string;
  GetAudience : result string (list string)
}.

Record PKCEInfo : Type := mkPKCEInfo {
  PClientId : string; PAuthEndpoint : string; PTokenEndpoint : string; PRedirectUri : string;
  PAudience : string
}.

Class IdP : Type := {
  (** [jwt.Parse(token, kf.Keyfunc)] at a given time. *)
  jwt_parse : Z -> string -> result string Token;
  (** [GET url] with an [Authorization] header: the body, or a transport error. *)
  http_get : Z -> string -> string -> result string string;
  (** [json.Decode] into the tagged fields of [UserInfo], here without [UpdatedAt]. *)
  json_userinfo : string -> result string (string * string * string * string * string)
}.

Abbreviation UserCache := (gmap string UserInfo).

Section Validator.
Context {idp : IdP}.
Implicit Types (now : Z) (t : TokenValidator) (cache : UserCache).

(** The cache sweep [userInfoCacheRoutine] runs at every tick of its timer. *)
Definition sweep now cache : UserCache :=
  filter (fun kv => NeedsRefresh now kv.2 = false) cache.

(** One turn of the goroutine: the context is done, or the timer has fired, after which the
    sweep runs and the timer is set again. The result is the cache and the next wait, or the
    goroutine's end. *)
Inductive CacheEvent : Type := CtxDone | TimerFired.
Definition userInfoCacheRoutine_turn (ev : CacheEvent) now cache : option (UserCache * Z) :=
  match ev with CtxDone => None | TimerFired => Some (sweep now cache, 5 * 60 * Second) end.

(** [UpdatedAt] is tagged [json:"-"]: decoding leaves it the zero time. *)
Definition GetUserInfo now t (token : Token) : result string UserInfo :=
  match http_get now (UserInfoEndpoint (config t)) ("Bearer " +:+ Raw token) with
  | Err e => Err e
  | Ok body =>
      match json_userinfo body with
      | Err e => Err e
      | Ok (n, g, f, e, k) => Ok (mkUserInfo n g f e k 0)
      end
  end.

Definition GetUser now t (token : Token) cache : result string string * UserCache :=
  match GetSubject token with
  | Err e => (Err e, cache)
  | Ok sub =>
      match cache !! sub with
      | Some userInfo => (Ok (Email userInfo), cache)
      | None =>
          match GetUserInfo now t token with
          | Err _ => (Err "error retrieving user info from idp userinfo endpoint", cache)
          | Ok userInfo => (Ok (Email userInfo), <[sub := userInfo]> cache)
          end
      end
  end.

Definition validateAudience (aud : string) (token : Token) : option string :=
  match GetAudience token with
  | Err e => Some e
  | Ok audiences => if bool_decide (aud ∈ audiences) then None else Some "invalid audience"%string
  end.

Definition ValidateAccessToken now t (token : string) cache : result string string * UserCache :=
  match jwt_parse now token with
  | Err e => (Err ("error parsing access token: " +:+ e), cache)
  | Ok tok =>
      if negb (Valid tok) then (Err "access token is invalid", cache)
      else
        match validateAudience (audience t) tok with
        | Some e => (Err e, cache)
        | None => GetUser now t tok cache
        end
  end.

Definition GetPKCEAuthInfo t : PKCEInfo :=
  mkPKCEInfo (clientID t) (AuthEndpoint (config t)) (TokenEndpoint (config t)) (redirectUri t)
    (audience t).

Lemma ValidateAccessToken_ok now t token cache user cache' :
  ValidateAccessToken now t token cache = (Ok user, cache') ->
  exists tok auds sub info,
    jwt_parse now token = Ok tok /\ Valid tok = true /\ GetAudience tok = Ok auds /\
    audience t ∈ auds /\ GetSubject tok = Ok sub /\ user = Email info /\
    cache' !! sub = Some info /\
    (cache !! sub = Some info /\ cache' = cache \/
     cache !! sub = None /\ GetUserInfo now t tok = Ok info /\ cache' = <[sub := info]> cache).
Proof.
  unfold ValidateAccessToken, validateAudience, GetUser.
  destruct (jwt_parse now token) as [tok|]; [|done].
  destruct (Valid tok) eqn:Ev; [cbn|done].
  destruct (GetAudience tok) as [auds|] eqn:Ea; [|done].
  case_bool_decide as Hin; [|done].
  destruct (GetSubject tok) as [sub|] eqn:Es; [|done].
  destruct (cache !! sub) as [info|] eqn:Ec.
  - intros [= <- <-]. exists tok, auds, sub, info. split_and!; auto.
  - destruct (GetUserInfo now t tok) as [info|] eqn:Eg; [|done].
    intros [= <- <-]. exists tok, auds, sub, info. split_and!; auto. apply lookup_insert_eq.
Qed.

Lemma ValidateAccessToken_err now t token cache e cache' :
  ValidateAccessToken now t token cache = (Err e, cache') -> cache' = cache.
Proof.
  unfold ValidateAccessToken, GetUser. repeat case_match; intros; simplify_eq; done.
Qed.
End Validator.

(** An hour, exactly. *)
Lemma hours_exact d : fge (Hours d) (inject_Z 1) = true <-> Hour <= d.
Proof.
  unfold fge. rewrite Qle_bool_iff. split.
  - intros Hh. destruct (Z_lt_le_dec d Hour) as [Hlt|]; [exfalso|done].
    pose proof (Hours_upper 1 d ltac:(done) ltac:(lia)) as HU.
    assert (HR : (Hours d < inject_Z 1)%Q); [|apply (Qlt_not_le _ _ HR Hh)].
    eapply Qle_lt_trans; [exact HU|]. by vm_compute.
  - intros Hd. pose proof (Hours_lower 1 d ltac:(done) ltac:(lia)) as HL.
    eapply Qle_trans; [|exact HL]. by apply Qle_bool_iff.
Qed.

(** ** A concrete identity provider *)

(** Tokens are ["user"] texts; every token that is not empty parses, names itself as the
    subject and is meant for ["zeronet"]; the provider answers with the token as email. *)
Definition demo_idp : IdP := {|
  jwt_parse now s :=
    if bool_decide (s = ""%string) then Err "token is malformed"%string
    else Ok (mkToken s true (Ok s) (Ok ["zeronet"%string]));
  http_get now url hdr := Ok hdr;
  json_userinfo body := Ok (""%string, ""%string, ""%string, body, ""%string)
|}.
Definition demo_validator : TokenValidator :=
  mkTokenValidator (mkOpenIDConfig "" "auth" "token" "jwks" [] [] "userinfo") "client" "zeronet" "redirect".

Section AuthTheorems.
Context {idp : IdP}.
Implicit Types (now : Z) (t : TokenValidator) (cache : UserCache).

(** C7. A token is accepted only when it parses under the provider's keys, is valid, is
    meant for this service's audience and names a subject; the user it stands for is the
    email the provider gave for that subject, now or when the cache entry was made. A
    rejected token leaves the cache unchanged. *)
Theorem token_accepted_only_if now t token cache :
  match ValidateAccessToken now t token cache with
  | (Ok user, cache') =>
      exists tok auds sub info,
        jwt_parse now token = Ok tok /\ Valid tok = true /\
        GetAudience tok = Ok auds /\ audience t ∈ auds /\ GetSubject tok = Ok sub /\
        user = Email info /\ cache' !! sub = Some info /\
        (cache !! sub = Some info /\ cache' = cache \/
         cache !! sub = None /\ GetUserInfo now t tok = Ok info /\ cache' = <[sub := info]> cache)
  | (Err _, cache') => cache' = cache
  end.
Proof.
  destruct (ValidateAccessToken now t token cache) as [[user|e] cache'] eqn:E.
  - by apply ValidateAccessToken_ok in E.
  - by apply ValidateAccessToken_err in E.
Qed.

(** Entries that came from the provider, as opposed to ones with a time stamp. *)
Definition fetched cache : Prop := forall k u, cache !! k = Some u -> InfoUpdatedAt u = 0.

Lemma NeedsRefresh_iff now u : NeedsRefresh now u = true <-> Hour <= now - InfoUpdatedAt u.
Proof. unfold NeedsRefresh. cbn zeta. rewrite hours_exact. by apply Sub_ge. Qed.

(** Whatever the validator caches is a fetched entry. *)
Lemma fetched_preserved now t token cache :
  fetched cache -> fetched (ValidateAccessToken now t token cache).2.
Proof.
  intros Hf. destruct (ValidateAccessToken now t token cache) as [[user|e] cache'] eqn:E.
  - apply ValidateAccessToken_ok in E as (tok & auds & sub & info & _ & _ & _ & _ & _ & _ & _ & [[_ ->]|(_ & Hg & ->)]);
      [done|]. cbn. intros k u. rewrite lookup_insert. case_decide; [|apply Hf].
    intros [= <-]. unfold GetUserInfo in Hg. repeat case_match; simplify_eq. done.
  - apply ValidateAccessToken_err in E. by subst.
Qed.

(** The sweep keeps exactly the entries younger than an hour by their time stamp, to
    the nanosecond. But the validator never stamps an entry: what it caches has the zero
    time, so once the clock is past the first hour of year one every sweep empties the
    cache of everything the validator put there. *)
Theorem sweep_drops_unstamped now t token cache (Hf : fetched cache) (Hnow : Hour <= now) :
  (forall k u, sweep now cache !! k = Some u <->
               cache !! k = Some u /\ now - InfoUpdatedAt u < Hour) /\
  sweep now (ValidateAccessToken now t token cache).2 = ∅.
Proof.
  assert (Hs : forall c k u, sweep now c !! k = Some u <->
                             c !! k = Some u /\ now - InfoUpdatedAt u < Hour).
  { intros c k u. unfold sweep. rewrite map_lookup_filter_Some. cbn.
    rewrite <- not_true_iff_false, NeedsRefresh_iff. by rewrite Z.nle_gt. }
  split; [apply Hs|]. apply map_eq. intros k. rewrite lookup_empty.
  destruct (sweep _ _ !! k) as [u|] eqn:E; [exfalso|done].
  apply Hs in E as [Hk Hlt]. apply (fetched_preserved now t token cache Hf) in Hk. lia.
Qed.
End AuthTheorems.

Lemma sweep_drops_unstamped_witness :
  (forall k u, sweep Hour ∅ !! k = Some u <->
               (∅ : UserCache) !! k = Some u /\ Hour - InfoUpdatedAt u < Hour) /\
  sweep Hour (ValidateAccessToken (idp := demo_idp) Hour demo_validator "ann" ∅).2 = ∅.
Proof. apply (sweep_drops_unstamped (idp := demo_idp)); [intros k u Hk; by rewrite lookup_empty in Hk|done]. Defined.

