(* ===== verification/Controller.v ===== *)
(** The controller: controller/controller.go (login, logout, registration, deletion) and
    controller/peer_updates.go (the update channels of the connected peers).

    The channels are unbuffered: a send on an open channel needs the stream goroutine at the
    other end to be in its receive loop ([ch_ready]); otherwise the sender blocks. A handler
    runs from its start to its end (or to the point where it blocks) in one piece and reads
    the clock once; [Streams] takes the stream handler apart into the pieces that can
    interleave. *)

From S2P Require Import Prelude GoTime Netip Types Store MemStore Ipam Auth.

Record Chan : Type := mkChan { ch_closed : bool; ch_ready : bool }.
#[export] Instance Chan_eq_dec : EqDecision Chan.
Proof. solve_decision. Defined.
#[export] Instance Chan_rebuild : Rebuild Chan := {| rebuild := fun c => mkChan (ch_closed c) (ch_ready c) |}.

(** [sync.Map.Range] visits the entries in an unspecified order. *)
Class MapOrder : Type := {
  map_order : list (Z * Z) -> list (Z * Z);
  map_order_perm l : map_order l ≡ₚ l
}.
#[export] Instance plain_order : MapOrder := {| map_order l := l; map_order_perm l := reflexivity l |}.

(** The controller process: the database, the configured prefix, [peerChannels] (peer id to
    channel), the channels, the log of what was delivered to which channel's stream (oldest
    first), the clean-ups [LogoutPeer] has put to sleep, the validator's user cache and the
    clock. *)
Record Ctl `{Gorm} : Type := mkCtl {
  c_db : DB;
  c_prefix : Prefix;
  peerChannels : gmap Z Z;
  chans : gmap Z Chan;
  next_chan : Z;
  delivered : list (Z * UpdateResponse);
  sleeping : list Z;
  userCache : UserCache;
  now : Z
}.
#[export] Instance Ctl_rebuild `{Gorm} : Rebuild Ctl := {| rebuild := fun c =>
  mkCtl _ (c_db c) (c_prefix c) (peerChannels c) (chans c) (next_chan c) (delivered c)
    (sleeping c) (userCache c) (now c) |}.

Section Channels.
Context `{Gorm}.

(** [ch <- u] *)
Definition chan_send (ch : Z) (u : UpdateResponse) : go Ctl unit := fun c =>
  match chans c !! ch with
  | None => Blocked WaitChan c
  | Some s =>
      if ch_closed s then Crash SendOnClosed c
      else if ch_ready s then Done tt (c <| delivered ::= (fun l => l ++ [(ch, u)]) |>)
      else Blocked WaitChan c
  end.

(** [close(ch)] *)
Definition chan_close (ch : Z) : go Ctl unit := fun c =>
  match chans c !! ch with
  | None => Crash NilDeref c
  | Some s =>
      if ch_closed s then Crash CloseOfClosed c
      else Done tt (c <| chans ::= <[ch := s <| ch_closed := true |>]> |>)
  end.

Fixpoint for_each {A} (f : A -> go Ctl unit) (l : list A) : go Ctl unit :=
  match l with
  | [] => mret tt
  | x :: l' => _ ← f x; for_each f l'
  end.
End Channels.

(** ** peer_updates.go *)

Section PeerUpdates.
Context `{Gorm, MapOrder}.

Definition GetPeerUpdateChannel (id : Z) : go Ctl Z :=
  c ← reads (fun c => c);
  let pc := next_chan c in
  _ ← modify (fun c => c <| chans ::= <[pc := mkChan false false]> |> <| next_chan := pc + 1 |>);
  _ ← modify (fun c => c <| peerChannels ::= <[id := pc]> |>);
  mret pc.

Definition DeletePeerUpdateChannel (id : Z) : go Ctl unit :=
  m ← reads peerChannels;
  match m !! id with
  | Some pc =>
      _ ← modify (fun c => c <| peerChannels ::= delete id |>);
      chan_close pc
  | None => mret tt
  end.

Definition range (c : Ctl) : list (Z * Z) := map_order (map_to_list (peerChannels c)).

Definition CloseAllPeerUpdateChannels : go Ctl unit :=
  kvs ← reads range;
  for_each (fun kv =>
    _ ← chan_close kv.2;
    modify (fun c => c <| peerChannels ::= delete kv.1 |>)) kvs.

Definition GetConnectedPeers (id : Z) : go Ctl (result string PeerList) :=
  d ← reads c_db;
  match db_GetConnectedPeers d with
  | Err e => mret (Err e)
  | Ok peers =>
      let peerList := Proto <$> filter (fun p => ID p <> id) peers in
      mret (Ok (mkPeerList peerList (Z.of_nat (length peerList) mod 2 ^ 32)))
  end.

(** The loop both events share: every channel but the peer's own. *)
Definition notify_others (id : Z) (update : UpdateResponse) : go Ctl unit :=
  kvs ← reads range;
  for_each (fun kv => if bool_decide (kv.1 <> id) then chan_send kv.2 update else mret tt) kvs.

Definition PeerConnectedEvent (id : Z) : go Ctl unit :=
  d ← reads c_db;
  match GetPeerbyID d id with
  | None => mret tt
  | Some peer => notify_others id (mkUpdateResponse CONNECT (Some (mkPeerList [Proto peer] 1)) "")
  end.

Definition PeerDisconnectedEvent (id : Z) : go Ctl unit :=
  d ← reads c_db;
  match GetPeerbyID d id with
  | None => mret tt
  | Some peer => notify_others id (mkUpdateResponse DISCONNECT (Some (mkPeerList [Proto peer] 1)) "")
  end.

Definition PeerForcedLogoutEvent (id : Z) : go Ctl unit :=
  m ← reads peerChannels;
  match m !! id with
  | Some pc => chan_send pc (mkUpdateResponse LOGOUT None "")
  | None => mret tt
  end.

Definition PeerPunchRequest (id : Z) (endpoint : string) : go Ctl unit :=
  d ← reads c_db;
  match GetPeerbyID d id with
  | None => mret tt
  | Some _ =>
      m ← reads peerChannels;
      match m !! id with
      | Some pc => chan_send pc (mkUpdateResponse PUNCH None endpoint)
      | None => mret tt
      end
  end.
End PeerUpdates.

(** ** controller.go

    A [*types.Peer] argument is mutated by its callee: the record comes back with the error. *)

Section Controller.
Context `{Gorm, NetipX, MapOrder}.

Definition put_db (d : DB) : go Ctl unit := modify (fun c => c <| c_db := d |>).

Definition ProcessPeerLogin (peer : Peer) (req : LoginPeerRequest) : go Ctl (option string * Peer) :=
  if IsDisabled peer then mret (Some "disabled peer cannot log in"%string, peer)
  else
    t ← reads now;
    let peer := peer <| LastLogin := t |> in
    let peer := peer <| NoisePublicKey := PublicKey req |> in
    let peer := peer <| Hostname := ReqHostname req |> in
    let peer := peer <| Endpoint := ReqEndpoint req |> in
    let peer := peer <| Connected := false |> in
    let peer := peer <| LoggedIn := true |> in
    d ← reads c_db;
    let '(err, peer, d') := UpdatePeer t d peer in
    _ ← put_db d';
    mret (err, peer).

Definition LogoutPeer (peer : Peer) : go Ctl (option string * Peer) :=
  let peer := peer <| Connected := false |> in
  let peer := peer <| LoggedIn := false |> in
  _ ← PeerForcedLogoutEvent (ID peer);
  _ ← modify (fun c => c <| sleeping ::= (fun l => l ++ [ID peer]) |>);
  t ← reads now;
  d ← reads c_db;
  let '(err, _, d') :=
    UpdatePeer t d (zeroPeer <| ID := ID peer |> <| LoggedIn := false |> <| Connected := false |>) in
  _ ← put_db d';
  mret (err, peer).

(** The goroutine [LogoutPeer] starts, when its ten seconds are over. *)
Definition LogoutPeer_cleanup (id : Z) : go Ctl unit := DeletePeerUpdateChannel id.

Definition DeletePeer (peerID : Z) : go Ctl (option string) :=
  d ← reads c_db;
  match GetPeerbyID d peerID with
  | None => mret (Some "peer doesn't exist"%string)
  | Some peer =>
      '(err, peer) ← (if Connected peer then LogoutPeer peer else mret (None, peer));
      match err with
      | Some e => mret (Some e)
      | None =>
          d ← reads c_db;
          let '(err, d') := db_DeletePeer d peer in
          _ ← put_db d';
          mret err
      end
  end.

Definition RegisterPeer (req : LoginPeerRequest) (userID : string) : go Ctl (result string Peer) :=
  d ← reads c_db;
  p ← reads c_prefix;
  match AllocatePeerIP d p with
  | None => block WaitForever
  | Some (Err e) => mret (Err e)
  | Some (Ok ip) =>
      t ← reads now;
      let newPeer :=
        zeroPeer <| MachineID := MachineId req |> <| NoisePublicKey := PublicKey req |>
          <| Hostname := ReqHostname req |> <| PPrefix := prefix_string p |> <| IP := ip |>
          <| Endpoint := ReqEndpoint req |> <| Connected := false |> <| LoggedIn := true |>
          <| LastAuth := t |> <| LastLogin := t |> <| User := userID |> in
      let '(err, newPeer, d') := CreatePeer t d newPeer in
      _ ← put_db d';
      match err with
      | Some _ => mret (Err "error creating peer in database"%string)
      | None => mret (Ok newPeer)
      end
  end.
End Controller.

(** ** Lemmas *)

Section ControllerLemmas.
Context `{GormLaws, NetipX, MapOrder}.
Implicit Types (c : Ctl).

Definition serving c (pc : Z) : Prop := chans c !! pc = Some (mkChan false true).

Lemma chan_send_serving c pc u :
  serving c pc -> chan_send pc u c = Done tt (c <| delivered ::= (fun l => l ++ [(pc, u)]) |>).
Proof. intros Hs. unfold chan_send. by rewrite Hs. Qed.

Lemma chan_send_blocked c pc s u :
  chans c !! pc = Some s -> ch_closed s = false -> ch_ready s = false ->
  chan_send pc u c = Blocked WaitChan c.
Proof. intros Hs Hc Hr. unfold chan_send. by rewrite Hs, Hc, Hr. Qed.

Lemma chan_send_frame c pc u c' :
  chan_send pc u c = Done tt c' -> c' = c <| delivered ::= (fun l => l ++ [(pc, u)]) |>.
Proof.
  unfold chan_send. destruct (chans c !! pc) as [s|]; [|done].
  destruct (ch_closed s); [done|]. destruct (ch_ready s); [|done]. by intros [= <-].
Qed.

Lemma PeerForcedLogoutEvent_frame id c c' :
  PeerForcedLogoutEvent id c = Done tt c' -> exists l, c' = c <| delivered := l |>.
Proof.
  unfold PeerForcedLogoutEvent. rewrite (bind_done _ _ _ (peerChannels c) c) by done.
  destruct (peerChannels c !! id).
  - intros ->%chan_send_frame. eauto.
  - intros [= <-]. exists (delivered c). by destruct c.
Qed.

(** The peer-id/channel pairs an event about [id] goes to. *)
Definition others (id : Z) (kvs : list (Z * Z)) : list (Z * Z) := filter (fun kv => kv.1 <> id) kvs.

Lemma notify_loop_serving id u kvs c :
  (forall kv, kv ∈ kvs -> kv.1 <> id -> serving c kv.2) ->
  for_each (fun kv => if bool_decide (kv.1 <> id) then chan_send kv.2 u else mret tt) kvs c
  = Done tt (c <| delivered := delivered c ++ ((fun kv => (kv.2, u)) <$> others id kvs) |>).
Proof.
  revert c. unfold others in *. induction kvs as [|kv kvs IH]; intros c Hs; cbn [for_each].
  - destruct c. cbn. by rewrite app_nil_r.
  - rewrite filter_cons. case_bool_decide as Hk.
    + rewrite decide_True by done.
      erewrite bind_done by (apply chan_send_serving, Hs; [left|done]).
      rewrite IH by (intros kv' Hin Hne; apply (Hs kv'); [by right|done]).
      destruct c. cbn. by rewrite <- app_assoc.
    + rewrite decide_False by (by intros ?). rewrite (bind_done _ _ _ tt c) by done.
      apply IH. intros kv' Hin Hne. apply (Hs kv'); [by right|done].
Qed.

Lemma range_elem c kv : kv ∈ range c <-> peerChannels c !! kv.1 = Some kv.2.
Proof.
  unfold range. rewrite map_order_perm. destruct kv. apply elem_of_map_to_list.
Qed.

Lemma notify_others_serving id u c :
  (forall k pc, peerChannels c !! k = Some pc -> k <> id -> serving c pc) ->
  notify_others id u c
  = Done tt (c <| delivered := delivered c ++ ((fun kv => (kv.2, u)) <$> others id (range c)) |>).
Proof.
  intros Hs. unfold notify_others. rewrite (bind_done _ _ _ (range c) c) by done.
  apply notify_loop_serving. intros kv Hin Hne. apply range_elem in Hin. eauto.
Qed.

(** A disconnect event ends when the other streams are receiving, whether the peer's row
    is still there or not. *)
Lemma disconnected_event_others id c :
  (forall k pc, peerChannels c !! k = Some pc -> k <> id -> serving c pc) ->
  PeerDisconnectedEvent id c = Done tt (c <| delivered :=
    match GetPeerbyID (c_db c) id with
    | None => delivered c
    | Some peer => delivered c ++
        ((fun kv => (kv.2, mkUpdateResponse DISCONNECT (Some (mkPeerList [Proto peer] 1)) ""))
           <$> others id (range c))
    end |>).
Proof.
  intros Hs. unfold PeerDisconnectedEvent. rewrite (bind_done _ _ _ (c_db c) c) by done.
  destruct (GetPeerbyID (c_db c) id) as [peer|].
  - by apply notify_others_serving.
  - destruct c. done.
Qed.

(** What [UpdatePeer] does to the rows when it reports success. *)
Lemma UpdatePeer_rows t d p p' d' :
  UpdatePeer t d p = (None, p', d') -> ID p <> 0 ->
  rows d' = alter (merge_nonzero t p) (ID p) (rows d) /\ p' = p <| UpdatedAt := t |>.
Proof. intros E Hid. apply updates_rows in E as (? & ? & _); done. Qed.

Lemma UpdatePeer_rows_err t d p e p' d' :
  UpdatePeer t d p = (Some e, p', d') -> ID p <> 0 -> rows d' = rows d.
Proof. intros E Hid. by apply updates_rows in E as (? & _ & _). Qed.

(** The record [ProcessPeerLogin] hands to the database. *)
Definition login_record (t : Z) (peer : Peer) (req : LoginPeerRequest) : Peer :=
  peer <| LastLogin := t |> <| NoisePublicKey := PublicKey req |> <| Hostname := ReqHostname req |>
    <| Endpoint := ReqEndpoint req |> <| Connected := false |> <| LoggedIn := true |>.

Lemma ProcessPeerLogin_eq peer req c :
  ProcessPeerLogin peer req c =
    if Disabled peer then Done (Some "disabled peer cannot log in"%string, peer) c
    else
      let '(err, peer', d') := UpdatePeer (now c) (c_db c) (login_record (now c) peer req) in
      Done (err, peer') (c <| c_db := d' |>).
Proof.
  unfold ProcessPeerLogin, IsDisabled. destruct (Disabled peer); [done|].
  unfold login_record. cbn [mbind go_bind reads].
  unfold reads, mbind, go_bind. destruct (UpdatePeer _ _ _) as [[e p] d]. done.
Qed.
End ControllerLemmas.

(** ** Properties *)

Section ControllerTheorems.
Context `{GormLaws, NetipXLaws, MapOrder}.
Implicit Types (c : Ctl).


(** A forced logout is not recorded: when [LogoutPeer] reports success, the record in
    the caller's hands says logged out and disconnected, but the peer's row keeps both flags
    as they were, because the update is a struct of zero values. Only the row's time stamp
    changes, and no other row does. *)
Theorem logout_not_persisted c peer peer' c' row
    (Hid : ID peer <> 0) (Hrow : rows (c_db c) !! ID peer = Some row)
    (Hrun : LogoutPeer peer c = Done (None, peer') c') :
  LoggedIn peer' = false /\ Connected peer' = false /\
  rows (c_db c') = <[ID peer := row <| UpdatedAt := now c |>]> (rows (c_db c)).
Proof.
  unfold LogoutPeer in Hrun. apply bind_done_inv in Hrun as ([] & c1 & Hev & Hrun).
  apply PeerForcedLogoutEvent_frame in Hev as [l ->].
  unfold mbind, go_bind, modify, reads, put_db in Hrun. cbn in Hrun.
  destruct (UpdatePeer _ _ _) as [[err p1] d1] eqn:EU.
  unfold modify, mret, go_ret in Hrun. simplify_eq. cbn.
  split_and!; [done|done|].
  destruct (UpdatePeer_rows _ _ _ _ _ EU Hid) as [-> _].
  cbn. rewrite alter_alt, Hrow. by destruct row.
Qed.
End ControllerTheorems.

(** ** A concrete controller

    Two registered peers, both logged in and connected, with their streams receiving. *)

Definition demo_peer (id : Z) (machine ip : string) : Peer :=
  zeroPeer <| ID := id |> <| MachineID := machine |> <| IP := ip |> <| PPrefix := "100.70.0.0/24"%string |>
    <| LoggedIn := true |> <| Connected := true |> <| User := "ann"%string |>.
Definition demo_ctl : @Ctl mem_gorm :=
  mkCtl mem_gorm [demo_peer 1 "m1" "100.70.0.1"; demo_peer 2 "m2" "100.70.0.2"]
    (mkPrefix (Addr4 0x64460000) 24) {[1 := 10; 2 := 20]} {[10 := mkChan false true; 20 := mkChan false true]}
    21 [] [] ∅ Hour.


Lemma logout_not_persisted_witness :
  LoggedIn ((demo_peer 1 "m1" "100.70.0.1") <| Connected := false |> <| LoggedIn := false |>) = false /\
  Connected ((demo_peer 1 "m1" "100.70.0.1") <| Connected := false |> <| LoggedIn := false |>) = false /\
  exists c', rows (c_db c') =
    <[1 := (demo_peer 1 "m1" "100.70.0.1") <| UpdatedAt := Hour |>]> (rows (c_db demo_ctl)).
Proof.
  pose (p := demo_peer 1 "m1" "100.70.0.1").
  run_of (LogoutPeer p demo_ctl)
    to (@None string, p <| Connected := false |> <| LoggedIn := false |>) as c' E.
  assert (Hrow : rows (c_db demo_ctl) !! ID p = Some p) by (vm_compute; reflexivity).
  pose proof (logout_not_persisted demo_ctl p _ c' p ltac:(done) Hrow E) as (H1 & H2 & H3).
  split; [exact H1|]. split; [exact H2|]. exists c'. exact H3.
Defined.
