(* ===== verification/Grpc.v ===== *)
(** The controller's gRPC service: controller/grpc_v1.go and controller/util.go.

    Every handler is a [go Ctl] program that returns the response or the gRPC status it
    fails with. [UpdateStream] is written as the pieces its life consists of: admission,
    announcement, initial list, receive loop, deferred clean-up. *)

From S2P Require Import Prelude GoStd Float64 GoTime Netip Types Store MemStore Ipam Auth Controller.

Inductive Code : Type :=
  InvalidArgument | NotFound | Internal | PermissionDenied | Unauthenticated | Aborted.
Record Status : Type := mkStatus { s_code : Code; s_msg : string }.
#[export] Instance Code_eq_dec : EqDecision Code.
Proof. solve_decision. Defined.
#[export] Instance Status_eq_dec : EqDecision Status.
Proof. solve_decision. Defined.

Record UpdateEndpointRequest : Type := mkUER { ue_MachineId : string; ue_Endpoint : string }.
Record PunchRequest : Type := mkPR { pr_MachineId : string; pr_DstPeerId : Z; pr_Endpoint : string }.

(** ** util.go *)

Definition MachineIDLen : Z := 64.

Definition validateMachineID (id : string) : bool :=
  if negb (str_forallb is_word id) then false
  else if bool_decide (str_len id < MachineIDLen) then false
  else true.

(** The incoming metadata of a request's context; [None] when there is none. *)
Abbreviation Metadata := (option (gmap string (list string))).

Definition extractTokenMetadata (md : Metadata) : result Status string :=
  match md with
  | None => Err (mkStatus Unauthenticated "metadata missing from request context")
  | Some m =>
      match default [] (m !! "authorization"%string) with
      | [] => Err (mkStatus Unauthenticated "invalid or missing access token")
      | v :: _ =>
          match strings_Split v "Bearer " with
          | _ :: tok :: _ => Ok tok
          | _ => Err (mkStatus Unauthenticated "invalid or missing access token")
          end
      end
  end.

(** ** grpc_v1.go *)

Section Server.
Context `{Gorm, NetipX, MapOrder} {idp : IdP}.
(** [s.tokenValidator], less its cache, which is part of the state. *)
Context (tv : TokenValidator).

Definition fail {A} (code : Code) (msg : string) : go Ctl (result Status A) :=
  mret (Err (mkStatus code msg)).

Definition GetPKCEAuthInfo_handler : go Ctl (result Status PKCEInfo) :=
  mret (Ok (GetPKCEAuthInfo tv)).

Definition validateAccessToken (token : string) : go Ctl (result Status string) :=
  c ← reads (fun c => c);
  let '(r, cache') := ValidateAccessToken (now c) tv token (userCache c) in
  _ ← modify (fun c => c <| userCache := cache' |>);
  match r with
  | Err e => mret (Err (mkStatus Unauthenticated e))
  | Ok userId => mret (Ok userId)
  end.

Definition UpdateEndpoint (req : UpdateEndpointRequest) : go Ctl (result Status unit) :=
  if negb (validateMachineID (ue_MachineId req)) then fail InvalidArgument "invalid machine ID"
  else
    c ← reads (fun c => c);
    match GetPeerByMachineID (c_db c) (ue_MachineId req) with
    | None => fail NotFound "peer not found"
    | Some peer =>
        if IsDisabled peer then fail Internal "peer is currently disabled"
        else if negb (IsLoggedIn peer) then fail Internal "peer requires login first"
        else if IsAuthExpired (now c) peer then fail PermissionDenied "peer auth expired, login again"
        else if bool_decide (ue_Endpoint req = ""%string) then fail InvalidArgument "empty endpoint"
        else
          let '(err, d') := UpdatePeerEndpoint (now c) (c_db c) (ID peer) (ue_Endpoint req) in
          _ ← put_db d';
          match err with
          | Some _ => fail Internal "failed to update endpoint"
          | None => mret (Ok tt)
          end
    end.

Definition Punch (req : PunchRequest) : go Ctl (result Status unit) :=
  if negb (validateMachineID (pr_MachineId req)) then fail InvalidArgument "invalid machine ID"
  else
    c ← reads (fun c => c);
    match GetPeerByMachineID (c_db c) (pr_MachineId req) with
    | None => fail NotFound "peer not found"
    | Some peer =>
        if IsDisabled peer then fail Internal "peer is currently disabled"
        else if negb (IsLoggedIn peer) then fail Internal "peer requires login first"
        else if IsAuthExpired (now c) peer then fail PermissionDenied "peer auth expired, login again"
        else if bool_decide (pr_Endpoint req = ""%string) then fail InvalidArgument "empty endpoint"
        else
          _ ← PeerPunchRequest (pr_DstPeerId req) (pr_Endpoint req);
          mret (Ok tt)
    end.

(** The part of [LoginPeer] that re-authenticates an expired peer: the peer with its
    authentication renewed, or the status the login fails with. *)
Definition reauthenticate (peer : Peer) (req : LoginPeerRequest) : go Ctl (result Status Peer) :=
  t ← reads now;
  if IsAuthExpired t peer then
    r ← validateAccessToken (AccessToken req);
    match r with
    | Err e =>
        _ ← (if IsLoggedIn peer then _ ← LogoutPeer peer; mret tt else mret tt);
        mret (Err e)
    | Ok user =>
        if bool_decide (User peer <> user) then
          fail PermissionDenied "cannot login a peer that belongs to another user - delete the peer and re-register"
        else mret (Ok (UpdateAuth t peer))
    end
  else mret (Ok peer).

Definition LoginPeer (req : LoginPeerRequest) : go Ctl (result Status PeerConfig) :=
  if negb (validateMachineID (MachineId req)) then fail InvalidArgument "invalid machine ID"
  else
    d ← reads c_db;
    match GetPeerByMachineID d (MachineId req) with
    | Some peer =>
        if Disabled peer then fail PermissionDenied "peer is disabled"
        else
          r ← reauthenticate peer req;
          match r with
          | Err e => mret (Err e)
          | Ok peer =>
              '(err, peer) ← ProcessPeerLogin peer req;
              match err with
              | Some e => fail Internal e
              | None => mret (Ok (ProtoConfig peer))
              end
          end
    | None =>
        r ← validateAccessToken (AccessToken req);
        match r with
        | Err e => mret (Err e)
        | Ok userId =>
            r ← RegisterPeer req userId;
            match r with
            | Err _ => fail Internal "error registering peer"
            | Ok peer => mret (Ok (ProtoConfig peer))
            end
        end
    end.

(** *** UpdateStream *)

(** The checks, and the connected flag and the channel of an admitted peer. *)
Definition UpdateStream_admit (machineId : string) : go Ctl (result Status (Peer * Z)) :=
  c ← reads (fun c => c);
  match GetPeerByMachineID (c_db c) machineId with
  | None => fail NotFound "peer with machine id is not registered"
  | Some peer =>
      if IsAuthExpired (now c) peer then fail Unauthenticated "peer auth is expired, needs new login"
      else if IsDisabled peer then fail Internal "peer is currently disabled"
      else if negb (IsLoggedIn peer) then fail Internal "peer requires login first"
      else
        let '(err, peer, d') := SetPeerConnected (now c) (c_db c) peer true in
        _ ← put_db d';
        match err with
        | Some _ => fail Internal "error setting peer connected status"
        | None =>
            pc ← GetPeerUpdateChannel (ID peer);
            mret (Ok (peer, pc))
        end
  end.

(** The deferred function. *)
Definition UpdateStream_cleanup (peer : Peer) : go Ctl unit :=
  _ ← DeletePeerUpdateChannel (ID peer);
  c ← reads (fun c => c);
  let '(_, peer, d') := SetPeerConnected (now c) (c_db c) peer false in
  _ ← put_db d';
  PeerDisconnectedEvent (ID peer).

(** The initial peer list; [sent] is whether [stream.Send] succeeds. *)
Definition UpdateStream_init (peer : Peer) (pc : Z) (sent : bool) : go Ctl (option Status) :=
  r ← GetConnectedPeers (ID peer);
  match r with
  | Err e => mret (Some (mkStatus Internal e))
  | Ok connectedPeers =>
      if sent then
        _ ← modify (fun c => c <| delivered ::=
               (fun l => l ++ [(pc, mkUpdateResponse INIT (Some connectedPeers) "")]) |>);
        mret None
      else mret (Some (mkStatus Internal "error sending data on stream"))
  end.

(** The goroutine waits in its [select], or has left it. *)
Definition set_ready (pc : Z) (b : bool) : go Ctl unit :=
  modify (fun c => c <| chans ::= alter (fun s => s <| ch_ready := b |>) pc |>).

(** From the call to the receive loop: the status it returned with, or the peer and the
    channel it now serves. *)
Definition UpdateStream_connect (machineId : string) (sent : bool) : go Ctl (result Status (Peer * Z)) :=
  r ← UpdateStream_admit machineId;
  match r with
  | Err e => mret (Err e)
  | Ok (peer, pc) =>
      _ ← PeerConnectedEvent (ID peer);
      err ← UpdateStream_init peer pc sent;
      match err with
      | Some e => _ ← UpdateStream_cleanup peer; mret (Err e)
      | None => _ ← set_ready pc true; mret (Ok (peer, pc))
      end
  end.

(** Leaving the receive loop: the client has gone ([None]) or the channel was closed. *)
Definition UpdateStream_return (peer : Peer) (pc : Z) (closed : bool) : go Ctl (option Status) :=
  _ ← set_ready pc false;
  _ ← UpdateStream_cleanup peer;
  mret (if closed then Some (mkStatus Aborted "server closed update stream") else None).

(** *** Gateway API *)

Definition GetPeers_handler (format_time : Z -> string) (md : Metadata) :
    go Ctl (result Status (list PeerDetails)) :=
  match extractTokenMetadata md with
  | Err e => mret (Err e)
  | Ok token =>
      r ← validateAccessToken token;
      match r with
      | Err e => mret (Err e)
      | Ok _ =>
          d ← reads c_db;
          match GetPeers d with
          | Err _ => fail Internal "error getting peers from database"
          | Ok peers => mret (Ok (ProtoDetails format_time <$> peers))
          end
      end
  end.

Definition DeletePeer_handler (md : Metadata) (peerId : Z) : go Ctl (result Status unit) :=
  match extractTokenMetadata md with
  | Err e => mret (Err e)
  | Ok token =>
      r ← validateAccessToken token;
      match r with
      | Err e => mret (Err e)
      | Ok _ =>
          err ← DeletePeer peerId;
          match err with
          | Some e =>
              if bool_decide (e = "peer doesn't exist"%string) then fail NotFound "peer not found"
              else fail Internal "error deleting peer"
          | None => mret (Ok tt)
          end
      end
  end.
End Server.

(** ** The handlers' equations *)

Section GrpcLemmas.
Context `{GormLaws, NetipXLaws, MapOrder} {idp : IdP} (tv : TokenValidator).
Implicit Types (c : Ctl).

Lemma validateAccessToken_eq token c :
  validateAccessToken tv token c =
    let '(r, cache') := ValidateAccessToken (now c) tv token (userCache c) in
    Done (match r with Err e => Err (mkStatus Unauthenticated e) | Ok u => Ok u end)
      (c <| userCache := cache' |>).
Proof.
  unfold validateAccessToken, mbind, go_bind, reads, modify.
  by destruct (ValidateAccessToken _ _ _ _) as [[u|e] cache'].
Qed.

(** A peer gets past re-authentication when its authentication has not expired, or when
    its request's token stands for the user it belongs to. *)
Lemma reauthenticate_ok peer req c peer' c' :
  reauthenticate tv peer req c = Done (Ok peer') c' ->
  IsAuthExpired (now c) peer = false /\ peer' = peer /\ c' = c \/
  exists cache', IsAuthExpired (now c) peer = true /\
    ValidateAccessToken (now c) tv (AccessToken req) (userCache c) = (Ok (User peer), cache') /\
    peer' = UpdateAuth (now c) peer /\ c' = c <| userCache := cache' |>.
Proof.
  unfold reauthenticate. rewrite (bind_done _ _ _ (now c) c) by done.
  destruct (IsAuthExpired (now c) peer); [|intros [= <- <-]; by left].
  intros (r & c1 & E & Hk)%bind_done_inv. rewrite validateAccessToken_eq in E.
  destruct (ValidateAccessToken _ _ _ _) as [[u|e] cache'] eqn:EV; simplify_eq.
  - case_bool_decide as Hu; [done|]. injection Hk as <- <-. subst u. right. by exists cache'.
  - apply bind_done_inv in Hk as (? & ? & _ & [=]).
Qed.

Lemma RegisterPeer_ok req user c p c' :
  RegisterPeer req user c = Done (Ok p) c' ->
  exists ip d',
    AllocatePeerIP (c_db c) (c_prefix c) = Some (Ok ip) /\
    CreatePeer (now c) (c_db c)
      (zeroPeer <| MachineID := MachineId req |> <| NoisePublicKey := PublicKey req |>
         <| Hostname := ReqHostname req |> <| PPrefix := prefix_string (c_prefix c) |> <| IP := ip |>
         <| Endpoint := ReqEndpoint req |> <| Connected := false |> <| LoggedIn := true |>
         <| LastAuth := now c |> <| LastLogin := now c |> <| User := user |>) = (None, p, d') /\
    c' = c <| c_db := d' |>.
Proof.
  unfold RegisterPeer. unfold mbind, go_bind, reads, put_db, modify.
  destruct (AllocatePeerIP _ _) as [[ip|e]|]; [|done|done].
  destruct (CreatePeer _ _ _) as [[[e|] p1] d1] eqn:E; [done|].
  intros [= <- <-]. exists ip, d1. split_and!; [done|exact E|done].
Qed.

(** A successful login, by cases on whether the machine was registered. *)
Lemma LoginPeer_ok req c cfg c' :
  LoginPeer tv req c = Done (Ok cfg) c' ->
  validateMachineID (MachineId req) = true /\
  match GetPeerByMachineID (c_db c) (MachineId req) with
  | Some peer =>
      Disabled peer = false /\
      exists peer1 c1 peer2 d2,
        reauthenticate tv peer req c = Done (Ok peer1) c1 /\
        UpdatePeer (now c1) (c_db c1) (login_record (now c1) peer1 req) = (None, peer2, d2) /\
        cfg = ProtoConfig peer2 /\ c' = c1 <| c_db := d2 |>
  | None =>
      exists user cache' peer,
        ValidateAccessToken (now c) tv (AccessToken req) (userCache c) = (Ok user, cache') /\
        RegisterPeer req user (c <| userCache := cache' |>) = Done (Ok peer) c' /\
        cfg = ProtoConfig peer
  end.
Proof.
  unfold LoginPeer. destruct (validateMachineID (MachineId req)); [cbn [negb]|done].
  rewrite (bind_done _ _ _ (c_db c) c) by done. intros Hrun. split; [done|].
  destruct (GetPeerByMachineID (c_db c) (MachineId req)) as [peer|].
  - destruct (Disabled peer); [done|]. split; [done|].
    apply bind_done_inv in Hrun as ([peer1|e] & c1 & Hre & Hrun); [|done].
    apply bind_done_inv in Hrun as ([err peer2] & c2 & Hp & Hrun).
    rewrite ProcessPeerLogin_eq in Hp.
    assert (Hd : Disabled peer1 = Disabled peer).
    { apply reauthenticate_ok in Hre as [(_ & -> & _)|(cache' & _ & _ & -> & _)]; done. }
    destruct (Disabled peer1); [by simplify_eq|].
    destruct (UpdatePeer _ _ _) as [[err' p2] d2] eqn:EU. injection Hp as -> -> <-.
    destruct err; [done|]. injection Hrun as <- <-.
    exists peer1, c1, peer2, d2. done.
  - apply bind_done_inv in Hrun as (r & c1 & Hv & Hrun). rewrite validateAccessToken_eq in Hv.
    destruct (ValidateAccessToken _ _ _ _) as [[u|e] cache'] eqn:EV; simplify_eq.
    apply bind_done_inv in Hrun as ([peer|e] & c2 & Hreg & Hrun); [|done].
    injection Hrun as <- <-. by exists u, cache', peer.
Qed.
End GrpcLemmas.

(** ** Properties *)

Section GrpcTheorems.
Context `{GormLaws, NetipXLaws, MapOrder} {idp : IdP} (tv : TokenValidator).
Implicit Types (c : Ctl).

(** What it takes for a request to log in as the owner of its machine id. *)
Definition authorised c (req : LoginPeerRequest) : Prop :=
  match GetPeerByMachineID (c_db c) (MachineId req) with
  | Some peer =>
      Disabled peer = false /\
      (now c - LastAuth peer < AuthLifetime \/
       exists cache', ValidateAccessToken (now c) tv (AccessToken req) (userCache c) = (Ok (User peer), cache'))
  | None =>
      exists user cache', ValidateAccessToken (now c) tv (AccessToken req) (userCache c) = (Ok user, cache')
  end.

(** C11. A login that hands out a configuration was authorised: the machine id is well
    formed, and the machine is either registered, enabled and authenticated (within the
    thirty days, or by a token of the user it belongs to) or new and presents a valid
    token. The configuration of a registered peer is the stored one. *)
Theorem login_authorised c req cfg c'
    (Hids : forall i p, rows (c_db c) !! i = Some p -> i <> 0)
    (Hrun : LoginPeer tv req c = Done (Ok cfg) c') :
  validateMachineID (MachineId req) = true /\ authorised c req /\
  (forall peer, GetPeerByMachineID (c_db c) (MachineId req) = Some peer -> cfg = ProtoConfig peer).
Proof.
  apply LoginPeer_ok in Hrun as [Hv Hrun]. split; [done|]. unfold authorised.
  destruct (GetPeerByMachineID (c_db c) (MachineId req)) as [peer|] eqn:Hg.
  - destruct Hrun as (Hd & peer1 & c1 & peer2 & d2 & Hre & EU & -> & ->).
    apply GetPeerByMachineID_row in Hg as [Hrow _]. apply Hids in Hrow.
    apply reauthenticate_ok in Hre as [(Hx & -> & ->)|(cache' & Hx & HV & -> & ->)].
    + destruct (UpdatePeer_rows _ _ _ _ _ EU Hrow) as [_ ->]. split; [split; [done|]|].
      * left. apply not_true_iff_false in Hx. unfold IsAuthExpired in Hx. cbn zeta in Hx.
        rewrite auth_days_exact, Sub_ge in Hx by done. lia.
      * by intros ? [= <-].
    + destruct (UpdatePeer_rows _ _ _ _ _ EU Hrow) as [_ ->]. split; [split; [done|eauto]|].
      by intros ? [= <-].
  - destruct Hrun as (user & cache' & peer & HV & _ & _). split; [eauto|done].
Qed.

(** C12. What a login of a registered peer writes: its row gets the time of login, the
    logged-in flag, and the public key, host name and endpoint of the request unless they
    are empty (an empty one keeps the old value); its time of authentication moves to now
    exactly when it had expired; its machine id, address, prefix, user and disabled flag
    stay, and so does its connected flag, although the code sets it to false. No other row
    changes. *)
Theorem login_existing_effect c req cfg c' peer
    (Hnow : now c <> 0) (Hid : ID peer <> 0)
    (Hpeer : GetPeerByMachineID (c_db c) (MachineId req) = Some peer)
    (Hrun : LoginPeer tv req c = Done (Ok cfg) c') :
  rows (c_db c') = <[ID peer :=
    mkPeer (ID peer) (MachineID peer) (keep_str (PublicKey req) (NoisePublicKey peer)) (IP peer)
      (PPrefix peer) (keep_str (ReqEndpoint req) (Endpoint peer))
      (keep_str (ReqHostname req) (Hostname peer)) true (Connected peer) (User peer) (Disabled peer)
      (now c) (if IsAuthExpired (now c) peer then now c else LastAuth peer) (CreatedAt peer) (now c)
    ]> (rows (c_db c)).
Proof.
  apply LoginPeer_ok in Hrun as [Hv Hrun]. rewrite Hpeer in Hrun.
  destruct Hrun as (Hd & peer1 & c1 & peer2 & d2 & Hre & EU & -> & ->).
  apply GetPeerByMachineID_row in Hpeer as [Hrow _].
  assert (Ks : forall s, keep_str s s = s) by (intros; unfold keep_str; by case_bool_decide).
  assert (Kn : forall n, keep_num n n = n) by (intros; unfold keep_num; by case_bool_decide).
  assert (Kt : forall n, keep_num (now c) n = now c)
    by (intros; unfold keep_num; by rewrite bool_decide_false).
  apply reauthenticate_ok in Hre as [(Hx & -> & ->)|(cache' & Hx & HV & -> & ->)]; rewrite Hx;
    destruct (UpdatePeer_rows _ _ _ _ _ EU Hid) as [HR _]; cbn in HR |- *; rewrite HR;
    rewrite alter_alt, Hrow; f_equal; unfold merge_nonzero; cbn;
    rewrite ?Ks, ?Kn, ?Kt, Hd; cbn; by rewrite ?Bool.orb_true_l.
Qed.

Lemma LoginPeer_registers c req cfg c' :
  GetPeerByMachineID (c_db c) (MachineId req) = None -> LoginPeer tv req c = Done (Ok cfg) c' ->
  exists p cache',
    rows (c_db c') = <[ID p := p]> (rows (c_db c)) /\ rows (c_db c) !! ID p = None /\ ID p <> 0 /\
    cfg = ProtoConfig p /\ MachineID p = MachineId req /\ NoisePublicKey p = PublicKey req /\
    Hostname p = ReqHostname req /\ Endpoint p = ReqEndpoint req /\
    PPrefix p = prefix_string (c_prefix c) /\ LoggedIn p = true /\ Connected p = false /\
    Disabled p = false /\ LastAuth p = now c /\
    ValidateAccessToken (now c) tv (AccessToken req) (userCache c) = (Ok (User p), cache') /\
    AllocatePeerIP (c_db c) (c_prefix c) = Some (Ok (IP p)) /\
    (forall i r, rows (c_db c) !! i = Some r -> IP r <> IP p).
Proof.
  intros Hnew Hrun.
  apply LoginPeer_ok in Hrun as [_ Hrun]. rewrite Hnew in Hrun.
  destruct Hrun as (user & cache' & p & HV & Hreg & ->).
  apply RegisterPeer_ok in Hreg as (ip & d' & Halloc & Hcreate & ->). cbn in Halloc, Hcreate |- *.
  apply create_rows in Hcreate as (Hp & Hnz & Hfree & -> & Hip); [|done].
  exists p, cache'. rewrite Hp; cbn. by split_and!.
Qed.

(** C13. What registering a new machine writes: exactly one new row, under a fresh key,
    with the request's machine id, key, host name and endpoint, the user of the token, the
    controller's prefix and an address no other row has; it is logged in, authenticated now
    and not connected. The configuration handed out is that row's. *)
Theorem login_registers c req cfg c'
    (Hnew : GetPeerByMachineID (c_db c) (MachineId req) = None)
    (Hrun : LoginPeer tv req c = Done (Ok cfg) c') :
  exists p cache',
    rows (c_db c') = <[ID p := p]> (rows (c_db c)) /\ rows (c_db c) !! ID p = None /\ ID p <> 0 /\
    cfg = ProtoConfig p /\ MachineID p = MachineId req /\ NoisePublicKey p = PublicKey req /\
    Hostname p = ReqHostname req /\ Endpoint p = ReqEndpoint req /\
    PPrefix p = prefix_string (c_prefix c) /\ LoggedIn p = true /\ Connected p = false /\
    Disabled p = false /\ LastAuth p = now c /\
    ValidateAccessToken (now c) tv (AccessToken req) (userCache c) = (Ok (User p), cache') /\
    AllocatePeerIP (c_db c) (c_prefix c) = Some (Ok (IP p)) /\
    (forall i r, rows (c_db c) !! i = Some r -> IP r <> IP p).
Proof. by apply LoginPeer_registers. Qed.

(** C14. A disabled peer is shut out: whatever it asks for - login, endpoint update, punch,
    update stream - is answered with an error and changes nothing. *)
Theorem disabled_peer_rejected c m peer
    (Hpeer : GetPeerByMachineID (c_db c) m = Some peer) (Hd : Disabled peer = true) :
  (forall req, MachineId req = m -> exists s, LoginPeer tv req c = Done (Err s) c) /\
  (forall req, ue_MachineId req = m -> exists s, UpdateEndpoint req c = Done (Err s) c) /\
  (forall req, pr_MachineId req = m -> exists s, Punch req c = Done (Err s) c) /\
  (forall sent, exists s, UpdateStream_connect m sent c = Done (Err s) c).
Proof.
  assert (Hf : forall A code msg, exists s, @fail _ A code msg c = Done (Err s) c)
    by (intros; by eexists).
  split_and!.
  - intros req Hm. unfold LoginPeer. destruct (negb _); [apply Hf|].
    rewrite (bind_done _ _ _ (c_db c) c), Hm, Hpeer, Hd by done. apply Hf.
  - intros req Hm. unfold UpdateEndpoint. destruct (negb _); [apply Hf|].
    rewrite (bind_done _ _ _ c c), Hm, Hpeer by done. unfold IsDisabled. rewrite Hd. apply Hf.
  - intros req Hm. unfold Punch. destruct (negb _); [apply Hf|].
    rewrite (bind_done _ _ _ c c), Hm, Hpeer by done. unfold IsDisabled. rewrite Hd. apply Hf.
  - intros sent. unfold UpdateStream_connect.
    assert (Ha : exists s, UpdateStream_admit m c = Done (Err s) c).
    { unfold UpdateStream_admit. rewrite (bind_done _ _ _ c c), Hpeer by done.
      destruct (IsAuthExpired _ _); [apply Hf|]. unfold IsDisabled. rewrite Hd. apply Hf. }
    destruct Ha as [s Ha]. rewrite (bind_done _ _ _ _ _ Ha). by eexists.
Qed.

Lemma UpdateEndpoint_rows c req r c' :
  (forall i p, rows (c_db c) !! i = Some p -> i <> 0) -> UpdateEndpoint req c = Done r c' ->
  match r with
  | Ok _ => exists peer,
      GetPeerByMachineID (c_db c) (ue_MachineId req) = Some peer /\
      Disabled peer = false /\ LoggedIn peer = true /\ now c - LastAuth peer < AuthLifetime /\
      ue_Endpoint req <> ""%string /\
      rows (c_db c') = <[ID peer := peer <| Endpoint := ue_Endpoint req |> <| UpdatedAt := now c |>]>
                         (rows (c_db c))
  | Err _ => rows (c_db c') = rows (c_db c)
  end.
Proof.
  intros Hids Hrun.
  unfold UpdateEndpoint in Hrun. destruct (negb _); [by injection Hrun as <- <-|].
  rewrite (bind_done _ _ _ c c) in Hrun by done.
  destruct (GetPeerByMachineID _ _) as [peer|] eqn:Hg; [|by injection Hrun as <- <-].
  unfold IsDisabled, IsLoggedIn in Hrun.
  destruct (Disabled peer) eqn:Hd; [by injection Hrun as <- <-|].
  destruct (LoggedIn peer) eqn:Hl; cbn [negb] in Hrun; [|by injection Hrun as <- <-].
  destruct (IsAuthExpired (now c) peer) eqn:Hx; [by injection Hrun as <- <-|].
  case_bool_decide as He; [by injection Hrun as <- <-|].
  destruct (UpdatePeerEndpoint _ _ _ _) as [err d'] eqn:EU.
  apply GetPeerByMachineID_row in Hg as Hrow. destruct Hrow as [Hrow _].
  pose proof (UpdatePeerEndpoint_rows _ _ _ _ _ _ EU (Hids _ _ Hrow)) as HR.
  destruct err; injection Hrun as <- <-; cbn; [done|].
  exists peer. split_and!; try done.
  - apply not_true_iff_false in Hx. unfold IsAuthExpired in Hx. cbn zeta in Hx.
    rewrite auth_days_exact, Sub_ge in Hx by done. lia.
  - by rewrite HR, alter_alt, Hrow.
Qed.

(** C15. An endpoint update writes the endpoint of the requesting machine's own row, and
    nothing else but its time stamp, when the peer is enabled, logged in and within its
    authentication; in every other case no row changes. *)
Theorem update_endpoint_effect c req r c'
    (Hids : forall i p, rows (c_db c) !! i = Some p -> i <> 0)
    (Hrun : UpdateEndpoint req c = Done r c') :
  match r with
  | Ok _ => exists peer,
      GetPeerByMachineID (c_db c) (ue_MachineId req) = Some peer /\
      Disabled peer = false /\ LoggedIn peer = true /\ now c - LastAuth peer < AuthLifetime /\
      ue_Endpoint req <> ""%string /\
      rows (c_db c') = <[ID peer := peer <| Endpoint := ue_Endpoint req |> <| UpdatedAt := now c |>]>
                         (rows (c_db c))
  | Err _ => rows (c_db c') = rows (c_db c)
  end.
Proof. by eapply UpdateEndpoint_rows. Qed.

(** C16. A stream that ends cleans up by peer id, not by its own channel: if the peer has
    connected again in the meantime, the old stream's clean-up closes the new stream's
    channel and unregisters it, and leaves its own channel open. *)
Theorem stream_return_closes_registered c peer pc pc'
    (Hown : chans c !! pc = Some (mkChan false true)) (Hreg : peerChannels c !! ID peer = Some pc')
    (Hne : pc <> pc') (Hserv : serving c pc') (Hid : ID peer <> 0)
    (Hothers : forall k q, peerChannels c !! k = Some q -> k <> ID peer ->
                           serving c q /\ q <> pc /\ q <> pc') :
  exists c',
    UpdateStream_return peer pc false c = Done None c' /\
    chans c' !! pc' = Some (mkChan true true) /\ chans c' !! pc = Some (mkChan false false) /\
    peerChannels c' = delete (ID peer) (peerChannels c).
Proof.
  unfold UpdateStream_return. erewrite bind_done by (unfold set_ready, modify; reflexivity).
  set (c1 := c <| chans ::= alter (fun s => s <| ch_ready := false |>) pc |>).
  set (c2 := c1 <| peerChannels ::= delete (ID peer) |> <| chans ::= <[pc' := mkChan true true]> |>).
  assert (Hdel : DeletePeerUpdateChannel (ID peer) c1 = Done tt c2).
  { unfold DeletePeerUpdateChannel. rewrite (bind_done _ _ _ (peerChannels c1) c1) by done.
    subst c1. cbn [field_upd peerChannels]. rewrite Hreg.
    erewrite bind_done by (unfold modify; reflexivity). unfold chan_close. cbn.
    rewrite lookup_alter_ne by done. unfold serving in Hserv. by rewrite Hserv. }
  assert (Hclean : exists d' sent,
    UpdateStream_cleanup peer c1 = Done tt (c2 <| c_db := d' |> <| delivered := sent |>)).
  { unfold UpdateStream_cleanup. rewrite (bind_done _ _ _ _ _ Hdel), (bind_done _ _ _ c2 c2) by done.
    destruct (SetPeerConnected _ _ _ _) as [[e p'] d'] eqn:ES.
    apply SetPeerConnected_rows in ES as [_ ->]; [|done]. eexists d', _.
    erewrite bind_done by (unfold put_db, modify; reflexivity).
    apply disconnected_event_others. cbn. intros k q [Hk Hq]%lookup_delete_Some Hne'.
    destruct (Hothers k q Hq ltac:(done)) as (Hs & Hqc & Hqc'). unfold serving in *. cbn.
    by rewrite lookup_insert_ne, lookup_alter_ne by done. }
  destruct Hclean as (d' & sent & Hclean). rewrite (bind_done _ _ _ _ _ Hclean).
  eexists. split; [reflexivity|]. cbn. split_and!; [by rewrite lookup_insert_eq| |done].
  rewrite lookup_insert_ne, lookup_alter_eq, Hown by done. done.
Qed.
End GrpcTheorems.

(** ** A concrete server

    One registered, connected machine with a well-formed id; a second machine that is new. *)

Definition demo_machine (a : string) : string := String.concat "" (replicate 8 (String.append a "0123456")).
Definition demo_row (disabled : bool) : Peer :=
  (demo_peer 1 (demo_machine "a") "100.70.0.1") <| NoisePublicKey := "key"%string |>
    <| Hostname := "host"%string |> <| Disabled := disabled |>.
Definition demo_server (disabled : bool) : @Ctl mem_gorm :=
  mkCtl mem_gorm [demo_row disabled] (mkPrefix (Addr4 0x64460000) 24) {[1 := 10]}
    {[10 := mkChan false true; 20 := mkChan false true]} 21 [] [] ∅ Hour.
Definition demo_req (machine : string) : LoginPeerRequest :=
  mkLoginPeerRequest (demo_machine machine) "key2" "" "192.0.2.1:5000" "ann".

Lemma demo_ids b i p : rows (c_db (demo_server b)) !! i = Some p -> i <> 0.
Proof. cbn. intros [[<- _]|[_ [=]]]%lookup_insert_Some. done. Qed.

Lemma login_authorised_witness :
  validateMachineID (demo_machine "a") = true /\
  authorised (idp := demo_idp) demo_validator (demo_server false) (demo_req "a") /\
  (forall peer, GetPeerByMachineID (c_db (demo_server false)) (demo_machine "a") = Some peer ->
                mkPeerConfig 1 "100.70.0.1" "100.70.0.0/24" = ProtoConfig peer).
Proof.
  run_of (LoginPeer (idp := demo_idp) demo_validator (demo_req "a") (demo_server false))
    to (Ok (E := Status) (mkPeerConfig 1 "100.70.0.1" "100.70.0.0/24")) as c' E.
  exact (login_authorised (idp := demo_idp) demo_validator (demo_server false) (demo_req "a") _ c'
           (demo_ids false) E).
Defined.

Lemma login_existing_effect_witness : exists c',
  rows (c_db c') = <[1 := (demo_row false) <| NoisePublicKey := "key2"%string |>
                            <| Endpoint := "192.0.2.1:5000"%string |> <| LastLogin := Hour |>
                            <| UpdatedAt := Hour |>]> (rows (c_db (demo_server false))).
Proof.
  run_of (LoginPeer (idp := demo_idp) demo_validator (demo_req "a") (demo_server false))
    to (Ok (E := Status) (mkPeerConfig 1 "100.70.0.1" "100.70.0.0/24")) as c' E.
  exists c'.
  exact (login_existing_effect (idp := demo_idp) demo_validator (demo_server false) (demo_req "a") _ c' (demo_row false)
           ltac:(done) ltac:(done) ltac:(vm_compute; reflexivity) E).
Defined.

Lemma login_registers_witness : exists c' p cache',
  LoginPeer (idp := demo_idp) demo_validator (demo_req "b") (demo_server false) = Done (Ok (ProtoConfig p)) c' /\
  rows (c_db c') = <[ID p := p]> (rows (c_db (demo_server false))) /\
  ValidateAccessToken (idp := demo_idp) Hour demo_validator "ann" ∅ = (Ok (User p), cache') /\
  AllocatePeerIP (c_db (demo_server false)) (mkPrefix (Addr4 0x64460000) 24) = Some (Ok (IP p)).
Proof.
  run_of (LoginPeer (idp := demo_idp) demo_validator (demo_req "b") (demo_server false))
    to (Ok (E := Status) (mkPeerConfig 2 "100.70.0.2" "100.70.0.0/24")) as c' E.
  destruct (login_registers (idp := demo_idp) demo_validator (demo_server false) (demo_req "b") _ c' ltac:(vm_compute; reflexivity) E)
    as (p & cache' & Hrows & _ & _ & Hcfg & _ & _ & _ & _ & _ & _ & _ & _ & _ & HV & Halloc & _).
  exists c', p, cache'. rewrite <- Hcfg. split; [exact E|]. split; [exact Hrows|]. split; [exact HV|exact Halloc].
Defined.

Lemma disabled_peer_rejected_witness :
  (forall req, MachineId req = demo_machine "a" ->
     exists s, LoginPeer (idp := demo_idp) demo_validator req (demo_server true)
               = Done (Err s) (demo_server true)) /\
  (forall req, ue_MachineId req = demo_machine "a" ->
     exists s, UpdateEndpoint req (demo_server true) = Done (Err s) (demo_server true)) /\
  (forall req, pr_MachineId req = demo_machine "a" ->
     exists s, Punch req (demo_server true) = Done (Err s) (demo_server true)) /\
  (forall sent, exists s, UpdateStream_connect (demo_machine "a") sent (demo_server true)
                          = Done (Err s) (demo_server true)).
Proof.
  exact (disabled_peer_rejected (idp := demo_idp) demo_validator (demo_server true) (demo_machine "a") (demo_row true)
           ltac:(vm_compute; reflexivity) ltac:(vm_compute; reflexivity)).
Defined.

Lemma update_endpoint_effect_witness : exists c' peer,
  GetPeerByMachineID (c_db (demo_server false)) (demo_machine "a") = Some peer /\
  rows (c_db c') = <[ID peer := peer <| Endpoint := "192.0.2.9:1"%string |> <| UpdatedAt := Hour |>]>
                     (rows (c_db (demo_server false))).
Proof.
  run_of (UpdateEndpoint (mkUER (demo_machine "a") "192.0.2.9:1") (demo_server false))
    to (Ok (E := Status) tt) as c' E.
  destruct (update_endpoint_effect (demo_server false) _ _ c' (demo_ids false) E) as (peer & Hg & _ & _ & _ & _ & Hrows).
  exists c', peer. split; [exact Hg|exact Hrows].
Defined.

(** Channel 20 is the peer's first stream, channel 10 the one it registered since. *)
Lemma stream_return_closes_registered_witness : exists c',
  UpdateStream_return (demo_row false) 20 false (demo_server false) = Done None c' /\
  chans c' !! 10 = Some (mkChan true true) /\ chans c' !! 20 = Some (mkChan false false) /\
  peerChannels c' = delete 1 (peerChannels (demo_server false)).
Proof.
  apply (stream_return_closes_registered (demo_server false) (demo_row false) 20 10);
    try (vm_compute; reflexivity); try done.
  intros k q Hk Hne. cbn in Hk. apply lookup_singleton_Some in Hk as [<- _]. done.
Defined.
