(* ===== verification/Streams.v ===== *)
(** The update streams of controller/grpc_v1.go and controller/peer_updates.go as goroutines
    that interleave.

    Controller.v and Grpc.v run a handler from its start to its end in one piece.  Here an
    [UpdateStream] call is a goroutine ([Stream]) with a program counter, an event is sent to
    one channel at a time, and any goroutine, and the other handlers, may run in between:
    [sys_step] is one such step, [reach sys_step] any interleaving.  What is shown is what the
    unbuffered channels do to peers that connect and disconnect at the same time.  A
    handler that blocks has not taken its step, and asks anew when it does.  [DeletePeer] and
    the shutdown of the controller are not steps. *)

From S2P Require Import Prelude GoTime Netip Types Store MemStore Ipam Auth Controller Grpc.

(** Where an [UpdateStream] call is: admitted and about to announce itself; sending an update
    to the peers whose ids are left, and at the channel of one of them, after which it goes on
    or ends; about to send the peer list; in its receive loop; in its deferred function. *)
Inductive Event : Type := Joining | Parting.
Inductive SPc : Type :=
| Entered
| Walking (ev : Event) (u : UpdateResponse) (ks : list Z)
| Sending (ev : Event) (u : UpdateResponse) (q : Z) (ks : list Z)
| Listing
| Receiving
| Leaving.

Record Stream : Type := mkStream { s_peer : Peer; s_ch : Z; s_pc : SPc }.
#[export] Instance Stream_rebuild : Rebuild Stream :=
  {| rebuild := fun s => mkStream (s_peer s) (s_ch s) (s_pc s) |}.

Section Streams.
Context `{Gorm, NetipX, MapOrder} {idp : IdP} (tv : TokenValidator).

(** The controller, the update streams that are running, and how many there have been. *)
Record Sys : Type := mkSys { ctl : Ctl; streams : gmap nat Stream; opened : nat }.

(** The beginning of [PeerConnectedEvent] and of [PeerDisconnectedEvent]: the update, and the
    ids the walk over the channels will visit; nothing when the row is missing. *)
Definition event_begin (ty : UpdateType) (id : Z) : go Ctl (option (UpdateResponse * list Z)) :=
  d ← reads c_db;
  match GetPeerbyID d id with
  | None => mret None
  | Some peer =>
      ks ← reads (fun c => (range c).*1);
      mret (Some (mkUpdateResponse ty (Some (mkPeerList [Proto peer] 1)) "", ks))
  end.

(** One turn of the walk: the channel to send to, as the entry is when the walk gets to it. *)
Definition next_target (id k : Z) : go Ctl (option Z) :=
  m ← reads peerChannels;
  mret (if bool_decide (k <> id) then m !! k else None).

(** The deferred function up to its event. *)
Definition leave_begin (peer : Peer) : go Ctl (option (UpdateResponse * list Z)) :=
  _ ← DeletePeerUpdateChannel (ID peer);
  c ← reads (fun c => c);
  let '(_, peer, d') := SetPeerConnected (now c) (c_db c) peer false in
  _ ← put_db d';
  event_begin DISCONNECT (ID peer).

(** One piece of a goroutine: where it goes on, or [None] when the call returns.  [sent] is
    whether the stream takes the peer list. *)
Definition stream_turn (s : Stream) (sent : bool) : go Ctl (option SPc) :=
  let id := ID (s_peer s) in
  match s_pc s with
  | Entered =>
      r ← event_begin CONNECT id;
      mret (Some (match r with Some (u, ks) => Walking Joining u ks | None => Listing end))
  | Walking ev u (k :: ks) =>
      q ← next_target id k;
      mret (Some (match q with Some q => Sending ev u q ks | None => Walking ev u ks end))
  | Sending ev u q ks => _ ← chan_send q u; mret (Some (Walking ev u ks))
  | Walking Joining _ [] => mret (Some Listing)
  | Walking Parting _ [] => mret None
  | Listing =>
      err ← UpdateStream_init (s_peer s) (s_ch s) sent;
      match err with
      | Some _ => mret (Some Leaving)
      | None => _ ← set_ready (s_ch s) true; mret (Some Receiving)
      end
  | Receiving => _ ← set_ready (s_ch s) false; mret (Some Leaving)
  | Leaving =>
      r ← leave_begin (s_peer s);
      mret (match r with Some (u, ks) => Some (Walking Parting u ks) | None => None end)
  end.

Definition admitted (S : Sys) (peer : Peer) (pc : Z) (c' : Ctl) : Sys :=
  mkSys c' (<[opened S := mkStream peer pc Entered]> (streams S)) (Datatypes.S (opened S)).

(** One step of the controller: a call of [UpdateStream] is admitted, a stream's goroutine
    runs its next piece, another handler runs, or a delayed clean-up of [LogoutPeer]. *)
Inductive sys_step (S : Sys) : Sys -> Prop :=
| step_admit m peer pc c' :
    UpdateStream_admit m (ctl S) = Done (Ok (peer, pc)) c' ->
    sys_step S (admitted S peer pc c')
| step_refuse m e c' :
    UpdateStream_admit m (ctl S) = Done (Err e) c' -> sys_step S (mkSys c' (streams S) (opened S))
| step_turn t s sent pc' c' :
    streams S !! t = Some s ->
    stream_turn s sent (ctl S) = Done (Some pc') c' ->
    sys_step S (mkSys c' (<[t := s <| s_pc := pc' |>]> (streams S)) (opened S))
| step_return t s sent c' :
    streams S !! t = Some s ->
    stream_turn s sent (ctl S) = Done None c' ->
    sys_step S (mkSys c' (delete t (streams S)) (opened S))
| step_login req r c' :
    LoginPeer tv req (ctl S) = Done r c' -> sys_step S (mkSys c' (streams S) (opened S))
| step_endpoint req r c' :
    UpdateEndpoint req (ctl S) = Done r c' -> sys_step S (mkSys c' (streams S) (opened S))
| step_punch req r c' :
    Punch req (ctl S) = Done r c' -> sys_step S (mkSys c' (streams S) (opened S))
| step_cleanup id c' :
    id ∈ sleeping (ctl S) ->
    LogoutPeer_cleanup id (ctl S) = Done tt c' -> sys_step S (mkSys c' (streams S) (opened S))
| step_clock t :
    now (ctl S) <= t -> sys_step S (mkSys ((ctl S) <| now := t |>) (streams S) (opened S)).

(** The stream has not been sent its peer list. *)
Definition waiting (s : Stream) : Prop :=
  match s_pc s with Entered | Walking Joining _ _ | Sending Joining _ _ _ => True | _ => False end.

(** Its next piece takes the controller down. *)
Definition about_to_crash (S : Sys) (t : nat) (c : crash) : Prop :=
  exists s, streams S !! t = Some s /\ forall sent, crashes (stream_turn s sent) (ctl S) c.
End Streams.

(** ** What the handlers leave alone *)

Section Quiet.
Context `{GormLaws, NetipXLaws, MapOrder} {idp : IdP} (tv : TokenValidator).
Implicit Types (c : Ctl) (d : DB).

Definition ids_ok d : Prop := forall i p, rows d !! i = Some p -> i <> 0.

(** Rows are not lost, and stay well-keyed. *)
Definition grows d d' : Prop :=
  ids_ok d -> ids_ok d' /\ forall i, is_Some (rows d !! i) -> is_Some (rows d' !! i).

(** The channels are as before, and only peers whose stream can be receiving have been put
    down for a delayed clean-up. *)
Record quiet c c' : Prop := mkQuiet {
  quiet_map : peerChannels c' = peerChannels c;
  quiet_chans : chans c' = chans c;
  quiet_next : next_chan c' = next_chan c;
  quiet_rows : grows (c_db c) (c_db c');
  quiet_sleeping i q s : i ∈ sleeping c' -> i ∉ sleeping c ->
    peerChannels c !! i = Some q -> chans c !! q = Some s -> ch_ready s = true
}.

#[local] Instance grows_preorder : PreOrder grows.
Proof.
  split; [by intros d|]. intros d1 d2 d3 H12 H23 Hd.
  destruct (H12 Hd) as [Hd2 Hm12]. destruct (H23 Hd2) as [Hd3 Hm23]. eauto.
Qed.

#[local] Instance quiet_preorder : PreOrder quiet.
Proof.
  split; [by intros c; split|]. intros c1 c2 c3 [M1 C1 N1 R1 S1] [M2 C2 N2 R2 S2].
  split; [congruence..|by transitivity (c_db c2)|]. intros i q s Hin Hnin Hq Hs.
  destruct (decide (i ∈ sleeping c2)) as [Hi|Hi]; [by apply (S1 i q)|].
  apply (S2 i q); [done|done|congruence|congruence].
Qed.

Lemma holds_read {A B} (f : Ctl -> A) (k : A -> go Ctl B) c Q :
  holds (k (f c)) c Q -> holds (reads f ≫= k) c Q.
Proof. done. Qed.

Lemma quiet_seq {A B} (m : go Ctl A) (f : A -> go Ctl B) c :
  holds m c (fun x c' => quiet c c' /\ holds (f x) c' (fun _ => quiet c')) ->
  holds (m ≫= f) c (fun _ => quiet c).
Proof.
  intros Hm. apply holds_bind. eapply holds_mono, Hm. intros x c' [Hq Hf].
  eapply holds_mono, Hf. intros y c'' Hq'. by transitivity c'.
Qed.

Lemma grows_alter d d' f i :
  rows d' = alter f i (rows d) -> grows d d'.
Proof.
  intros E Hd. split.
  - intros j p. rewrite E. intros Hj. destruct (rows d !! j) eqn:Ej; [by apply Hd in Ej|].
    destruct (decide (j = i)) as [->|]; [rewrite lookup_alter_eq, Ej in Hj|rewrite lookup_alter_ne in Hj by done];
      cbn in Hj; congruence.
  - intros j Hj. rewrite E. apply lookup_alter_is_Some, Hj.
Qed.

Lemma grows_same d d' : rows d' = rows d -> grows d d'.
Proof. intros E Hd. unfold ids_ok. by rewrite E. Qed.

Lemma quiet_db c d' : grows (c_db c) d' -> quiet c (c <| c_db := d' |>).
Proof. intros Hd. by split. Qed.

Lemma quiet_delivered c l : quiet c (c <| delivered := l |>).
Proof. by split. Qed.

Lemma quiet_cache c u : quiet c (c <| userCache := u |>).
Proof. by split. Qed.

Lemma row_id c m peer :
  ids_ok (c_db c) -> GetPeerByMachineID (c_db c) m = Some peer -> ID peer <> 0.
Proof. intros Hids [Hrow _]%GetPeerByMachineID_row. by apply Hids in Hrow. Qed.

Lemma UpdatePeer_grows t d p e p' d' : UpdatePeer t d p = (e, p', d') -> ID p <> 0 -> grows d d'.
Proof.
  intros E Hid. destruct e.
  - by eapply grows_same, UpdatePeer_rows_err.
  - eapply grows_alter, UpdatePeer_rows; done.
Qed.

Lemma SetPeerConnected_grows t d p v e p' d' :
  SetPeerConnected t d p v = (e, p', d') -> ID p <> 0 -> grows d d'.
Proof.
  intros E Hid. apply SetPeerConnected_rows in E as [E _]; [|done].
  destruct e; [by apply grows_same|by eapply grows_alter].
Qed.

Lemma send_quiet pc u c : holds (chan_send pc u) c (fun _ => quiet c).
Proof.
  unfold holds. destruct (chan_send pc u c) as [[] c'| |] eqn:E; [|done..].
  apply chan_send_frame in E as ->. by split.
Qed.

Lemma forced_logout_quiet id c :
  holds (PeerForcedLogoutEvent id) c (fun _ c' => exists l, c' = c <| delivered := l |> /\
    forall q s, peerChannels c !! id = Some q -> chans c !! q = Some s -> ch_ready s = true).
Proof.
  unfold holds. destruct (PeerForcedLogoutEvent id c) as [[] c'| |] eqn:E; [|done..].
  destruct (PeerForcedLogoutEvent_frame _ _ _ E) as [l ->]. exists l. split; [done|].
  intros q s Hq Hs. unfold PeerForcedLogoutEvent in E.
  rewrite (bind_done _ _ _ (peerChannels c) c), Hq in E by done.
  unfold chan_send in E. rewrite Hs in E. destruct (ch_closed s), (ch_ready s); done.
Qed.

Lemma LogoutPeer_quiet peer c :
  ID peer <> 0 -> holds (LogoutPeer peer) c (fun _ => quiet c).
Proof.
  intros Hid. unfold LogoutPeer. apply holds_bind. eapply holds_mono, forced_logout_quiet.
  intros [] c1 (l & -> & Hready). unfold holds, mbind, go_bind, modify, reads, put_db. cbn.
  destruct (UpdatePeer _ _ _) as [[e p'] d'] eqn:E. unfold modify, mret, go_ret.
  split; [done..| |].
  - eapply UpdatePeer_grows; [exact E|done].
  - cbn. intros i q s Hin Hnin Hq Hs. apply elem_of_app in Hin as [Hin|Hin]; [done|].
    apply list_elem_of_singleton in Hin as ->. eauto.
Qed.

Lemma validate_quiet token c : holds (validateAccessToken tv token) c (fun _ => quiet c).
Proof.
  unfold validateAccessToken.
  unfold holds, mbind, go_bind, reads, modify.
  destruct (ValidateAccessToken _ _ _ _) as [[e|u] cache']; by split.
Qed.

Lemma reauthenticate_quiet peer req c :
  ID peer <> 0 ->
  holds (reauthenticate tv peer req) c (fun r c' => quiet c c' /\
    match r with Ok p => ID p = ID peer | Err _ => True end).
Proof.
  intros Hid. unfold reauthenticate. apply holds_read.
  destruct (IsAuthExpired _ _); [|done]. apply holds_bind. eapply holds_mono, validate_quiet.
  intros [user|e] c1 Hq.
  - by case_bool_decide.
  - apply holds_bind. destruct (IsLoggedIn peer); [|done].
    apply holds_bind. eapply holds_mono, LogoutPeer_quiet; [|done].
    intros r c2 Hq2. split; [by transitivity c1|done].
Qed.

Lemma ProcessPeerLogin_quiet peer req c :
  ID peer <> 0 -> holds (ProcessPeerLogin peer req) c (fun _ => quiet c).
Proof.
  intros Hid. unfold holds. rewrite ProcessPeerLogin_eq. destruct (Disabled peer); [done|].
  destruct (UpdatePeer _ _ _) as [[e p'] d'] eqn:E. by eapply quiet_db, UpdatePeer_grows.
Qed.

Lemma RegisterPeer_quiet req user c : holds (RegisterPeer req user) c (fun _ => quiet c).
Proof.
  unfold RegisterPeer, holds, mbind, go_bind, reads, put_db, modify.
  destruct (AllocatePeerIP _ _) as [[ip|e]|]; [|done|done].
  destruct (CreatePeer _ _ _) as [[e p'] d'] eqn:E.
  enough (Hg : grows (c_db c) d') by (destruct e; by apply quiet_db).
  apply create_rows in E; [|done]. destruct e as [e|]; [by apply grows_same|].
  destruct E as (_ & Hid & Hfresh & Hrows & _). intros Hids. unfold ids_ok. rewrite Hrows. split.
  - intros i p [[<- _]|[_ Hi]]%lookup_insert_Some; [done|eauto].
  - intros i Hi. apply lookup_insert_is_Some'. by right.
Qed.

Lemma LoginPeer_quiet req c : ids_ok (c_db c) -> holds (LoginPeer tv req) c (fun _ => quiet c).
Proof.
  intros Hids. unfold LoginPeer. destruct (negb _); [done|].
  apply holds_read.
  destruct (GetPeerByMachineID _ _) as [peer|] eqn:Hg.
  - destruct (Disabled peer); [done|]. pose proof (row_id _ _ _ Hids Hg) as Hid.
    apply quiet_seq. eapply holds_mono, reauthenticate_quiet; [|done].
    intros [p|e] c1 [Hq Hp]; (split; [done|]); [|done].
    apply quiet_seq. eapply holds_mono, ProcessPeerLogin_quiet; [|by rewrite Hp].
    intros [[e|] p'] c2 Hq2; done.
  - apply quiet_seq. eapply holds_mono, validate_quiet. intros [user|e] c1 Hq; (split; [done|]); [|done].
    apply quiet_seq. eapply holds_mono, RegisterPeer_quiet. by intros [p|e] c2 Hq2.
Qed.

Lemma UpdateEndpoint_quiet req c :
  ids_ok (c_db c) -> holds (UpdateEndpoint req) c (fun _ => quiet c).
Proof.
  intros Hids. unfold UpdateEndpoint. destruct (negb _); [done|].
  apply holds_read.
  destruct (GetPeerByMachineID _ _) as [peer|] eqn:Hg; [|done].
  destruct (IsDisabled peer), (IsLoggedIn peer), (IsAuthExpired (now c) peer); try done.
  case_bool_decide; [done|]. cbn [negb].
  destruct (UpdatePeerEndpoint _ _ _ _) as [e d'] eqn:E.
  apply UpdatePeerEndpoint_rows in E; [|by eapply row_id].
  assert (grows (c_db c) d') by (destruct e; [by apply grows_same|by eapply grows_alter]).
  destruct e; by apply quiet_db.
Qed.

Lemma Punch_quiet req c : holds (Punch req) c (fun _ => quiet c).
Proof.
  unfold Punch. destruct (negb _); [done|]. apply holds_read.
  destruct (GetPeerByMachineID _ _) as [peer|]; [|done].
  destruct (IsDisabled peer), (IsLoggedIn peer), (IsAuthExpired (now c) peer); try done.
  case_bool_decide; [done|]. cbn [negb]. apply quiet_seq.
  unfold PeerPunchRequest. apply holds_read.
  destruct (GetPeerbyID _ _); [|done]. apply holds_read.
  destruct (peerChannels c !! _); [|done]. by eapply holds_mono, send_quiet.
Qed.

Lemma event_begin_total ty id c : exists r, event_begin ty id c = Done r c.
Proof.
  unfold event_begin. rewrite (bind_done _ _ _ (c_db c) c) by done.
  destruct (GetPeerbyID _ _); by eexists.
Qed.

Lemma event_begin_quiet ty id c :
  holds (event_begin ty id) c (fun r c' => c' = c /\
    match r with
    | Some (u, ks) => forall k, k ∈ ks <-> is_Some (peerChannels c !! k)
    | None => GetPeerbyID (c_db c) id = None
    end).
Proof.
  unfold event_begin. apply holds_read.
  destruct (GetPeerbyID _ _) as [peer|] eqn:E; [|done]. cbn. split; [done|].
  intros k. rewrite list_elem_of_fmap. split.
  - intros ([k' q] & -> & Hin). apply range_elem in Hin. by exists q.
  - intros [q Hq]. exists (k, q). split; [done|]. by apply range_elem.
Qed.

Definition send_one (id : Z) (u : UpdateResponse) (k : Z) : go Ctl unit :=
  q ← next_target id k;
  match q with Some q => chan_send q u | None => mret tt end.

(** Undisturbed, the walk one channel at a time is the event of Controller.v. *)
Lemma walk_eq id u kvs c :
  (forall kv, kv ∈ kvs -> peerChannels c !! kv.1 = Some kv.2) ->
  for_each (send_one id u) kvs.*1 c
  = for_each (fun kv => if bool_decide (kv.1 <> id) then chan_send kv.2 u else mret tt) kvs c.
Proof.
  revert c. induction kvs as [|[k q] kvs IH]; intros c Hkv; [done|]. cbn [for_each fmap list_fmap fst snd].
  assert (E : send_one id u k c = (if bool_decide (k <> id) then chan_send q u else mret tt) c).
  { unfold send_one, next_target, mbind, go_bind, reads, mret, go_ret.
    rewrite (Hkv (k, q) ltac:(left) : peerChannels c !! k = Some q). by case_bool_decide. }
  unfold mbind, go_bind. rewrite E.
  destruct ((if bool_decide (k <> id) then chan_send q u else mret tt) c) as [[] c'| |] eqn:Es; [|done..].
  apply IH. intros kv Hin. rewrite <- (Hkv kv) by by right.
  case_bool_decide; [apply chan_send_frame in Es as ->; done|by injection Es as <-].
Qed.

Lemma connected_event_walk id c :
  (r ← event_begin CONNECT id;
   match r with Some (u, ks) => for_each (send_one id u) ks | None => mret tt end) c
  = PeerConnectedEvent id c.
Proof.
  unfold event_begin, PeerConnectedEvent, notify_others, mbind, go_bind, reads.
  destruct (GetPeerbyID (c_db c) id) as [peer|]; [|done]. cbn. apply walk_eq.
  intros kv Hin. by apply range_elem.
Qed.

(** ** What a stream's goroutine touches *)

(** Only the entry of [id] may go from the channel map, and only its channel and [ch] change. *)
Record mild (id ch : Z) c c' : Prop := mkMild {
  mild_map k q : peerChannels c' !! k = Some q -> peerChannels c !! k = Some q;
  mild_map_ne k : k <> id -> peerChannels c' !! k = peerChannels c !! k;
  mild_chans q : q <> ch -> peerChannels c !! id <> Some q -> chans c' !! q = chans c !! q;
  mild_next : next_chan c' = next_chan c;
  mild_rows : grows (c_db c) (c_db c');
  mild_sleeping i q s : i ∈ sleeping c' -> i ∉ sleeping c ->
    peerChannels c !! i = Some q -> chans c !! q = Some s -> ch_ready s = true
}.

Lemma quiet_mild id ch c c' : quiet c c' -> mild id ch c c'.
Proof. intros [M C N R S]. split; intros; rewrite ?M, ?C, ?N in *; eauto. Qed.

Lemma set_ready_mild id ch b c c1 :
  quiet c c1 -> holds (set_ready ch b) c1 (fun _ => mild id ch c).
Proof.
  intros [M C N R S]. cbn. split; cbn; rewrite ?M, ?C; [done..| |done|done|done].
  intros q Hq _. by rewrite lookup_alter_ne.
Qed.

Lemma delete_channel_mild id ch c : holds (DeletePeerUpdateChannel id) c (fun _ => mild id ch c).
Proof.
  unfold DeletePeerUpdateChannel. apply holds_read.
  destruct (peerChannels c !! id) as [q0|] eqn:Hq0; [|by apply quiet_mild].
  unfold holds, chan_close, mbind, go_bind, modify. cbn.
  destruct (chans c !! q0) as [s|]; [|done]. destruct (ch_closed s); [done|].
  split; cbn; [|intros k Hk; by rewrite lookup_delete_ne| |done|done|done].
  - by intros k q [_ Hk]%lookup_delete_Some.
  - intros q _ Hq. rewrite lookup_insert_ne; [done|congruence].
Qed.

Lemma mild_quiet_r id ch c c1 c' : mild id ch c c1 -> quiet c1 c' -> sleeping c' = sleeping c1 -> mild id ch c c'.
Proof.
  intros [M N C X R S] [M' C' X' R' _] Es.
  split; intros; rewrite ?M', ?C', ?X', ?Es in *; eauto. by transitivity (c_db c1).
Qed.

Lemma stream_turn_mild s sent c :
  ID (s_peer s) <> 0 ->
  holds (stream_turn s sent) c (fun _ => mild (ID (s_peer s)) (s_ch s) c).
Proof.
  intros Hid. unfold stream_turn.
  destruct (s_pc s) as [|ev u [|k ks]|ev u q ks| | |].
  - apply holds_bind. eapply holds_mono, event_begin_quiet. intros [[u ks]|] c' [-> _]; by apply quiet_mild.
  - destruct ev; by apply quiet_mild.
  - destruct ev; by apply quiet_mild.
  - apply holds_bind. eapply holds_mono, send_quiet. intros [] c' Hq. by apply quiet_mild.
  - unfold UpdateStream_init, GetConnectedPeers. do 3 apply holds_bind.
    unfold holds at 1, reads. cbn beta. destruct (db_GetConnectedPeers (c_db c)); [|by apply quiet_mild].
    destruct sent; [|by apply quiet_mild]. apply holds_bind, set_ready_mild. by split.
  - apply holds_bind. eapply holds_mono, set_ready_mild; [|done]. intros [] c' Hm. exact Hm.
  - unfold leave_begin. apply holds_bind, holds_bind. eapply holds_mono, (delete_channel_mild _ (s_ch s)).
    intros [] c1 Hm. apply holds_read. destruct (SetPeerConnected _ _ _ _) as [[e p'] d'] eqn:E.
    pose proof (event_begin_quiet DISCONNECT (ID p') (c1 <| c_db := d' |>)) as Hev.
    apply holds_bind. unfold put_db, modify. unfold holds at 1. eapply holds_mono, Hev.
    intros r c2 [-> _]. apply (mild_quiet_r _ _ _ _ _ Hm); [|done].
    apply quiet_db. by eapply SetPeerConnected_grows.
Qed.

(** ** The invariant of the channels *)

Record sys_ok (S : Sys) : Prop := mkSysOk {
  ok_ids : ids_ok (c_db (ctl S));
  ok_bound k q : peerChannels (ctl S) !! k = Some q -> q < next_chan (ctl S);
  ok_inj k k' q : peerChannels (ctl S) !! k = Some q -> peerChannels (ctl S) !! k' = Some q -> k = k';
  ok_streams t s : streams S !! t = Some s ->
    (t < opened S)%nat /\ s_ch s < next_chan (ctl S) /\ is_Some (rows (c_db (ctl S)) !! ID (s_peer s))
}.

Lemma admit_effect m peer pc c c' :
  ids_ok (c_db c) -> UpdateStream_admit m c = Done (Ok (peer, pc)) c' ->
  pc = next_chan c /\ next_chan c' = pc + 1 /\ sleeping c' = sleeping c /\
  peerChannels c' = <[ID peer := pc]> (peerChannels c) /\
  chans c' = <[pc := mkChan false false]> (chans c) /\
  grows (c_db c) (c_db c') /\ is_Some (rows (c_db c') !! ID peer).
Proof.
  intros Hids. unfold UpdateStream_admit. rewrite (bind_done _ _ _ c c) by done.
  destruct (GetPeerByMachineID _ _) as [p|] eqn:Hg; [|done].
  destruct (IsAuthExpired _ _); [done|]. destruct (IsDisabled p); [done|]. destruct (negb _); [done|].
  destruct (SetPeerConnected _ _ _ _) as [[e p'] d'] eqn:E.
  pose proof (row_id _ _ _ Hids Hg) as Hid. pose proof (SetPeerConnected_grows _ _ _ _ _ _ _ E Hid) as Hgr.
  apply SetPeerConnected_rows in E as [_ E]; [|done]. destruct e; [done|].
  unfold GetPeerUpdateChannel, mbind, go_bind, put_db, modify, reads, mret, go_ret. cbn.
  intros [= <- <- <-]. cbn. split_and!; try done.
  rewrite E. destruct (Hgr Hids) as [_ Hm]. apply Hm. apply GetPeerByMachineID_row in Hg as [Hg _]. eauto.
Qed.

Lemma refuse_quiet m e c c' :
  ids_ok (c_db c) -> UpdateStream_admit m c = Done (Err e) c' -> quiet c c'.
Proof.
  intros Hids. unfold UpdateStream_admit. rewrite (bind_done _ _ _ c c) by done.
  destruct (GetPeerByMachineID _ _) as [p|] eqn:Hg; [|by intros [= <- <-]].
  destruct (IsAuthExpired _ _); [by intros [= <- <-]|]. destruct (IsDisabled p); [by intros [= <- <-]|].
  destruct (negb _); [by intros [= <- <-]|].
  destruct (SetPeerConnected _ _ _ _) as [[e' p'] d'] eqn:E.
  pose proof (row_id _ _ _ Hids Hg) as Hid. apply SetPeerConnected_grows in E; [|done].
  destruct e'; [|done]. intros [= <- <-]. by apply quiet_db.
Qed.

Lemma sys_ok_mild id ch S c' ss :
  sys_ok S -> mild id ch (ctl S) c' ->
  (forall t s, ss !! t = Some s -> exists s', streams S !! t = Some s' /\ s_ch s = s_ch s' /\ s_peer s = s_peer s') ->
  sys_ok (mkSys c' ss (opened S)).
Proof.
  intros [Hids Hb Hi Ht] [M _ C X R _] Hss. destruct (R Hids) as [Hids' Hm]. split; cbn.
  - done.
  - intros k q Hk. rewrite X. eauto.
  - intros k k' q Hk Hk'. eauto.
  - intros t s Hs. destruct (Hss t s Hs) as (s' & Hs' & -> & ->).
    destruct (Ht t s' Hs') as (? & ? & ?). rewrite X. eauto.
Qed.

Lemma sys_ok_admit m peer pc S c' :
  sys_ok S -> UpdateStream_admit m (ctl S) = Done (Ok (peer, pc)) c' -> sys_ok (admitted S peer pc c').
Proof.
  intros [Hids Hb Hi Ht] E. apply admit_effect in E as (-> & X & _ & M & C & R & Hrow); [|done].
  destruct (R Hids) as [Hids' Hm]. split; cbn; rewrite ?M, ?X; [done|..].
  - intros k q [[<- <-]|[_ Hk]]%lookup_insert_Some; [lia|]. apply Hb in Hk. lia.
  - intros k k' q [[<- <-]|[Hne Hk]]%lookup_insert_Some [[<- E]|[Hne' Hk']]%lookup_insert_Some; try done.
    + apply Hb in Hk'. lia.
    + subst. apply Hb in Hk. lia.
    + eauto.
  - intros t s [[<- <-]|[_ Hs]]%lookup_insert_Some; cbn; [split_and!; [lia|lia|done]|].
    destruct (Ht t s Hs) as (? & ? & ?). split_and!; [lia|lia|eauto].
Qed.

(** Every step, by what it touches. *)
Lemma step_cases S S' :
  sys_ok S -> sys_step tv S S' ->
  (exists m peer pc c', UpdateStream_admit m (ctl S) = Done (Ok (peer, pc)) c' /\ S' = admitted S peer pc c') \/
  (exists t s sent r c', streams S !! t = Some s /\ stream_turn s sent (ctl S) = Done r c' /\
     mild (ID (s_peer s)) (s_ch s) (ctl S) c' /\
     S' = mkSys c' (match r with Some pc' => <[t := s <| s_pc := pc' |>]> | None => delete t end (streams S))
            (opened S)) \/
  (exists id c', id ∈ sleeping (ctl S) /\ (forall ch, mild id ch (ctl S) c') /\
     S' = mkSys c' (streams S) (opened S)) \/
  (exists c', quiet (ctl S) c' /\ S' = mkSys c' (streams S) (opened S)).
Proof.
  intros Hok Hstep. pose proof (ok_ids _ Hok) as Hids.
  assert (Hturn : forall t s sent r c', streams S !! t = Some s -> stream_turn s sent (ctl S) = Done r c' ->
    mild (ID (s_peer s)) (s_ch s) (ctl S) c').
  { intros t s sent r c' Hs E. destruct (ok_streams _ Hok t s Hs) as (_ & _ & p & Hrow).
    pose proof (stream_turn_mild s sent (ctl S) (Hids _ _ Hrow)) as Hm. unfold holds in Hm. by rewrite E in Hm. }
  assert (Hq : forall A (m : go Ctl A) r c', holds m (ctl S) (fun _ => quiet (ctl S)) ->
    m (ctl S) = Done r c' -> quiet (ctl S) c').
  { intros A m r c' Hm E. unfold holds in Hm. by rewrite E in Hm. }
  destruct Hstep as [m peer pc c' E|m e c' E|t s sent pc' c' Hs E|t s sent c' Hs E|req r c' E|req r c' E|req r c' E|id c' Hin E|t Ht].
  - left. eauto 10.
  - do 3 right. eexists. split; [by eapply refuse_quiet|done].
  - right. left. exists t, s, sent, (Some pc'), c'. eauto.
  - right. left. exists t, s, sent, None, c'. eauto.
  - do 3 right. eexists. split; [|done]. by eapply Hq, E; apply LoginPeer_quiet.
  - do 3 right. eexists. split; [|done]. by eapply Hq, E; apply UpdateEndpoint_quiet.
  - do 3 right. eexists. split; [|done]. by eapply Hq, E; apply Punch_quiet.
  - right. right. left. exists id, c'. split; [done|]. split; [|done]. intros ch.
    pose proof (delete_channel_mild id ch (ctl S)) as Hm. unfold holds in Hm.
    unfold LogoutPeer_cleanup in E. by rewrite E in Hm.
  - do 3 right. eexists. split; [|done]. by split.
Qed.

Lemma sys_ok_step S S' : sys_ok S -> sys_step tv S S' -> sys_ok S'.
Proof.
  intros Hok Hstep. destruct (step_cases _ _ Hok Hstep)
    as [(m & peer & pc & c' & E & ->)|[(t & s & sent & r & c' & Hs & _ & Hm & ->)|[(id & c' & _ & Hm & ->)|(c' & Hq & ->)]]].
  - by eapply sys_ok_admit.
  - eapply sys_ok_mild; [done|exact Hm|]. intros t' s' Hs'. destruct r as [pc'|].
    + apply lookup_insert_Some in Hs' as [[<- <-]|[_ Hs']]; [by exists s|eauto].
    + apply lookup_delete_Some in Hs' as [_ Hs']. eauto.
  - eapply sys_ok_mild; [done|exact (Hm 0)|eauto].
  - eapply (sys_ok_mild 0 0); [done|by apply quiet_mild|eauto].
Qed.

(** ** The jam

    Two peers are registered with channels nobody receives from ([K] holds every channel they
    have had), and every stream from number [n] on still has one of the two before it. *)

Definition ahead (a b : Z) (s : Stream) (ks : list Z) : Prop :=
  (ID (s_peer s) <> a /\ a ∈ ks) \/ (ID (s_peer s) <> b /\ b ∈ ks).

Definition stuck (a b : Z) (K : gset Z) (s : Stream) : Prop :=
  match s_pc s with
  | Entered => True
  | Walking Joining _ ks => ahead a b s ks
  | Sending Joining _ q ks => q ∈ K \/ ahead a b s ks
  | _ => False
  end.

Record dead (a b : Z) (K : gset Z) (c : Ctl) : Prop := mkDead {
  dead_registered k : k = a \/ k = b -> (exists q, peerChannels c !! k = Some q /\ q ∈ K) /\ k ∉ sleeping c;
  dead_chans q : q ∈ K -> chans c !! q = Some (mkChan false false) /\ q < next_chan c;
  dead_others k q : peerChannels c !! k = Some q -> q ∈ K -> k = a \/ k = b
}.

Record jam (a b : Z) (n : nat) (K : gset Z) (S : Sys) : Prop := mkJam {
  jam_dead : dead a b K (ctl S);
  jam_streams t s : streams S !! t = Some s ->
    if decide (n <= t)%nat then stuck a b K s
    else ID (s_peer s) <> a /\ ID (s_peer s) <> b /\ s_ch s ∉ K
}.

Lemma dead_quiet a b K c c' : quiet c c' -> dead a b K c -> dead a b K c'.
Proof.
  intros [M C N R Sl] [Dr Dc Do]. split; rewrite ?M, ?C, ?N; [|done..].
  intros k Hk. destruct (Dr k Hk) as [(q & Hq & HK) Hs]. split; [by exists q|].
  intros Hin. destruct (Dc q HK) as [Hc _]. specialize (Sl k q _ Hin Hs Hq Hc). done.
Qed.

Lemma dead_mild a b K id ch c c' :
  mild id ch c c' -> id <> a -> id <> b -> ch ∉ K -> dead a b K c -> dead a b K c'.
Proof.
  intros [M N C X R Sl] Ha Hb Hch [Dr Dc Do]. split.
  - intros k Hk. destruct (Dr k Hk) as [(q & Hq & HK) Hs]. split.
    + exists q. rewrite N; [done|]. by destruct Hk as [->| ->].
    + intros Hin. destruct (Dc q HK) as [Hc _]. specialize (Sl k q _ Hin Hs Hq Hc). done.
  - intros q HK. rewrite X, C; [by apply Dc| |].
    + intros ->. done.
    + intros Hq. destruct (Do id q Hq HK); congruence.
  - eauto.
Qed.

Lemma dead_admit a b K m peer pc S c' :
  sys_ok S -> UpdateStream_admit m (ctl S) = Done (Ok (peer, pc)) c' -> dead a b K (ctl S) ->
  exists K', dead a b K' c' /\ K ⊆ K' /\ forall q, q ∈ K' -> q ∈ K \/ q = next_chan (ctl S).
Proof.
  intros Hok E [Dr Dc Do]. apply admit_effect in E as (-> & X & Sl & M & C & _ & _); [|apply Hok].
  destruct (decide (ID peer = a \/ ID peer = b)) as [Hp|Hp].
  - exists (K ∪ {[next_chan (ctl S)]}).
    split; [split; rewrite ?M, ?C, ?X, ?Sl|split; [apply union_subseteq_l|]].
    4: { intros q [?| ->%elem_of_singleton]%elem_of_union; auto. }
    + intros k Hk. destruct (Dr k Hk) as [(q & Hq & HK) Hs]. split; [|done].
      destruct (decide (ID peer = k)) as [->|Hne].
      * exists (next_chan (ctl S)). rewrite lookup_insert_eq. split; [done|]. by apply elem_of_union_r, elem_of_singleton.
      * exists q. rewrite lookup_insert_ne by done. split; [done|]. by apply elem_of_union_l.
    + intros q [HK| ->%elem_of_singleton]%elem_of_union; [|rewrite lookup_insert_eq; split; [done|lia]].
      destruct (Dc q HK) as [Hc Hlt]. rewrite lookup_insert_ne by lia. split; [done|lia].
    + intros k q [[<- _]|[_ Hk]]%lookup_insert_Some HK; [done|].
      apply elem_of_union in HK as [HK| ->%elem_of_singleton]; [eauto|]. apply (ok_bound _ Hok) in Hk. lia.
  - exists K. split; [split; rewrite ?M, ?C, ?X, ?Sl|split; [done|auto]].
    + intros k Hk. destruct (Dr k Hk) as [(q & Hq & HK) Hs]. split; [|done].
      exists q. rewrite lookup_insert_ne; [done|]. intros <-. tauto.
    + intros q HK. destruct (Dc q HK) as [Hc Hlt]. rewrite lookup_insert_ne by lia. split; [done|lia].
    + intros k q [[<- <-]|[_ Hk]]%lookup_insert_Some HK; [|eauto]. destruct (Dc _ HK). lia.
Qed.

(** A stuck stream stays stuck and leaves the channels alone. *)
Lemma stuck_turn a b K s sent r c c' :
  (forall d i, is_Some (rows d !! i) -> is_Some (GetPeerbyID d i)) ->
  a <> b -> dead a b K c -> stuck a b K s -> is_Some (rows (c_db c) !! ID (s_peer s)) ->
  stream_turn s sent c = Done r c' ->
  quiet c c' /\ exists pc', r = Some pc' /\ stuck a b K (s <| s_pc := pc' |>).
Proof.
  intros Hread Hab Hd Hst Hrow. unfold stuck in Hst. unfold stream_turn.
  destruct (s_pc s) as [|[] u ks|[] u q ks| | |]; try done.
  - intros (r0 & c0 & E0 & E)%bind_done_inv.
    pose proof (event_begin_quiet CONNECT (ID (s_peer s)) c) as Hev. unfold holds in Hev. rewrite E0 in Hev.
    destruct Hev as [-> Hev]. unfold mret, go_ret in E. injection E as <- <-. split; [done|].
    destruct r0 as [[u ks]|].
    + eexists. split; [done|]. cbn. unfold ahead. cbn. rewrite !Hev.
      destruct (dead_registered _ _ _ _ Hd a) as [(qa & -> & _) _]; [auto|].
      destruct (dead_registered _ _ _ _ Hd b) as [(qb & -> & _) _]; [auto|].
      destruct (decide (ID (s_peer s) = a)) as [->|]; eauto.
    + destruct (Hread _ _ Hrow) as [p Hp]. congruence.
  - destruct ks as [|k ks]; [by destruct Hst as [[_ []%not_elem_of_nil]|[_ []%not_elem_of_nil]]|].
    intros (q & c0 & E0 & E)%bind_done_inv. unfold mret, go_ret in E. injection E as <- <-.
    injection E0 as <- <-. split; [done|]. eexists. split; [done|].
    assert (Hk : k = a \/ k = b -> ID (s_peer s) <> k ->
      exists q, (if bool_decide (k <> ID (s_peer s)) then peerChannels c !! k else None) = Some q /\ q ∈ K).
    { intros Hk Hne. rewrite bool_decide_true by done. apply (dead_registered _ _ _ _ Hd k Hk). }
    destruct Hst as [[Hne Hin]|[Hne Hin]]; apply elem_of_cons in Hin as [->|Hin].
    + destruct Hk as (q & -> & HK); [auto|done|]. cbn. auto.
    + unfold ahead. destruct (if bool_decide _ then _ else _); cbn; unfold ahead; cbn; auto.
    + destruct Hk as (q & -> & HK); [auto|done|]. cbn. auto.
    + unfold ahead. destruct (if bool_decide _ then _ else _); cbn; unfold ahead; cbn; auto.
  - intros ([] & c0 & E0 & E)%bind_done_inv.
    pose proof (send_quiet q u c) as Hq. unfold holds in Hq. rewrite E0 in Hq.
    unfold mret, go_ret in E. injection E as <- <-. split; [done|]. eexists. split; [done|].
    cbn. destruct Hst as [HK|Hst]; [|done].
    destruct (dead_chans _ _ _ _ Hd q HK) as [Hc _]. by rewrite (chan_send_blocked c q _ u Hc) in E0.
Qed.

Lemma stuck_mono a b K K' s : K ⊆ K' -> stuck a b K s -> stuck a b K' s.
Proof. unfold stuck. destruct (s_pc s) as [|[] ? ?|[] ? ? ?| | |]; auto. intros HK [?|?]; auto. Qed.

Lemma jam_step a b n K S S' :
  (forall d i, is_Some (rows d !! i) -> is_Some (GetPeerbyID d i)) ->
  a <> b -> (n <= opened S)%nat -> sys_ok S -> jam a b n K S -> sys_step tv S S' ->
  (n <= opened S')%nat /\ exists K', jam a b n K' S'.
Proof.
  intros Hread Hab Hn Hok [Hd Hss] Hstep.
  destruct (step_cases _ _ Hok Hstep)
    as [(m & peer & pc & c' & E & ->)|[(t & s & sent & r & c' & Hs & E & Hm & ->)|[(id & c' & Hin & Hm & ->)|(c' & Hq & ->)]]];
    (split; [cbn; lia|]).
  - destruct (dead_admit _ _ _ _ _ _ _ _ Hok E Hd) as (K' & Hd' & HK & HK').
    exists K'. split; [done|]. cbn. intros t s [[<- <-]|[_ Hs]]%lookup_insert_Some; [by rewrite decide_True|].
    specialize (Hss t s Hs). destruct (ok_streams _ Hok t s Hs) as (_ & Hlt & _).
    destruct (decide (n <= t)%nat); [by eapply stuck_mono|].
    destruct Hss as (? & ? & ?). split_and!; [done|done|]. intros [?|?]%HK'; [done|lia].
  - pose proof (Hss t s Hs) as Hst. exists K. destruct (decide (n <= t)%nat) as [Hnt|Hnt].
    + destruct (ok_streams _ Hok t s Hs) as (_ & _ & Hrow).
      destruct (stuck_turn a b K s sent r (ctl S) c' Hread Hab Hd Hst Hrow E) as (Hq & pc' & -> & Hst').
      split; [by eapply dead_quiet|]. cbn.
      intros t' s' [[<- <-]|[_ Hs']]%lookup_insert_Some; [by rewrite decide_True|by apply Hss].
    + destruct Hst as (Hia & Hib & Hch).
      split; [by eapply dead_mild|]. cbn. intros t' s' Hs'. destruct r as [pc'|].
      * apply lookup_insert_Some in Hs' as [[<- <-]|[_ Hs']]; [by rewrite decide_False|by apply Hss].
      * apply lookup_delete_Some in Hs' as [_ Hs']. by apply Hss.
  - exists K. split; [|done]. apply (dead_mild a b K id (next_chan (ctl S)) (ctl S)); [done| | | |done].
    + intros ->. by apply (dead_registered _ _ _ _ Hd a); [left|].
    + intros ->. by apply (dead_registered _ _ _ _ Hd b); [right|].
    + intros HK. destruct (dead_chans _ _ _ _ Hd _ HK). lia.
  - exists K. split; [by eapply dead_quiet|done].
Qed.
End Quiet.

(** ** Properties *)

Section StreamTheorems.
Context `{GormLaws, NetipXLaws, MapOrder} {idp : IdP} (tv : TokenValidator).

(** C4. A peer that disconnects while another one is being announced to it takes the controller
    down.  When the goroutine that walks over the channels has come to a peer whose stream is
    in its receive loop, then in three steps - it looks the channel up, the peer's stream
    leaves its loop, and its clean-up closes the channel - the controller is where the
    next thing that goroutine does is a send on a closed channel, a panic. *)
Theorem departing_peer_crashes_controller S t x s sx ev u k ks
    (Hs : streams S !! t = Some s) (Hpc : s_pc s = Walking ev u (k :: ks)) (Hne : ID (s_peer s) <> k)
    (Hx : streams S !! x = Some sx) (Hxpc : s_pc sx = Receiving) (Hxid : ID (s_peer sx) = k)
    (Hreg : peerChannels (ctl S) !! k = Some (s_ch sx))
    (Hch : chans (ctl S) !! s_ch sx = Some (mkChan false true)) :
  exists S1 S2 S3, sys_step tv S S1 /\ sys_step tv S1 S2 /\ sys_step tv S2 S3 /\
    about_to_crash S3 t SendOnClosed.
Proof.
  assert (Htx : t <> x) by (intros ->; congruence).
  set (q := s_ch sx) in *.
  set (S1 := mkSys (ctl S) (<[t := s <| s_pc := Sending ev u q ks |>]> (streams S)) (opened S)).
  set (c2 := (ctl S) <| chans ::= alter (fun s => s <| ch_ready := false |>) q |>).
  set (S2 := mkSys c2 (<[x := sx <| s_pc := Leaving |>]> (streams S1)) (opened S)).
  set (c3 := c2 <| peerChannels ::= delete k |> <| chans ::= <[q := mkChan true false]> |>).
  assert (Hdel : DeletePeerUpdateChannel (ID (s_peer (sx <| s_pc := Leaving |>))) c2 = Done tt c3).
  { unfold DeletePeerUpdateChannel. rewrite (bind_done _ _ _ (peerChannels c2) c2) by done.
    cbn. rewrite Hxid, Hreg. unfold chan_close, mbind, go_bind, modify. cbn.
    by rewrite lookup_alter_eq, Hch. }
  assert (Hleave : exists r c', leave_begin (s_peer sx) c2 = Done r c' /\ chans c' = chans c3).
  { unfold leave_begin. cbn in Hdel. rewrite (bind_done _ _ _ _ _ Hdel), (bind_done _ _ _ c3 c3) by done.
    destruct (SetPeerConnected _ _ _ _) as [[e p'] d'].
    pose proof (event_begin_total DISCONNECT (ID p') (c3 <| c_db := d' |>)) as [r Hr].
    exists r, (c3 <| c_db := d' |>). split; [|done]. exact Hr. }
  destruct Hleave as (r & c' & Hleave & Hcl).
  set (S3 := mkSys c' (match r with Some (u, ks) => <[x := sx <| s_pc := Walking Parting u ks |>]>
                                  | None => delete x end (streams S2)) (opened S)).
  exists S1, S2, S3. split; [|split; [|split]].
  - apply (step_turn tv S t s true); [done|]. unfold stream_turn. rewrite Hpc.
    destruct ev; unfold next_target, mbind, go_bind, reads, mret, go_ret;
      by rewrite bool_decide_true, Hreg by done.
  - apply (step_turn tv S1 x sx true); [by cbn; rewrite lookup_insert_ne|].
    unfold stream_turn. by rewrite Hxpc.
  - assert (Hturn : stream_turn (sx <| s_pc := Leaving |>) true c2
      = Done (match r with Some (u, ks) => Some (Walking Parting u ks) | None => None end) c').
    { unfold stream_turn. cbn. by rewrite (bind_done _ _ _ _ _ Hleave). }
    destruct r as [[u' ks']|].
    + exact (step_turn tv S2 x _ true _ _ (lookup_insert_eq _ _ _) Hturn).
    + exact (step_return tv S2 x _ true _ (lookup_insert_eq _ _ _) Hturn).
  - exists (s <| s_pc := Sending ev u q ks |>). split.
    + cbn. destruct r as [[u' ks']|]; rewrite ?lookup_insert_ne, ?lookup_delete_ne by done;
        rewrite ?lookup_insert_ne by done; apply lookup_insert_eq.
    + intros sent. unfold stream_turn, crashes, mbind, go_bind, chan_send. cbn.
      rewrite Hcl. cbn. by rewrite lookup_insert_eq.
Qed.

(** C39. Two peers that connect at the same time shut the controller's streams down for good:
    when the second is admitted before the first has announced itself, then however the
    goroutines and the other handlers go on, neither of the two, and no peer that connects
    after them, is ever sent its list of peers; each stays in its announcement, waiting for
    one of the two to receive.  The controller starts without channels, is in any state its
    steps reach, the two peers have no other stream, and the database does not fail to read
    a row. *)
Theorem simultaneous_connects_jam S0 S ma mb pa pb qa qb c1 c2 S'
    (Hread : forall d i, is_Some (rows d !! i) -> is_Some (GetPeerbyID d i))
    (Hids : ids_ok (c_db (ctl S0))) (Hnone : peerChannels (ctl S0) = ∅) (Hstreams : streams S0 = ∅)
    (Hreach : reach (sys_step tv) S0 S)
    (Ha : UpdateStream_admit ma (ctl S) = Done (Ok (pa, qa)) c1)
    (Hb : UpdateStream_admit mb c1 = Done (Ok (pb, qb)) c2)
    (Hab : ID pa <> ID pb)
    (Hfree : forall t s, streams S !! t = Some s -> ID (s_peer s) <> ID pa /\ ID (s_peer s) <> ID pb)
    (Hasleep : ID pa ∉ sleeping (ctl S)) (Hbsleep : ID pb ∉ sleeping (ctl S))
    (Hgo : reach (sys_step tv) (admitted (admitted S pa qa c1) pb qb c2) S') :
  forall t s, streams S' !! t = Some s -> (opened S <= t)%nat -> waiting s.
Proof.
  assert (Hok : sys_ok S).
  { eapply reach_invariant, Hreach; [|apply sys_ok_step].
    split; [done|..]; rewrite ?Hnone, ?Hstreams; by intros. }
  pose proof (sys_ok_admit _ _ _ _ _ Hok Ha) as Hok1.
  pose proof (sys_ok_admit _ _ _ _ _ Hok1 Hb) as Hok2.
  enough (HI : sys_ok S' /\ (opened S <= opened S')%nat /\
    exists K, jam (ID pa) (ID pb) (opened S) K S').
  { destruct HI as (_ & _ & K & HJ). intros t s Hs Hle. pose proof (jam_streams _ _ _ _ _ HJ t s Hs) as Hst.
    rewrite decide_True in Hst by done. unfold waiting. unfold stuck in Hst.
    by destruct (s_pc s) as [|[] ? ?|[] ? ? ?| | |]. }
  eapply (reach_invariant _ (fun S' => sys_ok S' /\ (opened S <= opened S')%nat /\
    exists K, jam (ID pa) (ID pb) (opened S) K S')); [|clear Hgo|exact Hgo].
  - split; [done|]. split; [cbn; lia|]. exists {[qa; qb]}.
    apply admit_effect in Ha as (-> & X1 & Sl1 & M1 & C1 & _ & _); [|apply Hok].
    apply (admit_effect _ _ _ _ _ (ok_ids _ Hok1)) in Hb as (-> & X2 & Sl2 & M2 & C2 & _ & _).
    cbn in *. split; cbn; [split|].
    + rewrite M2, M1, Sl2, Sl1. intros k [->| ->].
      * split; [|done]. exists (next_chan (ctl S)). rewrite lookup_insert_ne, lookup_insert_eq by done.
        split; [done|]. by apply elem_of_union_l, elem_of_singleton.
      * split; [|done]. exists (next_chan c1). rewrite lookup_insert_eq.
        split; [done|]. by apply elem_of_union_r, elem_of_singleton.
    + rewrite C2, C1, X2. intros q [->%elem_of_singleton| ->%elem_of_singleton]%elem_of_union.
      * rewrite lookup_insert_ne, lookup_insert_eq by lia. split; [done|lia].
      * rewrite lookup_insert_eq. split; [done|lia].
    + rewrite M2, M1. intros k q [[<- _]|[_ [[<- _]|[_ Hk]]%lookup_insert_Some]]%lookup_insert_Some; [auto|auto|].
      apply (ok_bound _ Hok) in Hk. intros [->%elem_of_singleton| ->%elem_of_singleton]%elem_of_union; lia.
    + intros t s [[<- <-]|[_ [[<- <-]|[_ Hs]]%lookup_insert_Some]]%lookup_insert_Some.
      * by rewrite decide_True by lia.
      * by rewrite decide_True by lia.
      * destruct (ok_streams _ Hok t s Hs) as (Hlt & Hch & _). rewrite decide_False by lia.
        destruct (Hfree t s Hs). split_and!; [done|done|].
        intros [?%elem_of_singleton|?%elem_of_singleton]%elem_of_union; lia.
  - intros S1 S2 (Hok3 & Hn & K & HJ) Hstep. split; [by eapply sys_ok_step|].
    by eapply jam_step.
Qed.
End StreamTheorems.

(** ** A concrete controller

    Two machines that are logged in and connect one right after the other. *)

Definition demo_first : Peer := (demo_row false) <| Connected := false |>.
Definition demo_second : Peer :=
  (demo_peer 2 (demo_machine "b") "100.70.0.2") <| Connected := false |>.
Definition demo_pair : @Ctl mem_gorm :=
  (demo_server false) <| c_db := [demo_first; demo_second] |> <| peerChannels := ∅ |> <| chans := ∅ |>.

Lemma mem_reads (d : @DB mem_gorm) i : is_Some (rows d !! i) -> is_Some (GetPeerbyID d i).
Proof.
  intros [p Hp]. unfold GetPeerbyID. cbn. unfold first_where. pose proof (table_rows_key _ _ _ Hp) as Hi.
  assert (Hin : p ∈ filter (fun p => bool_decide (ID p = i) = true) (table_all d)).
  { apply list_elem_of_filter. split; [by apply bool_decide_eq_true|]. apply table_all_elem. by rewrite Hi. }
  destruct (filter _ _); [by apply not_elem_of_nil in Hin|eauto].
Qed.

Lemma demo_pair_ids : ids_ok (c_db demo_pair).
Proof. intros i p. cbn. intros [[<- _]|[_ [[<- _]|[_ [=]]]%lookup_insert_Some]]%lookup_insert_Some; done. Qed.

Definition demo_admitted (row : Peer) : Peer := row <| Connected := true |> <| UpdatedAt := Hour |>.

Lemma simultaneous_connects_jam_witness : exists c1 c2,
  forall S', reach (sys_step (idp := demo_idp) demo_validator)
               (admitted (admitted (mkSys demo_pair ∅ 0) (demo_admitted demo_first) 21 c1)
                  (demo_admitted demo_second) 22 c2) S' ->
  forall t s, streams S' !! t = Some s -> waiting s.
Proof.
  run_of ((r ← UpdateStream_admit (demo_machine "a"); r' ← UpdateStream_admit (demo_machine "b");
           mret (r, r')) demo_pair)
    to (Ok (E := Status) (demo_admitted demo_first, 21), Ok (E := Status) (demo_admitted demo_second, 22)) as c E.
  apply bind_done_inv in E as (r & c1 & E1 & E).
  apply bind_done_inv in E as (r' & c2 & E2 & [= -> -> <-]).
  exists c1, c2. intros S' Hgo t s Hs.
  refine (simultaneous_connects_jam (idp := demo_idp) demo_validator (mkSys demo_pair ∅ 0) _
    _ _ _ _ _ _ c1 c2 S' mem_reads demo_pair_ids eq_refl eq_refl (reach_refl _ _) E1 E2 _ _ _ _ Hgo t s Hs _).
  - done.
  - intros t' s' [=].
  - by apply not_elem_of_nil.
  - by apply not_elem_of_nil.
  - cbn. lia.
Defined.

(** Peer 2 is announcing itself and has come to peer 1. *)
Definition demo_walk : Sys :=
  mkSys demo_ctl
    {[0%nat := mkStream (demo_peer 2 "m2" "100.70.0.2") 20 (Walking Joining (mkUpdateResponse CONNECT None "") [1]);
      1%nat := mkStream (demo_peer 1 "m1" "100.70.0.1") 10 Receiving]} 2.

Lemma departing_peer_crashes_controller_witness : exists S1 S2 S3,
  sys_step (idp := demo_idp) demo_validator demo_walk S1 /\ sys_step (idp := demo_idp) demo_validator S1 S2 /\
  sys_step (idp := demo_idp) demo_validator S2 S3 /\ about_to_crash S3 0 SendOnClosed.
Proof.
  eapply (departing_peer_crashes_controller (idp := demo_idp) demo_validator demo_walk 0 1);
    try (vm_compute; reflexivity).
  vm_compute. discriminate.
Defined.
