(* ===== verification/Registry.v ===== *)
(** The controller's table of peers over its whole life: what every handler, every piece of an
    update stream's goroutine and the gateway's calls, in any order, make of the rows.

    Seen from outside, the table is a register of leases - a machine, its user, an address of
    the prefix - that are granted once, never change and end when the peer is deleted:
    [lease_step] is that specification, [leases] the map to it.  Everything else a handler
    writes is a [touch] of a row. *)

From S2P Require Import Prelude GoTime Netip Types Store MemStore Ipam Auth Controller Grpc Streams.

(** ** The specification: a register of leases *)

Record Lease : Type := mkLease { l_machine : string; l_user : string; l_ip : string; l_prefix : string }.
Definition lease (r : Peer) : Lease := mkLease (MachineID r) (User r) (IP r) (PPrefix r).

Inductive lease_step (L : gmap Z Lease) : gmap Z Lease -> Prop :=
| lease_grant i l :
    i <> 0 -> L !! i = None -> (forall j l', L !! j = Some l' -> l_ip l' <> l_ip l) ->
    lease_step L (<[i := l]> L)
| lease_end i : lease_step L (delete i L)
| lease_none : lease_step L L.

Definition distinct (L : gmap Z Lease) : Prop :=
  forall i j l l', L !! i = Some l -> L !! j = Some l' -> l_ip l = l_ip l' -> i = j.

Lemma distinct_step L L' : distinct L -> lease_step L L' -> distinct L'.
Proof.
  intros HL [i l _ _ Hnew|i|]; [|intros j k m m' [_ Hj]%lookup_delete_Some [_ Hk]%lookup_delete_Some; eauto|done].
  intros j k m m' [[<- <-]|[_ Hj]]%lookup_insert_Some [[<- <-]|[_ Hk]]%lookup_insert_Some E;
    [done|by apply Hnew in Hk|by apply Hnew in Hj|eauto].
Qed.

Lemma omap_le {A B} (f : A -> option B) (l : list A) : (length (omap f l) <= length l)%nat.
Proof. induction l as [|x l IH]; [done|]. cbn. destruct (f x); cbn; lia. Qed.

(** ** What the handlers write *)

Section Rows.
Context `{GormLaws, NetipXLaws, MapOrder} {idp : IdP} (tv : TokenValidator).
Implicit Types (c : Ctl) (d : DB) (m : gmap Z Peer).

(** A write at the time [t] that leaves the row's lease and whether it is disabled. *)
Record touch (t : Z) (r r' : Peer) : Prop := mkTouch {
  touch_lease : lease r' = lease r;
  touch_disabled : Disabled r' = Disabled r;
  touch_logged : LoggedIn r = true -> LoggedIn r' = true;
  touch_auth : LastAuth r' = LastAuth r \/ LastAuth r' = t
}.
Definition touched (t : Z) m m' : Prop := forall i, option_Forall2 (touch t) (m !! i) (m' !! i).

#[local] Instance touch_preorder t : PreOrder (touch t).
Proof.
  split; [intros r; split; auto|]. intros r1 r2 r3 [L1 D1 G1 A1] [L2 D2 G2 A2].
  split; [congruence|congruence|auto|]. destruct A2 as [->|]; auto.
Qed.
#[local] Instance touched_preorder t : PreOrder (touched t).
Proof.
  split; [by intros m i|]. intros m1 m2 m3 H12 H23 i. by transitivity (m2 !! i).
Qed.

Lemma touched_alter t f i m :
  (forall r, m !! i = Some r -> touch t r (f r)) -> touched t m (alter f i m).
Proof.
  intros Hf j. destruct (decide (i = j)) as [<-|]; [|by rewrite lookup_alter_ne].
  rewrite lookup_alter_eq. destruct (m !! i); constructor. by apply Hf.
Qed.

Lemma touched_some t m m' i r' :
  touched t m m' -> m' !! i = Some r' -> exists r, m !! i = Some r /\ touch t r r'.
Proof. intros Hm E. specialize (Hm i). rewrite E in Hm. inversion Hm; subst; eauto. Qed.

(** A program that only touches rows, and leaves the prefix and the clock. *)
Record calm c c' : Prop := mkCalm {
  calm_prefix : c_prefix c' = c_prefix c;
  calm_now : now c' = now c;
  calm_rows : touched (now c) (rows (c_db c)) (rows (c_db c'))
}.
#[local] Instance calm_preorder : PreOrder calm.
Proof.
  split; [by intros c; split|]. intros c1 c2 c3 [P1 N1 T1] [P2 N2 T2]. split; [congruence..|].
  rewrite N1 in T2. by transitivity (rows (c_db c2)).
Qed.

Lemma calm_db c d' : touched (now c) (rows (c_db c)) (rows d') -> calm c (c <| c_db := d' |>).
Proof. by split. Qed.

Lemma calm_seq {A B} (m : go Ctl A) (f : A -> go Ctl B) c :
  holds m c (fun x c' => calm c c' /\ holds (f x) c' (fun _ => calm c')) ->
  holds (m ≫= f) c (fun _ => calm c).
Proof.
  intros Hm. apply holds_bind. eapply holds_mono, Hm. intros x c' [Hq Hf].
  eapply holds_mono, Hf. intros y c'' Hq'. by transitivity c'.
Qed.

(** The record [p] given to [UpdatePeer] says nothing else about the row [r]. *)
Definition agrees (t : Z) (p r : Peer) : Prop :=
  (MachineID p = ""%string \/ MachineID p = MachineID r) /\ (User p = ""%string \/ User p = User r) /\
  (IP p = ""%string \/ IP p = IP r) /\ (PPrefix p = ""%string \/ PPrefix p = PPrefix r) /\
  (Disabled p = false \/ Disabled p = Disabled r) /\
  (LastAuth p = 0 \/ LastAuth p = LastAuth r \/ LastAuth p = t).

Lemma keep_str_or new old : new = ""%string \/ new = old -> keep_str new old = old.
Proof. unfold keep_str. intros [->| ->]; [by rewrite bool_decide_true|by case_bool_decide]. Qed.

Lemma touch_merge t p r : agrees t p r -> touch t r (merge_nonzero t p r).
Proof.
  intros (Em & Eu & Ei & Ep & Ed & Ea). unfold merge_nonzero. split; cbn.
  - unfold lease; cbn. by rewrite !keep_str_or.
  - destruct Ed as [->| ->]; [done|]. by destruct (Disabled r).
  - intros ->. apply orb_true_r.
  - unfold keep_num. case_bool_decide; [by left|]. by destruct Ea as [?|Ea].
Qed.

Lemma UpdatePeer_touched t d p e p' d' :
  UpdatePeer t d p = (e, p', d') -> ID p <> 0 ->
  (forall r, rows d !! ID p = Some r -> agrees t p r) -> touched t (rows d) (rows d').
Proof.
  intros E Hid Ha. destruct e.
  - by rewrite (UpdatePeer_rows_err _ _ _ _ _ _ E Hid).
  - destruct (UpdatePeer_rows _ _ _ _ _ E Hid) as [-> _].
    apply touched_alter. intros r Hr. by apply touch_merge, Ha.
Qed.

Lemma SetPeerConnected_touched t d p v e p' d' :
  SetPeerConnected t d p v = (e, p', d') -> ID p <> 0 ->
  touched t (rows d) (rows d') /\ ID p' = ID p.
Proof.
  intros E Hid. apply SetPeerConnected_rows in E as [-> ->]; [|done]. split; [|done].
  destruct e; [done|]. apply touched_alter. intros r _. split; auto.
Qed.

Lemma validate_calm token c :
  holds (validateAccessToken tv token) c (fun _ c' => exists u, c' = c <| userCache := u |>).
Proof.
  unfold holds. rewrite validateAccessToken_eq. destruct (ValidateAccessToken _ _ _ _). eauto.
Qed.

Lemma LogoutPeer_calm peer c :
  ID peer <> 0 -> holds (LogoutPeer peer) c (fun r c' => calm c c' /\ ID r.2 = ID peer).
Proof.
  intros Hid. unfold LogoutPeer. apply holds_bind. eapply holds_mono, forced_logout_quiet.
  intros [] c1 (l & -> & _). unfold holds, mbind, go_bind, modify, reads, put_db. cbn.
  destruct (UpdatePeer _ _ _) as [[e p'] d'] eqn:E. unfold modify, mret, go_ret. split; [|done].
  split; [done..|]. cbn. eapply UpdatePeer_touched; [exact E|done|].
  intros r _. unfold agrees; cbn. auto 10.
Qed.

Lemma send_calm pc u c : holds (chan_send pc u) c (fun _ => calm c).
Proof.
  unfold holds. destruct (chan_send pc u c) as [[] c'| |] eqn:E; [|done..].
  apply chan_send_frame in E as ->. by split.
Qed.

Lemma delete_channel_calm id c : holds (DeletePeerUpdateChannel id) c (fun _ => calm c).
Proof.
  unfold DeletePeerUpdateChannel. apply holds_read.
  destruct (peerChannels c !! id) as [q|]; [|done].
  unfold holds, chan_close, mbind, go_bind, modify. cbn.
  destruct (chans c !! q) as [s|]; [|done]. by destruct (ch_closed s).
Qed.

Lemma row_of c mid peer :
  ids_ok (c_db c) -> GetPeerByMachineID (c_db c) mid = Some peer ->
  rows (c_db c) !! ID peer = Some peer /\ ID peer <> 0 /\ MachineID peer = mid.
Proof. intros Hids [Hrow Hm]%GetPeerByMachineID_row. split_and!; eauto. Qed.

Lemma login_agrees t peer req : agrees t (login_record t peer req) peer.
Proof. unfold agrees; cbn. auto 10. Qed.

(** A login either touches rows, or grants a lease. *)
Definition enrols (req : LoginPeerRequest) c c' : Prop :=
  c_prefix c' = c_prefix c /\ now c' = now c /\
  GetPeerByMachineID (c_db c) (MachineId req) = None /\ validateMachineID (MachineId req) = true /\
  exists p, rows (c_db c') = <[ID p := p]> (rows (c_db c)) /\ rows (c_db c) !! ID p = None /\ ID p <> 0 /\
    MachineID p = MachineId req /\ PPrefix p = prefix_string (c_prefix c) /\ LoggedIn p = true /\
    LastAuth p = now c /\ AllocatePeerIP (c_db c) (c_prefix c) = Some (Ok (IP p)) /\
    (forall i r, rows (c_db c) !! i = Some r -> IP r <> IP p).

Lemma reauthenticate_calm peer req c :
  ID peer <> 0 -> holds (reauthenticate tv peer req) c (fun r c' => calm c c' /\
    match r with
    | Ok p => c_db c' = c_db c /\ now c' = now c /\ (p = peer \/ p = UpdateAuth (now c) peer)
    | Err _ => True
    end).
Proof.
  intros Hid. unfold reauthenticate. apply holds_read.
  destruct (IsAuthExpired _ _); [|by split_and!; auto]. apply holds_bind. eapply holds_mono, validate_calm.
  intros [user|e] c1 [u ->].
  - case_bool_decide; [by split|]. split; [by split|]. auto.
  - apply holds_bind. destruct (IsLoggedIn peer); [|by split].
    apply holds_bind. eapply holds_mono, LogoutPeer_calm; [|done].
    intros r c2 [Hq2 _]. split; [|done]. transitivity (c <| userCache := u |>); [by split|done].
Qed.

Lemma ProcessPeerLogin_calm peer row req c :
  ID peer <> 0 -> ID row = ID peer -> rows (c_db c) !! ID peer = Some row ->
  agrees (now c) (login_record (now c) peer req) row ->
  holds (ProcessPeerLogin peer req) c (fun _ => calm c).
Proof.
  intros Hid Hrid Hrow Ha. unfold holds. rewrite ProcessPeerLogin_eq. destruct (Disabled peer); [done|].
  destruct (UpdatePeer _ _ _) as [[e p'] d'] eqn:E. apply calm_db. eapply UpdatePeer_touched; [exact E|done|].
  cbn. intros r Hr. by simplify_eq.
Qed.

Lemma RegisterPeer_writes req user c :
  holds (RegisterPeer req user) c (fun _ c' => GetPeerByMachineID (c_db c) (MachineId req) = None ->
    validateMachineID (MachineId req) = true -> calm c c' \/ enrols req c c').
Proof.
  unfold RegisterPeer, holds, mbind, go_bind, reads, put_db, modify.
  destruct (AllocatePeerIP _ _) as [[ip|e]|] eqn:Halloc; [|by left|done].
  destruct (CreatePeer _ _ _) as [[e p'] d'] eqn:E.
  enough (Hg : GetPeerByMachineID (c_db c) (MachineId req) = None ->
    validateMachineID (MachineId req) = true -> calm c (c <| c_db := d' |>) \/ enrols req c (c <| c_db := d' |>))
    by (by destruct e).
  intros Hnone Hv. apply create_rows in E; [|done]. destruct e as [e|].
  - left. apply calm_db. by rewrite E.
  - right. destruct E as (Hp & Hid & Hfresh & Hrows & Hip). do 4 (split; [done|]). exists p'.
    destruct p'; cbn in *. injection Hp; intros; subst. by split_and!.
Qed.

Lemma LoginPeer_writes req c :
  ids_ok (c_db c) -> holds (LoginPeer tv req) c (fun _ c' => calm c c' \/ enrols req c c').
Proof.
  intros Hids. unfold LoginPeer. destruct (validateMachineID _) eqn:Hv; [cbn [negb]|by left].
  apply holds_read. destruct (GetPeerByMachineID _ _) as [peer|] eqn:Hg.
  - eapply (holds_mono _ _ (fun _ => calm c)); [by left|].
    destruct (row_of _ _ _ Hids Hg) as (Hrow & Hid & _).
    destruct (Disabled peer); [done|]. apply calm_seq.
    eapply holds_mono, reauthenticate_calm; [|done]. intros [p|e] c1 [Hc Hp]; (split; [done|]); [|done].
    destruct Hp as (Ed & En & Hp). assert (Hpid : ID p = ID peer) by (destruct Hp as [->| ->]; done).
    apply calm_seq. eapply holds_mono, (ProcessPeerLogin_calm p peer).
    + by intros [[e|] p'] c2 Hq2.
    + by rewrite Hpid.
    + done.
    + by rewrite Ed, Hpid.
    + rewrite En. destruct Hp as [->| ->]; [apply login_agrees|]. unfold agrees; cbn. auto 10.
  - apply holds_bind. eapply holds_mono, validate_calm. intros [user|e] c1 [u ->]; [|left; by split].
    apply holds_bind. eapply holds_mono, RegisterPeer_writes. intros r c2 Hr.
    assert (Hend : calm c c2 \/ enrols req c c2).
    { destruct (Hr Hg Hv) as [Hc|He]; [left|by right].
      transitivity (c <| userCache := u |>); [by split|done]. }
    by destruct r.
Qed.

Lemma UpdateEndpoint_calm req c : ids_ok (c_db c) -> holds (UpdateEndpoint req) c (fun _ => calm c).
Proof.
  intros Hids. unfold UpdateEndpoint. destruct (negb _); [done|]. apply holds_read.
  destruct (GetPeerByMachineID _ _) as [peer|] eqn:Hg; [|done].
  destruct (IsDisabled peer), (IsLoggedIn peer), (IsAuthExpired (now c) peer); try done.
  case_bool_decide; [done|]. cbn [negb].
  destruct (UpdatePeerEndpoint _ _ _ _) as [e d'] eqn:E.
  apply UpdatePeerEndpoint_rows in E; [|by eapply row_id].
  assert (touched (now c) (rows (c_db c)) (rows d')).
  { rewrite E. destruct e; [done|]. apply touched_alter. intros r _. split; auto. }
  destruct e; by apply calm_db.
Qed.

Lemma Punch_calm req c : holds (Punch req) c (fun _ => calm c).
Proof.
  unfold Punch. destruct (negb _); [done|]. apply holds_read.
  destruct (GetPeerByMachineID _ _) as [peer|]; [|done].
  destruct (IsDisabled peer), (IsLoggedIn peer), (IsAuthExpired (now c) peer); try done.
  case_bool_decide; [done|]. cbn [negb]. apply calm_seq.
  unfold PeerPunchRequest. apply holds_read.
  destruct (GetPeerbyID _ _); [|done]. apply holds_read.
  destruct (peerChannels c !! _); [|done]. by eapply holds_mono, send_calm.
Qed.

Lemma admit_calm mid c :
  ids_ok (c_db c) -> holds (UpdateStream_admit mid) c (fun r c' => calm c c' /\
    match r with Ok (p, _) => ID p <> 0 | Err _ => True end).
Proof.
  intros Hids. unfold UpdateStream_admit. apply holds_read.
  destruct (GetPeerByMachineID _ _) as [p|] eqn:Hg; [|done].
  destruct (IsAuthExpired _ _); [done|]. destruct (IsDisabled p); [done|]. destruct (negb _); [done|].
  destruct (SetPeerConnected _ _ _ _) as [[e p'] d'] eqn:E.
  pose proof (row_id _ _ _ Hids Hg) as Hid.
  destruct (SetPeerConnected_touched _ _ _ _ _ _ _ E Hid) as [Ht Hp'].
  destruct e; unfold holds, GetPeerUpdateChannel, mbind, go_bind, put_db, modify, reads, mret, go_ret; cbn;
    (split; [by split|]); [done|by rewrite Hp'].
Qed.

Lemma set_ready_calm ch b c : holds (set_ready ch b) c (fun _ => calm c).
Proof. by split. Qed.

Lemma leave_begin_calm peer c : ID peer <> 0 -> holds (leave_begin peer) c (fun _ => calm c).
Proof.
  intros Hid. unfold leave_begin. apply calm_seq. eapply holds_mono, delete_channel_calm.
  intros [] c1 Hc. split; [done|]. apply holds_read.
  destruct (SetPeerConnected _ _ _ _) as [[e p'] d'] eqn:E.
  apply SetPeerConnected_touched in E as [Ht _]; [|done].
  apply calm_seq. unfold put_db, modify, holds at 1. split; [by apply calm_db|].
  eapply holds_mono, event_begin_quiet. by intros r c2 [-> _].
Qed.

Lemma stream_turn_calm s sent c :
  ID (s_peer s) <> 0 -> holds (stream_turn s sent) c (fun _ => calm c).
Proof.
  intros Hid. unfold stream_turn. destruct (s_pc s) as [|ev u [|k ks]|ev u q ks| | |].
  - apply calm_seq. eapply holds_mono, event_begin_quiet. by intros [[u ks]|] c' [-> _].
  - by destruct ev.
  - by destruct ev.
  - apply calm_seq. eapply holds_mono, send_calm. by intros [] c' Hq.
  - unfold UpdateStream_init, GetConnectedPeers. do 3 apply holds_bind.
    unfold holds at 1, reads. cbn beta. destruct (db_GetConnectedPeers (c_db c)); [|done].
    destruct sent; [|done]. by apply holds_bind.
  - apply calm_seq. eapply holds_mono, set_ready_calm. by intros [] c' Hm.
  - apply calm_seq. eapply holds_mono, leave_begin_calm; [|done]. by intros [[u ks]|] c' Hc.
Qed.

(** A deletion ends one lease, after it may have touched rows. *)
Definition evicts c c' : Prop :=
  c_prefix c' = c_prefix c /\ now c' = now c /\
  exists i m, touched (now c) (rows (c_db c)) m /\ rows (c_db c') = delete i m.

Lemma DeletePeer_writes id c :
  ids_ok (c_db c) -> holds (DeletePeer id) c (fun _ c' => calm c c' \/ evicts c c').
Proof.
  intros Hids. unfold DeletePeer. apply holds_read.
  destruct (GetPeerbyID _ _) as [peer|] eqn:Hg; [|by left].
  destruct (GetPeerbyID_row _ _ _ Hg) as [Hrow Hid]. pose proof (Hids _ _ Hrow) as Hnz.
  apply holds_bind. eapply (holds_mono _ _ (fun r c1 => calm c c1 /\ ID r.2 = id)).
  2: { destruct (Connected peer); [|by split].
       eapply holds_mono, LogoutPeer_calm; [|by rewrite Hid]. intros r c1 [Hc E]. split; [done|congruence]. }
  intros [[e|] p] c1 [Hc Hp]; [by left|]. apply holds_read. cbn in Hp. destruct (db_DeletePeer _ _) as [e d'] eqn:E.
  apply delete_rows in E; [|congruence]. destruct Hc as [P N T]. unfold put_db, holds, mbind, go_bind, modify.
  destruct e; cbn; [left|right].
  - split; [done..|]. cbn. by rewrite E.
  - split_and!; [done|done|]. exists (ID p), (rows (c_db c1)). split; [done|exact E].
Qed.

Lemma DeletePeer_handler_writes md id c :
  ids_ok (c_db c) -> holds (DeletePeer_handler tv md id) c (fun _ c' => calm c c' \/ evicts c c').
Proof.
  intros Hids. unfold DeletePeer_handler. destruct (extractTokenMetadata md); [|by left].
  apply holds_bind. eapply holds_mono, validate_calm. intros [user|e] c1 [u ->]; [|left; by split].
  apply holds_bind. eapply holds_mono, DeletePeer_writes; [|done]. intros r c2 Hw.
  assert (Hend : calm c c2 \/ evicts c c2).
  { destruct Hw as [Hc|He]; [left|by right]. transitivity (c <| userCache := u |>); [by split|done]. }
  destruct r; [|done]. by case_bool_decide.
Qed.

Lemma GetPeers_handler_calm fmt md c : holds (GetPeers_handler tv fmt md) c (fun _ => calm c).
Proof.
  unfold GetPeers_handler. destruct (extractTokenMetadata md); [|done].
  apply calm_seq. eapply holds_mono, validate_calm. intros [user|e] c1 [u ->]; (split; [by split|]); [|done].
  apply holds_read. by destruct (GetPeers _).
Qed.
End Rows.

(** ** The controller's steps, with the gateway's *)

Section Steps.
Context `{GormLaws, NetipXLaws, MapOrder} {idp : IdP} (tv : TokenValidator).

Inductive reg_step (S : Sys) : Sys -> Prop :=
| reg_sys S' : sys_step tv S S' -> reg_step S S'
| reg_delete md id r c' :
    DeletePeer_handler tv md id (ctl S) = Done r c' -> reg_step S (mkSys c' (streams S) (opened S))
| reg_peers fmt md r c' :
    GetPeers_handler tv fmt md (ctl S) = Done r c' -> reg_step S (mkSys c' (streams S) (opened S)).

Definition table (S : Sys) : gmap Z Peer := rows (c_db (ctl S)).
Definition leases (S : Sys) : gmap Z Lease := lease <$> table S.

(** The addresses a host can have: those of the prefix from its own address on, less the
    network's and the broadcast address. *)
Definition hosts (p : Prefix) : list Z :=
  filter (fun n => n <> net_num p /\ n <> bcast_num p)
    (seqZ (addr_num (p_addr p)) (bcast_num p - addr_num (p_addr p) + 1)).
(** A step after which there are no more rows than hosts. *)
Definition room_step (S S' : Sys) : Prop :=
  reg_step S S' /\ (size (table S') <= length (hosts (c_prefix (ctl S'))))%nat.

(** What is true of a row at the time [t]. *)
Record row_ok (p : Prefix) (t i : Z) (r : Peer) : Prop := mkRowOk {
  row_ok_id : i <> 0;
  row_ok_logged : LoggedIn r = true;
  row_ok_auth : LastAuth r <= t;
  row_ok_prefix : PPrefix r = prefix_string p;
  row_ok_machine : validateMachineID (MachineID r) = true;
  row_ok_ip : IP r = addr_string AddrZero \/ exists n, IP r = addr_string (Addr4 n) /\ u32 n /\
    addr_num (p_addr p) <= n /\ n <> net_num p /\ n <> bcast_num p
}.
Definition inside (p : Prefix) (r : Peer) : Prop :=
  exists a, parse_addr (IP r) = Some a /\ Contains p a = true.
Definition machines_distinct (m : gmap Z Peer) : Prop :=
  forall i j r s, m !! i = Some r -> m !! j = Some s -> MachineID r = MachineID s -> i = j.

Record registry (p : Prefix) (S : Sys) : Prop := mkRegistry {
  reg_prefix : c_prefix (ctl S) = p;
  reg_rows i r : table S !! i = Some r -> row_ok p (now (ctl S)) i r;
  reg_distinct : distinct (leases S);
  reg_streams t s : streams S !! t = Some s -> ID (s_peer s) <> 0
}.

Lemma registry_ids p S : registry p S -> ids_ok (c_db (ctl S)).
Proof. intros Hr i q Hq. apply (reg_rows _ _ Hr) in Hq. apply Hq. Qed.

Lemma addr_zero_none : parse_addr (addr_string AddrZero) = None.
Proof. by vm_compute. Qed.

(** The address text of a row is that of an IPv4 address, or that of no address. *)
Lemma row_ok_parse p t i r a :
  row_ok p t i r -> parse_addr (IP r) = Some a -> exists n, a = Addr4 n /\ u32 n /\ IP r = addr_string (Addr4 n).
Proof.
  intros Hr. destruct (row_ok_ip _ _ _ _ Hr) as [->|(n & -> & Hn & _)].
  - by rewrite addr_zero_none.
  - rewrite parse_addr_string4 by done. intros [= <-]. eauto.
Qed.

Lemma registry_rows4 p S : registry p S -> rows4 (c_db (ctl S)).
Proof.
  intros Hr i r a E Ha. apply (reg_rows _ _ Hr) in E. by destruct (row_ok_parse _ _ _ _ _ E Ha) as (n & -> & ? & _).
Qed.

Lemma row_ok_touch p t i r r' : row_ok p t i r -> touch t r r' -> row_ok p t i r'.
Proof.
  intros [I L A P M X] [El _ Lg Au]. unfold lease in El. injection El as E1 E2 E3 E4.
  split; [done|auto| |congruence|congruence|by rewrite E3]. destruct Au as [->| ->]; lia.
Qed.

Lemma leases_touched t (m m' : gmap Z Peer) : touched t m m' -> lease <$> m' = lease <$> m.
Proof.
  intros Hm. apply map_eq. intros i. rewrite !lookup_fmap. specialize (Hm i).
  inversion Hm as [r r' Ht E1 E2|]; [|done]. cbn. by rewrite (touch_lease _ _ _ Ht).
Qed.

(** What an allocated address is. *)
Lemma allocated_ip d p start ip :
  prefix4 p -> p_addr p = Addr4 start -> rows4 d -> AllocatePeerIP d p = Some (Ok ip) ->
  ip = addr_string AddrZero \/ exists n, ip = addr_string (Addr4 n) /\ u32 n /\
    start <= n /\ n <> net_num p /\ n <> bcast_num p.
Proof.
  intros Hp Hs H4 E. destruct (gorm_pluck_ip d) as [ips|] eqn:Hio.
  2: { unfold AllocatePeerIP, GetAllocatedIPs in E. by rewrite Hio in E. }
  destruct (AllocatePeerIP_walk d p start ips Hp Hs H4 Hio) as (k & E' & _ & Hfree).
  unfold table in E. rewrite E' in E. injection E as <-. unfold addr_from in *. case_bool_decide as Hk; [right|by left].
  specialize (Hfree Hk). destruct Hp as [Ha _]. rewrite Hs in Ha. cbn in Ha. unfold u32, taken in *.
  exists (start + Z.of_nat k). split_and!; [done|lia|lia|lia| |]; intros E; apply Hfree; auto.
Qed.

(** ** Every step, by what it writes *)

Definition writes (c c' : Ctl) : Prop :=
  calm c c' \/ (exists req, enrols req c c') \/ evicts c c' \/ rows (c_db c') = rows (c_db c).

Lemma writes_frame c c' :
  calm c c' \/ (exists req, enrols req c c') \/ evicts c c' -> c_prefix c' = c_prefix c /\ now c' = now c.
Proof. by intros [[P N _]|[[req (P & N & _)]|(P & N & _)]]. Qed.

Lemma of_holds {A} (m : go Ctl A) c r c' Q : holds m c Q -> m c = Done r c' -> Q r c'.
Proof. unfold holds. by intros Hm E; rewrite E in Hm. Qed.

(** A step that is not a deletion leaves the leases, grants one, or moves the clock. *)
Lemma sys_step_cases p S S' :
  registry p S -> sys_step tv S S' ->
  (forall t s, streams S' !! t = Some s -> ID (s_peer s) <> 0) /\
  (calm (ctl S) (ctl S') \/ (exists req, enrols req (ctl S) (ctl S')) \/
   exists t, now (ctl S) <= t /\ ctl S' = (ctl S) <| now := t |>).
Proof.
  intros Hr Hstep. pose proof (registry_ids _ _ Hr) as Hids.
  assert (Hkeep : forall t s, streams S !! t = Some s -> ID (s_peer s) <> 0) by apply (reg_streams _ _ Hr).
  destruct Hstep as [mid peer pc c' E|mid e c' E|t s sent pc' c' Hs E|t s sent c' Hs E|req r c' E|req r c' E|req r c' E|id c' Hin E|t Ht];
    cbn.
  - destruct (of_holds _ _ _ _ _ (admit_calm mid _ Hids) E) as [Hc Hp]. split; [|by left].
    intros t s [[<- <-]|[_ Hs]]%lookup_insert_Some; eauto.
  - destruct (of_holds _ _ _ _ _ (admit_calm mid _ Hids) E) as [Hc _]. split; [done|by left].
  - pose proof (of_holds _ _ _ _ _ (stream_turn_calm s sent _ (Hkeep _ _ Hs)) E) as Hc. split; [|by left].
    intros t' s' [[<- <-]|[_ Hs']]%lookup_insert_Some; cbn; eauto.
  - pose proof (of_holds _ _ _ _ _ (stream_turn_calm s sent _ (Hkeep _ _ Hs)) E) as Hc. split; [|by left].
    intros t' s' [_ Hs']%lookup_delete_Some; eauto.
  - split; [done|]. destruct (of_holds _ _ _ _ _ (LoginPeer_writes tv req _ Hids) E); eauto.
  - split; [done|]. left. exact (of_holds _ _ _ _ _ (UpdateEndpoint_calm req _ Hids) E).
  - split; [done|]. left. exact (of_holds _ _ _ _ _ (Punch_calm req _) E).
  - split; [done|]. left. exact (of_holds _ _ _ _ _ (delete_channel_calm id _) E).
  - split; [done|]. right; right. eauto.
Qed.

Lemma reg_step_cases p S S' :
  registry p S -> reg_step S S' ->
  (forall t s, streams S' !! t = Some s -> ID (s_peer s) <> 0) /\ c_prefix (ctl S') = p /\
  now (ctl S) <= now (ctl S') /\ writes (ctl S) (ctl S').
Proof.
  intros Hr Hstep. pose proof (registry_ids _ _ Hr) as Hids. pose proof (reg_prefix _ _ Hr) as HP.
  assert (Hpn : calm (ctl S) (ctl S') \/ (exists req, enrols req (ctl S) (ctl S')) \/ evicts (ctl S) (ctl S') ->
    c_prefix (ctl S') = p /\ now (ctl S) <= now (ctl S') /\ writes (ctl S) (ctl S')).
  { intros Hw. destruct (writes_frame _ _ Hw) as [E N]. unfold writes. split; [congruence|]. split; [lia|]. tauto. }
  destruct Hstep as [S' Hstep|md id r c' E|fmt md r c' E].
  - destruct (sys_step_cases _ _ _ Hr Hstep) as [Hst [Hc|[He|(t & Ht & ->)]]]; (split; [done|]); [tauto..|].
    split; [done|]. split; [done|]. by do 3 right.
  - split; [apply (reg_streams _ _ Hr)|]. apply Hpn.
    destruct (of_holds _ _ _ _ _ (DeletePeer_handler_writes tv md id _ Hids) E); auto.
  - split; [apply (reg_streams _ _ Hr)|]. apply Hpn. left.
    exact (of_holds _ _ _ _ _ (GetPeers_handler_calm tv fmt md _) E).
Qed.

(** The steps implement the register of leases. *)
Lemma leases_step p S S' : registry p S -> reg_step S S' -> lease_step (leases S) (leases S').
Proof.
  intros Hr Hstep. destruct (reg_step_cases _ _ _ Hr Hstep) as (_ & _ & _ & [Hc|[[req He]|[He|E]]]).
  - unfold leases, table. rewrite (leases_touched _ _ _ (calm_rows _ _ Hc)). constructor.
  - destruct He as (_ & _ & _ & _ & q & HR & Hf & Hid & _ & _ & _ & _ & _ & Hip).
    unfold leases, table. rewrite HR, fmap_insert. apply lease_grant; [done|by rewrite lookup_fmap, Hf|].
    intros j l. rewrite lookup_fmap. intros (r & Hj & ->)%fmap_Some_1. cbn. by eapply Hip.
  - destruct He as (_ & _ & i & m & Ht & HR). unfold leases, table. rewrite HR, fmap_delete.
    rewrite (leases_touched _ _ _ Ht). constructor.
  - unfold leases, table. rewrite E. constructor.
Qed.

(** *** The invariant *)

Lemma registry_step p start S S' :
  prefix4 p -> p_addr p = Addr4 start -> registry p S -> reg_step S S' -> registry p S'.
Proof.
  intros Hp Hs Hr Hstep. pose proof (leases_step _ _ _ Hr Hstep) as Hl.
  destruct (reg_step_cases _ _ _ Hr Hstep) as (Hst & HP & Ht & Hc).
  split; [done| |by eapply distinct_step, Hl; apply Hr|done].
  assert (Hold : forall i r, table S !! i = Some r -> row_ok p (now (ctl S')) i r).
  { intros i r E. destruct (reg_rows _ _ Hr _ _ E). split; auto. lia. }
  intros i r' E. destruct Hc as [Hc|[[req He]|[He|E']]].
  - destruct (touched_some _ _ _ _ _ (calm_rows _ _ Hc) E) as (r & Er & Hto).
    rewrite <- (calm_now _ _ Hc) in Hto. eapply row_ok_touch; [by apply Hold|done].
  - destruct He as (_ & N & _ & Hv & q & HR & _ & Hid & Hm & HPp & HL & HA & Halloc & _).
    unfold table in E. rewrite HR in E. apply lookup_insert_Some in E as [[<- <-]|[_ E]]; [|by apply Hold].
    rewrite (reg_prefix _ _ Hr) in *. split; [done|done|lia|done|by rewrite Hm|].
    rewrite Hs. eapply allocated_ip; [done|done|by eapply registry_rows4|done].
  - destruct He as (_ & N & j & m & Hto & HR). unfold table in E. rewrite HR in E.
    apply lookup_delete_Some in E as [_ E]. destruct (touched_some _ _ _ _ _ Hto E) as (r & Er & Ht').
    rewrite <- N in Ht'. eapply row_ok_touch; [by apply Hold|done].
  - unfold table in E. rewrite E' in E. by apply Hold.
Qed.

(** With fewer rows than hosts one host's address is free. *)
Lemma host_free d p start :
  prefix4 p -> p_addr p = Addr4 start -> (size (rows d) < length (hosts p))%nat ->
  exists n, start <= n <= bcast_num p /\ ~ taken d p n.
Proof.
  intros Hp Hs Hsize. set (num r := match parse_addr (IP r) with Some (Addr4 n) => Some n | _ => None end).
  set (used := omap num (map_to_list (rows d)).*2).
  assert (Hlen : (length used <= size (rows d))%nat).
  { unfold used. rewrite <- length_map_to_list, <- (length_fmap snd). apply omap_le. }
  destruct (decide (hosts p ⊆ used)) as [Hsub|Hsub].
  - assert (Hnd : NoDup (hosts p)) by (apply list.NoDup_filter, NoDup_seqZ).
    pose proof (submseteq_length _ _ (NoDup_submseteq _ _ Hnd Hsub)). lia.
  - assert (Hex : exists n, n ∈ hosts p /\ n ∉ used).
    { destruct (decide (Exists (fun n => n ∉ used) (hosts p))) as [Hex|Hno]; [by apply list.Exists_exists in Hex|].
      exfalso. apply Hsub. intros n Hn. apply not_Exists_Forall in Hno; [|apply _].
      rewrite list.Forall_forall in Hno. destruct (decide (n ∈ used)); [done|by apply Hno in Hn]. }
    destruct Hex as (n & [[Hnet Hbc] Hn%elem_of_seqZ]%list_elem_of_filter & Hno).
    rewrite Hs in Hn. cbn in Hn. exists n. split; [lia|]. intros [?|[?|(i & r & Hi & Hr)]]; [done|done|].
    apply Hno. unfold used. apply list_elem_of_omap. exists r. split; [|by unfold num; rewrite Hr].
    apply list_elem_of_fmap. exists (i, r). split; [done|by apply elem_of_map_to_list].
Qed.

Definition all_inside p (S : Sys) : Prop := forall i r, table S !! i = Some r -> inside p r.

Lemma inside_step p start S S' :
  prefix4 p -> p_addr p = Addr4 start -> registry p S -> all_inside p S -> room_step S S' ->
  all_inside p S'.
Proof.
  intros Hp Hs Hr Hin [Hstep Hroom]. destruct (reg_step_cases _ _ _ Hr Hstep) as (_ & HP & _ & Hc).
  assert (Hto : forall t (m : gmap Z Peer) i r', touched t (table S) m -> m !! i = Some r' -> inside p r').
  { intros t m i r' Ht E. destruct (touched_some _ _ _ _ _ Ht E) as (r & Er & Ht').
    unfold inside. pose proof (touch_lease _ _ _ Ht') as El. unfold lease in El. injection El as _ _ -> _. exact (Hin _ _ Er). }
  intros i r' E. destruct Hc as [Hc|[[req He]|[He|E']]].
  - exact (Hto _ _ i r' (calm_rows _ _ Hc) E).
  - destruct He as (_ & _ & _ & _ & q & HR & Hf & _ & _ & _ & _ & _ & Halloc & _). unfold table in E, Hroom.
    rewrite HR in E, Hroom. rewrite HP in Hroom. rewrite map_size_insert_None in Hroom by done.
    apply lookup_insert_Some in E as [[<- <-]|[_ E]]; [|by eapply Hin].
    destruct (host_free (c_db (ctl S)) p start Hp Hs ltac:(lia)) as (n & Hn & Hnt).
    rewrite (reg_prefix _ _ Hr) in Halloc. pose proof (registry_rows4 _ _ Hr) as H4.
    destruct (gorm_pluck_ip (c_db (ctl S))) as [ips|] eqn:Hio.
    2: { unfold AllocatePeerIP, GetAllocatedIPs in Halloc. by rewrite Hio in Halloc. }
    destruct (AllocatePeerIP_within _ p start ips n Hp Hs H4 Hio Hn Hnt) as (a & Ha & Hr' & Ea).
    assert (Eip : addr_string (Addr4 a) = IP q) by congruence. unfold inside. exists (Addr4 a).
    rewrite <- Eip, parse_addr_string4 by done. split; [done|]. by apply Contains4.
  - destruct He as (_ & _ & j & m & Ht & HR). unfold table in E. rewrite HR in E.
    apply lookup_delete_Some in E as [_ E]. exact (Hto _ _ i r' Ht E).
  - unfold table in E. rewrite E' in E. by eapply Hin.
Qed.

(** One row per machine, as long as the reads do not fail. *)
Lemma machines_step p S S' :
  (forall d i r, rows d !! i = Some r -> is_Some (GetPeerByMachineID d (MachineID r))) ->
  registry p S -> machines_distinct (table S) -> reg_step S S' -> machines_distinct (table S').
Proof.
  intros Hread Hr Hd Hstep. destruct (reg_step_cases _ _ _ Hr Hstep) as (_ & _ & _ & Hc).
  assert (Hto : forall t (m : gmap Z Peer), touched t (table S) m -> machines_distinct m).
  { intros t m Ht i j r' s' Ei Ej E. destruct (touched_some _ _ _ _ _ Ht Ei) as (r & Er & T1).
    destruct (touched_some _ _ _ _ _ Ht Ej) as (s & Es & T2).
    pose proof (touch_lease _ _ _ T1) as L1. pose proof (touch_lease _ _ _ T2) as L2.
    unfold lease in L1, L2. injection L1 as L1 _ _ _. injection L2 as L2 _ _ _.
    apply (Hd i j r s); [done|done|congruence]. }
  destruct Hc as [Hc|[[req He]|[He|E']]].
  - exact (Hto _ _ (calm_rows _ _ Hc)).
  - destruct He as (_ & _ & Hnone & _ & q & HR & _ & _ & Hm & _). unfold table. rewrite HR.
    assert (Hnew : forall i r, table S !! i = Some r -> MachineID r <> MachineID q).
    { intros i r E Em. destruct (Hread _ _ _ E) as [x Hx]. congruence. }
    intros i j r s [[<- <-]|[_ Hi]]%lookup_insert_Some [[<- <-]|[_ Hj]]%lookup_insert_Some E;
      [done|by apply Hnew in Hj|by apply Hnew in Hi|by eapply Hd].
  - destruct He as (_ & _ & k & m & Ht & HR). unfold table. rewrite HR.
    intros i j r s [_ Hi]%lookup_delete_Some [_ Hj]%lookup_delete_Some. by apply (Hto _ _ Ht).
  - unfold table. by rewrite E'.
Qed.

Lemma leases_granted req S S' : enrols req (ctl S) (ctl S') -> leases S ⊆ leases S'.
Proof.
  intros (_ & _ & _ & _ & q & HR & Hf & _). unfold leases, table. rewrite HR, fmap_insert.
  apply insert_subseteq. by rewrite lookup_fmap, Hf.
Qed.

(** Nothing but a deletion ends a lease. *)
Lemma leases_kept p S S' : registry p S -> sys_step tv S S' -> leases S ⊆ leases S'.
Proof.
  intros Hr Hstep. destruct (sys_step_cases _ _ _ Hr Hstep) as [_ [Hc|[[req He]|(t & _ & E)]]].
  - unfold leases, table. by rewrite (leases_touched _ _ _ (calm_rows _ _ Hc)).
  - by eapply leases_granted.
  - unfold leases, table. by rewrite E.
Qed.

(** A controller that has just started, with a new database. *)
Record fresh_start (p : Prefix) (S : Sys) : Prop := mkFresh {
  fresh_prefix : c_prefix (ctl S) = p;
  fresh_rows : rows (c_db (ctl S)) = ∅;
  fresh_streams : streams S = ∅
}.

Lemma fresh_registry p S : fresh_start p S -> registry p S.
Proof.
  intros [HP HR HS]. split; [done|..]; unfold leases, table; rewrite ?HR, ?HS, ?fmap_empty.
  - intros i r []%lookup_empty_Some.
  - intros i j l l' []%lookup_empty_Some.
  - intros t s []%lookup_empty_Some.
Qed.

Lemma registry_reach p start S0 S :
  prefix4 p -> p_addr p = Addr4 start -> fresh_start p S0 -> reach reg_step S0 S -> registry p S.
Proof.
  intros Hp Hs Hf. apply reach_invariant; [by apply fresh_registry|].
  intros x y. by apply (registry_step p start).
Qed.
End Steps.

(** ** Properties *)

Section RegistryTheorems.
Context `{GormLaws, NetipXLaws, MapOrder} {idp : IdP} (tv : TokenValidator).


End RegistryTheorems.

(** ** A concrete run

    A new controller; a machine registers, and is deleted over the gateway. *)

Definition demo_prefix : Prefix := mkPrefix (Addr4 0x64460000) 24.
Definition demo_new : Sys :=
  mkSys ((demo_server false) <| c_db := [] |> <| peerChannels := ∅ |> <| chans := ∅ |>) ∅ 0.
Definition demo_md : Metadata := Some {["authorization"%string := ["Bearer ann"%string]]}.

Lemma demo_fresh : fresh_start demo_prefix demo_new.
Proof. by split. Qed.
Lemma demo_net_prefix4 : prefix4 demo_prefix.
Proof. by_compute. Qed.

(** A /24 has 254 hosts. *)
Example demo_hosts : length (hosts demo_prefix) = 254%nat.
Proof. by vm_compute. Qed.


