(* ===== verification/Middleware.v ===== *)
(** The controller's interceptors, controller/middleware/interceptors.go, and the tokens the
    authorisation one checks, controller/auth/jwt.go.  The JWT library is the class [JwtLib];
    the log lines are left out.  The controller installs the log interceptor only, so the
    tokens of jwt.go guard nothing in the program as it is. *)

From S2P Require Import Prelude GoStd GoTime Types Store Auth Controller Grpc.

Definition DaysTokenValid : Z := 30.
Definition jwtSigningKey : string := "SECRETKEY".

Record Claims : Type := mkClaims {
  ClaimMachineID : string; ExpiresAt : Z; IssuedAt : Z; NotBefore : Z; ClaimIssuer : string
}.

Inductive SigningMethod : Type := SigningMethodHMAC (bits : Z) | OtherMethod (alg : string).

(** [jwt_sign method key claims]: [NewWithClaims] and [SignedString].
    [jwt_parse_claims now keyFunc token]: [ParseWithClaims], which asks [keyFunc] for the key
    of the method the token names; the claims and whether the token is valid. *)
Class JwtLib : Type := {
  NewNumericDate : Z -> Z;
  jwt_sign : SigningMethod -> string -> Claims -> result string string;
  jwt_parse_claims : Z -> (SigningMethod -> result string string) -> string -> result string (Claims * bool)
}.

Section Jwt.
Context `{JwtLib}.

Definition getExpireDate (now : Z) : Z := NewNumericDate (now + Hour * 24 * DaysTokenValid).

Definition GenerateJwtWithClaims (now : Z) (user : string) : result string string :=
  let claims := mkClaims user (getExpireDate now) (NewNumericDate now) (NewNumericDate now)
                  "zeronet-controller" in
  match jwt_sign (SigningMethodHMAC 256) jwtSigningKey claims with Err e => Err e | Ok ts => Ok ts end.

Definition keyFunc (method : SigningMethod) : result string string :=
  match method with
  | SigningMethodHMAC _ => Ok jwtSigningKey
  | OtherMethod alg => Err ("unexpected signing method: " +:+ alg)
  end.

Definition ParseJwtWithClaims (now : Z) (token : string) : result string Claims :=
  match jwt_parse_claims now keyFunc token with
  | Err e => Err e
  | Ok (claims, valid) => if negb valid then Err "jwt token is invalid"%string else Ok claims
  end.

Definition IsJwtExpired (now : Z) (token : string) : bool :=
  match jwt_parse_claims now keyFunc token with
  | Err _ => true
  | Ok (_, valid) => negb valid
  end.

(** ** interceptors.go *)

Definition methodBypass (method : string) : bool :=
  bool_decide (method = "/proto.ControllerService/GetPKCEAuthInfo"%string) ||
  bool_decide (method = "/proto.ControllerService/LoginPeer"%string).

Definition authorizeJwt (now : Z) (md : Metadata) (method : string) : option Status :=
  if methodBypass method then None
  else
    match md with
    | None => Some (mkStatus Unauthenticated "metadata missing from request context")
    | Some md =>
        match default [] (md !! "authorization"%string) with
        | [] => Some (mkStatus Unauthenticated "authorization token is not provided")
        | jwtToken :: _ =>
            match ParseJwtWithClaims now jwtToken with
            | Err e => Some (mkStatus Unauthenticated ("jwt token is invalid: " +:+ e))
            | Ok _ => None
            end
        end
    end.

(** The name the log interceptor writes. *)
Definition log_method (fullMethod : string) : string :=
  match strings_Split fullMethod "/" with
  | _ :: _ :: method :: _ => method
  | _ => fullMethod
  end.

(** A peer that is not in the context has no address to log. *)
Definition NewUnaryLogInterceptor {S A} (peer_addr : option string) (fullMethod : string)
    (handler : go S (result Status A)) : go S (result Status A) :=
  match peer_addr with None => panic NilDeref | Some _ => handler end.

Definition NewUnaryAuthInterceptor {S A} (now : Z) (md : Metadata) (fullMethod : string)
    (handler : go S (result Status A)) : go S (result Status A) :=
  match authorizeJwt now md fullMethod with
  | Some err => mret (Err err)
  | None => handler
  end.

(** The handler runs exactly for the two methods that need no token and for a request whose
    first token parses under the controller's key as a valid one; otherwise nothing
    happens and the status is [Unauthenticated]. *)
Lemma auth_interceptor_guards {S A} now md method (handler : go S (result Status A)) s :
  (methodBypass method = true \/
   (exists m tok rest claims, md = Some m /\ m !! "authorization"%string = Some (tok :: rest) /\
      jwt_parse_claims now keyFunc tok = Ok (claims, true))) /\
   NewUnaryAuthInterceptor now md method handler s = handler s \/
  exists msg, NewUnaryAuthInterceptor now md method handler s = Done (Err (mkStatus Unauthenticated msg)) s.
Proof.
  unfold NewUnaryAuthInterceptor, authorizeJwt, ParseJwtWithClaims.
  destruct (methodBypass method); [auto|].
  destruct md as [m|]; [|right; by eexists].
  destruct (m !! "authorization"%string) as [[|tok rest]|] eqn:Em; cbn; [right; by eexists| |right; by eexists].
  destruct (jwt_parse_claims now keyFunc tok) as [[claims []]|e] eqn:E; cbn; [|right; by eexists..].
  left. split; [|done]. right. by exists m, tok, rest, claims.
Qed.
End Jwt.
