(* ===== verification/Base64.v ===== *)
(** Go's [encoding/base64] with the standard alphabet, which the node's keys travel in. *)

From S2P Require Import Prelude GoStd.

Definition b64_char (v : Z) : ascii :=
  if bool_decide (v < 26) then byte_chr (65 + v)
  else if bool_decide (v < 52) then byte_chr (71 + v)
  else if bool_decide (v < 62) then byte_chr (v - 4)
  else if bool_decide (v = 62) then "+"%char else "/"%char.
Definition b64_val (c : ascii) : option Z :=
  if is_upper c then Some (byte_val c - 65)
  else if is_lower c then Some (byte_val c - 71)
  else if is_digit c then Some (byte_val c + 4)
  else if bool_decide (c = "+"%char) then Some 62
  else if bool_decide (c = "/"%char) then Some 63
  else None.

Fixpoint EncodeToString (bs : list Z) : string :=
  match bs with
  | [] => EmptyString
  | [a] => String (b64_char (a / 4)) (String (b64_char (a mod 4 * 16)) "==")
  | [a; b] =>
      String (b64_char (a / 4)) (String (b64_char (a mod 4 * 16 + b / 16))
        (String (b64_char (b mod 16 * 4)) "="))
  | a :: b :: c :: rest =>
      String (b64_char (a / 4)) (String (b64_char (a mod 4 * 16 + b / 16))
        (String (b64_char (b mod 16 * 4 + c / 64)) (String (b64_char (c mod 64)) (EncodeToString rest))))
  end.

(** The decoder ignores line breaks; padding is needed in the last group and nowhere else. *)
Fixpoint strip_newlines (s : string) : string :=
  match s with
  | EmptyString => EmptyString
  | String c s' =>
      if bool_decide (byte_val c = 10) || bool_decide (byte_val c = 13) then strip_newlines s'
      else String c (strip_newlines s')
  end.
Fixpoint b64_groups (s : string) : option (list Z) :=
  match s with
  | EmptyString => Some []
  | String c1 (String c2 (String c3 (String c4 rest))) =>
      v1 ← b64_val c1;
      v2 ← b64_val c2;
      let x := v1 * 4 + v2 / 16 in
      if bool_decide (c3 = "="%char) then
        if bool_decide (c4 = "="%char) && bool_decide (rest = EmptyString) then Some [x] else None
      else
        v3 ← b64_val c3;
        let y := v2 mod 16 * 16 + v3 / 4 in
        if bool_decide (c4 = "="%char) then
          if bool_decide (rest = EmptyString) then Some [x; y] else None
        else
          v4 ← b64_val c4;
          bs ← b64_groups rest;
          Some (x :: y :: v3 mod 4 * 64 + v4 :: bs)
  | _ => None
  end.
Definition DecodeString (s : string) : option (list Z) := b64_groups (strip_newlines s).

Example b64_ex1 : EncodeToString [77; 97; 110; 77] = "TWFuTQ=="%string.
Proof. reflexivity. Qed.
Example b64_ex2 : DecodeString "TWFuTWE=" = Some [77; 97; 110; 77; 97].
Proof. reflexivity. Qed.
Example b64_ex3 : DecodeString "TWF" = None /\ DecodeString "TW=u" = None /\ DecodeString "TQ==TQ==" = None.
Proof. repeat split. Qed.

(** ** Round trip *)

Definition b64_ok (v : Z) : bool :=
  let c := b64_char v in
  bool_decide (b64_val c = Some v) && negb (bool_decide (c = "="%char)) &&
  negb (bool_decide (byte_val c = 10)) && negb (bool_decide (byte_val c = 13)).

Lemma b64_char_ok v : 0 <= v < 64 ->
  b64_val (b64_char v) = Some v /\ b64_char v <> "="%char /\
  byte_val (b64_char v) <> 10 /\ byte_val (b64_char v) <> 13.
Proof.
  intros Hv. assert (Hall : forallb b64_ok (seqZ 0 64) = true) by (vm_compute; reflexivity).
  rewrite forallb_forall in Hall. specialize (Hall v).
  unfold b64_ok in Hall. rewrite !andb_true_iff, !negb_true_iff, !bool_decide_eq_true, !bool_decide_eq_false in Hall.
  destruct Hall as [[[? ?] ?] ?]; [|done]. apply list_elem_of_In, elem_of_seqZ. lia.
Qed.

Lemma strip_newlines_cons v s : 0 <= v < 64 ->
  strip_newlines (String (b64_char v) s) = String (b64_char v) (strip_newlines s).
Proof.
  intros Hv. destruct (b64_char_ok v Hv) as (_ & _ & H10 & H13). cbn.
  by rewrite !bool_decide_false.
Qed.

Arguments strip_newlines : simpl never.

Lemma sextets a b c : u8 a -> u8 b -> u8 c ->
  (0 <= a / 4 < 64) /\ (0 <= a mod 4 * 16 + b / 16 < 64) /\ (0 <= a mod 4 * 16 < 64) /\
  (0 <= b mod 16 * 4 + c / 64 < 64) /\ (0 <= b mod 16 * 4 < 64) /\ (0 <= c mod 64 < 64).
Proof.
  unfold u8. intros. pose proof (Z.div_mod a 4). pose proof (Z.mod_pos_bound a 4).
  pose proof (Z.div_mod b 16). pose proof (Z.mod_pos_bound b 16).
  pose proof (Z.div_mod c 64). pose proof (Z.mod_pos_bound c 64). lia.
Qed.

Lemma div16 b : u8 b -> 0 <= b / 16 < 16.
Proof. unfold u8. pose proof (Z.div_mod b 16). pose proof (Z.mod_pos_bound b 16). lia. Qed.
Lemma div64 c : u8 c -> 0 <= c / 64 < 4.
Proof. unfold u8. pose proof (Z.div_mod c 64). pose proof (Z.mod_pos_bound c 64). lia. Qed.
Lemma join1 a y : u8 a -> 0 <= y < 16 -> a / 4 * 4 + (a mod 4 * 16 + y) / 16 = a.
Proof. intros. rewrite Z.div_add_l by lia. rewrite (Z.div_small y) by lia. pose proof (Z.div_mod a 4). lia. Qed.
Lemma join2 a b y : u8 b -> 0 <= y < 4 -> (a * 16 + b / 16) mod 16 * 16 + (b mod 16 * 4 + y) / 4 = b.
Proof.
  unfold u8. intros. rewrite Z.div_add_l by lia. rewrite (Z.div_small y) by lia.
  rewrite Z.add_comm, (Z.add_comm (a * 16)), Z.mod_add by lia. pose proof (Z.div_mod b 16).
  rewrite (Z.mod_small (b / 16)); [lia|]. pose proof (Z.mod_pos_bound b 16). lia.
Qed.
Lemma join3 b c : u8 c -> (b * 4 + c / 64) mod 4 * 64 + c mod 64 = c.
Proof.
  unfold u8. intros. rewrite (Z.add_comm (b * 4)), Z.mod_add by lia. pose proof (Z.div_mod c 64).
  rewrite (Z.mod_small (c / 64)); [lia|]. pose proof (Z.mod_pos_bound c 64). lia.
Qed.

Lemma b64_roundtrip_len n bs : (length bs <= n)%nat -> Forall u8 bs -> DecodeString (EncodeToString bs) = Some bs.
Proof.
  unfold DecodeString. revert bs. induction n as [|n IH]; intros bs Hn Hbs.
  { by destruct bs; [|simpl in Hn; lia]. }
  destruct bs as [|a [|b [|c rest]]]; [done|..]; decompose_Forall_hyps.
  - destruct (sextets a 0 0) as (B1 & _ & B2 & _); [done..|].
    cbn [EncodeToString]. rewrite !strip_newlines_cons by done. change (strip_newlines "==") with "=="%string; change (strip_newlines "=") with "="%string.
    cbn [b64_groups mbind option_bind].
    rewrite (proj1 (b64_char_ok _ B1)), (proj1 (b64_char_ok _ B2)). cbn.
    replace (a mod 4 * 16) with (a mod 4 * 16 + 0) by lia. by rewrite join1.
  - destruct (sextets a b 0) as (B1 & B2 & _ & _ & B3 & _); [done..|].
    cbn [EncodeToString]. rewrite !strip_newlines_cons by done. change (strip_newlines "==") with "=="%string; change (strip_newlines "=") with "="%string.
    cbn [b64_groups mbind option_bind].
    destruct (b64_char_ok _ B3) as (V3 & N3 & _).
    rewrite (proj1 (b64_char_ok _ B1)), (proj1 (b64_char_ok _ B2)). cbn [mbind option_bind].
    rewrite (bool_decide_false _ N3), V3. cbn.
    rewrite join1 by (done || by apply div16).
    replace (b mod 16 * 4) with (b mod 16 * 4 + 0) by lia. by rewrite join2.
  - destruct (sextets a b c) as (B1 & B2 & _ & B3 & _ & B4); [done..|].
    cbn [EncodeToString]. rewrite !strip_newlines_cons by done. cbn [b64_groups mbind option_bind].
    destruct (b64_char_ok _ B3) as (V3 & N3 & _). destruct (b64_char_ok _ B4) as (V4 & N4 & _).
    rewrite (proj1 (b64_char_ok _ B1)), (proj1 (b64_char_ok _ B2)). cbn [mbind option_bind].
    rewrite (bool_decide_false _ N3), V3. cbn [mbind option_bind].
    rewrite (bool_decide_false _ N4), V4. cbn [mbind option_bind].
    rewrite IH by (simpl in Hn; done || lia). cbn.
    rewrite join1 by (done || by apply div16).
    rewrite join2 by (done || by apply div64).
    by rewrite join3.
Qed.

Lemma b64_roundtrip bs : Forall u8 bs -> DecodeString (EncodeToString bs) = Some bs.
Proof. intros. by eapply b64_roundtrip_len. Qed.
