(* ===== verification/GoSync.v ===== *)
(** Pieces of Go's run time the node uses: [sync.RWMutex], [time.Timer], [sync.Pool],
    [net.UDPAddr], and the lifting of a program on a part of the state to the whole. *)

From S2P Require Import Prelude Bytes.

(** ** Lifting a program along a field *)

Definition zoom {S T A} (get : S -> T) (put : T -> S -> S) (m : go T A) : go S A := fun s =>
  match m (get s) with
  | Done a t => Done a (put t s)
  | Crash c t => Crash c (put t s)
  | Blocked w t => Blocked w (put t s)
  end.

Lemma zoom_done {S T A} (get : S -> T) put (m : go T A) s a t :
  m (get s) = Done a t -> zoom get put m s = Done a (put t s).
Proof. intros E. unfold zoom. by rewrite E. Qed.

(** ** [sync.RWMutex]

    [rw_w]: a writer holds the lock; [rw_r]: the number of readers. An unlock without the lock is
    a fatal error of the run time. *)

Record RWMutex : Type := mkRWMutex { rw_w : bool; rw_r : nat }.
#[export] Instance RWMutex_eq_dec : EqDecision RWMutex.
Proof. solve_decision. Defined.
Definition unlocked : RWMutex := mkRWMutex false 0.
Definition wlocked : RWMutex := mkRWMutex true 0.

Definition Lock : go RWMutex unit := fun m =>
  if rw_w m then Blocked WaitLock m
  else match rw_r m with O => Done tt (mkRWMutex true 0) | _ => Blocked WaitLock m end.
Definition Unlock : go RWMutex unit := fun m =>
  if rw_w m then Done tt (mkRWMutex false (rw_r m)) else Crash UnlockOfUnlocked m.
Definition RLock : go RWMutex unit := fun m =>
  if rw_w m then Blocked WaitLock m else Done tt (mkRWMutex false (S (rw_r m))).
Definition RUnlock : go RWMutex unit := fun m =>
  match rw_r m with O => Crash UnlockOfUnlocked m | S n => Done tt (mkRWMutex (rw_w m) n) end.

(** ** [time.AfterFunc] timers

    [Some d]: armed, to fire after [d]; [None]: stopped, or fired and not reset. *)

Abbreviation Timer := (option Z).
Definition Timer_Stop : Timer := None.
Definition Timer_Reset (d : Z) : Timer := Some d.

(** ** [sync.Pool]

    Which element [Get] takes is not specified, and it may take none although there are
    some: the strategy is a parameter. *)

Class PoolChoice : Type := pool_pick : nat -> option nat.

Definition pool_get `{PoolChoice} {A} (new : A) : go (list A) A := fun l =>
  match pool_pick (length l) with
  | Some i => match l !! i with Some a => Done a (delete i l) | None => Done new l end
  | None => Done new l
  end.
Definition pool_put {A} (a : A) : go (list A) unit := modify (cons a).

Lemma pool_get_Forall `{PoolChoice} {A} (P : A -> Prop) (new : A) l a l' :
  Forall P l -> P new -> pool_get new l = Done a l' -> P a /\ Forall P l'.
Proof.
  intros Hl Hn. unfold pool_get. destruct (pool_pick _) as [i|]; [|by intros [= <- <-]].
  destruct (l !! i) as [b|] eqn:E; intros [= <- <-]; [|done].
  split; [by eapply Forall_lookup_1|by apply Forall_delete].
Qed.

Lemma pool_get_total `{PoolChoice} {A} (new : A) l : exists a l', pool_get new l = Done a l'.
Proof. unfold pool_get. repeat case_match; eauto. Qed.

(** Always the most recently returned element. *)
Definition lifo_pool : PoolChoice := fun _ => Some O.

(** ** [net.UDPAddr] *)

Record UDPAddr : Type := mkUDPAddr { u_ip : list Z; u_port : Z }.
#[export] Instance UDPAddr_eq_dec : EqDecision UDPAddr.
Proof. solve_decision. Defined.

Definition v4InV6Prefix : list Z := [0; 0; 0; 0; 0; 0; 0; 0; 0; 0; 255; 255].

(** [net.IP.Equal]: an IPv4 address and its IPv6 form are the same. *)
Definition IP_Equal (x y : list Z) : bool :=
  if bool_decide (length x = length y) then bool_decide (x = y)
  else if bool_decide (length x = 4%nat /\ length y = 16%nat) then
    bool_decide (take 12 y = v4InV6Prefix /\ x = drop 12 y)
  else if bool_decide (length x = 16%nat /\ length y = 4%nat) then
    bool_decide (take 12 x = v4InV6Prefix /\ drop 12 x = y)
  else false.

(** [append(s, bs...)]: in place when the capacity suffices, else in a new array. *)
Definition go_append (s : slice) (bs : list Z) : slice :=
  if bool_decide (s_len s + length bs <= length (s_arr s))%nat
  then Slice (put_at (s_len s) bs (s_arr s)) (s_len s + length bs)
  else of_bytes (s_bytes s ++ bs).

Lemma go_append_bytes s bs : slice_ok s -> s_bytes (go_append s bs) = s_bytes s ++ bs.
Proof.
  unfold slice_ok, go_append, s_bytes. intros Hok. case_bool_decide as Hc; cbn.
  - unfold put_at. rewrite app_assoc, take_app_le by (rewrite length_app, length_take; lia).
    rewrite take_ge; [done|]. rewrite length_app, length_take. lia.
  - by rewrite take_ge by lia.
Qed.
