(* ===== verification/Queue.v ===== *)
(** The packet buffers and their pools: node/queue.go. *)

From S2P Require Import Prelude Bytes Header GoSync.

Definition BufferSize : nat := 1600.

(** [ib_peer] is a pointer to a peer: its address in the node's heap ([NodeCore]). *)
Record InboundBuffer : Type := mkInboundBuffer {
  ib_in : slice; ib_packet : slice; ib_raddr : option UDPAddr; ib_size : Z;
  ib_header : Header; ib_peer : option Z
}.
Record OutboundBuffer : Type := mkOutboundBuffer {
  ob_out : slice; ob_packet : slice; ob_size : Z; ob_header : Header; ob_peer : option Z
}.
#[export] Instance InboundBuffer_rebuild : Rebuild InboundBuffer := {| rebuild := fun b =>
  mkInboundBuffer (ib_in b) (ib_packet b) (ib_raddr b) (ib_size b) (ib_header b) (ib_peer b) |}.
#[export] Instance OutboundBuffer_rebuild : Rebuild OutboundBuffer := {| rebuild := fun b =>
  mkOutboundBuffer (ob_out b) (ob_packet b) (ob_size b) (ob_header b) (ob_peer b) |}.
#[export] Instance InboundBuffer_eq_dec : EqDecision InboundBuffer.
Proof. solve_decision. Defined.
#[export] Instance OutboundBuffer_eq_dec : EqDecision OutboundBuffer.
Proof. solve_decision. Defined.

(** The two pools and the two counters, which wrap at 64 bits. *)
Record Pools : Type := mkPools {
  InboundBuffers : list InboundBuffer; OutboundBuffers : list OutboundBuffer;
  IBuffersInUse : Z; OBuffersInUse : Z
}.
#[export] Instance Pools_rebuild : Rebuild Pools := {| rebuild := fun p =>
  mkPools (InboundBuffers p) (OutboundBuffers p) (IBuffersInUse p) (OBuffersInUse p) |}.

Definition NewInboundBuffer : InboundBuffer :=
  mkInboundBuffer (make_slice BufferSize) (make_slice BufferSize) None 0 NewHeader None.
Definition NewOutboundBuffer : OutboundBuffer :=
  mkOutboundBuffer (make_slice BufferSize) (make_slice BufferSize) 0 NewHeader None.

(** [^uint64(0)] *)
Definition minus1 : Z := 2 ^ 64 - 1.

Section Queue.
Context `{PoolChoice}.

Definition GetInboundBuffer : go Pools InboundBuffer :=
  _ ← modify (fun p => p <| IBuffersInUse ::= (fun n => add64 n 1) |>);
  zoom InboundBuffers (fun l p => p <| InboundBuffers := l |>) (pool_get NewInboundBuffer).

(** A nil argument is dereferenced. *)
Definition PutInboundBuffer (buffer : option InboundBuffer) : go Pools unit :=
  match buffer with
  | None => panic NilDeref
  | Some b =>
      let b := b <| ib_in ::= clear |> in
      let b := b <| ib_packet ::= clear |> in
      let b := b <| ib_raddr := None |> in
      let b := b <| ib_size := 0 |> in
      let b := b <| ib_header ::= Reset |> in
      let b := b <| ib_peer := None |> in
      _ ← zoom InboundBuffers (fun l p => p <| InboundBuffers := l |>) (pool_put b);
      modify (fun p => p <| IBuffersInUse ::= (fun n => add64 n minus1) |>)
  end.

Definition GetOutboundBuffer : go Pools OutboundBuffer :=
  _ ← modify (fun p => p <| OBuffersInUse ::= (fun n => add64 n 1) |>);
  zoom OutboundBuffers (fun l p => p <| OutboundBuffers := l |>) (pool_get NewOutboundBuffer).

Definition PutOutboundBuffer (buffer : option OutboundBuffer) : go Pools unit :=
  match buffer with
  | None => panic NilDeref
  | Some b =>
      let b := b <| ob_out ::= clear |> in
      let b := b <| ob_packet ::= clear |> in
      let b := b <| ob_size := 0 |> in
      let b := b <| ob_peer := None |> in
      let b := b <| ob_header ::= Reset |> in
      _ ← zoom OutboundBuffers (fun l p => p <| OutboundBuffers := l |>) (pool_put b);
      modify (fun p => p <| OBuffersInUse ::= (fun n => add64 n minus1) |>)
  end.
End Queue.

(** ** Well-formed and clean buffers

    The data of a buffer in use is a full slice of [BufferSize] bytes; a clean buffer's is
    all zero, and it holds nothing of the packet it served before. The decrypted packet
    ([ib_packet]) is not part of it: it is whatever slice the cipher returned, cleared up to
    its length. *)

Definition full (s : slice) : Prop := s_len s = BufferSize /\ length (s_arr s) = BufferSize.
Definition ib_ok (b : InboundBuffer) : Prop := full (ib_in b).
Definition ob_ok (b : OutboundBuffer) : Prop := full (ob_out b) /\ full (ob_packet b).
Definition ib_clean (b : InboundBuffer) : Prop :=
  ib_in b = make_slice BufferSize /\ ib_raddr b = None /\ ib_size b = 0 /\ ib_peer b = None.
Definition ob_clean (b : OutboundBuffer) : Prop :=
  ob_out b = make_slice BufferSize /\ ob_packet b = make_slice BufferSize /\ ob_size b = 0 /\
  ob_peer b = None.
Definition pools_clean (p : Pools) : Prop :=
  Forall ib_clean (InboundBuffers p) /\ Forall ob_clean (OutboundBuffers p).

Lemma clear_of_full s : full s -> clear s = make_slice BufferSize.
Proof. intros [Hl Ha]. rewrite clear_full by congruence. by rewrite Hl. Qed.
Lemma make_slice_full : full (make_slice BufferSize).
Proof. split; [done|]. apply length_replicate. Qed.
Lemma ib_clean_ok b : ib_clean b -> ib_ok b.
Proof. intros [E _]. unfold ib_ok. rewrite E. apply make_slice_full. Qed.
Lemma ob_clean_ok b : ob_clean b -> ob_ok b.
Proof. intros (E1 & E2 & _). unfold ob_ok. rewrite E1, E2. split; apply make_slice_full. Qed.
#[export] Hint Resolve make_slice_full ib_clean_ok ob_clean_ok : zeronet.

Section QueueLemmas.
Context `{PoolChoice}.
Implicit Types (p : Pools).

Lemma GetInboundBuffer_clean p :
  pools_clean p ->
  exists b p', GetInboundBuffer p = Done b p' /\ ib_clean b /\ pools_clean p' /\
    IBuffersInUse p' = add64 (IBuffersInUse p) 1 /\ OBuffersInUse p' = OBuffersInUse p.
Proof.
  intros [Hi Ho]. unfold GetInboundBuffer.
  destruct (pool_get_total NewInboundBuffer (InboundBuffers p)) as (b & l & E).
  apply (pool_get_Forall ib_clean) in E as HE; [|done|by unfold ib_clean].
  eexists b, _. split; [|split_and!].
  - erewrite bind_done by reflexivity. eapply zoom_done, E.
  - apply HE.
  - split; [apply HE|exact Ho].
  - done.
  - done.
Qed.

Lemma GetOutboundBuffer_clean p :
  pools_clean p ->
  exists b p', GetOutboundBuffer p = Done b p' /\ ob_clean b /\ pools_clean p' /\
    OBuffersInUse p' = add64 (OBuffersInUse p) 1 /\ IBuffersInUse p' = IBuffersInUse p.
Proof.
  intros [Hi Ho]. unfold GetOutboundBuffer.
  destruct (pool_get_total NewOutboundBuffer (OutboundBuffers p)) as (b & l & E).
  apply (pool_get_Forall ob_clean) in E as HE; [|done|by unfold ob_clean].
  eexists b, _. split; [|split_and!].
  - erewrite bind_done by reflexivity. eapply zoom_done, E.
  - apply HE.
  - split; [exact Hi|apply HE].
  - done.
  - done.
Qed.

Lemma PutInboundBuffer_clean b p :
  ib_ok b -> pools_clean p ->
  exists p', PutInboundBuffer (Some b) p = Done tt p' /\ pools_clean p' /\
    IBuffersInUse p' = add64 (IBuffersInUse p) minus1 /\ OBuffersInUse p' = OBuffersInUse p.
Proof.
  intros Hb [Hi Ho]. eexists. split; [reflexivity|]. split_and!; [|done|done].
  split; [|done]. constructor; [|done]. unfold ib_clean; cbn; split_and!; try done.
  by apply clear_of_full.
Qed.

Lemma PutOutboundBuffer_clean b p :
  ob_ok b -> pools_clean p ->
  exists p', PutOutboundBuffer (Some b) p = Done tt p' /\ pools_clean p' /\
    OBuffersInUse p' = add64 (OBuffersInUse p) minus1 /\ IBuffersInUse p' = IBuffersInUse p.
Proof.
  intros [H1 H2] [Hi Ho]. eexists. split; [reflexivity|]. split_and!; [|done|done].
  split; [done|]. constructor; [|done]. unfold ob_clean; cbn; split_and!; try done; by apply clear_of_full.
Qed.
End QueueLemmas.

(** ** Property *)

Section QueueTheorems.
Context `{PoolChoice}.

(** What the program does with the pools: take a buffer, or give back a well-formed one,
    whatever it was used for in between. *)
Inductive pool_step : Pools -> Pools -> Prop :=
| step_get_in p b p' : GetInboundBuffer p = Done b p' -> pool_step p p'
| step_get_out p b p' : GetOutboundBuffer p = Done b p' -> pool_step p p'
| step_put_in p b p' : ib_ok b -> PutInboundBuffer (Some b) p = Done tt p' -> pool_step p p'
| step_put_out p b p' : ob_ok b -> PutOutboundBuffer (Some b) p = Done tt p' -> pool_step p p'.

Lemma pool_step_clean p p' : pools_clean p -> pool_step p p' -> pools_clean p'.
Proof.
  intros Hp Hs. revert Hp. destruct Hs as [q b q' E|q b q' E|q b q' Hb E|q b q' Hb E]; intros Hp.
  - destruct (GetInboundBuffer_clean q Hp) as (b1 & q1 & E1 & _ & ? & _). congruence.
  - destruct (GetOutboundBuffer_clean q Hp) as (b1 & q1 & E1 & _ & ? & _). congruence.
  - destruct (PutInboundBuffer_clean b q Hb Hp) as (q1 & E1 & ? & _). congruence.
  - destruct (PutOutboundBuffer_clean b q Hb Hp) as (q1 & E1 & ? & _). congruence.
Qed.

End QueueTheorems.

(** A pool that has got one used buffer back. *)
Definition used_pools : Pools :=
  mkPools [NewInboundBuffer <| ib_header ::= Reset |>] [] 0 0.
Lemma used_pools_reach : reach (pool_step (H := lifo_pool)) (mkPools [] [] 0 0) used_pools.
Proof.
  eapply reach_step; [eapply reach_step; [apply reach_refl|by eapply step_get_in]|].
  eapply (step_put_in _ (NewInboundBuffer <| ib_in := Slice (1 :: replicate 1599 0) BufferSize |>));
    [split; reflexivity|reflexivity].
Qed.

