(* ===== verification/NodePeer.v ===== *)
(** A remote peer as a node keeps it: node/peer.go, node/peer_transport.go, node/noise.go.

    The state of a peer's methods is the peer and the part of the node they use ([Env]). A
    method is a [go PS] program that runs in one piece; the three goroutines are split at
    the points where they wait, the channel receive and the [pendingLock] behind it. *)

From S2P Require Import Prelude Bytes Header GoTime Netip GoSync Queue Grpc.

(** ** The noise library (github.com/flynn/noise), which is not part of the repository

    A receiver may be nil; [Err c] is a panic of the library, [Z] the randomness a message
    is written with. A handshake message's result is the receiver afterwards, the message
    (or payload), the two ciphers a finished handshake yields, and the error. *)

Class Noise : Type := {
  DHKey : Type;
  HandshakeState : Type;
  CipherState : Type;
  Public : DHKey -> list Z;
  NewHandshakeState : bool -> DHKey -> option (list Z) -> result string HandshakeState;
  WriteMessage : Z -> option HandshakeState -> slice ->
    result crash (option HandshakeState * slice * option CipherState * option CipherState * option string);
  ReadMessage : option HandshakeState -> list Z ->
    result crash (option HandshakeState * slice * option CipherState * option CipherState * option string);
  Nonce : option CipherState -> result crash Z;
  SetNonce : option CipherState -> Z -> result crash (option CipherState);
  Encrypt : option CipherState -> slice -> list Z -> result crash (option CipherState * slice * option string);
  Decrypt : option CipherState -> slice -> list Z -> result crash (option CipherState * slice * option string)
}.

(** ** Constants and state *)

Definition TimerHandshakeTimeout : Z := Second * 5.
Definition TimerRxTimeout : Z := Second * 15.
Definition TimerKeepalive : Z := Second * 10.
Definition CountHandshakeRetries : Z := 10.
Definition InboundChannelSize : nat := 1024.
Definition OutboundChannelSize : nat := 1024.
Definition HandshakeChannelSize : nat := 3.

(** A goroutine of the peer: not started or finished, at its channel, or holding the buffer
    it has taken from it. *)
Inductive routine (A : Type) : Type := Off | Waiting | Busy (a : A).
Arguments Off {A}.
Arguments Waiting {A}.
Arguments Busy {A} a.

(** [None] in a channel is the nil that tells the goroutine to exit. [raddr] is a pointer,
    which no two holders share. *)
Record Peer `{Noise} : Type := mkPeer {
  mu : RWMutex;
  pendingLock : RWMutex;
  Hostname : string;
  raddr : option UDPAddr;
  IP : Addr;
  ID : Z;
  hs : option HandshakeState;
  rx : option CipherState;
  tx : option CipherState;
  state : Z;
  initiator : bool;
  pubkey : list Z;
  handshakeSent : Timer;
  receivedPacket : Timer;
  keepalive : Timer;
  handshakeRetries : Z;
  inbound : list (option InboundBuffer);
  outbound : list (option OutboundBuffer);
  handshakes : list (option InboundBuffer);
  running : bool;
  inTransport : bool;
  wg : Z;
  g_inbound : routine InboundBuffer;
  g_outbound : routine OutboundBuffer;
  g_handshake : routine InboundBuffer
}.
#[export] Instance Peer_rebuild `{Noise} : Rebuild Peer := {| rebuild := fun p =>
  mkPeer _ (mu p) (pendingLock p) (Hostname p) (raddr p) (IP p) (ID p) (hs p) (rx p) (tx p) (state p)
    (initiator p) (pubkey p) (handshakeSent p) (receivedPacket p) (keepalive p) (handshakeRetries p)
    (inbound p) (outbound p) (handshakes p) (running p) (inTransport p) (wg p) (g_inbound p)
    (g_outbound p) (g_handshake p) |}.

(** What a peer's methods use of the node and the world: the node's id and key, the
    datagrams written to the socket, the packets written to the tunnel, the punch requests
    sent to the controller, the buffer pools and the source of randomness. *)
Record Env `{Noise} : Type := mkEnv {
  node_id : Z;
  keyPair : DHKey;
  machineID : string;
  discoveredEndpoint : string;
  net_out : list (list Z * UDPAddr);
  tun_out : list (list Z);
  punches : list PunchRequest;
  pools : Pools;
  entropy : Z
}.
#[export] Instance Env_rebuild `{Noise} : Rebuild Env := {| rebuild := fun e =>
  mkEnv _ (node_id e) (keyPair e) (machineID e) (discoveredEndpoint e) (net_out e) (tun_out e)
    (punches e) (pools e) (entropy e) |}.

Record PS `{Noise} : Type := mkPS { self : Peer; env : Env }.
#[export] Instance PS_rebuild `{Noise} : Rebuild PS := {| rebuild := fun s => mkPS _ (self s) (env s) |}.

Section Primitives.
Context `{Noise, PoolChoice}.

Definition pget {A} (f : Peer -> A) : go PS A := reads (fun s => f (self s)).
Definition pmod (f : Peer -> Peer) : go PS unit := modify (fun s => s <| self ::= f |>).
Definition eget {A} (f : Env -> A) : go PS A := reads (fun s => f (env s)).
Definition emod (f : Env -> Env) : go PS unit := modify (fun s => s <| env ::= f |>).

Definition with_mu {A} : go RWMutex A -> go PS A :=
  zoom (fun s => mu (self s)) (fun m s => s <| self ::= (fun p => p <| mu := m |>) |>).
Definition with_pending {A} : go RWMutex A -> go PS A :=
  zoom (fun s => pendingLock (self s)) (fun m s => s <| self ::= (fun p => p <| pendingLock := m |>) |>).
Definition with_pools {A} : go Pools A -> go PS A :=
  zoom (fun s => pools (env s)) (fun q s => s <| env ::= (fun e => e <| pools := q |>) |>).

(** A call into the library. *)
Definition lib {A} (o : result crash A) : go PS A :=
  match o with Ok a => mret a | Err c => panic c end.

(** [WriteToUDP]; its error (a nil address, or the network's) is ignored by every caller. *)
Definition WriteToUDP (b : slice) (a : option UDPAddr) : go PS unit :=
  match a with
  | None => mret tt
  | Some a => emod (fun e => e <| net_out ::= (fun l => l ++ [(s_bytes b, a)]) |>)
  end.
Definition tun_Write (b : slice) : go PS unit :=
  emod (fun e => e <| tun_out ::= (fun l => l ++ [s_bytes b]) |>).
Definition fresh_random : go PS Z :=
  r ← eget entropy; _ ← emod (fun e => e <| entropy := r + 1 |>); mret r.

(** [b[lo:hi]] with its run-time check. *)
Definition slice_expr (b : slice) (lo hi : Z) : go PS slice :=
  match reslice b lo hi with Some s => mret s | None => panic SliceOutOfRange end.

(** Sends on the peer's buffered channels: a full one blocks, or is skipped by a [select]. *)
Definition send_handshakes (b : option InboundBuffer) : go PS unit :=
  q ← pget handshakes;
  if bool_decide (length q < HandshakeChannelSize)%nat
  then pmod (fun p => p <| handshakes := q ++ [b] |>) else block WaitChan.
Definition send_inbound (b : option InboundBuffer) : go PS unit :=
  q ← pget inbound;
  if bool_decide (length q < InboundChannelSize)%nat
  then pmod (fun p => p <| inbound := q ++ [b] |>) else block WaitChan.
Definition send_outbound (b : option OutboundBuffer) : go PS unit :=
  q ← pget outbound;
  if bool_decide (length q < OutboundChannelSize)%nat
  then pmod (fun p => p <| outbound := q ++ [b] |>) else block WaitChan.
End Primitives.

(** ** peer.go *)

Section PeerGo.
Context `{Noise, PoolChoice}.

(** A peer before [AddPeer] fills it in. The timers are created and stopped at once. *)
Definition NewPeer : Peer :=
  mkPeer _ unlocked unlocked "" None AddrZero 0 None None None 0 false [] Timer_Stop Timer_Stop
    Timer_Stop 0 [] [] [] false false 0 Off Off Off.

Fixpoint flushInbound_loop (q : list (option InboundBuffer)) : go PS unit :=
  match q with
  | [] => mret tt
  | b :: q' =>
      _ ← pmod (fun p => p <| inbound := q' |>);
      _ ← with_pools (PutInboundBuffer b);
      flushInbound_loop q'
  end.
Definition flushInboundQueue : go PS unit := q ← pget inbound; flushInbound_loop q.

Fixpoint flushOutbound_loop (q : list (option OutboundBuffer)) : go PS unit :=
  match q with
  | [] => mret tt
  | b :: q' =>
      _ ← pmod (fun p => p <| outbound := q' |>);
      _ ← with_pools (PutOutboundBuffer b);
      flushOutbound_loop q'
  end.
Definition flushOutboundQueue : go PS unit := q ← pget outbound; flushOutbound_loop q.

Fixpoint flushHandshake_loop (q : list (option InboundBuffer)) : go PS unit :=
  match q with
  | [] => mret tt
  | b :: q' =>
      _ ← pmod (fun p => p <| handshakes := q' |>);
      _ ← with_pools (PutInboundBuffer b);
      flushHandshake_loop q'
  end.
Definition flushHandshakeQueue : go PS unit := q ← pget handshakes; flushHandshake_loop q.

Definition flushQueues : go PS unit :=
  _ ← flushHandshakeQueue;
  _ ← flushOutboundQueue;
  flushInboundQueue.

Definition ResetState : go PS unit :=
  wasRunning ← pget running;
  _ ← pmod (fun p => p <| running := false |>);
  _ ← with_mu Lock;
  _ ← pmod (fun p => p <| handshakeRetries := 0 |>);
  _ ← pmod (fun p => p <| receivedPacket := Timer_Stop |>);
  _ ← pmod (fun p => p <| keepalive := Timer_Stop |>);
  _ ← flushQueues;
  _ ← pmod (fun p => p <| hs := None |>);
  _ ← pmod (fun p => p <| rx := None |>);
  _ ← pmod (fun p => p <| tx := None |>);
  _ ← pmod (fun p => p <| initiator := false |>);
  _ ← pmod (fun p => p <| state := 0 |>);
  _ ← pmod (fun p => p <| inTransport := false |>);
  _ ← with_mu Unlock;
  when wasRunning (pmod (fun p => p <| running := true |>)).

(** [go peer.Inbound()], [go peer.Outbound()], [go peer.Handshake()]: three goroutines at
    their channels. *)
Definition Peer_Start : go PS (option string) :=
  _ ← with_mu Lock;
  r ← pget running;
  if (r : bool) then
    _ ← with_mu Unlock;
    mret (Some "peer already running"%string)
  else
    _ ← with_pending Lock;
    _ ← pmod (fun p => p <| wg ::= Z.add 3 |>);
    _ ← pmod (fun p => p <| g_inbound := Waiting |> <| g_outbound := Waiting |> <| g_handshake := Waiting |>);
    _ ← pmod (fun p => p <| running := true |>);
    _ ← pmod (fun p => p <| inTransport := false |>);
    _ ← with_mu Unlock;
    mret None.

(** A buffer the full channel does not take is dropped. *)
Definition InboundPacket (buffer : InboundBuffer) : go PS unit :=
  r ← pget running;
  if negb r then with_pools (PutInboundBuffer (Some buffer))
  else
    q ← pget inbound;
    if bool_decide (length q < InboundChannelSize)%nat
    then pmod (fun p => p <| inbound := q ++ [Some buffer] |>) else mret tt.

(** noise.go *)
Definition CreateHandshake (init : bool) (keypair : DHKey) (rs : list Z) : result string HandshakeState :=
  NewHandshakeState init keypair (if init then Some rs else None).

Definition InitHandshake (init : bool) : go PS (option string) :=
  _ ← pmod (fun p => p <| initiator := init |>);
  k ← eget keyPair;
  pk ← pget pubkey;
  match CreateHandshake init k pk with
  | Err e => _ ← pmod (fun p => p <| hs := None |>); mret (Some e)
  | Ok h => _ ← pmod (fun p => p <| hs := Some h |>); mret None
  end.
End PeerGo.

(** ** peer_transport.go *)

Section Transport.
Context `{Noise, PoolChoice}.

(** The address comparison of both endpoint updates; [None] is a nil dereference. *)
Definition same_endpoint (paddr addr : option UDPAddr) : option bool :=
  match paddr, addr with
  | Some p, Some a => Some (IP_Equal (u_ip p) (u_ip a) && bool_decide (u_port p = u_port a))
  | _, _ => None
  end.

Definition UpdateEndpoint (addr : option UDPAddr) : go PS unit :=
  _ ← with_mu RLock;
  paddr ← pget raddr;
  _ ← with_mu RUnlock;
  match same_endpoint paddr addr with
  | None => panic NilDeref
  | Some true => mret tt
  | Some false =>
      _ ← with_mu Lock;
      _ ← pmod (fun p => p <| raddr := addr |>);
      with_mu Unlock
  end.

Definition UpdateEndpointLocked (addr : option UDPAddr) : go PS unit :=
  paddr ← pget raddr;
  match same_endpoint paddr addr with
  | None => panic NilDeref
  | Some true => mret tt
  | Some false => pmod (fun p => p <| raddr := addr |>)
  end.

(** The node's method, under its own lock: the error of the call is logged. *)
Definition Node_RequestPunch (id : Z) : go PS unit :=
  e ← reads env;
  emod (fun e => e <| punches ::= (fun l => l ++ [mkPR (machineID e) id (discoveredEndpoint e)]) |>).
Definition RequestPunch : go PS unit :=
  _ ← with_mu RLock;
  id ← pget ID;
  _ ← Node_RequestPunch id;
  with_mu RUnlock.

(** The header of an outbound buffer encoded into it: the slice to send from, nil on error. *)
Definition encode_header (b : OutboundBuffer) (t index counter : Z) : OutboundBuffer * slice :=
  match Encode (Some (ob_header b)) (ob_out b) t index counter with
  | (Some h, Ok out) =>
      ((b <| ob_header := h |>) <| ob_out ::= (fun o => Slice (s_arr out) (s_len o)) |>, out)
  | (Some h, Err _) => (b <| ob_header := h |>, nil_slice)
  | (None, _) => (b, nil_slice)
  end.

Definition handshakeP1 (b : OutboundBuffer) : go PS unit :=
  id ← eget node_id;
  let '(b, final) := encode_header b MsgHandshake id 0 in
  r ← fresh_random;
  h ← pget hs;
  '(h, final, _, _, err) ← lib (WriteMessage r h final);
  _ ← pmod (fun p => p <| hs := h |>);
  match err with
  | Some _ => panic (PanicWith "error writing first handshake message")
  | None =>
      _ ← pmod (fun p => p <| state := 1 |>);
      a ← pget raddr;
      _ ← WriteToUDP final a;
      with_pools (PutOutboundBuffer (Some b))
  end.

Definition TrySendHandshake_send : go PS unit :=
  _ ← with_mu Lock;
  err ← InitHandshake true;
  match err with
  | Some e => panic (PanicWith e)
  | None =>
      buffer ← with_pools GetOutboundBuffer;
      _ ← handshakeP1 buffer;
      _ ← pmod (fun p => p <| handshakeSent := Timer_Stop |>);
      _ ← pmod (fun p => p <| handshakeSent := Timer_Reset (Second * 3) |>);
      with_mu Unlock
  end.

Definition TrySendHandshake (retry : bool) : go PS unit :=
  _ ← pmod (fun p => p <| handshakeRetries ::= (fun n => add64 n 1) |>);
  if retry then
    attempts ← pget handshakeRetries;
    if bool_decide (CountHandshakeRetries < attempts) then
      _ ← pmod (fun p => p <| handshakeSent := Timer_Stop |>);
      ResetState
    else
      _ ← RequestPunch;
      TrySendHandshake_send
  else TrySendHandshake_send.

Definition OutboundPacket (buffer : OutboundBuffer) : go PS unit :=
  r ← pget running;
  if negb r then with_pools (PutOutboundBuffer (Some buffer))
  else
    q ← pget outbound;
    _ ← (if bool_decide (length q < OutboundChannelSize)%nat
         then pmod (fun p => p <| outbound := q ++ [Some buffer] |>) else mret tt);
    p ← reads self;
    if negb (inTransport p) && bool_decide (state p = 0) then TrySendHandshake false else mret tt.

(** *** The goroutines

    [_recv]: the receive from the channel; [_body]: one turn of the loop with the buffer
    received, from [pendingLock] on, after which the goroutine is back at the channel. *)

Definition Inbound_recv : go PS unit :=
  q ← pget inbound;
  match q with
  | [] => block WaitChan
  | None :: q' => pmod (fun p => p <| inbound := q' |> <| g_inbound := Off |> <| wg ::= Z.pred |>)
  | Some b :: q' => pmod (fun p => p <| inbound := q' |> <| g_inbound := Busy b |>)
  end.

Definition Inbound_body (b : InboundBuffer) : go PS unit :=
  _ ← with_pending RLock;
  c ← pget rx;
  c ← lib (SetNonce c (Counter (ib_header b)));
  _ ← pmod (fun p => p <| rx := c |>);
  packet0 ← slice_expr (ib_packet b) 0 0;
  ciphertext ← slice_expr (ib_in b) HeaderLen (ib_size b);
  '(c, packet, err) ← lib (Decrypt c packet0 (s_bytes ciphertext));
  _ ← pmod (fun p => p <| rx := c |>);
  let b := b <| ib_packet := packet |> in
  match err with
  | Some _ =>
      _ ← with_pools (PutInboundBuffer (Some b));
      _ ← with_pending RUnlock;
      pmod (fun p => p <| g_inbound := Waiting |>)
  | None =>
      _ ← with_pending RUnlock;
      _ ← pmod (fun p => p <| receivedPacket := Timer_Reset TimerRxTimeout |>);
      _ ← when (bool_decide (0 < s_len packet)%nat) (tun_Write packet);
      _ ← UpdateEndpoint (ib_raddr b);
      _ ← with_pools (PutInboundBuffer (Some b));
      pmod (fun p => p <| g_inbound := Waiting |>)
  end.

(** A receive and, when it brought a buffer, the turn of the loop. *)
Definition Inbound_turn : go PS unit :=
  _ ← Inbound_recv;
  g ← pget g_inbound;
  match g with Busy b => Inbound_body b | _ => mret tt end.

Definition Outbound_recv : go PS unit :=
  q ← pget outbound;
  match q with
  | [] => block WaitChan
  | None :: q' => pmod (fun p => p <| outbound := q' |> <| g_outbound := Off |> <| wg ::= Z.pred |>)
  | Some b :: q' => pmod (fun p => p <| outbound := q' |> <| g_outbound := Busy b |>)
  end.

Definition Outbound_body (b : OutboundBuffer) : go PS unit :=
  _ ← with_pending RLock;
  id ← eget node_id;
  c ← pget tx;
  n ← lib (Nonce c);
  let '(b, out) := encode_header b MsgData id n in
  plaintext ← slice_expr (ob_packet b) 0 (ob_size b);
  '(c, out, err) ← lib (Encrypt c out (s_bytes plaintext));
  _ ← pmod (fun p => p <| tx := c |>);
  match err with
  | Some _ =>
      _ ← with_pools (PutOutboundBuffer (Some b));
      _ ← with_pending RUnlock;
      pmod (fun p => p <| g_outbound := Waiting |>)
  | None =>
      _ ← pmod (fun p => p <| keepalive := Timer_Reset TimerKeepalive |>);
      _ ← with_pending RUnlock;
      _ ← with_mu RLock;
      a ← pget raddr;
      _ ← WriteToUDP out a;
      _ ← with_mu RUnlock;
      _ ← with_pools (PutOutboundBuffer (Some b));
      pmod (fun p => p <| g_outbound := Waiting |>)
  end.

Definition Outbound_turn : go PS unit :=
  _ ← Outbound_recv;
  g ← pget g_outbound;
  match g with Busy b => Outbound_body b | _ => mret tt end.

(** The responder's half of [handshakeP2]: the initiation is read and answered. *)
Definition handshakeP2_respond (b : InboundBuffer) : go PS (option string) :=
  err ← InitHandshake false;
  match err with
  | Some e => mret (Some e)
  | None =>
      message ← slice_expr (ib_in b) HeaderLen (ib_size b);
      h ← pget hs;
      '(h, _, _, _, err) ← lib (ReadMessage h (s_bytes message));
      _ ← pmod (fun p => p <| hs := h |>);
      match err with
      | Some e => mret (Some e)
      | None =>
          _ ← UpdateEndpointLocked (ib_raddr b);
          outbuf ← with_pools GetOutboundBuffer;
          id ← eget node_id;
          let '(outbuf, final) := encode_header outbuf MsgHandshake id 1 in
          r ← fresh_random;
          '(h, final, c1, c2, err) ← lib (WriteMessage r h final);
          _ ← pmod (fun p => p <| hs := h |> <| rx := c1 |> <| tx := c2 |>);
          _ ← (match err with
               | Some _ => mret tt
               | None => a ← pget raddr; WriteToUDP final a
               end);
          _ ← with_pools (PutOutboundBuffer (Some outbuf));
          mret err
      end
  end.

(** The initiator's half: the response is read. *)
Definition handshakeP2_complete (b : InboundBuffer) : go PS (option string) :=
  message ← slice_expr (ib_in b) HeaderLen (ib_size b);
  h ← pget hs;
  '(h, _, c1, c2, err) ← lib (ReadMessage h (s_bytes message));
  _ ← pmod (fun p => p <| hs := h |> <| tx := c1 |> <| rx := c2 |>);
  match err with
  | Some e => mret (Some e)
  | None =>
      _ ← pmod (fun p => p <| raddr := ib_raddr b |>);
      _ ← pmod (fun p => p <| hs := None |>);
      mret None
  end.

Definition handshakeP2 (b : InboundBuffer) : go PS (option string) :=
  _ ← with_mu Lock;
  init ← pget initiator;
  err ← (if (init : bool) then handshakeP2_complete b else handshakeP2_respond b);
  _ ← with_pools (PutInboundBuffer (Some b));
  _ ← with_mu Unlock;
  mret err.

Definition Handshake_recv : go PS unit :=
  q ← pget handshakes;
  match q with
  | [] => block WaitChan
  | None :: q' => pmod (fun p => p <| handshakes := q' |> <| g_handshake := Off |> <| wg ::= Z.pred |>)
  | Some b :: q' => pmod (fun p => p <| handshakes := q' |> <| g_handshake := Busy b |>)
  end.

(** [handshakeP2], whose error is a panic. *)
Definition handshakeP2_or_panic (b : InboundBuffer) : go PS unit :=
  err ← handshakeP2 b;
  match err with Some e => panic (PanicWith e) | None => mret tt end.

Definition Handshake_body (b : InboundBuffer) : go PS unit :=
  st ← pget state;
  _ ← (if bool_decide (st = 0) then
         if bool_decide (Counter (ib_header b) <> 0) then panic (PanicWith "header counter doesnt match state 0")
         else
           _ ← handshakeP2_or_panic b;
           _ ← pmod (fun p => p <| state := 2 |>);
           _ ← pmod (fun p => p <| inTransport := true |>);
           _ ← with_pending Unlock;
           _ ← pmod (fun p => p <| handshakeRetries := 0 |>);
           _ ← pmod (fun p => p <| handshakeSent := Timer_Stop |>);
           pmod (fun p => p <| keepalive := Timer_Reset (TimerKeepalive + Second * 5) |>)
       else if bool_decide (st = 1) then
         if bool_decide (Counter (ib_header b) <> 1) then panic (PanicWith "header counter doesnt match state 1")
         else
           _ ← handshakeP2_or_panic b;
           _ ← pmod (fun p => p <| state := 2 |>);
           _ ← pmod (fun p => p <| inTransport := true |>);
           _ ← with_pending Unlock;
           _ ← pmod (fun p => p <| handshakeSent := Timer_Stop |>);
           _ ← pmod (fun p => p <| handshakeRetries := 0 |>);
           pmod (fun p => p <| keepalive := Timer_Reset TimerKeepalive |>)
       else if bool_decide (st = 2) then
         _ ← with_pending Lock;
         _ ← UpdateEndpoint (ib_raddr b);
         _ ← handshakeP2_or_panic b;
         _ ← pmod (fun p => p <| state := 2 |>);
         _ ← pmod (fun p => p <| inTransport := true |>);
         _ ← with_pending Unlock;
         _ ← pmod (fun p => p <| handshakeSent := Timer_Stop |>);
         _ ← pmod (fun p => p <| handshakeRetries := 0 |>);
         _ ← pmod (fun p => p <| keepalive := Timer_Reset TimerKeepalive |>);
         pmod (fun p => p <| receivedPacket := Timer_Reset TimerRxTimeout |>)
       else panic (PanicWith "out of sequence handshake message received"));
  pmod (fun p => p <| g_handshake := Waiting |>).

Definition Handshake_turn : go PS unit :=
  _ ← Handshake_recv;
  g ← pget g_handshake;
  match g with Busy b => Handshake_body b | _ => mret tt end.

(** *** The timers' functions *)

Definition HandshakeTimeout : go PS unit :=
  st ← pget state;
  if bool_decide (0 < st) then
    _ ← pmod (fun p => p <| inTransport := false |>);
    init ← pget initiator;
    if (init : bool) then TrySendHandshake true else mret tt
  else mret tt.

(** [self_ptr] is the receiver's own address. *)
Definition TXTimeout (self_ptr : Z) : go PS unit :=
  q ← pget outbound;
  if bool_decide (q = []) then
    buffer ← with_pools GetOutboundBuffer;
    send_outbound (Some (buffer <| ob_peer := Some self_ptr |>))
  else mret tt.

Definition RXTimeout : go PS unit :=
  t ← pget inTransport;
  if negb t then mret tt
  else
    _ ← pmod (fun p => p <| keepalive := Timer_Stop |>);
    _ ← pmod (fun p => p <| receivedPacket := Timer_Stop |>);
    _ ← with_pending Lock;
    _ ← pmod (fun p => p <| state := 0 |>);
    _ ← with_mu RLock;
    init ← pget initiator;
    _ ← with_mu RUnlock;
    if negb init then
      _ ← pmod (fun p => p <| receivedPacket := Timer_Stop |>);
      _ ← pmod (fun p => p <| handshakeSent := Timer_Stop |>);
      ResetState
    else TrySendHandshake true.
End Transport.

(** ** Stop

    [wg.Wait()] lets the goroutines run until they exit: each finishes the buffer it holds and
    reads its channel up to the nil. The wait blocks when a goroutine does. *)

Section Stop.
Context `{Noise, PoolChoice}.

Fixpoint Inbound_exit (fuel : nat) : go PS unit :=
  g ← pget g_inbound;
  match g, fuel with
  | Off, _ => mret tt
  | _, O => block WaitGroup
  | Waiting, S f => _ ← Inbound_recv; Inbound_exit f
  | Busy b, S f => _ ← Inbound_body b; Inbound_exit f
  end.
Fixpoint Outbound_exit (fuel : nat) : go PS unit :=
  g ← pget g_outbound;
  match g, fuel with
  | Off, _ => mret tt
  | _, O => block WaitGroup
  | Waiting, S f => _ ← Outbound_recv; Outbound_exit f
  | Busy b, S f => _ ← Outbound_body b; Outbound_exit f
  end.
Fixpoint Handshake_exit (fuel : nat) : go PS unit :=
  g ← pget g_handshake;
  match g, fuel with
  | Off, _ => mret tt
  | _, O => block WaitGroup
  | Waiting, S f => _ ← Handshake_recv; Handshake_exit f
  | Busy b, S f => _ ← Handshake_body b; Handshake_exit f
  end.
(** Two turns for every element of the channel, and one for the buffer in hand. *)
Definition wait_group : go PS unit :=
  p ← reads self;
  _ ← Handshake_exit (2 * length (handshakes p) + 1);
  _ ← Inbound_exit (2 * length (inbound p) + 1);
  Outbound_exit (2 * length (outbound p) + 1).

Definition Peer_Stop_begin : go PS unit :=
  _ ← pmod (fun p => p <| running := false |>);
  _ ← ResetState;
  _ ← with_mu Lock;
  _ ← send_handshakes None;
  _ ← send_inbound None;
  send_outbound None.
Definition Peer_Stop : go PS unit :=
  _ ← Peer_Stop_begin;
  _ ← wait_group;
  _ ← with_pending Unlock;
  with_mu Unlock.
End Stop.
