(* ===== verification/NoiseLaws.v ===== *)
(** What the node relies on of the Noise library (flynn/noise, pattern IK), as the laws of the
    interface [NodePeer.Noise], and a toy instance that satisfies them. The laws are the
    library's documented behaviour: methods dereference their receiver; a handshake between
    two parties who know each other's keys completes in two messages and gives both the same
    two ciphers; what one end of a cipher encrypts the other decrypts under the same nonce. *)

From S2P Require Import Prelude Bytes GoSync Queue NodePeer.

Definition MaxNonce : Z := 2 ^ 64 - 2.

Class NoiseLaws `{Noise} : Type := {
  (** Methods on a nil receiver. *)
  write_nil rnd out : WriteMessage rnd None out = Err NilDeref;
  read_nil m : ReadMessage None m = Err NilDeref;
  nonce_nil : Nonce None = Err NilDeref;
  set_nonce_nil n : SetNonce None n = Err NilDeref;
  (** [paired s r]: [r] is the receiving end of [s]. *)
  paired : CipherState -> CipherState -> Prop;
  nonce_of : CipherState -> Z;
  nonce_some c : Nonce (Some c) = Ok (nonce_of c);
  encrypt_decrypt s r out pt :
    paired s r -> 0 <= nonce_of s <= MaxNonce -> slice_ok out ->
    exists s' ct out',
      Encrypt (Some s) out pt = Ok (Some s', out', None) /\ slice_ok out' /\
      s_bytes out' = s_bytes out ++ ct /\ length ct = (length pt + 16)%nat /\
      nonce_of s' = nonce_of s + 1 /\
      forall r0 buf, paired s r0 -> slice_ok buf -> exists r1 r2 buf',
        SetNonce (Some r0) (nonce_of s) = Ok (Some r1) /\
        Decrypt (Some r1) buf ct = Ok (Some r2, buf', None) /\ slice_ok buf' /\
        s_bytes buf' = s_bytes buf ++ pt /\ paired s r2 /\ paired s' r2;
  (** A finished IK handshake: the initiator [a] knows the responder [b]'s public key. *)
  ik_handshake a b r1 r2 :
    exists i0 i1 m1 d0 d1 d2 m2 c1 c2 i2 c1' c2' sl1 sl2,
      NewHandshakeState true a (Some (Public b)) = Ok i0 /\
      NewHandshakeState false b None = Ok d0 /\
      (forall out, slice_ok out -> exists out',
         WriteMessage r1 (Some i0) out = Ok (Some i1, out', None, None, None) /\
         s_bytes out' = s_bytes out ++ m1) /\
      length m1 = 96%nat /\
      ReadMessage (Some d0) m1 = Ok (Some d1, sl1, None, None, None) /\
      (forall out, slice_ok out -> exists out',
         WriteMessage r2 (Some d1) out = Ok (Some d2, out', Some c1, Some c2, None) /\
         s_bytes out' = s_bytes out ++ m2) /\
      length m2 = 48%nat /\
      ReadMessage (Some i1) m2 = Ok (Some i2, sl2, Some c1', Some c2', None) /\
      paired c1' c1 /\ paired c2 c2' /\ nonce_of c1' = 0 /\ nonce_of c2 = 0
}.

(** ** A toy instance

    Ciphers do not hide anything: the ciphertext is the plaintext with the key and the nonce
    behind it. The first message spells the initiator's and the responder's public key and
    the initiator's randomness, which becomes the key of both ciphers. *)

Record ToyHS : Type := mkToyHS { th_init : bool; th_self : Z; th_remote : Z; th_key : Z }.
Record ToyCS : Type := mkToyCS { tc_key : Z; tc_nonce : Z }.

Definition toy_tag (c : ToyCS) : list Z := be_bytes 8 (tc_key c) ++ be_bytes 8 (tc_nonce c).
Definition toy_open (c : ToyCS) (ct : list Z) : option (list Z) :=
  let k := (length ct - 16)%nat in
  if bool_decide (drop k ct = toy_tag c) then Some (take k ct) else None.

Abbreviation toy_result := (result crash (option ToyHS * slice * option ToyCS * option ToyCS * option string)).
Definition toy_ciphers (k : Z) : option ToyCS * option ToyCS := (Some (mkToyCS k 0), Some (mkToyCS (k + 1) 0)).

Definition toy_write (rnd : Z) (h : option ToyHS) (out : slice) : toy_result :=
  match h with
  | None => Err NilDeref
  | Some (mkToyHS true self remote _) =>
      Ok (Some (mkToyHS true self remote rnd), go_append out ([self; remote; rnd] ++ replicate 93 0), None, None, None)
  | Some (mkToyHS false self remote k) =>
      let '(c1, c2) := toy_ciphers k in
      Ok (h, go_append out ([self; remote; k] ++ replicate 45 0), c1, c2, None)
  end.
Definition toy_read (h : option ToyHS) (m : list Z) : toy_result :=
  match h, m with
  | None, _ => Err NilDeref
  | Some (mkToyHS true self remote k), s :: r :: k' :: _ =>
      if bool_decide (s = remote /\ r = self /\ k' = k) then
        let '(c1, c2) := toy_ciphers k in Ok (h, nil_slice, c1, c2, None)
      else Ok (h, nil_slice, None, None, Some "authentication failed"%string)
  | Some (mkToyHS false self _ _), s :: r :: k :: _ =>
      if bool_decide (r = self) then Ok (Some (mkToyHS false self s k), nil_slice, None, None, None)
      else Ok (h, nil_slice, None, None, Some "authentication failed"%string)
  | Some _, _ => Ok (h, nil_slice, None, None, Some "message is too short"%string)
  end.

#[export] Instance toy_noise : Noise := {|
  DHKey := Z;
  HandshakeState := ToyHS;
  CipherState := ToyCS;
  Public k := [k];
  NewHandshakeState init k rs :=
    match init, rs with
    | true, Some [r] => Ok (mkToyHS true k r 0)
    | true, _ => Err "invalid key"%string
    | false, _ => Ok (mkToyHS false k 0 0)
    end;
  WriteMessage := toy_write;
  ReadMessage := toy_read;
  Nonce c := match c with None => Err NilDeref | Some c => Ok (tc_nonce c) end;
  SetNonce c n := match c with None => Err NilDeref | Some c => Ok (Some (mkToyCS (tc_key c) n)) end;
  Encrypt c out pt :=
    match c with
    | None => Err NilDeref
    | Some c => Ok (Some (mkToyCS (tc_key c) (tc_nonce c + 1)), go_append out (pt ++ toy_tag c), None)
    end;
  Decrypt c out ct :=
    match c with
    | None => Err NilDeref
    | Some c =>
        match toy_open c ct with
        | Some pt => Ok (Some (mkToyCS (tc_key c) (tc_nonce c + 1)), go_append out pt, None)
        | None => Ok (Some c, nil_slice, Some "message authentication failed"%string)
        end
    end
|}.

Lemma toy_open_seal c pt : toy_open c (pt ++ toy_tag c) = Some pt.
Proof.
  assert (L : length (toy_tag c) = 16%nat) by (unfold toy_tag; by rewrite length_app, !be_bytes_length).
  unfold toy_open. rewrite length_app, L.
  replace (length pt + 16 - 16)%nat with (length pt) by lia.
  rewrite drop_app_length, take_app_length. by rewrite bool_decide_true.
Qed.

Lemma go_append_ok s bs : slice_ok s -> slice_ok (go_append s bs).
Proof.
  unfold slice_ok, go_append. intros Hs. case_bool_decide; cbn.
  - rewrite put_at_length; lia.
  - rewrite length_app. lia.
Qed.

#[export] Instance toy_noise_laws : NoiseLaws.
Proof.
  unshelve refine {| paired := fun s r => tc_key s = tc_key r; nonce_of := tc_nonce |}; try done.
  - intros s r out pt Hp Hn Hout. cbn. eexists _, (pt ++ toy_tag s), _.
    split_and!; [reflexivity|by apply go_append_ok|by rewrite go_append_bytes| |done|].
    { unfold toy_tag. rewrite !length_app, !be_bytes_length. lia. }
    intros r0 buf Hr Hbuf.
    assert (E : toy_tag (mkToyCS (tc_key r0) (tc_nonce s)) = toy_tag s)
      by (unfold toy_tag; cbn; by rewrite <- Hr).
    assert (O : toy_open (mkToyCS (tc_key r0) (tc_nonce s)) (pt ++ toy_tag s) = Some pt)
      by (rewrite <- E; apply toy_open_seal).
    eexists _, _, _. split; [reflexivity|].
    split_and!; [rewrite O; reflexivity|by apply go_append_ok|by rewrite go_append_bytes|done|done].
  - intros a b r1 r2. cbn. unfold toy_write, toy_read, toy_ciphers.
    eexists _, _, _, _, _, _, _, _, _, _, _, _, _, _.
    split; [reflexivity|]. split; [reflexivity|].
    split; [intros out Ho; eexists; split; [reflexivity|by apply go_append_bytes]|]. split; [reflexivity|].
    split; [cbn; rewrite bool_decide_true by done; reflexivity|].
    split; [intros out Ho; eexists; split; [reflexivity|by apply go_append_bytes]|]. split; [reflexivity|].
    split; [cbn; rewrite bool_decide_true by done; reflexivity|]. done.
Defined.

(** ** The shape of a session

    What the results of the library say about its objects: a method called on one leaves one
    behind, and the second message of a handshake yields both ciphers, to the responder who
    writes it and to the initiator who reads it. *)

Section Session.
Context `{Noise}.

(** A handshake whose first message the initiator has written. *)
Definition initiated (h : HandshakeState) : Prop := exists k rs h0 rnd out out' c1 c2,
  NewHandshakeState true k (Some rs) = Ok h0 /\
  WriteMessage rnd (Some h0) out = Ok (Some h, out', c1, c2, None).

Class NoiseSession : Prop := {
  session_write_some rnd h out h' out' c1 c2 e :
    WriteMessage rnd (Some h) out = Ok (h', out', c1, c2, e) -> is_Some h';
  session_read_nil m : ReadMessage None m = Err NilDeref;
  session_set_nonce c n : exists c', SetNonce (Some c) n = Ok (Some c');
  session_nonce c : exists n, Nonce (Some c) = Ok n;
  session_encrypt c out pt : exists c' out' e, Encrypt (Some c) out pt = Ok (Some c', out', e);
  session_decrypt c out ct : exists c' out' e, Decrypt (Some c) out ct = Ok (Some c', out', e);
  session_responder k h m h1 s1 d1 d2 rnd out h2 out' c1 c2 :
    NewHandshakeState false k None = Ok h -> ReadMessage (Some h) m = Ok (h1, s1, d1, d2, None) ->
    WriteMessage rnd h1 out = Ok (h2, out', c1, c2, None) -> is_Some c1 /\ is_Some c2;
  session_initiator h m h1 s1 c1 c2 :
    initiated h -> ReadMessage (Some h) m = Ok (h1, s1, c1, c2, None) -> is_Some c1 /\ is_Some c2
}.
End Session.

#[export] Instance toy_noise_session : NoiseSession (H := toy_noise).
Proof.
  split; cbn.
  - intros rnd [[] self remote k] out h' out' c1 c2 e; cbn; intros [= <- _ _ _ _]; by eexists.
  - done.
  - intros c n. by eexists.
  - intros c. by eexists.
  - intros c out pt. by eexists _, _, _.
  - intros c out ct. destruct (toy_open c ct); by eexists _, _, _.
  - intros k h m h1 s1 d1 d2 rnd out h2 out' c1 c2 [= <-]. cbn.
    destruct m as [|s [|r [|k' m]]]; try done. case_bool_decide; [|done].
    intros [= <- <- <- <-]. cbn. intros [= <- <- <- <-]. split; by eexists.
  - intros h m h1 s1 c1 c2 (k & rs & h0 & rnd & out & out' & d1 & d2 & Hn & Hw).
    destruct rs as [|r [|]]; try done. injection Hn as <-. injection Hw as <- _ _ _. cbn.
    destruct m as [|s [|r' [|k' m]]]; try done. case_bool_decide; [|done].
    intros [= <- <- <- <-]. split; by eexists.
Qed.
