(* ===== verification/NodeCore.v ===== *)
(** The node: node/node.go (packet dispatch, start and stop), node/packets.go,
    node/grpcclient.go (the controller's updates), node/stun.go, node/service.go and the
    address and key helpers of node/helpers.go.

    Peers live in a heap and the node's two maps point to them, so a peer is the same object
    under its id and under its address. *)

From S2P Require Import Prelude Bytes Header GoStd GoTime Netip Base64 Types Auth Grpc GoSync Queue NodePeer.

(** ** What the node asks of the world

    Name resolution, IPv4 header parsing (golang.org/x/net) and STUN (github.com/pion) are
    not part of the repository. *)

Class NodeExt : Type := {
  (** [net.ResolveUDPAddr("udp4", s)] *)
  ResolveUDPAddr : string -> result string UDPAddr;
  (** [ipv4.ParseHeader(b)]: the destination. *)
  ipv4_ParseHeader_Dst : list Z -> result string (list Z);
  stun_IsMessage : list Z -> bool;
  (** [Decode], [XORMappedAddress.GetFrom] and its [String]. *)
  stun_mapped : list Z -> result string string;
  (** A binding request with a random transaction id. *)
  stun_request : Z -> list Z
}.

Inductive handle : Type := NilHandle | OpenHandle | ClosedHandle.
#[export] Instance handle_eq_dec : EqDecision handle.
Proof. solve_decision. Defined.

(** The node process. [stops]: the peers whose [go peer.Stop()] has been launched and has not
    started; [endpoint_reports]: the endpoint updates sent to the controller. *)
Record Node `{Noise} : Type := mkNode {
  conn : handle;
  tun : handle;
  n_ip : Prefix;
  hostname : string;
  heap : gmap Z Peer;
  next_ptr : Z;
  id_map : gmap Z Z;
  ip_map : gmap Addr Z;
  n_env : Env;
  n_running : bool;
  loggedIn : bool;
  ctx_done : bool;
  stops : list Z;
  endpoint_reports : list UpdateEndpointRequest
}.
#[export] Instance Node_rebuild `{Noise} : Rebuild Node := {| rebuild := fun n =>
  mkNode _ (conn n) (tun n) (n_ip n) (hostname n) (heap n) (next_ptr n) (id_map n) (ip_map n) (n_env n)
    (n_running n) (loggedIn n) (ctx_done n) (stops n) (endpoint_reports n) |}.

Section Node.
Context `{Noise, PoolChoice, NodeExt}.

(** A method of the peer at an address; a dangling address is a nil pointer. *)
Definition on_peer {A} (ptr : Z) (m : go PS A) : go Node A := fun n =>
  match heap n !! ptr with
  | None => Crash NilDeref n
  | Some p => zoom (fun n => mkPS _ p (n_env n))
                (fun s n => n <| heap ::= <[ptr := self s]> |> <| n_env := env s |>) m n
  end.
Definition on_env {A} (m : go Env A) : go Node A := zoom n_env (fun e n => n <| n_env := e |>) m.
Definition on_pools {A} (m : go Pools A) : go Node A :=
  on_env (zoom pools (fun q e => e <| pools := q |>) m).
Definition n_WriteToUDP (b : slice) (a : UDPAddr) : go Node unit :=
  on_env (modify (fun e => e <| net_out ::= (fun l => l ++ [(s_bytes b, a)]) |>)).

(** ** helpers.go *)

Definition CompareAddrPort (p1 p2 : AddrPort) : Z :=
  let c := AddrCompare (ap_addr p1) (ap_addr p2) in
  if bool_decide (c <> 0) then c else z_compare (ap_port p1) (ap_port p2).
Definition DecodeBase64Key (key : string) : result string (list Z) :=
  match DecodeString key with Some bs => Ok bs | None => Err "illegal base64 data"%string end.
Definition ParseAddr (addr : string) : result string Addr :=
  match parse_addr addr with Some a => Ok a | None => Err "unable to parse IP"%string end.
Definition ParseAddrPort (ap : string) : result string AddrPort :=
  match parse_addr_port ap with Some a => Ok a | None => Err "invalid ip:port"%string end.

(** ** peer.go: AddPeer

    The new peer and its address, or the error; nothing is stored on an error. *)
Definition AddPeer (peerInfo : PeerMsg) : go Node (result string Z) :=
  let peer := NewPeer <| ID := m_Id peerInfo |> in
  match ParseAddr (m_Ip peerInfo) with
  | Err e => mret (Err e)
  | Ok a =>
      let peer := peer <| IP := a |> in
      match DecodeBase64Key (m_PublicKey peerInfo) with
      | Err e => mret (Err e)
      | Ok key =>
          let peer := peer <| pubkey := key |> <| Hostname := m_Hostname peerInfo |> in
          match ResolveUDPAddr (m_Endpoint peerInfo) with
          | Err e => mret (Err e)
          | Ok ua =>
              let peer := peer <| raddr := Some ua |> in
              ptr ← reads next_ptr;
              _ ← modify (fun n => n <| heap ::= <[ptr := peer]> |> <| next_ptr := ptr + 1 |>);
              _ ← modify (fun n => n <| id_map ::= <[ID peer := ptr]> |>);
              _ ← modify (fun n => n <| ip_map ::= <[IP peer := ptr]> |>);
              mret (Ok ptr)
          end
      end
  end.

(** ** node.go: dispatch *)

Definition lookupPeer (id : Z) : go Node (option Z) :=
  m ← reads id_map;
  match m !! id with
  | None => mret None
  | Some ptr =>
      h ← reads heap;
      match h !! ptr with None => panic (PanicWith "Peer is nil") | Some _ => mret (Some ptr) end
  end.

(** *** stun.go *)

Definition decodeStunMessage (message : list Z) : result string string := stun_mapped message.

Definition report_endpoint (id endpoint : string) : go Node unit :=
  modify (fun n => n <| endpoint_reports ::= (fun l => l ++ [mkUER id endpoint]) |>).

Definition handleStunMessage (message : list Z) : go Node unit :=
  match decodeStunMessage message with
  | Err _ => mret tt
  | Ok natAddr =>
      e ← reads n_env;
      if bool_decide (discoveredEndpoint e <> natAddr) then
        _ ← on_env (modify (fun e => e <| discoveredEndpoint := natAddr |>));
        report_endpoint (machineID e) natAddr
      else mret tt
  end.

(** The error of the write is assigned and dropped. *)
Definition sendStunRequest : go Node (option string) :=
  e ← reads n_env;
  _ ← on_env (modify (fun e => e <| entropy ::= Z.succ |>));
  match ResolveUDPAddr "stun.l.google.com:19302" with
  | Err e => mret (Some e)
  | Ok addr => _ ← n_WriteToUDP (of_bytes (stun_request (entropy e))) addr; mret None
  end.

(** *** The two packet callbacks *)

Definition OnUDPPacket (buffer : InboundBuffer) : go Node unit :=
  let '(h, err) := Parse (Some (ib_header buffer)) (ib_in buffer) in
  let buffer := buffer <| ib_header := default (ib_header buffer) h |> in
  match err with
  | Some _ =>
      _ ← when (stun_IsMessage (s_bytes (ib_in buffer))) (handleStunMessage (s_bytes (ib_in buffer)));
      on_pools (PutInboundBuffer (Some buffer))
  | None =>
      let sender := SenderIndex (ib_header buffer) in
      let t := MsgType (ib_header buffer) in
      if bool_decide (t = MsgHandshake) then
        peer ← lookupPeer sender;
        match peer with
        | None => on_pools (PutInboundBuffer (Some buffer))
        | Some ptr =>
            let buffer := buffer <| ib_peer := Some ptr |> in
            on_peer ptr (r ← pget running; when r (send_handshakes (Some buffer)))
        end
      else if bool_decide (t = MsgData) then
        peer ← lookupPeer sender;
        match peer with
        | None => on_pools (PutInboundBuffer (Some buffer))
        | Some ptr => on_peer ptr (InboundPacket (buffer <| ib_peer := Some ptr |>))
        end
      else on_pools (PutInboundBuffer (Some buffer))
  end.

(** [net.IP.To4] *)
Definition To4 (ip : list Z) : list Z :=
  if bool_decide (length ip = 4%nat) then ip
  else if bool_decide (length ip = 16%nat /\ take 12 ip = v4InV6Prefix) then drop 12 ip
  else [].

Definition OnTunnelPacket (buffer : OutboundBuffer) : go Node unit :=
  match ipv4_ParseHeader_Dst (s_bytes (ob_packet buffer)) with
  | Err _ => on_pools (PutOutboundBuffer (Some buffer))
  | Ok dst_ip =>
      p ← reads n_ip;
      if IP_Equal dst_ip (AsSlice (p_addr p)) then on_pools (PutOutboundBuffer (Some buffer))
      else
        let dst := AddrFromSlice (To4 dst_ip) in
        if negb (Contains (Masked p) dst) then on_pools (PutOutboundBuffer (Some buffer))
        else
          m ← reads ip_map;
          match m !! dst with
          | None => on_pools (PutOutboundBuffer (Some buffer))
          | Some ptr => on_peer ptr (OutboundPacket buffer)
          end
  end.

(** *** packets.go

    One turn of each reader with what the read returns: the data, or an error ([true]: the
    descriptor is closed). The result says whether the reader goes on. *)

Definition read_into (b : slice) (data : list Z) : slice * Z :=
  let d := take (s_len b) data in
  (Slice (put_at 0 d (s_arr b)) (s_len b), Z.of_nat (length d)).

Definition ReadUDPPackets (read : result bool (list Z * UDPAddr)) : go Node bool :=
  buffer ← on_pools GetInboundBuffer;
  match read with
  | Err closed => _ ← on_pools (PutInboundBuffer (Some buffer)); mret (negb closed)
  | Ok (data, from) =>
      let '(b, n) := read_into (ib_in buffer) data in
      let buffer := buffer <| ib_in := b |> in
      let buffer := buffer <| ib_size := n |> in
      let buffer := buffer <| ib_raddr := Some from |> in
      _ ← OnUDPPacket buffer;
      mret true
  end.

Definition ReadTunPackets (read : result bool (list Z)) : go Node bool :=
  buffer ← on_pools GetOutboundBuffer;
  match read with
  | Err closed => _ ← on_pools (PutOutboundBuffer (Some buffer)); mret (negb closed)
  | Ok data =>
      let '(b, n) := read_into (ob_packet buffer) data in
      let buffer := buffer <| ob_packet := b |> in
      let buffer := buffer <| ob_size := n |> in
      _ ← OnTunnelPacket buffer;
      mret true
  end.
End Node.

(** ** grpcclient.go *)

Section Updates.
Context `{Noise, PoolChoice, NodeExt}.

(** [UDPAddr.AddrPort], which a nil receiver has too. *)
Definition udp_AddrPort (a : option UDPAddr) : AddrPort :=
  match a with
  | None => mkAddrPort AddrZero 0
  | Some a => mkAddrPort (AddrFromSlice (u_ip a)) (u_port a)
  end.

(** [peer.Update], in the order the fields are treated. *)
Definition Update_endpoint (current new : AddrPort) : go PS unit :=
  if bool_decide (CompareAddrPort current new <> 0) then
    _ ← with_mu Lock;
    _ ← (match ResolveUDPAddr (addr_port_string new) with
         | Err _ => mret tt
         | Ok newRemote => pmod (fun p => p <| raddr := Some newRemote |>)
         end);
    with_mu Unlock
  else mret tt.
Definition Update_hostname (current new : string) : go PS unit :=
  if bool_decide (current <> new) then
    _ ← with_mu Lock;
    _ ← pmod (fun p => p <| Hostname := new |>);
    with_mu Unlock
  else mret tt.
Definition Update_key (current : list Z) (new : string) : go PS unit :=
  match DecodeBase64Key new with
  | Err _ => mret tt
  | Ok newKey =>
      if bool_decide (current <> newKey) then
        _ ← Peer_Stop;
        _ ← with_mu Lock;
        _ ← pmod (fun p => p <| pubkey := newKey |>);
        _ ← with_mu Unlock;
        err ← Peer_Start;
        match err with Some e => panic (PanicWith e) | None => mret tt end
      else mret tt
  end.
(** An address that does not parse is the zero address. *)
Definition Update_ip (current : Addr) (new : string) : go PS unit :=
  let newIP := match ParseAddr new with Ok a => a | Err _ => AddrZero end in
  if bool_decide (AddrCompare current newIP <> 0) then
    _ ← with_mu Lock;
    _ ← pmod (fun p => p <| IP := newIP |>);
    with_mu Unlock
  else mret tt.

Definition Update (info : PeerMsg) : go PS (option string) :=
  _ ← with_mu RLock;
  p ← reads self;
  _ ← with_mu RUnlock;
  match ParseAddrPort (m_Endpoint info) with
  | Err e => mret (Some e)
  | Ok newEndpoint =>
      _ ← Update_endpoint (udp_AddrPort (raddr p)) newEndpoint;
      _ ← Update_hostname (Hostname p) (m_Hostname info);
      _ ← Update_key (pubkey p) (m_PublicKey info);
      _ ← Update_ip (IP p) (m_Ip info);
      mret None
  end.

(** A peer list's field access through a nil pointer is a panic. *)
Definition peer_list (u : UpdateResponse) : go Node PeerList :=
  match UPeerList u with Some l => mret l | None => panic NilDeref end.

Fixpoint sync_peers (l : list PeerMsg) : go Node unit :=
  match l with
  | [] => mret tt
  | peer :: l' =>
      r ← AddPeer peer;
      match r with
      | Err e => panic (PanicWith e)
      | Ok p =>
          err ← on_peer p Peer_Start;
          match err with
          | Some e => panic (PanicWith e)
          | None => sync_peers l'
          end
      end
  end.
Definition handleInitialSync (update : UpdateResponse) : go Node unit :=
  l ← peer_list update; sync_peers (Peers l).

Definition handlePeerConnectUpdate (update : UpdateResponse) : go Node unit :=
  l ← peer_list update;
  if bool_decide (Count l < 1) then mret tt
  else if bool_decide (UType update <> CONNECT) then mret tt
  else
    match Peers l with
    | [] => panic IndexOutOfRange
    | rp :: _ =>
        m ← reads id_map;
        match m !! m_Id rp with
        | None =>
            r ← AddPeer rp;
            match r with
            | Err _ => mret tt
            | Ok p =>
                err ← on_peer p Peer_Start;
                match err with Some e => panic (PanicWith e) | None => mret tt end
            end
        | Some p =>
            err ← on_peer p (Update rp);
            match err with Some e => panic (PanicWith e) | None => mret tt end
        end
    end.

Definition handlePeerPunchRequest (update : UpdateResponse) : go Node unit :=
  match ResolveUDPAddr (PunchEndpoint update) with
  | Err _ => mret tt
  | Ok ua =>
      e ← reads n_env;
      let punch := match Encode (Some NewHeader) (make_slice 16) MsgPunch (node_id e) 0 with
                   | (_, Ok b) => b | (_, Err _) => nil_slice end in
      n_WriteToUDP punch ua
  end.

(** node.go *)
(** [go peer.Stop()] for every peer. *)
Definition StopAllPeers : go Node unit :=
  modify (fun n => n <| stops ::= (fun l => l ++ (map_to_list (id_map n)).*2) |>).

Definition Node_Stop : go Node (option string) :=
  n ← reads (fun n => n);
  if bool_decide (conn n = NilHandle) || bool_decide (tun n = NilHandle) then
    mret (Some "node connections have not been initialized, so not running"%string)
  else if negb (n_running n) then mret (Some "node is already stopped"%string)
  else
    _ ← StopAllPeers;
    _ ← modify (fun n => n <| ctx_done := true |>);
    _ ← modify (fun n => n <| conn := ClosedHandle |>);
    _ ← modify (fun n => n <| tun := ClosedHandle |>);
    _ ← modify (fun n => n <| n_running := false |>);
    mret None.

Definition handleLogout : go Node unit :=
  _ ← Node_Stop;
  modify (fun n => n <| loggedIn := false |>).

(** The type of an update is one of the five; another number in the message reaches the
    default case, which only logs. *)
Definition HandleUpdate (update : UpdateResponse) : go Node unit :=
  match UType update with
  | INIT => handleInitialSync update
  | CONNECT => handlePeerConnectUpdate update
  | DISCONNECT => mret tt
  | PUNCH => handlePeerPunchRequest update
  | LOGOUT => handleLogout
  end.

(** [log.Fatal] ends the process. *)
Definition fatal {A} (msg : string) : go Node A := panic (PanicWith msg).

(** The stream's first message, or the error of opening it or receiving. *)
Definition StartUpdateStream (first : result string UpdateResponse) : go Node unit :=
  match first with
  | Err e => fatal e
  | Ok response => HandleUpdate response
  end.

(** One turn of the stream's goroutine: the context, then what [Recv] returns. The result says
    whether it goes on. *)
Inductive Received : Type := RecvUpdate (u : UpdateResponse) | RecvEOF | RecvError (e : string).
Definition UpdateStream_turn (r : Received) : go Node bool :=
  d ← reads ctx_done;
  if (d : bool) then mret false
  else match r with RecvUpdate u => _ ← HandleUpdate u; mret true | RecvEOF | RecvError _ => mret false end.

(** One turn of the ticker's goroutine, a minute after the last: the error of the request is
    logged. *)
Definition stunRoutine_turn : go Node bool :=
  d ← reads ctx_done;
  if (d : bool) then mret false else _ ← sendStunRequest; mret true.

(** What the system calls of a start return. *)
Record StartIO : Type := mkStartIO {
  io_conn : option string;
  io_tun : option string;
  io_configure : option string;
  io_first : result string UpdateResponse
}.

(** The goroutines it starts are the readers ([ReadUDPPackets], [ReadTunPackets]) and the
    ticker that calls [sendStunRequest]. *)
Definition Run (io : StartIO) : go Node (option string) :=
  n ← reads (fun n => n);
  if bool_decide (conn n = NilHandle) || bool_decide (tun n = NilHandle) then
    mret (Some "node connections have not been initialized"%string)
  else
    match io_configure io with
    | Some e => mret (Some e)
    | None =>
        err ← sendStunRequest;
        match err with
        | Some e => mret (Some ("error sending stun request: " +:+ e)%string)
        | None =>
            _ ← StartUpdateStream (io_first io);
            _ ← modify (fun n => n <| n_running := true |>);
            mret None
        end
    end.

Definition Node_Start (io : StartIO) : go Node (option string) :=
  n ← reads (fun n => n);
  if negb (loggedIn n) then mret (Some "node has not been logged in"%string)
  else if n_running n then mret (Some "node is already running"%string)
  else
    match io_conn io with
    | Some e => _ ← modify (fun n => n <| conn := NilHandle |>); mret (Some e)
    | None =>
        _ ← modify (fun n => n <| conn := OpenHandle |>);
        match io_tun io with
        | Some e =>
            _ ← modify (fun n => n <| tun := NilHandle |>);
            _ ← modify (fun n => n <| conn := ClosedHandle |>);
            mret (Some e)
        | None =>
            _ ← modify (fun n => n <| tun := OpenHandle |>);
            _ ← modify (fun n => n <| ctx_done := false |>);
            err ← Run io;
            match err with
            | Some e =>
                _ ← modify (fun n => n <| conn := ClosedHandle |>);
                _ ← modify (fun n => n <| tun := ClosedHandle |>);
                _ ← modify (fun n => n <| ctx_done := true |>);
                mret (Some e)
            | None => mret None
            end
        end
    end.
End Updates.

(** ** service.go *)

Record NodeLoginResponse : Type := mkNodeLoginResponse {
  r_Status : string; r_ClientId : string; r_AuthEndpoint : string; r_TokenEndpoint : string;
  r_RedirectUri : string; r_Audience : string
}.

(** What the controller's [LoginPeer] call returns: a response (whose config is a pointer), or
    an error that is a gRPC status or not; and what [GetPKCEAuthInfo] returns. *)
Inductive LoginReply : Type :=
| ReplyOk (config : option PeerConfig)
| ReplyStatus (code : Code) (msg : string)
| ReplyError (msg : string).

Section Service.
Context `{Noise, PoolChoice, NodeExt}.

Definition Up (io : StartIO) : go Node (result string string) :=
  err ← Node_Start io;
  match err with Some e => mret (Err e) | None => mret (Ok "node is running"%string) end.
Definition Down : go Node (result string string) :=
  err ← Node_Stop;
  match err with Some e => mret (Err e) | None => mret (Ok "node is stopped"%string) end.

Definition login_request (n : Node) (token : string) : LoginPeerRequest :=
  mkLoginPeerRequest (machineID (n_env n)) (EncodeToString (Public (keyPair (n_env n)))) (hostname n)
    (discoveredEndpoint (n_env n)) token.

(** What follows the call when its error does not end it. A response that came with an error
    is nil, and so is a config the message does not have: both are dereferenced. *)
Definition Login_finish (config : option PeerConfig) : go Node (result string NodeLoginResponse) :=
  match config with
  | None => panic NilDeref
  | Some c =>
      _ ← on_env (modify (fun e => e <| node_id := c_PeerId c |>));
      match strings_Split (c_Prefix c) "/" with
      | _ :: bits :: _ =>
          match parse_prefix (c_TunnelIp c +:+ "/" +:+ bits) with
          | None => panic (PanicWith "netip.ParsePrefix")
          | Some p =>
              _ ← modify (fun n => n <| n_ip := p |>);
              _ ← modify (fun n => n <| loggedIn := true |>);
              mret (Ok (mkNodeLoginResponse "login successful" "" "" "" "" ""))
          end
      | _ => panic IndexOutOfRange
      end
  end.

Definition Login (reply : LoginReply)
    (pkce : result string PKCEInfo) : go Node (result string NodeLoginResponse) :=
  match reply with
  | ReplyError e => mret (Err e)
  | ReplyStatus Unauthenticated _ =>
      match pkce with
      | Err _ => mret (Err "error getting pkce info for auth flow"%string)
      | Ok info =>
          mret (Ok (mkNodeLoginResponse "need access token" (PClientId info) (PAuthEndpoint info)
                      (PTokenEndpoint info) (PRedirectUri info) (PAudience info)))
      end
  | ReplyStatus _ _ => Login_finish None
  | ReplyOk config => Login_finish config
  end.
End Service.

(** ** Lemmas on the readers *)

Lemma read_into_clean data :
  read_into (make_slice BufferSize) data =
    (Slice (take BufferSize data ++ replicate (BufferSize - length data) 0) BufferSize,
     Z.of_nat (min BufferSize (length data))).
Proof.
  unfold read_into, put_at, make_slice. cbn [s_len s_arr]. rewrite take_0. cbn [app].
  rewrite length_take. f_equal. f_equal. f_equal. rewrite Nat.add_0_l, drop_replicate. f_equal. lia.
Qed.

Lemma read_into_full data : full (read_into (make_slice BufferSize) data).1.
Proof.
  rewrite read_into_clean. split; [done|]. cbn [fst s_arr].
  rewrite length_app, length_take, length_replicate. lia.
Qed.

(** In a zeroed buffer the last padding byte of a datagram that is too short is zero. *)
Lemma short_padding data :
  (length data < 16)%nat ->
  Padding (header_of (s_bytes (read_into (make_slice BufferSize) data).1)) <> HeaderPadding.
Proof.
  intros Hlen. rewrite read_into_clean. cbn [fst Padding header_of]. unfold s_bytes. cbn [s_len s_arr].
  rewrite take_ge with (l := data) by (unfold BufferSize; lia).
  rewrite take_ge by (rewrite length_app, length_replicate; unfold BufferSize; lia).
  unfold bytes_at. assert (Hz : exists x, take 2 (drop 14 (data ++ replicate (BufferSize - length data) 0)) = [x; 0]).
  { destruct (decide (length data = 15)%nat) as [E|].
    - rewrite drop_app_le by lia.
      destruct (drop 14 data) as [|x [|]] eqn:Ed; apply (f_equal length) in Ed as L;
        rewrite length_drop, E in L; cbn in L; try lia.
      exists x. rewrite E. done.
    - rewrite drop_app_ge by lia. rewrite drop_replicate, take_replicate.
      exists 0. replace (min _ _) with 2%nat; [done|]. unfold BufferSize. lia. }
  destruct Hz as [x ->]. unfold be_word, HeaderPadding. cbn [foldl].
  rewrite Z.shiftl_0_l, Z.lor_0_l, Z.lor_0_r, Z.shiftl_mul_pow2 by lia. lia.
Qed.

(** A datagram whose header parses is at least as long as a header. *)
Lemma parsed_size h g data :
  Parse (Some g) (read_into (make_slice BufferSize) data).1 = (Some h, None) ->
  h = header_of (s_bytes (read_into (make_slice BufferSize) data).1) /\
  HeaderLen <= (read_into (make_slice BufferSize) data).2 <= Z.of_nat BufferSize.
Proof.
  intros HP. destruct (read_into_full data) as [Hl Ha].
  apply Parse_accepts in HP as (_ & -> & _ & Hp); [|unfold slice_ok; lia].
  split; [done|]. destruct (decide (length data < 16)%nat) as [Hs|Hs].
  - by apply short_padding in Hs.
  - rewrite read_into_clean. cbn [snd]. unfold HeaderLen, BufferSize. lia.
Qed.

(** A received packet as the peer's goroutines rely on it. *)
Definition pkt_ok (b : InboundBuffer) : Prop :=
  ib_ok b /\ HeaderLen <= ib_size b <= Z.of_nat BufferSize /\ is_Some (ib_raddr b) /\
  ib_header b = header_of (s_bytes (ib_in b)) /\ Version (ib_header b) = HeaderVersion /\
  Padding (ib_header b) = HeaderPadding.
Definition queue_ok (q : list (option InboundBuffer)) : Prop := Forall (from_option pkt_ok True) q.
Definition routine_ok (g : routine InboundBuffer) : Prop :=
  match g with Busy b => pkt_ok b | _ => True end.

Section CoreLemmas.
Context `{Noise, PoolChoice, NodeExt}.

Definition peer_pkts_ok (p : Peer) : Prop :=
  queue_ok (inbound p) /\ queue_ok (handshakes p) /\ routine_ok (g_inbound p) /\ routine_ok (g_handshake p).
Definition node_pkts_ok (n : Node) : Prop :=
  map_Forall (fun _ p => peer_pkts_ok p) (heap n) /\ pools_clean (pools (n_env n)).
(** The maps hold no dangling pointer. *)
Definition maps_ok (n : Node) : Prop :=
  (forall id ptr, id_map n !! id = Some ptr -> is_Some (heap n !! ptr)) /\
  (forall ip ptr, ip_map n !! ip = Some ptr -> is_Some (heap n !! ptr)).

(** The outcome of a reader's turn: it finishes or waits for room in a channel, and keeps [I]. *)
Definition turn_ok {A} (I : Node -> Prop) (o : outcome Node A) : Prop :=
  match o with Done _ n => I n | Blocked w n => w = WaitChan /\ I n | Crash _ _ => False end.

Lemma on_pools_done {A} (m : go Pools A) n a q :
  m (pools (n_env n)) = Done a q ->
  on_pools m n = Done a (n <| n_env := (n_env n) <| pools := q |> |>).
Proof. intros E. unfold on_pools, on_env. by erewrite zoom_done; [|by apply zoom_done]. Qed.

Lemma put_inbound_ok b n :
  ib_ok b -> node_pkts_ok n -> turn_ok node_pkts_ok (on_pools (PutInboundBuffer (Some b)) n).
Proof.
  intros Hb [Hh Hp]. destruct (PutInboundBuffer_clean b _ Hb Hp) as (q & E & Hq & _).
  rewrite (on_pools_done _ _ _ _ E). by split.
Qed.

Lemma lookupPeer_eq id n :
  maps_ok n -> lookupPeer id n = Done (id_map n !! id) n.
Proof.
  intros [Hm _]. unfold lookupPeer. rewrite (bind_done _ _ _ (id_map n) n) by done.
  destruct (id_map n !! id) as [ptr|] eqn:E; [|done].
  rewrite (bind_done _ _ _ (heap n) n) by done. by destruct (Hm _ _ E) as [p ->].
Qed.
End CoreLemmas.

Section CoreInvariant.
Context `{Noise, PoolChoice, NodeExt}.

Lemma handle_stun_keeps (b : bool) bs n :
  node_pkts_ok n ->
  exists n', when b (handleStunMessage bs) n = Done tt n' /\ node_pkts_ok n'.
Proof.
  intros Hn. destruct b; cbn [when]; [|by exists n].
  unfold handleStunMessage. destruct (decodeStunMessage bs); [|by exists n].
  rewrite (bind_done _ _ _ (n_env n) n) by done. case_bool_decide; [|by exists n].
  eexists. split; [reflexivity|]. exact Hn.
Qed.

(** Delivering a packet into a channel of a peer keeps the invariant. *)
Lemma on_peer_keeps ptr (m : go PS unit) n :
  (forall p e, peer_pkts_ok p -> pools_clean (pools e) ->
     match m (mkPS _ p e) with
     | Done _ s => peer_pkts_ok (self s) /\ pools_clean (pools (env s))
     | Blocked w s => w = WaitChan /\ peer_pkts_ok (self s) /\ pools_clean (pools (env s))
     | Crash _ _ => False
     end) ->
  node_pkts_ok n -> is_Some (heap n !! ptr) -> turn_ok node_pkts_ok (on_peer ptr m n).
Proof.
  intros Hm [Hh Hp] [p Hptr]. unfold on_peer. rewrite Hptr. unfold zoom.
  specialize (Hm p (n_env n) (Hh _ _ Hptr) Hp).
  destruct (m _) as [[] s|c s|v s]; [|done|].
  - destruct Hm as [Hs He]. split; [|done]. by apply map_Forall_insert_2.
  - destruct Hm as (-> & Hs & He). split; [done|]. split; [|done]. by apply map_Forall_insert_2.
Qed.

Lemma queue_ok_snoc q b : queue_ok q -> pkt_ok b -> queue_ok (q ++ [Some b]).
Proof. intros Hq Hb. apply Forall_app. split; [done|]. by apply Forall_singleton. Qed.

Lemma deliver_handshake b p e :
  pkt_ok b -> peer_pkts_ok p -> pools_clean (pools e) ->
  match (r ← pget running; when r (send_handshakes (Some b))) (mkPS _ p e) with
  | Done _ s => peer_pkts_ok (self s) /\ pools_clean (pools (env s))
  | Blocked w s => w = WaitChan /\ peer_pkts_ok (self s) /\ pools_clean (pools (env s))
  | Crash _ _ => False
  end.
Proof.
  intros Hb (Q1 & Q2 & Q3 & Q4) He. rewrite (bind_done _ _ _ (running p) (mkPS _ p e)) by done.
  destruct (running p); cbn [when]; [|done].
  unfold send_handshakes. rewrite (bind_done _ _ _ (handshakes p) (mkPS _ p e)) by done.
  case_bool_decide; cbn; [|done]. split; [|done].
  split_and!; try done. by apply queue_ok_snoc.
Qed.

Lemma deliver_inbound b p e :
  pkt_ok b -> peer_pkts_ok p -> pools_clean (pools e) ->
  match InboundPacket b (mkPS _ p e) with
  | Done _ s => peer_pkts_ok (self s) /\ pools_clean (pools (env s))
  | Blocked w s => w = WaitChan /\ peer_pkts_ok (self s) /\ pools_clean (pools (env s))
  | Crash _ _ => False
  end.
Proof.
  intros Hb (Q1 & Q2 & Q3 & Q4) He. unfold InboundPacket.
  rewrite (bind_done _ _ _ (running p) (mkPS _ p e)) by done.
  destruct (running p); cbn [negb].
  - rewrite (bind_done _ _ _ (inbound p) (mkPS _ p e)) by done.
    case_bool_decide; cbn; [|done]. split; [|done].
    split_and!; try done. by apply queue_ok_snoc.
  - destruct (PutInboundBuffer_clean b (pools e) (proj1 Hb) He) as (q & E & Hq & _).
    unfold with_pools. by rewrite (zoom_done _ _ _ (mkPS _ p e) tt q E).
Qed.

Lemma OnUDPPacket_turn b n :
  ib_ok b -> node_pkts_ok n -> maps_ok n ->
  (forall h, Parse (Some (ib_header b)) (ib_in b) = (Some h, None) -> pkt_ok (b <| ib_header := h |>)) ->
  turn_ok node_pkts_ok (OnUDPPacket b n).
Proof.
  intros Hb Hn Hmaps Hparse. unfold OnUDPPacket.
  destruct (Parse _ _) as [h [e|]] eqn:HP.
  - destruct (handle_stun_keeps (stun_IsMessage (s_bytes (ib_in b))) (s_bytes (ib_in b)) n Hn) as (n' & E & Hn').
    rewrite (bind_done _ _ _ _ _ E). by apply put_inbound_ok.
  - assert (exists g, h = Some g) as [g ->].
    { unfold Parse in HP. repeat case_match; simplify_eq; eauto. }
    specialize (Hparse g eq_refl). cbn [default from_option].
    assert (Hput : turn_ok node_pkts_ok (on_pools (PutInboundBuffer (Some (b <| ib_header := g |>))) n))
      by (apply put_inbound_ok; done).
    case_bool_decide; [|case_bool_decide; [|done]];
      (rewrite (bind_done _ _ _ _ _ (lookupPeer_eq _ _ Hmaps));
       destruct (id_map n !! _) as [ptr|] eqn:Hid; [|done];
       apply on_peer_keeps; [|done|by eapply (proj1 Hmaps)]; intros p e Hp He).
    + by apply deliver_handshake.
    + by apply deliver_inbound.
Qed.
End CoreInvariant.

Section CoreTheorems.
Context `{Noise, PoolChoice, NodeExt}.

(** The UDP reader's turn hands the dispatcher a buffer whose parsed packet is well-formed. That
    a datagram shorter than a header never gets through rests on the pools handing out zeroed
    buffers. *)
Lemma ReadUDPPackets_buffer (n : Node) data from :
  pools_clean (pools (n_env n)) ->
  exists b q, pools_clean q /\ ib_ok b /\
    (forall h, Parse (Some (ib_header b)) (ib_in b) = (Some h, None) -> pkt_ok (b <| ib_header := h |>)) /\
    ReadUDPPackets (Ok (data, from)) n =
      (_ ← OnUDPPacket b; mret true) (n <| n_env := (n_env n) <| pools := q |> |>).
Proof.
  intros Hp. destruct (GetInboundBuffer_clean _ Hp) as (b & q & E & (Hin & _) & Hq & _).
  unfold ReadUDPPackets. rewrite (bind_done _ _ _ _ _ (on_pools_done _ _ _ _ E)). rewrite Hin.
  pose proof (read_into_full data) as Hfull. pose proof parsed_size as Hsize.
  destruct (read_into (make_slice BufferSize) data) as [bin sz] eqn:ER.
  eexists _, q. split; [done|]. split; [|split; [|reflexivity]]; [exact Hfull|].
  intros h HP. cbn [ib_in ib_header field_upd] in HP.
  pose proof (Hsize h (ib_header b) data) as HS. rewrite ER in HS. destruct (HS HP) as [-> Hsz].
  apply Parse_accepts in HP as (_ & _ & Hv & Hpad); [|destruct Hfull; unfold slice_ok; cbn in *; lia].
  split_and!; cbn; try done; try apply Hsz; eauto.
Qed.

(** The tunnel reader's turn hands on a well-formed buffer. *)
Lemma ReadTunPackets_buffer (n : Node) data :
  pools_clean (pools (n_env n)) ->
  exists b q, pools_clean q /\ ob_ok b /\ 0 <= ob_size b <= Z.of_nat BufferSize /\
    ReadTunPackets (Ok data) n =
      (_ ← OnTunnelPacket b; mret true) (n <| n_env := (n_env n) <| pools := q |> |>).
Proof.
  intros Hp. destruct (GetOutboundBuffer_clean _ Hp) as (b & q & E & (Ho & Hpk & _) & Hq & _).
  unfold ReadTunPackets. rewrite (bind_done _ _ _ _ _ (on_pools_done _ _ _ _ E)). rewrite Hpk.
  pose proof (read_into_full data) as Hfull.
  assert (Hsz : 0 <= (read_into (make_slice BufferSize) data).2 <= Z.of_nat BufferSize)
    by (rewrite read_into_clean; cbn [snd]; lia).
  destruct (read_into (make_slice BufferSize) data) as [bin sz].
  eexists _, q. split; [done|]. split; [|split; [|reflexivity]]; [|exact Hsz].
  split; cbn; [rewrite Ho; apply make_slice_full|exact Hfull].
Qed.

(** What a datagram from the network can do to the dispatcher: whatever bytes arrive, the
    turn of the UDP reader does not crash - it finishes, or waits for room in a peer's
    handshake channel - and every packet that waits in a channel or in a goroutine's hands
    carries the header that is spelt in its bytes, a sender address and at least the sixteen
    bytes of a header, so that slicing the payload off is in bounds. *)
Theorem udp_packets_ok (n : Node) read (Hn : node_pkts_ok n) (Hmaps : maps_ok n) :
  turn_ok node_pkts_ok (ReadUDPPackets read n) /\
  forall b, pkt_ok b -> exists s, reslice (ib_in b) HeaderLen (ib_size b) = Some s.
Proof.
  split.
  - destruct Hn as [Hh Hp]. destruct read as [[data from]|closed].
    + destruct (ReadUDPPackets_buffer n data from Hp) as (b & q & Hq & Hb & Hparse & ->).
      set (n1 := n <| n_env := _ |>). assert (Hn1 : node_pkts_ok n1) by (split; done).
      pose proof (OnUDPPacket_turn b n1 Hb Hn1 Hmaps Hparse) as HT.
      unfold turn_ok in *. unfold mbind, go_bind. by destruct (OnUDPPacket _ _).
    + unfold ReadUDPPackets. destruct (GetInboundBuffer_clean _ Hp) as (b & q & E & Hb & Hq & _).
      rewrite (bind_done _ _ _ _ _ (on_pools_done _ _ _ _ E)). set (n1 := n <| n_env := _ |>).
      pose proof (put_inbound_ok b n1 (ib_clean_ok _ Hb) ltac:(by split)) as HP.
      unfold turn_ok in *. unfold mbind at 1, go_bind at 1. by destruct (on_pools _ n1).
  - intros b ((Hl & Ha) & Hsz & _). unfold reslice, s_cap. rewrite Ha.
    eexists. rewrite decide_True; [reflexivity|]. unfold HeaderLen in *. lia.
Qed.
End CoreTheorems.
