(* ===== verification/Transport.v ===== *)
(** The peer's transport and handshake, proved against the laws of the Noise library: what one
    turn of each goroutine does, and that two nodes understand each other. *)

From S2P Require Import Prelude Bytes Header GoTime Netip GoSync Queue Grpc NodePeer NoiseLaws NodeCore.

(** Unfolds a program to its effect on a state given by its fields. *)
Ltac go_unfold :=
  unfold lib, when, slice_expr, pget, pmod, eget, emod, with_mu, with_pending, with_pools, Lock, Unlock,
    RLock, RUnlock, zoom, reads, modify, panic, block, mbind, go_bind, mret, go_ret.
Ltac go_eval := go_unfold; cbn.

Arguments header_bytes : simpl never.
Arguments header_of : simpl never.
Arguments be_bytes : simpl never.
Arguments PutInboundBuffer _ _ : simpl never.
Arguments PutOutboundBuffer _ _ : simpl never.
Arguments GetInboundBuffer {_} _ : simpl never.
Arguments GetOutboundBuffer {_} _ : simpl never.
Arguments encode_header : simpl never.

Section TransportLemmas.
Context `{NoiseLaws, PoolChoice}.
Implicit Types (p : Peer) (e : Env) (s : PS).

(** Nobody holds the peer's own lock, and readers may take [pendingLock]: the peer is in
    transport. *)
Definition ready p : Prop := mu p = unlocked /\ pendingLock p = unlocked.

Lemma encode_header_eq b t i c :
  ob_ok b ->
  let h := mkHeader HeaderVersion t i c HeaderPadding in
  exists b', encode_header b t i c
             = (b', Slice (header_bytes h ++ drop 16 (s_arr (ob_out b))) 16) /\
    ob_ok b' /\ ob_packet b' = ob_packet b /\ ob_size b' = ob_size b.
Proof.
  intros [[Hl Ha] Hp] h. unfold encode_header. rewrite Encode_ok by (unfold s_cap, HeaderLen; rewrite Ha; done).
  eexists. split; [reflexivity|]. split; [|done]. split; [|exact Hp]. split; [exact Hl|]. cbn.
  rewrite length_app, header_bytes_length, length_drop, Ha. done.
Qed.

Lemma header_slice h (arr : list Z) :
  slice_ok (Slice (header_bytes h ++ drop 16 arr) 16) /\
  s_bytes (Slice (header_bytes h ++ drop 16 arr) 16) = header_bytes h.
Proof.
  unfold slice_ok, s_bytes. cbn [s_len s_arr]. split.
  - rewrite length_app, header_bytes_length. lia.
  - rewrite take_app_le by (rewrite header_bytes_length; lia).
    apply take_ge. rewrite header_bytes_length. lia.
Qed.

(** One turn of the outbound goroutine in transport: the packet leaves as one datagram, the
    header with the nonce followed by the ciphertext. *)
Lemma Outbound_body_sends b p e c n a :
  ready p -> tx p = Some c -> raddr p = Some a -> ob_ok b ->
  0 <= ob_size b <= Z.of_nat BufferSize ->
  pools_clean (pools e) -> n = nonce_of c -> 0 <= n <= MaxNonce -> (exists r, paired c r) ->
  exists c' ct q,
    Outbound_body b (mkPS _ p e) =
      Done tt (mkPS _ (p <| tx := Some c' |> <| keepalive := Some TimerKeepalive |> <| g_outbound := Waiting |>)
                 (e <| net_out ::= (fun l => l ++ [(header_bytes (mkHeader HeaderVersion MsgData (node_id e) n HeaderPadding) ++ ct, a)]) |>
                    <| pools := q |>)) /\
    pools_clean q /\ nonce_of c' = n + 1 /\ length ct = (Z.to_nat (ob_size b) + 16)%nat /\
    forall r0 buf, paired c r0 -> slice_ok buf -> exists r1 r2 buf',
      SetNonce (Some r0) n = Ok (Some r1) /\ Decrypt (Some r1) buf ct = Ok (Some r2, buf', None) /\
      slice_ok buf' /\ s_bytes buf' = s_bytes buf ++ take (Z.to_nat (ob_size b)) (s_arr (ob_packet b)) /\
      paired c r2 /\ paired c' r2.
Proof.
  intros [Hmu Hpl] Htx Ha Hb Hsz Hq -> Hn [r Hr]. destruct p; cbn in *; subst.
  destruct (encode_header_eq b MsgData (node_id e) (nonce_of c) Hb) as (b' & HE & Hb' & Hpk & Hs').
  destruct (header_slice (mkHeader HeaderVersion MsgData (node_id e) (nonce_of c) HeaderPadding)
              (s_arr (ob_out b))) as [Hok Hbytes].
  set (out0 := Slice _ 16) in *.
  assert (Hre : reslice (ob_packet b) 0 (ob_size b) = Some (Slice (s_arr (ob_packet b)) (Z.to_nat (ob_size b)))).
  { unfold reslice, s_cap. rewrite (proj2 (proj2 Hb)). rewrite decide_True by lia.
    cbn. by rewrite drop_0, Z.sub_0_r. }
  destruct (encrypt_decrypt c r out0 (take (Z.to_nat (ob_size b)) (s_arr (ob_packet b))) Hr Hn Hok)
    as (c' & ct & out' & Henc & Hok' & Hout' & Hlen & Hn' & Hdec).
  destruct (PutOutboundBuffer_clean b' (pools e) Hb' Hq) as (q & Hput & Hq' & _).
  exists c', ct, q. split; [|split_and!; [done..| |exact Hdec]].
  - unfold Outbound_body. go_eval. rewrite nonce_some. rewrite HE. cbn. rewrite Hpk, Hs', Hre. cbn.
    rewrite Henc. cbn. destruct e; cbn in *. rewrite Hput. cbn.
    rewrite Hout', Hbytes. done.
  - rewrite Hlen, length_take, (proj2 (proj2 Hb)). lia.
Qed.

Lemma payload_slice b :
  ib_ok b -> HeaderLen <= ib_size b <= Z.of_nat BufferSize ->
  reslice (ib_in b) HeaderLen (ib_size b)
  = Some (Slice (drop 16 (s_arr (ib_in b))) (Z.to_nat (ib_size b - HeaderLen))).
Proof.
  intros [_ Ha] Hsz. unfold reslice, s_cap. rewrite Ha, decide_True; [done|]. unfold HeaderLen in *. lia.
Qed.
(** The payload of a received packet. *)
Definition payload b : list Z := take (Z.to_nat (ib_size b - HeaderLen)) (drop 16 (s_arr (ib_in b))).

(** The address a peer has after a packet from [a]. *)
Definition roam (old a : UDPAddr) : UDPAddr :=
  if IP_Equal (u_ip old) (u_ip a) && bool_decide (u_port old = u_port a) then old else a.

(** One turn of the inbound goroutine in transport with a packet that decrypts. *)
Lemma Inbound_body_delivers b p e r0 r1 r2 buf' pt old a :
  ready p -> rx p = Some r0 -> raddr p = Some old -> ib_ok b ->
  HeaderLen <= ib_size b <= Z.of_nat BufferSize -> ib_raddr b = Some a -> pools_clean (pools e) ->
  SetNonce (Some r0) (Counter (ib_header b)) = Ok (Some r1) ->
  Decrypt (Some r1) (Slice (s_arr (ib_packet b)) 0) (payload b) = Ok (Some r2, buf', None) ->
  slice_ok buf' -> s_bytes buf' = pt -> pt <> [] ->
  exists q, pools_clean q /\
    Inbound_body b (mkPS _ p e) =
      Done tt (mkPS _ (p <| rx := Some r2 |> <| receivedPacket := Some TimerRxTimeout |>
                         <| raddr := Some (roam old a) |> <| g_inbound := Waiting |>)
                 (e <| tun_out ::= (fun l => l ++ [pt]) |> <| pools := q |>)).
Proof.
  intros [Hmu Hpl] Hrx Hra Hb Hsz Hba Hq Hset Hdec Hok Hpt Hne. destruct p; cbn in *; subst.
  pose proof (payload_slice b Hb Hsz) as Hre.
  assert (Hlen : (0 < s_len buf')%nat) by (destruct (s_len buf') eqn:E; [|lia]; unfold s_bytes in Hne; by rewrite E in Hne).
  assert (Hb' : ib_ok (b <| ib_packet := buf' |>)) by exact Hb.
  destruct (PutInboundBuffer_clean _ (pools e) Hb' Hq) as (q & Hput & Hq' & _).
  exists q. split; [done|]. unfold Inbound_body. go_eval.
  rewrite Hset. cbn. change (reslice (ib_packet b) 0 0) with (if decide (0 <= 0 /\ 0 <= 0 /\ 0 <= s_cap (ib_packet b))
    then Some (Slice (drop (Z.to_nat 0) (s_arr (ib_packet b))) (Z.to_nat (0 - 0))) else None).
  rewrite decide_True by (unfold s_cap; lia). cbn. rewrite drop_0, Hre. cbn.
  unfold payload in Hdec. change (Z.to_nat (0 - 0)) with O. rewrite Hdec. cbn. unfold UpdateEndpoint. rewrite bool_decide_true by done. go_eval.
  unfold roam, same_endpoint. rewrite Hba. destruct e; cbn in *. rewrite Hba in Hput.
  destruct (IP_Equal _ _ && bool_decide _) eqn:E; cbn; rewrite Hput; cbn; rewrite ?E; done.
Qed.

(** The initiation of a handshake: the message leaves, and the peer waits for the answer. *)
Lemma TrySendHandshake_first p e a i0 i1 m1 :
  mu p = unlocked -> raddr p = Some a -> u64 (handshakeRetries p) -> pools_clean (pools e) ->
  NewHandshakeState true (keyPair e) (Some (pubkey p)) = Ok i0 ->
  (forall out, slice_ok out -> s_bytes out = header_bytes (mkHeader HeaderVersion MsgHandshake (node_id e) 0 HeaderPadding) ->
     exists out', WriteMessage (entropy e) (Some i0) out = Ok (Some i1, out', None, None, None) /\
       s_bytes out' = s_bytes out ++ m1) ->
  exists q, pools_clean q /\
    TrySendHandshake false (mkPS _ p e) =
      Done tt (mkPS _ (p <| handshakeRetries ::= (fun n => add64 n 1) |> <| initiator := true |>
                         <| hs := Some i1 |> <| state := 1 |> <| handshakeSent := Some (Second * 3) |>)
                 (e <| net_out ::= (fun l => l ++
                         [(header_bytes (mkHeader HeaderVersion MsgHandshake (node_id e) 0 HeaderPadding) ++ m1, a)]) |>
                    <| pools := q |> <| entropy := entropy e + 1 |>)).
Proof.
  intros Hmu Ha Hretr Hq Hnew Hwrite. destruct p; cbn in *; subst.
  destruct (GetOutboundBuffer_clean (pools e) Hq) as (b & q & EG & Hb & Hq' & _).
  destruct (encode_header_eq b MsgHandshake (node_id e) 0 (ob_clean_ok _ Hb)) as (b' & HE & Hb' & _).
  destruct (header_slice (mkHeader HeaderVersion MsgHandshake (node_id e) 0 HeaderPadding) (s_arr (ob_out b)))
    as [Hok Hbytes].
  set (out0 := Slice _ 16) in *. destruct (Hwrite out0 Hok Hbytes) as (out' & HW & Hout).
  destruct (PutOutboundBuffer_clean b' q Hb' Hq') as (q2 & EP & Hq2 & _).
  exists q2. split; [done|]. unfold TrySendHandshake, TrySendHandshake_send, InitHandshake, CreateHandshake, handshakeP1, fresh_random.
  go_eval. rewrite Hnew. cbn. rewrite EG. cbn. rewrite HE. cbn. rewrite HW. cbn.
  destruct e; cbn in *. rewrite EP. cbn. by rewrite Hout, Hbytes.
Qed.

(** The responder's turn with an initiation that reads. *)
Lemma Handshake_body_responds b p e old a i0 i1 i2 sl1 m2 c1 c2 :
  state p = 0 -> initiator p = false -> mu p = unlocked -> pendingLock p = wlocked -> raddr p = Some old ->
  ib_ok b -> HeaderLen <= ib_size b <= Z.of_nat BufferSize -> Counter (ib_header b) = 0 ->
  ib_raddr b = Some a -> pools_clean (pools e) ->
  NewHandshakeState false (keyPair e) None = Ok i0 ->
  ReadMessage (Some i0) (payload b) = Ok (Some i1, sl1, None, None, None) ->
  (forall out, slice_ok out -> s_bytes out = header_bytes (mkHeader HeaderVersion MsgHandshake (node_id e) 1 HeaderPadding) ->
     exists out', WriteMessage (entropy e) (Some i1) out = Ok (Some i2, out', Some c1, Some c2, None) /\
       s_bytes out' = s_bytes out ++ m2) ->
  exists q, pools_clean q /\
    Handshake_body b (mkPS _ p e) =
      Done tt (mkPS _ (p <| initiator := false |> <| hs := Some i2 |> <| raddr := Some (roam old a) |>
                         <| rx := Some c1 |> <| tx := Some c2 |> <| state := 2 |> <| inTransport := true |>
                         <| pendingLock := unlocked |> <| handshakeRetries := 0 |> <| handshakeSent := None |>
                         <| keepalive := Some (TimerKeepalive + Second * 5) |> <| g_handshake := Waiting |>)
                 (e <| net_out ::= (fun l => l ++
                         [(header_bytes (mkHeader HeaderVersion MsgHandshake (node_id e) 1 HeaderPadding) ++ m2, roam old a)]) |>
                    <| pools := q |> <| entropy := entropy e + 1 |>)).
Proof.
  intros Hst Hini Hmu Hpl Hra Hb Hsz Hcnt Hba Hq Hnew Hread Hwrite. destruct p; cbn in *; subst.
  destruct (GetOutboundBuffer_clean (pools e) Hq) as (ob & q & EG & Hob & Hq' & _).
  destruct (encode_header_eq ob MsgHandshake (node_id e) 1 (ob_clean_ok _ Hob)) as (ob' & HE & Hob' & _).
  destruct (header_slice (mkHeader HeaderVersion MsgHandshake (node_id e) 1 HeaderPadding) (s_arr (ob_out ob)))
    as [Hok Hbytes].
  set (out0 := Slice _ 16) in *. destruct (Hwrite out0 Hok Hbytes) as (out' & HW & Hout).
  destruct (PutOutboundBuffer_clean ob' q Hob' Hq') as (q2 & EP & Hq2 & _).
  destruct (PutInboundBuffer_clean b q2 Hb Hq2) as (q3 & EP3 & Hq3 & _).
  pose proof (payload_slice b Hb Hsz) as Hre. unfold payload in Hread.
  exists q3. split; [done|]. unfold Handshake_body, handshakeP2_or_panic, handshakeP2, handshakeP2_respond,
    InitHandshake, CreateHandshake, fresh_random, UpdateEndpointLocked.
  go_eval. rewrite (bool_decide_true (0 = 0)) by done.
  rewrite Hcnt, (bool_decide_false (0 <> 0)) by lia. cbn. rewrite Hnew. cbn. rewrite Hre. cbn. rewrite Hread. cbn.
  unfold same_endpoint, roam. rewrite Hba. destruct e; cbn in *.
  destruct (IP_Equal _ _ && bool_decide _) eqn:Er; cbn; rewrite EG; cbn; rewrite HE; cbn; rewrite HW; cbn;
    rewrite EP; cbn; rewrite EP3; cbn; by rewrite Hout, Hbytes.
Qed.

(** The initiator's turn with a response that reads. *)
Lemma Handshake_body_completes b p e h i2 a sl2 c1 c2 :
  state p = 1 -> initiator p = true -> mu p = unlocked -> pendingLock p = wlocked -> hs p = Some h ->
  ib_ok b -> HeaderLen <= ib_size b <= Z.of_nat BufferSize -> Counter (ib_header b) = 1 ->
  ib_raddr b = Some a -> pools_clean (pools e) ->
  ReadMessage (Some h) (payload b) = Ok (Some i2, sl2, Some c1, Some c2, None) ->
  exists q, pools_clean q /\
    Handshake_body b (mkPS _ p e) =
      Done tt (mkPS _ (p <| hs := None |> <| tx := Some c1 |> <| rx := Some c2 |> <| raddr := Some a |>
                         <| state := 2 |> <| inTransport := true |> <| pendingLock := unlocked |>
                         <| handshakeSent := None |> <| handshakeRetries := 0 |>
                         <| keepalive := Some TimerKeepalive |> <| g_handshake := Waiting |>)
                 (e <| pools := q |>)).
Proof.
  intros Hst Hini Hmu Hpl Hhs Hb Hsz Hcnt Hba Hq Hread. destruct p; cbn in *; subst.
  destruct (PutInboundBuffer_clean b (pools e) Hb Hq) as (q3 & EP3 & Hq3 & _).
  pose proof (payload_slice b Hb Hsz) as Hre. unfold payload in Hread.
  exists q3. split; [done|]. unfold Handshake_body, handshakeP2_or_panic, handshakeP2, handshakeP2_complete.
  go_eval. rewrite (bool_decide_false (1 = 0)), (bool_decide_true (1 = 1)) by lia.
  rewrite Hcnt, (bool_decide_false (1 <> 1)) by lia. cbn. rewrite Hre. cbn. rewrite Hread. cbn. destruct e; cbn in *. rewrite EP3. cbn.
  by rewrite Hba.
Qed.
End TransportLemmas.

Section Delivery.
Context `{NoiseLaws, PoolChoice, NodeExt}.

Lemma on_peer_done {A} ptr (m : go PS A) (n : Node) p a s :
  heap n !! ptr = Some p -> m (mkPS _ p (n_env n)) = Done a s ->
  on_peer ptr m n = Done a (n <| heap ::= <[ptr := self s]> |> <| n_env := env s |>).
Proof. intros Hp E. unfold on_peer. rewrite Hp. unfold zoom. by rewrite E. Qed.

(** The datagram of a header and a body, as the reader finds it in its buffer. *)
Lemma datagram_buffer h ct :
  header_ok h -> Version h = HeaderVersion -> Padding h = HeaderPadding ->
  (length ct + 16 <= BufferSize)%nat ->
  exists bin, read_into (make_slice BufferSize) (header_bytes h ++ ct) = (bin, Z.of_nat (length ct) + 16) /\
    full bin /\ (forall g, Parse (Some g) bin = (Some h, None)) /\
    take (length ct) (drop 16 (s_arr bin)) = ct.
Proof.
  intros Hh Hv Hp Hlen. pose proof (header_bytes_length h) as L.
  pose proof (read_into_full (header_bytes h ++ ct)) as Hfull. rewrite read_into_clean in *.
  rewrite length_app, L in *. eexists. split; [f_equal; lia|]. split; [exact Hfull|].
  rewrite (take_ge (header_bytes h ++ ct)) in * by (rewrite length_app, L; lia).
  rewrite <- app_assoc in *. split.
  - intros g. apply Parse_accepts; [destruct Hfull; unfold slice_ok; cbn in *; lia|].
    unfold s_bytes. cbn [s_len s_arr]. rewrite take_ge by (rewrite !length_app, L, length_replicate; lia).
    rewrite header_of_header_bytes by done. split_and!; try done.
  - cbn [s_arr]. rewrite drop_app_ge by lia. rewrite L, drop_0.
    rewrite take_app_le by lia. by apply take_ge.
Qed.

(** A data packet from a known peer is queued for its goroutine. *)
Lemma udp_data_queued (n : Node) id c ct from ptr p :
  pools_clean (pools (n_env n)) -> maps_ok n -> u32 id -> u64 c -> (length ct + 16 <= BufferSize)%nat ->
  id_map n !! id = Some ptr -> heap n !! ptr = Some p -> running p = true ->
  (length (inbound p) < InboundChannelSize)%nat ->
  exists b q,
    ReadUDPPackets (Ok (header_bytes (mkHeader HeaderVersion MsgData id c HeaderPadding) ++ ct, from)) n =
      Done true (n <| heap ::= <[ptr := p <| inbound := inbound p ++ [Some b] |>]> |>
                   <| n_env := (n_env n) <| pools := q |> |>) /\
    pools_clean q /\ ib_ok b /\ Counter (ib_header b) = c /\ ib_size b = Z.of_nat (length ct) + 16 /\
    payload b = ct /\ ib_raddr b = Some from.
Proof.
  intros Hq Hmaps Hid Hc Hlen Hptr Hp Hrun Hroom.
  destruct (GetInboundBuffer_clean _ Hq) as (b & q & EG & Hb & Hq' & _).
  set (h := mkHeader HeaderVersion MsgData id c HeaderPadding).
  destruct (datagram_buffer h ct) as (bin & ER & Hfull & HP & Hpay); try done.
  unfold ReadUDPPackets. rewrite (bind_done _ _ _ _ _ (on_pools_done _ _ _ _ EG)).
  destruct Hb as (Hin & _). rewrite Hin, ER.
  unfold OnUDPPacket. cbn [ib_header ib_in field_upd].
  rewrite HP. cbn [default from_option].
  erewrite bind_done; [unfold mret, go_ret|].
  2: { rewrite (bool_decide_false (MsgType _ = MsgHandshake)) by done.
       rewrite bool_decide_true by done.
       erewrite bind_done by (apply lookupPeer_eq; exact Hmaps). cbn [id_map field_upd].
       change (SenderIndex _) with id. rewrite Hptr.
       eapply on_peer_done; [exact Hp|]. unfold InboundPacket.
       rewrite (bind_done _ _ _ (running p) (mkPS _ p (n_env _))) by done. rewrite Hrun. cbn [negb].
       rewrite (bind_done _ _ _ (inbound p) (mkPS _ p (n_env _))) by done.
       rewrite bool_decide_true by done. reflexivity. }
  eexists _, q. split; [reflexivity|]. split_and!; try done.
  unfold payload. cbn [ib_size ib_in field_upd]. unfold HeaderLen.
  by replace (Z.to_nat (Z.of_nat (length ct) + 16 - 16)) with (length ct) by lia.
Qed.

(** A handshake packet from a known peer is queued for its goroutine. *)
Lemma udp_handshake_queued (n : Node) id c m from ptr p :
  pools_clean (pools (n_env n)) -> maps_ok n -> u32 id -> u64 c -> (length m + 16 <= BufferSize)%nat ->
  id_map n !! id = Some ptr -> heap n !! ptr = Some p -> running p = true -> handshakes p = [] ->
  exists b q,
    ReadUDPPackets (Ok (header_bytes (mkHeader HeaderVersion MsgHandshake id c HeaderPadding) ++ m, from)) n =
      Done true (n <| heap ::= <[ptr := p <| handshakes := [Some b] |>]> |>
                   <| n_env := (n_env n) <| pools := q |> |>) /\
    pools_clean q /\ ib_ok b /\ Counter (ib_header b) = c /\ ib_size b = Z.of_nat (length m) + 16 /\
    payload b = m /\ ib_raddr b = Some from.
Proof.
  intros Hq Hmaps Hid Hc Hlen Hptr Hp Hrun Hroom.
  destruct (GetInboundBuffer_clean _ Hq) as (b & q & EG & Hb & Hq' & _).
  set (h := mkHeader HeaderVersion MsgHandshake id c HeaderPadding).
  destruct (datagram_buffer h m) as (bin & ER & Hfull & HP & Hpay); try done.
  unfold ReadUDPPackets. rewrite (bind_done _ _ _ _ _ (on_pools_done _ _ _ _ EG)).
  destruct Hb as (Hin & _). rewrite Hin, ER.
  unfold OnUDPPacket. cbn [ib_header ib_in field_upd].
  rewrite HP. cbn [default from_option].
  erewrite bind_done; [unfold mret, go_ret|].
  2: { rewrite bool_decide_true by done.
       erewrite bind_done by (apply lookupPeer_eq; exact Hmaps). cbn [id_map field_upd].
       change (SenderIndex _) with id. rewrite Hptr.
       eapply on_peer_done; [exact Hp|]. cbn [n_env field_upd].
       rewrite (bind_done _ _ _ (running p) (mkPS _ p ((n_env n) <| pools := q |>))) by done.
       rewrite Hrun. cbn [when]. unfold send_handshakes.
       rewrite (bind_done _ _ _ (handshakes p) (mkPS _ p ((n_env n) <| pools := q |>))) by done.
       rewrite Hroom, bool_decide_true by (unfold HandshakeChannelSize; cbn; lia). reflexivity. }
  eexists _, q. split; [reflexivity|]. split_and!; try done.
  unfold payload. cbn [ib_size ib_in field_upd]. unfold HeaderLen.
  by replace (Z.to_nat (Z.of_nat (length m) + 16 - 16)) with (length m) by lia.
Qed.

(** A started peer that waits for its first handshake. *)
Definition idle (p : Peer) : Prop :=
  state p = 0 /\ initiator p = false /\ mu p = unlocked /\ pendingLock p = wlocked /\ running p = true /\
  handshakes p = [] /\ g_handshake p = Waiting /\ u64 (handshakeRetries p).
(** A peer in transport. *)
Definition established (p : Peer) : Prop := state p = 2 /\ inTransport p = true /\ ready p.


(** The datagram of a handshake message. *)
Definition handshake_datagram (id c : Z) (m : list Z) : list Z :=
  header_bytes (mkHeader HeaderVersion MsgHandshake id c HeaderPadding) ++ m.

Lemma Handshake_turn_eq b p e o :
  handshakes p = [Some b] ->
  Handshake_body b (mkPS _ ((p <| handshakes := [] |>) <| g_handshake := Busy b |>) e) = o ->
  Handshake_turn (mkPS _ p e) = o.
Proof.
  intros Hq E. unfold Handshake_turn, Handshake_recv.
  erewrite bind_done; [|rewrite (bind_done _ _ _ (handshakes p) (mkPS _ p e)) by done; rewrite Hq; reflexivity].
  erewrite bind_done by reflexivity. exact E.
Qed.

(** What a handshake's step at the peer [ptr] of a node leaves as it was: the data queues and
    the goroutines of the peer, the node's identity, its maps, the tunnel. *)
Definition kept (ptr : Z) (p : Peer) (n n' : Node) (p' : Peer) : Prop :=
  (running p' = running p /\ inbound p' = inbound p /\ outbound p' = outbound p /\
   g_inbound p' = g_inbound p /\ g_outbound p' = g_outbound p) /\
  id_map n' = id_map n /\ node_id (n_env n') = node_id (n_env n) /\ tun_out (n_env n') = tun_out (n_env n) /\
  maps_ok n' /\ pools_clean (pools (n_env n')).

Lemma maps_ok_insert (n n' : Node) ptr p :
  maps_ok n -> id_map n' = id_map n -> ip_map n' = ip_map n -> heap n' = <[ptr := p]> (heap n) -> maps_ok n'.
Proof.
  intros [Hm1 Hm2] E1 E2 E3. split; intros k x; rewrite ?E1, ?E2, E3, lookup_insert; case_decide; eauto.
Qed.

(** The three acts of a handshake, at the nodes. *)

Lemma node_initiates (n : Node) ptr p dst i0 i1 m1 :
  heap n !! ptr = Some p -> maps_ok n -> pools_clean (pools (n_env n)) -> idle p -> raddr p = Some dst ->
  NewHandshakeState true (keyPair (n_env n)) (Some (pubkey p)) = Ok i0 ->
  (forall out, slice_ok out -> exists out',
     WriteMessage (entropy (n_env n)) (Some i0) out = Ok (Some i1, out', None, None, None) /\
     s_bytes out' = s_bytes out ++ m1) ->
  exists n1 p1,
    on_peer ptr (TrySendHandshake false) n = Done tt n1 /\
    net_out (n_env n1) = net_out (n_env n) ++ [(handshake_datagram (node_id (n_env n)) 0 m1, dst)] /\
    heap n1 !! ptr = Some p1 /\ maps_ok n1 /\ pools_clean (pools (n_env n1)) /\ id_map n1 = id_map n /\
    state p1 = 1 /\ initiator p1 = true /\ mu p1 = unlocked /\ pendingLock p1 = wlocked /\
    hs p1 = Some i1 /\ running p1 = true /\ handshakes p1 = [].
Proof.
  intros Hp [Hm1 Hm2] Hq (S0 & I0 & M0 & L0 & R0 & Q0 & G0 & U0) Hdst Hnew Hwrite.
  destruct (TrySendHandshake_first p (n_env n) dst i0 i1 m1 M0 Hdst U0 Hq Hnew) as (q & Hq1 & T); [auto|].
  pose proof (on_peer_done ptr _ n p tt _ Hp T) as O. eexists _, _. split; [exact O|].
  cbn. rewrite lookup_insert_eq. split; [done|]. split; [reflexivity|]. split; [|done].
  split; intros k x Hk; cbn; rewrite lookup_insert; case_decide; eauto.
Qed.

Lemma node_answers (n : Node) ptr p id m1 from old d0 d1 d2 sl m2 c1 c2 :
  heap n !! ptr = Some p -> id_map n !! id = Some ptr -> maps_ok n -> pools_clean (pools (n_env n)) ->
  u32 id -> idle p -> raddr p = Some old -> length m1 = 96%nat ->
  NewHandshakeState false (keyPair (n_env n)) None = Ok d0 ->
  ReadMessage (Some d0) m1 = Ok (Some d1, sl, None, None, None) ->
  (forall out, slice_ok out -> exists out',
     WriteMessage (entropy (n_env n)) (Some d1) out = Ok (Some d2, out', Some c1, Some c2, None) /\
     s_bytes out' = s_bytes out ++ m2) ->
  exists n1 n2 p2,
    ReadUDPPackets (Ok (handshake_datagram id 0 m1, from)) n = Done true n1 /\
    on_peer ptr Handshake_turn n1 = Done tt n2 /\
    net_out (n_env n2) = net_out (n_env n) ++ [(handshake_datagram (node_id (n_env n)) 1 m2, roam old from)] /\
    heap n2 !! ptr = Some p2 /\ established p2 /\ raddr p2 = Some (roam old from) /\
    rx p2 = Some c1 /\ tx p2 = Some c2 /\ kept ptr p n n2 p2.
Proof.
  intros Hp Hid Hm Hq Hu (S0 & I0 & M0 & L0 & R0 & Q0 & G0 & U0) Hold Hlen Hnew Hread Hwrite.
  destruct (udp_handshake_queued n id 0 m1 from ptr p Hq Hm Hu) as (b & q & U & Hq1 & B & C & Z & Y & F); try done.
  { rewrite Hlen. unfold BufferSize. lia. }
  set (n1 := n <| heap ::= _ |> <| n_env := _ |>) in *.
  destruct (Handshake_body_responds b ((p <| handshakes := [] |>) <| g_handshake := Busy b |>) (n_env n1)
              old from d0 d1 d2 sl m2 c1 c2) as (q3 & Hq3 & T); try done.
  { rewrite Z, Hlen. unfold HeaderLen, BufferSize. lia. } { by rewrite Y. } { auto. }
  eexists n1, _, _. split; [exact U|]. split.
  { eapply on_peer_done; [subst n1; cbn; by rewrite lookup_insert_eq|].
    eapply Handshake_turn_eq; [reflexivity|exact T]. }
  cbn. rewrite lookup_insert_eq. split; [done|]. split; [reflexivity|]. do 4 (split; [done|]).
  split; [done|]. do 3 (split; [done|]). split; [|done].
  eapply maps_ok_insert; [exact Hm|done..|]. cbn. by rewrite insert_insert_eq.
Qed.

Lemma node_completes (n : Node) ptr p id m2 from i1 i2 sl c1 c2 :
  heap n !! ptr = Some p -> id_map n !! id = Some ptr -> maps_ok n -> pools_clean (pools (n_env n)) ->
  u32 id -> state p = 1 -> initiator p = true -> mu p = unlocked -> pendingLock p = wlocked ->
  hs p = Some i1 -> running p = true -> handshakes p = [] -> length m2 = 48%nat ->
  ReadMessage (Some i1) m2 = Ok (Some i2, sl, Some c1, Some c2, None) ->
  exists n1 n2 p2,
    ReadUDPPackets (Ok (handshake_datagram id 1 m2, from)) n = Done true n1 /\
    on_peer ptr Handshake_turn n1 = Done tt n2 /\
    heap n2 !! ptr = Some p2 /\ established p2 /\ raddr p2 = Some from /\
    tx p2 = Some c1 /\ rx p2 = Some c2 /\ net_out (n_env n2) = net_out (n_env n) /\ kept ptr p n n2 p2.
Proof.
  intros Hp Hid Hm Hq Hu S0 I0 M0 L0 H0' R0 Q0 Hlen Hread.
  destruct (udp_handshake_queued n id 1 m2 from ptr p Hq Hm Hu) as (b & q & U & Hq1 & B & C & Z & Y & F); try done.
  { rewrite Hlen. unfold BufferSize. lia. }
  set (n1 := n <| heap ::= _ |> <| n_env := _ |>) in *.
  destruct (Handshake_body_completes b ((p <| handshakes := [] |>) <| g_handshake := Busy b |>) (n_env n1)
              i1 i2 from sl c1 c2) as (q5 & Hq5 & T); try done.
  { rewrite Z, Hlen. unfold HeaderLen, BufferSize. lia. } { by rewrite Y. }
  eexists n1, _, _. split; [exact U|]. split.
  { eapply on_peer_done; [subst n1; cbn; by rewrite lookup_insert_eq|].
    eapply Handshake_turn_eq; [reflexivity|exact T]. }
  cbn. rewrite lookup_insert_eq. split; [reflexivity|]. do 5 (split; [done|]).
  split; [done|]. do 3 (split; [done|]). split; [|done].
  eapply maps_ok_insert; [exact Hm|done..|]. cbn. by rewrite insert_insert_eq.
Qed.

(** A data packet of a peer in transport, from the socket to the tunnel. *)
Lemma node_delivers (R : CipherState -> Prop) (n : Node) ptr p id c ct pt from old r :
  heap n !! ptr = Some p -> id_map n !! id = Some ptr -> maps_ok n -> pools_clean (pools (n_env n)) ->
  u32 id -> u64 c -> (length ct + 16 <= BufferSize)%nat -> ready p -> running p = true -> inbound p = [] ->
  rx p = Some r -> raddr p = Some old -> pt <> [] ->
  (forall buf, slice_ok buf -> exists r1 r2 buf',
     SetNonce (Some r) c = Ok (Some r1) /\ Decrypt (Some r1) buf ct = Ok (Some r2, buf', None) /\
     slice_ok buf' /\ s_bytes buf' = s_bytes buf ++ pt /\ R r2) ->
  exists n1 n2 r2 p2,
    ReadUDPPackets (Ok (header_bytes (mkHeader HeaderVersion MsgData id c HeaderPadding) ++ ct, from)) n = Done true n1 /\
    on_peer ptr Inbound_turn n1 = Done tt n2 /\
    tun_out (n_env n2) = tun_out (n_env n) ++ [pt] /\
    heap n2 !! ptr = Some p2 /\ rx p2 = Some r2 /\ R r2 /\
    raddr p2 = Some (roam old from) /\ inbound p2 = [] /\ ready p2 /\
    running p2 = true /\ id_map n2 = id_map n /\ maps_ok n2 /\ pools_clean (pools (n_env n2)).
Proof.
  intros Hp Hid Hm Hq Hu Hc Hlen Hr Hrun Hin Hrx Hold Hne Hdec.
  destruct (udp_data_queued n id c ct from ptr p Hq Hm Hu Hc Hlen Hid Hp Hrun) as
    (ib & q & EU & Hq1 & Hib & Hcnt & Hsz & Hpay & Hfrom).
  { rewrite Hin. unfold InboundChannelSize. cbn. lia. }
  set (n1 := n <| heap ::= _ |> <| n_env := _ |>) in *.
  set (p1 := (p <| inbound := [] |>) <| g_inbound := Busy ib |>).
  destruct (Hdec (Slice (s_arr (ib_packet ib)) 0)) as (r1 & r2 & buf' & ES & ED & Hbok & Hbuf & HR).
  { unfold slice_ok; cbn; lia. }
  cbn [s_bytes s_len s_arr take app] in Hbuf.
  destruct (Inbound_body_delivers ib p1 (n_env n1) r r1 r2 buf' pt old from) as (q2 & Hq2 & EI); try done.
  { unfold HeaderLen, BufferSize in *. lia. }
  { by rewrite Hcnt. } { by rewrite Hpay. }
  assert (Hheap1 : heap n1 !! ptr = Some (p <| inbound := [Some ib] |>)).
  { subst n1. cbn. rewrite lookup_insert_eq, Hin. done. }
  eexists n1, _, r2, _. split; [exact EU|]. split.
  { eapply on_peer_done; [exact Hheap1|]. unfold Inbound_turn.
    erewrite bind_done by reflexivity. erewrite bind_done by reflexivity. exact EI. }
  cbn. rewrite lookup_insert_eq. split; [done|]. split; [reflexivity|].
  do 7 (split; [done|]). split; [|done]. eapply maps_ok_insert; [exact Hm|done..|]. cbn. by rewrite insert_insert_eq.
Qed.
End Delivery.

(** ** Properties *)

Section TransportTheorems.
Context `{NoiseLaws, PoolChoice, NodeExt}.

Lemma packet_nonempty b :
  ob_ok b -> 0 < ob_size b -> take (Z.to_nat (ob_size b)) (s_arr (ob_packet b)) <> [].
Proof.
  intros Hob Hsz E. apply (f_equal length) in E. rewrite length_take, (proj2 (proj2 Hob)) in E.
  unfold BufferSize in *. cbn in E. lia.
Qed.

(** C19. The data plane, end to end: a packet that a node's outbound goroutine takes for a peer
    it is in transport with leaves as exactly one datagram to the peer's address; handed to
    the other node's UDP reader, from whatever source address, that datagram is queued for
    the sender's entry there, and the inbound goroutine writes exactly the packet's bytes to
    the tunnel. Afterwards the receiver replies to the address the datagram came from, and
    the two ciphers still belong together, so the next packet crosses too. *)
Theorem packet_crosses (pa : Peer) (ea : Env) (b : OutboundBuffer) (nb : Node) ptr (pb : Peer)
    (c r : CipherState) dst old from
    (Hra : ready pa) (Htx : tx pa = Some c) (Hdst : raddr pa = Some dst) (Hob : ob_ok b)
    (Hsize : 0 < ob_size b <= Z.of_nat BufferSize - 32) (Hea : pools_clean (pools ea))
    (Hnonce : 0 <= nonce_of c <= MaxNonce) (Hid : u32 (node_id ea))
    (Hpb : heap nb !! ptr = Some pb) (Hmap : id_map nb !! node_id ea = Some ptr) (Hmaps : maps_ok nb)
    (Heb : pools_clean (pools (n_env nb))) (Hrun : running pb = true) (Hrb : ready pb)
    (Hrx : rx pb = Some r) (Hpair : paired c r) (Hin : inbound pb = []) (Hold : raddr pb = Some old) :
  exists d c' qa nb1 nb2 r' pb',
    Outbound_body b (mkPS _ pa ea) =
      Done tt (mkPS _ (pa <| tx := Some c' |> <| keepalive := Some TimerKeepalive |> <| g_outbound := Waiting |>)
                 (ea <| net_out ::= (fun l => l ++ [(d, dst)]) |> <| pools := qa |>)) /\
    ReadUDPPackets (Ok (d, from)) nb = Done true nb1 /\
    on_peer ptr Inbound_turn nb1 = Done tt nb2 /\
    tun_out (n_env nb2) = tun_out (n_env nb) ++ [take (Z.to_nat (ob_size b)) (s_arr (ob_packet b))] /\
    heap nb2 !! ptr = Some pb' /\ rx pb' = Some r' /\ paired c' r' /\ nonce_of c' = nonce_of c + 1 /\
    raddr pb' = Some (roam old from) /\ inbound pb' = [] /\ ready pb'.
Proof.
  destruct (Outbound_body_sends b pa ea c (nonce_of c) dst Hra Htx Hdst Hob ltac:(lia) Hea eq_refl Hnonce)
    as (c' & ct & qa & EO & _ & Hn' & Hct & Hdec); [by exists r|].
  destruct (node_delivers (fun r2 => paired c' r2) nb ptr pb (node_id ea) (nonce_of c) ct
              (take (Z.to_nat (ob_size b)) (s_arr (ob_packet b))) from old r)
    as (nb1 & nb2 & r2 & p2 & EU & EI & ET & HP & HX & HR & HA & HI & HY & _); try done.
  { unfold u64, MaxNonce in *. lia. } { unfold BufferSize in *. lia. } { apply packet_nonempty; [done|lia]. }
  { intros buf Hbuf. destruct (Hdec r buf Hpair Hbuf) as (r1 & r2 & buf' & ? & ? & ? & ? & ? & ?). by exists r1, r2, buf'. }
  eexists _, c', qa, nb1, nb2, r2, p2. split; [exact EO|]. by split_and!.
Qed.

(** C20. Two idle nodes that know each other's ids, where the initiator knows the responder's
    public key, are in transport after the two messages of the handshake, whatever the
    network did to the source addresses: the initiator's message, delivered to the responder,
    makes its goroutine answer; the answer, delivered to the initiator, finishes. Each side's
    sending cipher then belongs to the other side's receiving cipher with its nonce at zero,
    both have released the lock the packets wait for, and each sends to the address the
    other's message came from. *)
Theorem handshake_establishes (na nb : Node) pta ptb (pa pb : Peer) dst old fromA fromB
    (Hpa : heap na !! pta = Some pa) (Hma : id_map na !! node_id (n_env nb) = Some pta)
    (Hna : maps_ok na) (Hea : pools_clean (pools (n_env na))) (Hia : u32 (node_id (n_env na)))
    (Hpb : heap nb !! ptb = Some pb) (Hmb : id_map nb !! node_id (n_env na) = Some ptb)
    (Hnb : maps_ok nb) (Heb : pools_clean (pools (n_env nb))) (Hib : u32 (node_id (n_env nb)))
    (Hida : idle pa) (Hidb : idle pb) (Hda : raddr pa = Some dst) (Hob : raddr pb = Some old)
    (Hkey : pubkey pa = Public (keyPair (n_env nb))) :
  exists d1 d2 na1 na2 na3 nb1 nb2 pa' pb' ca ra cb rb,
    on_peer pta (TrySendHandshake false) na = Done tt na1 /\
    net_out (n_env na1) = net_out (n_env na) ++ [(d1, dst)] /\
    ReadUDPPackets (Ok (d1, fromA)) nb = Done true nb1 /\
    on_peer ptb Handshake_turn nb1 = Done tt nb2 /\
    net_out (n_env nb2) = net_out (n_env nb) ++ [(d2, roam old fromA)] /\
    ReadUDPPackets (Ok (d2, fromB)) na1 = Done true na2 /\
    on_peer pta Handshake_turn na2 = Done tt na3 /\
    heap na3 !! pta = Some pa' /\ established pa' /\ raddr pa' = Some fromB /\
    heap nb2 !! ptb = Some pb' /\ established pb' /\ raddr pb' = Some (roam old fromA) /\
    tx pa' = Some ca /\ rx pb' = Some ra /\ paired ca ra /\ nonce_of ca = 0 /\
    tx pb' = Some cb /\ rx pa' = Some rb /\ paired cb rb /\ nonce_of cb = 0.
Proof.
  destruct (ik_handshake (keyPair (n_env na)) (keyPair (n_env nb)) (entropy (n_env na)) (entropy (n_env nb)))
    as (i0 & i1 & m1 & d0 & d1 & d2 & m2 & c1 & c2 & i2 & c1' & c2' & sl1 & sl2 &
        Ei & Ed & Wi & L1 & Rd & Wd & L2 & Ri & P1 & P2 & N1 & N2).
  destruct (node_initiates na pta pa dst i0 i1 m1 Hpa Hna Hea Hida Hda) as
    (na1 & p1 & O1 & D1 & Hp1 & Hna1 & Hea1 & Hmap1 & Hw); [by rewrite Hkey|done|].
  destruct Hw as (W1 & W2 & W3 & W4 & W5 & W6 & W7).
  destruct (node_answers nb ptb pb (node_id (n_env na)) m1 fromA old d0 d1 d2 sl1 m2 c1 c2) as
    (nb1 & nb2 & pb' & U1 & O2 & D2 & Hp2 & E2 & A2 & X2 & Y2 & _); try done.
  destruct (node_completes na1 pta p1 (node_id (n_env nb)) m2 fromB i1 i2 sl2 c1' c2') as
    (na2 & na3 & pa' & U2 & O3 & Hp3 & E3 & A3 & X3 & Y3 & _); try done; [by rewrite Hmap1|].
  exists (handshake_datagram (node_id (n_env na)) 0 m1), (handshake_datagram (node_id (n_env nb)) 1 m2),
    na1, na2, na3, nb1, nb2, pa', pb', c1', c1, c2, c2'. by split_and!.
Qed.
End TransportTheorems.

(** ** Two concrete nodes

    Node 1 and node 2 with the toy cipher, each with the other as its only peer. *)

#[export] Instance lifo : PoolChoice := lifo_pool.
#[export] Instance demo_ext : NodeExt := {|
  ResolveUDPAddr s :=
    if bool_decide (s = "stun.l.google.com:19302"%string) then Ok (mkUDPAddr [192; 0; 2; 200] 19302) else
    match parse_addr_port s with
    | Some (mkAddrPort (Addr4 n) p) => Ok (mkUDPAddr (be_bytes 4 n) p)
    | _ => Err "no such host"%string
    end;
  ipv4_ParseHeader_Dst b :=
    if bool_decide (20 <= length b)%nat then Ok (take 4 (drop 16 b)) else Err "header too short"%string;
  stun_IsMessage b := bool_decide (20 <= length b)%nat && bool_decide (bytes_at 4 4 b = [0x21; 0x12; 0xa4; 0x42]);
  (** The address of an answer whose only attribute is XOR-MAPPED-ADDRESS. *)
  stun_mapped b := Ok (addr_port_string (mkAddrPort (Addr4 (Z.lxor (be_word (bytes_at 28 4 b)) 0x2112a442))
                                           (Z.lxor (be_word (bytes_at 26 2 b)) 0x2112)));
  stun_request t := [t]
|}.

Definition demo_ua (i : Z) : UDPAddr := mkUDPAddr [192; 0; 2; i] 5000.
Definition demo_env (i : Z) : Env := mkEnv toy_noise i (10 + i) "machine" "" [] [] [] (mkPools [] [] 0 0) 42.
(** The entry for node [j], started. *)
Definition demo_entry (j : Z) : Peer :=
  NewPeer <| ID := j |> <| IP := Addr4 (0x64460000 + j) |> <| pubkey := [10 + j] |> <| raddr := Some (demo_ua j) |>
    <| pendingLock := wlocked |> <| wg := 3 |> <| g_inbound := Waiting |> <| g_outbound := Waiting |>
    <| g_handshake := Waiting |> <| running := true |>.
Definition demo_node (i j : Z) (p : Peer) : Node :=
  mkNode toy_noise OpenHandle OpenHandle (mkPrefix (Addr4 (0x64460000 + i)) 24) "host" {[7 := p]} 8 {[j := 7]}
    {[IP p := 7]} (demo_env i) true true false [] [].
(** The same entry in transport; [k] is the key it sends with. *)
Definition demo_transport (j k : Z) : Peer :=
  (demo_entry j) <| pendingLock := unlocked |> <| state := 2 |> <| inTransport := true |>
    <| tx := Some (mkToyCS k 0) |> <| rx := Some (mkToyCS (1 - k) 0) |>.
Definition demo_packet : OutboundBuffer :=
  NewOutboundBuffer <| ob_packet := Slice ([69; 0; 0; 20] ++ replicate 1596 1) BufferSize |> <| ob_size := 20 |>.

Lemma demo_maps_ok i j p : maps_ok (demo_node i j p).
Proof.
  split; intros k x Hk; cbn in *; apply lookup_singleton_Some in Hk as [_ <-];
    rewrite lookup_singleton_eq; eauto.
Qed.
Lemma demo_pools_clean i : pools_clean (pools (demo_env i)).
Proof. split; constructor. Qed.

Lemma packet_crosses_witness :
  exists d c' qa nb1 nb2 r' pb',
    Outbound_body demo_packet (mkPS _ (demo_transport 2 0) (demo_env 1)) =
      Done tt (mkPS _ ((demo_transport 2 0) <| tx := Some c' |> <| keepalive := Some TimerKeepalive |> <| g_outbound := Waiting |>)
                 ((demo_env 1) <| net_out ::= (fun l => l ++ [(d, demo_ua 2)]) |> <| pools := qa |>)) /\
    ReadUDPPackets (Ok (d, demo_ua 99)) (demo_node 2 1 (demo_transport 1 1)) = Done true nb1 /\
    on_peer 7 Inbound_turn nb1 = Done tt nb2 /\
    tun_out (n_env nb2) = tun_out (demo_env 2) ++ [take (Z.to_nat (ob_size demo_packet)) (s_arr (ob_packet demo_packet))] /\
    heap nb2 !! 7 = Some pb' /\ rx pb' = Some r' /\ paired c' r' /\ nonce_of c' = nonce_of (mkToyCS 0 0) + 1 /\
    raddr pb' = Some (roam (demo_ua 1) (demo_ua 99)) /\ inbound pb' = [] /\ ready pb'.
Proof.
  apply (packet_crosses (demo_transport 2 0) (demo_env 1) demo_packet (demo_node 2 1 (demo_transport 1 1)) 7
           (demo_transport 1 1) (mkToyCS 0 0) (mkToyCS 0 0) (demo_ua 2) (demo_ua 1) (demo_ua 99));
    try reflexivity; try done; try apply demo_maps_ok; try apply demo_pools_clean.
Defined.

Lemma handshake_establishes_witness :
  exists d1 d2 na1 na2 na3 nb1 nb2 pa' pb' ca ra cb rb,
    on_peer 7 (TrySendHandshake false) (demo_node 1 2 (demo_entry 2)) = Done tt na1 /\
    net_out (n_env na1) = net_out (demo_env 1) ++ [(d1, demo_ua 2)] /\
    ReadUDPPackets (Ok (d1, demo_ua 98)) (demo_node 2 1 (demo_entry 1)) = Done true nb1 /\
    on_peer 7 Handshake_turn nb1 = Done tt nb2 /\
    net_out (n_env nb2) = net_out (demo_env 2) ++ [(d2, roam (demo_ua 1) (demo_ua 98))] /\
    ReadUDPPackets (Ok (d2, demo_ua 99)) na1 = Done true na2 /\
    on_peer 7 Handshake_turn na2 = Done tt na3 /\
    heap na3 !! 7 = Some pa' /\ established pa' /\ raddr pa' = Some (demo_ua 99) /\
    heap nb2 !! 7 = Some pb' /\ established pb' /\ raddr pb' = Some (roam (demo_ua 1) (demo_ua 98)) /\
    tx pa' = Some ca /\ rx pb' = Some ra /\ paired ca ra /\ nonce_of ca = 0 /\
    tx pb' = Some cb /\ rx pa' = Some rb /\ paired cb rb /\ nonce_of cb = 0.
Proof.
  apply (handshake_establishes (demo_node 1 2 (demo_entry 2)) (demo_node 2 1 (demo_entry 1)) 7 7
           (demo_entry 2) (demo_entry 1) (demo_ua 2) (demo_ua 1) (demo_ua 98) (demo_ua 99));
    try reflexivity; try done; try apply demo_maps_ok; try apply demo_pools_clean.
Defined.

Lemma udp_packets_ok_witness :
  turn_ok node_pkts_ok (ReadUDPPackets (Ok ([1; 2; 3], demo_ua 9)) (demo_node 1 2 (demo_entry 2))) /\
  forall b, pkt_ok b -> exists s, reslice (ib_in b) HeaderLen (ib_size b) = Some s.
Proof.
  apply (udp_packets_ok (demo_node 1 2 (demo_entry 2))); [|apply demo_maps_ok].
  split; [|apply demo_pools_clean]. cbn. intros k p Hk. apply lookup_singleton_Some in Hk as [_ <-].
  split_and!; try done; constructor.
Defined.
