(* ===== verification/PeerWp.v ===== *)
(** Weakest preconditions of the peer's programs: a rule per primitive of [NodePeer], a tactic
    that walks through a program with them, and what each compound program does to the peer
    when it finishes, whatever the network, the pools and the Noise library answer. *)

From S2P Require Import Prelude Bytes Header GoTime Netip Types GoSync Queue Grpc NodePeer NodeCore.

(** ** Weakest preconditions of the primitives *)

Section Rules.
Context `{Noise, PoolChoice}.
Implicit Types (s : PS).

Lemma holds_mret {A} (a : A) s Q : Q a s -> holds (mret a) s Q.
Proof. done. Qed.
Lemma holds_pget {A} (f : NodePeer.Peer -> A) s Q : Q (f (self s)) s -> holds (pget f) s Q.
Proof. done. Qed.
Lemma holds_eget {A} (f : Env -> A) s Q : Q (f (env s)) s -> holds (eget f) s Q.
Proof. done. Qed.
Lemma holds_reads {A} (f : PS -> A) s Q : Q (f s) s -> holds (reads f) s Q.
Proof. done. Qed.
Lemma holds_pmod f s Q : Q tt (mkPS _ (f (self s)) (env s)) -> holds (pmod f) s Q.
Proof. by destruct s. Qed.
Lemma holds_emod f s Q : Q tt (mkPS _ (self s) (f (env s))) -> holds (emod f) s Q.
Proof. by destruct s. Qed.
Lemma holds_panic {A} c s (Q : A -> PS -> Prop) : holds (panic c) s Q.
Proof. done. Qed.
Lemma holds_block {A} v s (Q : A -> PS -> Prop) : holds (block v) s Q.
Proof. done. Qed.
Lemma holds_lib {A} (o : result crash A) s Q : (forall a, o = Ok a -> Q a s) -> holds (lib o) s Q.
Proof. intros HQ. destruct o; [by apply HQ|done]. Qed.
Lemma holds_slice_expr b lo hi s Q : (forall x, Q x s) -> holds (slice_expr b lo hi) s Q.
Proof. intros HQ. unfold slice_expr. destruct (reslice b lo hi); [apply HQ|done]. Qed.
(** The pools do not concern the peer. *)
Lemma holds_pools {A} (m : go Pools A) s Q :
  (forall a q, Q a (mkPS _ (self s) ((env s) <| pools := q |>))) -> holds (with_pools m) s Q.
Proof. intros HQ. unfold holds, with_pools, zoom. destruct (m _); [|done..]. destruct s. apply HQ. Qed.

Definition set_mu m (p : NodePeer.Peer) := p <| mu := m |>.
Definition set_pending m (p : NodePeer.Peer) := p <| pendingLock := m |>.

Lemma holds_mu_Lock s (Q : unit -> PS -> Prop) :
  (mu (self s) = unlocked -> Q tt (mkPS _ (set_mu wlocked (self s)) (env s))) -> holds (with_mu Lock) s Q.
Proof.
  destruct s as [p e]. unfold holds, with_mu, zoom, Lock. cbn. destruct (mu p) as [[] []] eqn:E; try done.
  cbn. intros HQ. by apply HQ.
Qed.
Lemma holds_mu_Unlock s (Q : unit -> PS -> Prop) :
  (forall n, mu (self s) = mkRWMutex true n -> Q tt (mkPS _ (set_mu (mkRWMutex false n) (self s)) (env s))) ->
  holds (with_mu Unlock) s Q.
Proof.
  destruct s as [p e]. unfold holds, with_mu, zoom, Unlock. cbn. destruct (mu p) as [[] n] eqn:E; try done.
  cbn. intros HQ. by apply HQ.
Qed.
Lemma holds_mu_RLock s (Q : unit -> PS -> Prop) :
  (forall n, mu (self s) = mkRWMutex false n -> Q tt (mkPS _ (set_mu (mkRWMutex false (S n)) (self s)) (env s))) ->
  holds (with_mu RLock) s Q.
Proof.
  destruct s as [p e]. unfold holds, with_mu, zoom, RLock. cbn. destruct (mu p) as [[] n] eqn:E; try done.
  cbn. intros HQ. by apply HQ.
Qed.
Lemma holds_mu_RUnlock s (Q : unit -> PS -> Prop) :
  (forall x n, mu (self s) = mkRWMutex x (S n) -> Q tt (mkPS _ (set_mu (mkRWMutex x n) (self s)) (env s))) ->
  holds (with_mu RUnlock) s Q.
Proof.
  destruct s as [p e]. unfold holds, with_mu, zoom, RUnlock. cbn. destruct (mu p) as [x []] eqn:E; try done.
  cbn. intros HQ. by apply HQ.
Qed.
Lemma holds_pending_Lock s (Q : unit -> PS -> Prop) :
  (pendingLock (self s) = unlocked -> Q tt (mkPS _ (set_pending wlocked (self s)) (env s))) ->
  holds (with_pending Lock) s Q.
Proof.
  destruct s as [p e]. unfold holds, with_pending, zoom, Lock. cbn. destruct (pendingLock p) as [[] []] eqn:E; try done.
  cbn. intros HQ. by apply HQ.
Qed.
Lemma holds_pending_Unlock s (Q : unit -> PS -> Prop) :
  (forall n, pendingLock (self s) = mkRWMutex true n ->
     Q tt (mkPS _ (set_pending (mkRWMutex false n) (self s)) (env s))) ->
  holds (with_pending Unlock) s Q.
Proof.
  destruct s as [p e]. unfold holds, with_pending, zoom, Unlock. cbn. destruct (pendingLock p) as [[] n] eqn:E; try done.
  cbn. intros HQ. by apply HQ.
Qed.
Lemma holds_pending_RLock s (Q : unit -> PS -> Prop) :
  (forall n, pendingLock (self s) = mkRWMutex false n ->
     Q tt (mkPS _ (set_pending (mkRWMutex false (S n)) (self s)) (env s))) ->
  holds (with_pending RLock) s Q.
Proof.
  destruct s as [p e]. unfold holds, with_pending, zoom, RLock. cbn. destruct (pendingLock p) as [[] n] eqn:E; try done.
  cbn. intros HQ. by apply HQ.
Qed.
Lemma holds_pending_RUnlock s (Q : unit -> PS -> Prop) :
  (forall x n, pendingLock (self s) = mkRWMutex x (S n) ->
     Q tt (mkPS _ (set_pending (mkRWMutex x n) (self s)) (env s))) ->
  holds (with_pending RUnlock) s Q.
Proof.
  destruct s as [p e]. unfold holds, with_pending, zoom, RUnlock. cbn. destruct (pendingLock p) as [x []] eqn:E; try done.
  cbn. intros HQ. by apply HQ.
Qed.
End Rules.

(** Walks through a program; a match is taken apart with its equation. *)
Ltac wp_step :=
  lazymatch goal with
  | |- holds (mbind _ _) _ _ => apply holds_bind
  | |- holds (mret _) _ _ => apply holds_mret
  | |- holds (pget _) _ _ => apply holds_pget
  | |- holds (eget _) _ _ => apply holds_eget
  | |- holds (reads _) _ _ => apply holds_reads
  | |- holds (pmod _) _ _ => apply holds_pmod
  | |- holds (emod _) _ _ => apply holds_emod
  | |- holds (panic _) _ _ => apply holds_panic
  | |- holds (block _) _ _ => apply holds_block
  | |- holds (lib _) _ _ => apply holds_lib; intros ? ?
  | |- holds (slice_expr _ _ _) _ _ => apply holds_slice_expr; intros ?
  | |- holds (with_pools _) _ _ => apply holds_pools; intros ? ?
  | |- holds (with_mu Lock) _ _ => apply holds_mu_Lock; intros ?
  | |- holds (with_mu Unlock) _ _ => apply holds_mu_Unlock; intros ? ?
  | |- holds (with_mu RLock) _ _ => apply holds_mu_RLock; intros ? ?
  | |- holds (with_mu RUnlock) _ _ => apply holds_mu_RUnlock; intros ? ? ?
  | |- holds (with_pending Lock) _ _ => apply holds_pending_Lock; intros ?
  | |- holds (with_pending Unlock) _ _ => apply holds_pending_Unlock; intros ? ?
  | |- holds (with_pending RLock) _ _ => apply holds_pending_RLock; intros ? ?
  | |- holds (with_pending RUnlock) _ _ => apply holds_pending_RUnlock; intros ? ? ?
  | |- holds (when ?b _) _ _ => unfold when; destruct b eqn:?
  | |- holds (match ?x with _ => _ end) _ _ => destruct x eqn:?
  | |- holds (let '_ := ?x in _) _ _ => destruct x eqn:?
  end.
Ltac wp := repeat (wp_step; cbn beta).

(** ** [ResetState] *)

Section Reset.
Context `{Noise, PoolChoice, NodeExt}.
Abbreviation Peer := NodePeer.Peer.
Implicit Types (p : Peer) (s : PS).

(** [ResetState] from the inside: everything but the lock and the handshake timer. *)
Definition reset_peer p : Peer :=
  p <| handshakeRetries := 0 |> <| receivedPacket := None |> <| keepalive := None |> <| handshakes := [] |>
    <| outbound := [] |> <| inbound := [] |> <| hs := None |> <| rx := None |> <| tx := None |>
    <| initiator := false |> <| state := 0 |> <| inTransport := false |>.

Lemma holds_flushInbound q s (Q : unit -> PS -> Prop) :
  inbound (self s) = q ->
  (forall e, Q tt (mkPS _ ((self s) <| inbound := [] |>) e)) -> holds (flushInbound_loop q) s Q.
Proof.
  revert s. induction q as [|b q IH]; intros [p e] Hq HQ; cbn [flushInbound_loop].
  - apply holds_mret. specialize (HQ e). cbn in *. destruct p; cbn in *; by subst.
  - wp. apply IH; [done|]. intros e'. apply HQ.
Qed.
Lemma holds_flushOutbound q s (Q : unit -> PS -> Prop) :
  outbound (self s) = q ->
  (forall e, Q tt (mkPS _ ((self s) <| outbound := [] |>) e)) -> holds (flushOutbound_loop q) s Q.
Proof.
  revert s. induction q as [|b q IH]; intros [p e] Hq HQ; cbn [flushOutbound_loop].
  - apply holds_mret. specialize (HQ e). cbn in *. destruct p; cbn in *; by subst.
  - wp. apply IH; [done|]. intros e'. apply HQ.
Qed.
Lemma holds_flushHandshake q s (Q : unit -> PS -> Prop) :
  handshakes (self s) = q ->
  (forall e, Q tt (mkPS _ ((self s) <| handshakes := [] |>) e)) -> holds (flushHandshake_loop q) s Q.
Proof.
  revert s. induction q as [|b q IH]; intros [p e] Hq HQ; cbn [flushHandshake_loop].
  - apply holds_mret. specialize (HQ e). cbn in *. destruct p; cbn in *; by subst.
  - wp. apply IH; [done|]. intros e'. apply HQ.
Qed.

Lemma holds_ResetState s (Q : unit -> PS -> Prop) :
  (mu (self s) = unlocked -> forall e, Q tt (mkPS _ (reset_peer (self s)) e)) -> holds ResetState s Q.
Proof.
  destruct s as [p e]. destruct p. intros HQ. unfold ResetState, flushQueues, flushHandshakeQueue,
    flushOutboundQueue, flushInboundQueue. wp.
  apply holds_flushHandshake; [done|]. intros e1. wp. apply holds_flushOutbound; [done|]. intros e2. wp.
  apply holds_flushInbound; [done|]. intros e3. wp; cbn in *; subst; specialize (HQ eq_refl e3);
    cbn in *; unfold set_mu in *; cbn in *; unfold unlocked, wlocked in *; simplify_eq; exact HQ.
Qed.
End Reset.

Ltac wp_step2 :=
  lazymatch goal with
  | |- holds ResetState _ _ => apply holds_ResetState; intros ? ?
  | |- _ => wp_step
  end.
Ltac wp2 := repeat (wp_step2; cbn beta).

(** ** What the compound programs do to the peer *)

Section Effects.
Context `{Noise, PoolChoice, NodeExt}.
Abbreviation Peer := NodePeer.Peer.
Implicit Types (p : Peer) (s : PS).

(** After a walk: the state reached is the one the assumption is about. *)
Ltac reached HQ :=
  cbn in *; unfold set_mu, set_pending in *; cbn in *; unfold unlocked, wlocked in *; simplify_eq; cbn in *;
  first [exact HQ | apply (HQ eq_refl) | apply HQ].

Lemma holds_RequestPunch s (Q : unit -> PS -> Prop) :
  (forall e, Q tt (mkPS _ (self s) e)) -> holds RequestPunch s Q.
Proof. destruct s as [p e0]. destruct p. intros HQ. unfold RequestPunch, Node_RequestPunch. wp. reached HQ. Qed.

Lemma holds_WriteToUDP b a s (Q : unit -> PS -> Prop) :
  (forall e, Q tt (mkPS _ (self s) e)) -> holds (WriteToUDP b a) s Q.
Proof. destruct s as [p e]. intros HQ. unfold WriteToUDP. wp; apply HQ. Qed.

(** A peer whose initiation has been sent. *)
Definition sent_peer h p : Peer :=
  p <| initiator := true |> <| hs := h |> <| state := 1 |> <| handshakeSent := Some (Second * 3) |>.

Lemma holds_TrySendHandshake_send s (Q : unit -> PS -> Prop) :
  (mu (self s) = unlocked -> forall h e, Q tt (mkPS _ (sent_peer h (self s)) e)) ->
  holds TrySendHandshake_send s Q.
Proof.
  destruct s as [p e0]. destruct p. intros HQ.
  unfold TrySendHandshake_send, InitHandshake, handshakeP1, fresh_random. wp.
  all: apply holds_WriteToUDP; intros e1; wp; reached HQ.
Qed.

(** A retry either gives up, which resets the peer, or sends again. *)
Lemma holds_TrySendHandshake (retry : bool) s (Q : unit -> PS -> Prop) :
  (mu (self s) = unlocked -> forall e,
     let n := add64 (handshakeRetries (self s)) 1 in
     (retry = true -> CountHandshakeRetries < n ->
        Q tt (mkPS _ (reset_peer ((self s) <| handshakeSent := None |>)) e)) /\
     (retry = false \/ n <= CountHandshakeRetries ->
        forall h, Q tt (mkPS _ (sent_peer h ((self s) <| handshakeRetries := n |>)) e))) ->
  holds (TrySendHandshake retry) s Q.
Proof.
  destruct s as [p e0]. destruct p. intros HQ. unfold TrySendHandshake. wp2.
  - case_bool_decide; [|done]. specialize (HQ ltac:(done) e). destruct HQ as [HQ _]. by apply HQ.
  - case_bool_decide; [done|]. apply holds_RequestPunch. intros e1. apply holds_TrySendHandshake_send.
    intros Hmu h e. specialize (HQ Hmu e). destruct HQ as [_ HQ]. apply HQ. right. cbn in *. lia.
  - apply holds_TrySendHandshake_send. intros Hmu h e. specialize (HQ Hmu e). destruct HQ as [_ HQ].
    apply HQ. by left.
Qed.

Lemma holds_UpdateEndpoint a s (Q : unit -> PS -> Prop) :
  (forall r e, Q tt (mkPS _ ((self s) <| raddr := r |>) e)) ->
  holds (UpdateEndpoint a) s Q.
Proof. destruct s as [p e0]. destruct p. intros HQ. unfold UpdateEndpoint. wp; reached HQ. Qed.

(** The handshake proper leaves a new session state behind, and the roles as they were. *)
Definition session_peer h c1 c2 r p : Peer :=
  p <| hs := h |> <| rx := c1 |> <| tx := c2 |> <| raddr := r |>.

Lemma holds_handshakeP2 b s (Q : option string -> PS -> Prop) :
  (mu (self s) = unlocked -> forall err h c1 c2 r e, Q err (mkPS _ (session_peer h c1 c2 r (self s)) e)) ->
  holds (handshakeP2 b) s Q.
Proof.
  destruct s as [p e0]. destruct p. intros HQ.
  unfold handshakeP2, handshakeP2_complete, handshakeP2_respond, InitHandshake, fresh_random, UpdateEndpointLocked.
  wp.
  all: try (apply holds_WriteToUDP; intros ?; wp).
  all: reached HQ.
Qed.
End Effects.
