(* ===== verification/Lifecycle.v ===== *)
(** The life of a peer on a node: the steps its goroutines, its timers and its callers can take
    in any order, the invariant they keep, and the ways the process comes to a halt.

    Every step is one of the programs of [NodePeer], run to its end: a program that would
    block before its end is not started (the goroutines' bodies wait for [pendingLock] with
    the buffer in hand, which is what their split is for). A timer's function runs when its
    timer fires; a function that fired before its timer was stopped is not a step. *)

From S2P Require Import Prelude Bytes Header GoTime Netip Types GoSync Queue Grpc NodePeer NoiseLaws NodeCore Transport PeerWp.

(** ** The invariant *)

Section Invariant.
Context `{Noise}.
Abbreviation Peer := NodePeer.Peer.
Implicit Types (p : Peer) (s : PS).

Definition alive {A} (g : routine A) : bool := match g with Off => false | _ => true end.

(** A started peer that is not in transport holds [pendingLock] for writing, so that its
    goroutines keep the packets they have taken; in transport the lock is free. The
    [inTransport] flag is off in an idle peer and on in transport. While a handshake is under
    way the peer is its initiator and has made one to ten attempts. The handshake timer is
    not armed in transport, the two transport timers are armed only there. A stopped peer is
    idle, its goroutines have exited. No channel holds a nil. *)
Record peer_inv p : Prop := mkInv {
  inv_mu : mu p = unlocked;
  inv_state : state p = 0 \/ state p = 1 \/ state p = 2;
  inv_lock : pendingLock p = if running p && negb (bool_decide (state p = 2)) then wlocked else unlocked;
  inv_flag : (state p = 0 -> inTransport p = false) /\ (state p = 2 -> inTransport p = true);
  inv_stopped : running p = false -> state p = 0;
  inv_routines : alive (g_inbound p) = running p /\ alive (g_outbound p) = running p /\
                 alive (g_handshake p) = running p /\ wg p = (if running p then 3 else 0);
  inv_idle : state p = 0 -> initiator p = false;
  inv_initiator : state p = 1 -> initiator p = true;
  inv_retries : (state p = 1 -> 1 <= handshakeRetries p <= CountHandshakeRetries) /\
                (state p <> 1 -> handshakeRetries p = 0);
  inv_timer : state p = 2 -> handshakeSent p = None;
  inv_timers : state p <> 2 -> receivedPacket p = None /\ keepalive p = None;
  inv_queues : Forall is_Some (inbound p) /\ Forall is_Some (outbound p) /\ Forall is_Some (handshakes p)
}.

End Invariant.

(** ** The steps *)

Section Steps.
Context `{Noise, PoolChoice, NodeExt}.
Abbreviation Peer := NodePeer.Peer.
Implicit Types (p : Peer) (s : PS).

(** Timers fire once: the timer is off when its function runs. *)
Definition fire (off : Peer -> Peer) (m : go PS unit) : go PS unit := _ ← pmod off; m.

Inductive peer_step : PS -> PS -> Prop :=
| step_start s s' : Peer_Start s = Done None s' -> peer_step s s'
| step_stop s s' : Peer_Stop s = Done tt s' -> peer_step s s'
| step_inbound_recv s s' : g_inbound (self s) = Waiting -> Inbound_recv s = Done tt s' -> peer_step s s'
| step_inbound_body b s s' : g_inbound (self s) = Busy b -> Inbound_body b s = Done tt s' -> peer_step s s'
| step_outbound_recv s s' : g_outbound (self s) = Waiting -> Outbound_recv s = Done tt s' -> peer_step s s'
| step_outbound_body b s s' : g_outbound (self s) = Busy b -> Outbound_body b s = Done tt s' -> peer_step s s'
| step_handshake_recv s s' : g_handshake (self s) = Waiting -> Handshake_recv s = Done tt s' -> peer_step s s'
| step_handshake_body b s s' : g_handshake (self s) = Busy b -> Handshake_body b s = Done tt s' -> peer_step s s'
| step_tunnel_packet b s s' : OutboundPacket b s = Done tt s' -> peer_step s s'
| step_data_packet b s s' : InboundPacket b s = Done tt s' -> peer_step s s'
| step_handshake_packet b s s' :
    running (self s) = true -> send_handshakes (Some b) s = Done tt s' -> peer_step s s'
| step_handshake_timer d s s' :
    handshakeSent (self s) = Some d ->
    fire (fun p => p <| handshakeSent := None |>) HandshakeTimeout s = Done tt s' -> peer_step s s'
| step_keepalive_timer d ptr s s' :
    keepalive (self s) = Some d ->
    fire (fun p => p <| keepalive := None |>) (TXTimeout ptr) s = Done tt s' -> peer_step s s'
| step_receive_timer d s s' :
    receivedPacket (self s) = Some d ->
    fire (fun p => p <| receivedPacket := None |>) RXTimeout s = Done tt s' -> peer_step s s'
| step_update info r s s' : Update info s = Done r s' -> peer_step s s'.
End Steps.

(** ** Every step keeps the invariant *)

(** The walk with the rules of the compound programs. *)
Ltac walk_step :=
  lazymatch goal with
  | |- holds (UpdateEndpoint _) _ _ => apply holds_UpdateEndpoint; intros ? ?
  | |- holds (WriteToUDP _ _) _ _ => apply holds_WriteToUDP; intros ?
  | |- holds (handshakeP2 _) _ _ => apply holds_handshakeP2; intros ? ? ? ? ? ? ?
  | |- holds (TrySendHandshake _) _ _ =>
      apply holds_TrySendHandshake; cbn; intros ? ?; split; [intros ? ?|intros ? ?]
  | |- _ => wp_step2
  end.
Ltac walk := repeat (walk_step; cbn beta).

(** Opens the invariant on a state given by its fields, by cases on the state. *)
Ltac open_inv Hinv :=
  match type of Hinv with peer_inv (self ?s) => destruct s as [[] ?] end;
  destruct Hinv as [? Hst ? (? & ?) Hstop (? & ? & ? & ?) ? ? (? & ?) ? Htm (? & ? & ?)]; cbn in *;
  match goal with r : bool, _ : alive _ = ?r |- _ => destruct r; cbn in * end;
  [destruct Hst as [-> | [-> | ->]]|specialize (Hstop eq_refl); clear Hst; subst]; cbn in *;
  subst; repeat match goal with
  | H : ?x = ?x -> _ |- _ => specialize (H eq_refl)
  | H : 0 <> 1 -> _ |- _ => specialize (H ltac:(lia))
  | H : 2 <> 1 -> _ |- _ => specialize (H ltac:(lia))
  | H : 0 <> 2 -> _ |- _ => destruct (H ltac:(lia)); clear H
  | H : 1 <> 2 -> _ |- _ => destruct (H ltac:(lia)); clear H
  end; subst; try discriminate.
Ltac bools :=
  repeat match goal with
  | |- context [bool_decide ?P] => first [rewrite (bool_decide_true P) by done | rewrite (bool_decide_false P) by (by intros ?)]
  | H : context [bool_decide ?P] |- _ =>
      first [rewrite (bool_decide_true P) in H by done | rewrite (bool_decide_false P) in H by (by intros ?)]
  end.
(** Closes the invariant of the state a walk has reached. *)
Ltac close_inv :=
  cbn in *; unfold set_mu, set_pending, reset_peer, sent_peer, session_peer, unlocked, wlocked, Timer_Stop, Timer_Reset in *;
  cbn in *; simplify_eq; cbn in *;
  try done;
  try (constructor; cbn in *; bools; repeat split; intros; cbn in *; try done; try lia; try congruence;
       try (by left); try (by right; left); try (by right; right);
       try (by decompose_Forall_hyps); try (by apply Forall_app_2; [|apply Forall_singleton; eexists])).

Section Preservation.
Context `{Noise, PoolChoice, NodeExt}.
Abbreviation Peer := NodePeer.Peer.
Implicit Types (p : Peer) (s : PS).

Definition keeps (m : go PS unit) : Prop :=
  forall s, peer_inv (self s) -> holds m s (fun _ s' => peer_inv (self s')).

Lemma Start_inv s : peer_inv (self s) -> holds Peer_Start s (fun _ s' => peer_inv (self s')).
Proof. intros Hinv. open_inv Hinv; unfold Peer_Start; wp2; close_inv. Qed.

Lemma InboundPacket_inv b : keeps (InboundPacket b).
Proof. intros s Hinv. open_inv Hinv; unfold InboundPacket; wp2; close_inv. Qed.
Lemma send_handshakes_inv b s :
  running (self s) = true -> peer_inv (self s) -> holds (send_handshakes (Some b)) s (fun _ s' => peer_inv (self s')).
Proof. intros Hrun Hinv. open_inv Hinv; unfold send_handshakes; wp2; close_inv. Qed.

Lemma Inbound_recv_inv s :
  g_inbound (self s) = Waiting -> peer_inv (self s) -> holds Inbound_recv s (fun _ s' => peer_inv (self s')).
Proof. intros Hg Hinv. open_inv Hinv; unfold Inbound_recv; wp2; close_inv. Qed.
Lemma Outbound_recv_inv s :
  g_outbound (self s) = Waiting -> peer_inv (self s) -> holds Outbound_recv s (fun _ s' => peer_inv (self s')).
Proof. intros Hg Hinv. open_inv Hinv; unfold Outbound_recv; wp2; close_inv. Qed.
Lemma Handshake_recv_inv s :
  g_handshake (self s) = Waiting -> peer_inv (self s) -> holds Handshake_recv s (fun _ s' => peer_inv (self s')).
Proof. intros Hg Hinv. open_inv Hinv; unfold Handshake_recv; wp2; close_inv. Qed.

(** With a packet in hand the goroutine exists, so the peer is running. *)
Lemma Inbound_body_inv b s :
  g_inbound (self s) = Busy b -> peer_inv (self s) -> holds (Inbound_body b) s (fun _ s' => peer_inv (self s')).
Proof.
  intros Hg Hinv. open_inv Hinv; unfold Inbound_body, tun_Write; walk; close_inv.
Qed.
Lemma Outbound_body_inv b s :
  g_outbound (self s) = Busy b -> peer_inv (self s) -> holds (Outbound_body b) s (fun _ s' => peer_inv (self s')).
Proof.
  intros Hg Hinv. open_inv Hinv; unfold Outbound_body; walk; close_inv.
Qed.

Lemma HandshakeTimeout_inv d s :
  handshakeSent (self s) = Some d -> peer_inv (self s) ->
  holds (fire (fun p => p <| handshakeSent := None |>) HandshakeTimeout) s (fun _ s' => peer_inv (self s')).
Proof.
  intros Ht Hinv. open_inv Hinv; unfold fire, HandshakeTimeout; walk; close_inv;
    unfold CountHandshakeRetries in *; rewrite add64_small in * by lia; lia.
Qed.

Lemma TXTimeout_inv ptr : keeps (fire (fun p => p <| keepalive := None |>) (TXTimeout ptr)).
Proof. intros s Hinv. open_inv Hinv; unfold fire, TXTimeout, send_outbound; walk; close_inv. Qed.

Lemma RXTimeout_inv d s :
  receivedPacket (self s) = Some d -> peer_inv (self s) ->
  holds (fire (fun p => p <| receivedPacket := None |>) RXTimeout) s (fun _ s' => peer_inv (self s')).
Proof. intros Ht Hinv. open_inv Hinv; unfold fire, RXTimeout; walk; close_inv. Qed.

(** A first packet for an idle peer starts the handshake; with any other the state stays. *)
Lemma OutboundPacket_inv b : keeps (OutboundPacket b).
Proof. intros s Hinv. open_inv Hinv; unfold OutboundPacket; walk; close_inv. Qed.

Lemma Handshake_body_inv b s :
  g_handshake (self s) = Busy b -> peer_inv (self s) -> holds (Handshake_body b) s (fun _ s' => peer_inv (self s')).
Proof.
  intros Hg Hinv. open_inv Hinv; unfold Handshake_body, handshakeP2_or_panic; walk; close_inv.
Qed.

(** *** Stopping *)

Lemma holds_seq {A B} (m : go PS A) (k : A -> go PS B) s P Q :
  holds m s P -> (forall a s', P a s' -> holds (k a) s' Q) -> holds (m ≫= k) s Q.
Proof. intros Hm Hk. apply holds_bind. eapply holds_mono; [|exact Hm]. exact Hk. Qed.

(** The goroutines give the lock of a peer in transport back as they found it. *)
Definition free s : Prop := pendingLock (self s) = unlocked.
Definition keeps_free (m : go PS unit) : Prop := forall s, free s -> holds m s (fun _ s' => free s').
Ltac frees := intros [[] ?] Hf; unfold free in *; cbn in Hf; subst; walk; close_inv.

Lemma Inbound_recv_free : keeps_free Inbound_recv.
Proof. unfold Inbound_recv. frees. Qed.
Lemma Outbound_recv_free : keeps_free Outbound_recv.
Proof. unfold Outbound_recv. frees. Qed.
Lemma Handshake_recv_free : keeps_free Handshake_recv.
Proof. unfold Handshake_recv. frees. Qed.
Lemma Inbound_body_free b : keeps_free (Inbound_body b).
Proof. unfold Inbound_body, tun_Write. frees. Qed.
Lemma Outbound_body_free b : keeps_free (Outbound_body b).
Proof. unfold Outbound_body. frees. Qed.
Lemma Handshake_body_free b : keeps_free (Handshake_body b).
Proof. unfold Handshake_body, handshakeP2_or_panic. frees. Qed.

Lemma Inbound_exit_free n : keeps_free (Inbound_exit n).
Proof.
  induction n as [|n IH]; intros s Hs; cbn [Inbound_exit]; wp; try done;
    (eapply holds_mono; [|by first [apply Inbound_recv_free | apply Inbound_body_free]]; intros [] s' Hs'; by apply IH).
Qed.
Lemma Outbound_exit_free n : keeps_free (Outbound_exit n).
Proof.
  induction n as [|n IH]; intros s Hs; cbn [Outbound_exit]; wp; try done;
    (eapply holds_mono; [|by first [apply Outbound_recv_free | apply Outbound_body_free]]; intros [] s' Hs'; by apply IH).
Qed.
Lemma Handshake_exit_free n : keeps_free (Handshake_exit n).
Proof.
  induction n as [|n IH]; intros s Hs; cbn [Handshake_exit]; wp; try done;
    (eapply holds_mono; [|by first [apply Handshake_recv_free | apply Handshake_body_free]]; intros [] s' Hs'; by apply IH).
Qed.
Lemma wait_group_free : keeps_free wait_group.
Proof.
  intros s Hs. unfold wait_group. apply holds_bind, holds_reads.
  eapply holds_seq; [by apply Handshake_exit_free|intros [] s1 H1'].
  eapply holds_seq; [by apply Inbound_exit_free|intros [] s2 H2']. by apply Outbound_exit_free.
Qed.

(** In a peer that waits for its handshake, the goroutines that hold nothing exit; one that
    holds a packet never does. [s] is the state [Stop] waits in. *)
Definition stopping s : Prop :=
  mu (self s) = wlocked /\ pendingLock (self s) = wlocked /\ state (self s) = 0 /\
  inbound (self s) = [None] /\ outbound (self s) = [None] /\ handshakes (self s) = [None].
Definition stopped_peer p : Peer :=
  p <| inbound := [] |> <| outbound := [] |> <| handshakes := [] |> <| g_inbound := Off |>
    <| g_outbound := Off |> <| g_handshake := Off |> <| wg := wg p - 3 |>.

Lemma Inbound_body_stuck b s Q : pendingLock (self s) = wlocked -> holds (Inbound_body b) s Q.
Proof. intros E. unfold Inbound_body. apply holds_bind, holds_pending_RLock. intros n. by rewrite E. Qed.
Lemma Outbound_body_stuck b s Q : pendingLock (self s) = wlocked -> holds (Outbound_body b) s Q.
Proof. intros E. unfold Outbound_body. apply holds_bind, holds_pending_RLock. intros n. by rewrite E. Qed.
Lemma Handshake_body_stuck b s Q :
  mu (self s) = wlocked -> state (self s) = 0 -> holds (Handshake_body b) s Q.
Proof.
  intros E Es. unfold Handshake_body. wp_step. wp_step. rewrite Es, bool_decide_true by done.
  wp_step. wp_step; [apply holds_panic|]. unfold handshakeP2_or_panic. do 2 apply holds_bind.
  apply holds_handshakeP2. by rewrite E.
Qed.

Lemma Inbound_exit_stopping s (Q : unit -> PS -> Prop) :
  pendingLock (self s) = wlocked -> inbound (self s) = [None] -> alive (g_inbound (self s)) = true ->
  Q tt (mkPS _ ((self s) <| inbound := [] |> <| g_inbound := Off |> <| wg ::= Z.pred |>) (env s)) ->
  holds (Inbound_exit 3) s Q.
Proof.
  destruct s as [[] e]. intros ? ? Hi HQ; cbn in *; subst. cbn [Inbound_exit].
  apply holds_bind, holds_pget. cbn. destruct g_inbound as [| |b]; [done| |].
  - unfold Inbound_recv. do 2 apply holds_bind. apply holds_pget, holds_pmod. cbn.
    apply holds_bind, holds_pget, holds_mret, HQ.
  - apply holds_bind. by apply Inbound_body_stuck.
Qed.
Lemma Outbound_exit_stopping s (Q : unit -> PS -> Prop) :
  pendingLock (self s) = wlocked -> outbound (self s) = [None] -> alive (g_outbound (self s)) = true ->
  Q tt (mkPS _ ((self s) <| outbound := [] |> <| g_outbound := Off |> <| wg ::= Z.pred |>) (env s)) ->
  holds (Outbound_exit 3) s Q.
Proof.
  destruct s as [[] e]. intros ? ? Hi HQ; cbn in *; subst. cbn [Outbound_exit].
  apply holds_bind, holds_pget. cbn. destruct g_outbound as [| |b]; [done| |].
  - unfold Outbound_recv. do 2 apply holds_bind. apply holds_pget, holds_pmod. cbn.
    apply holds_bind, holds_pget, holds_mret, HQ.
  - apply holds_bind. by apply Outbound_body_stuck.
Qed.
Lemma Handshake_exit_stopping s (Q : unit -> PS -> Prop) :
  stopping s -> alive (g_handshake (self s)) = true ->
  Q tt (mkPS _ ((self s) <| handshakes := [] |> <| g_handshake := Off |> <| wg ::= Z.pred |>) (env s)) ->
  holds (Handshake_exit 3) s Q.
Proof.
  destruct s as [[] e]. intros (? & ? & ? & ? & ? & ?) Hi HQ; cbn in *; subst. cbn [Handshake_exit].
  apply holds_bind, holds_pget. cbn. destruct g_handshake as [| |b]; [done| |].
  - unfold Handshake_recv. do 2 apply holds_bind. apply holds_pget, holds_pmod. cbn.
    apply holds_bind, holds_pget, holds_mret, HQ.
  - apply holds_bind. by apply Handshake_body_stuck.
Qed.

Lemma holds_wait_group s (Q : unit -> PS -> Prop) :
  stopping s -> alive (g_inbound (self s)) = true -> alive (g_outbound (self s)) = true ->
  alive (g_handshake (self s)) = true ->
  Q tt (mkPS _ (stopped_peer (self s)) (env s)) -> holds wait_group s Q.
Proof.
  destruct s as [[] e]. intros Hs Hi Ho Hh HQ. pose proof Hs as (? & ? & ? & ? & ? & ?); cbn in *; subst.
  unfold wait_group. apply holds_bind, holds_reads. cbn [self handshakes inbound outbound length Nat.mul Nat.add].
  apply holds_bind, Handshake_exit_stopping; [done..|].
  apply holds_bind, Inbound_exit_stopping; [done..|].
  apply Outbound_exit_stopping; [done..|].
  unfold stopped_peer in HQ; cbn in *. by replace (wg - 3) with (Z.pred (Z.pred (Z.pred wg))) in HQ by lia.
Qed.

(** The peer [Stop] waits with. *)
Definition stop_peer p : Peer :=
  (reset_peer p) <| running := false |> <| mu := wlocked |> <| handshakes := [None] |> <| inbound := [None] |>
    <| outbound := [None] |>.

Lemma holds_Stop_begin s (Q : unit -> PS -> Prop) :
  (forall e, Q tt (mkPS _ (stop_peer (self s)) e)) -> holds Peer_Stop_begin s Q.
Proof.
  destruct s as [[] e]. intros HQ. unfold Peer_Stop_begin, send_handshakes, send_inbound, send_outbound.
  apply holds_bind, holds_pmod, holds_bind, holds_ResetState. intros _ e1. cbn.
  apply holds_bind, holds_mu_Lock. intros Hmu. cbn in Hmu; subst. unfold set_mu, reset_peer; cbn.
  do 2 apply holds_bind. apply holds_pget. cbn. apply holds_pmod. cbn.
  do 2 apply holds_bind. apply holds_pget. cbn. apply holds_pmod. cbn.
  apply holds_bind, holds_pget. cbn. apply holds_pmod. apply HQ.
Qed.

Lemma Peer_Stop_inv s :
  peer_inv (self s) -> holds Peer_Stop s (fun _ s' => peer_inv (self s') /\ running (self s') = false).
Proof.
  intros Hinv. unfold Peer_Stop. apply holds_bind, holds_Stop_begin. intros e1.
  assert (Hcase : pendingLock (self s) = unlocked \/ running (self s) = true /\ state (self s) <> 2).
  { rewrite (inv_lock _ Hinv). destruct (running (self s)); [|by left]. case_bool_decide; [by left|by right]. }
  destruct Hcase as [Hfree|[Hrun Hne]].
  - eapply holds_seq; [by apply wait_group_free|]. intros [] [[] e2] Hf. unfold free in Hf; cbn in Hf; subst.
    apply holds_bind, holds_pending_Unlock. intros n Hn. discriminate Hn.
  - destruct (inv_routines _ Hinv) as (G1 & G2 & G3 & G4). rewrite Hrun in *.
    pose proof (inv_mu _ Hinv). pose proof (inv_lock _ Hinv) as HL. rewrite Hrun, bool_decide_false in HL by done.
    destruct s as [[] e]; cbn in *; subst.
    apply holds_bind, holds_wait_group; [split_and!; reflexivity|assumption..|].
    apply holds_bind, holds_pending_Unlock. cbn. intros n [= <-].
    split; [|reflexivity]. close_inv.
Qed.

Lemma Update_endpoint_inv c n : keeps (Update_endpoint c n).
Proof. intros s Hinv. open_inv Hinv; unfold Update_endpoint; walk; close_inv. Qed.
Lemma Update_hostname_inv c n : keeps (Update_hostname c n).
Proof. intros s Hinv. open_inv Hinv; unfold Update_hostname; walk; close_inv. Qed.
Lemma Update_ip_inv c n : keeps (Update_ip c n).
Proof. intros s Hinv. open_inv Hinv; unfold Update_ip; walk; close_inv. Qed.
Lemma Update_key_inv c n : keeps (Update_key c n).
Proof.
  intros s Hinv. unfold Update_key. destruct (DecodeBase64Key n) as [k|]; [|done].
  case_bool_decide; [|done].
  eapply holds_seq; [by apply Peer_Stop_inv|]. intros [] s1 [Hinv1 _].
  apply (holds_seq (with_mu Lock) _ s1 (fun _ s' => peer_inv (set_mu unlocked (self s')) /\ mu (self s') = wlocked)).
  { apply holds_mu_Lock. intros Hmu. split; [|done]. open_inv Hinv1; close_inv. }
  intros [] s2 [Hinv2 Hmu2]. apply holds_bind, holds_pmod.
  apply (holds_seq (with_mu Unlock) _ _ (fun _ s' => peer_inv (self s'))).
  { destruct s2 as [[] e2]; cbn in *; subst. apply holds_mu_Unlock. cbn. intros n0 [= <-]. destruct Hinv2.
    constructor; done. }
  intros [] s3 Hinv3. eapply holds_seq; [by apply Start_inv|]. intros [|] s4 Hinv4; done.
Qed.

Lemma Update_inv info s : peer_inv (self s) -> holds (Update info) s (fun _ s' => peer_inv (self s')).
Proof.
  intros Hinv. unfold Update.
  apply (holds_seq (with_mu RLock) _ s (fun _ s' => self s' = set_mu (mkRWMutex false 1) (self s))).
  { apply holds_mu_RLock. intros n Hn. rewrite (inv_mu _ Hinv) in Hn. injection Hn as <-. done. }
  intros [] s1 E1. apply holds_bind, holds_reads.
  apply (holds_seq (with_mu RUnlock) _ s1 (fun _ s' => peer_inv (self s'))).
  { apply holds_mu_RUnlock. rewrite E1. cbn. intros x n [= <- <-]. pose proof (inv_mu _ Hinv) as Hmu.
    destruct s as [[] ?]; cbn in *; subst. exact Hinv. }
  intros [] s2 Hinv2. destruct (ParseAddrPort (m_Endpoint info)); [|done].
  eapply holds_seq; [by apply Update_endpoint_inv|]. intros [] s3 Hinv3.
  eapply holds_seq; [by apply Update_hostname_inv|]. intros [] s4 Hinv4.
  eapply holds_seq; [by apply Update_key_inv|]. intros [] s5 Hinv5.
  eapply holds_seq; [by apply Update_ip_inv|]. intros [] s6 Hinv6. done.
Qed.

Lemma step_inv s s' : peer_inv (self s) -> peer_step s s' -> peer_inv (self s').
Proof.
  assert (Hrun : forall A (m : go PS A) s0 a s1 (I : Prop), m s0 = Done a s1 -> holds m s0 (fun _ s => peer_inv (self s)) -> peer_inv (self s1)).
  { intros A m s0 a s1 _ E Hh. unfold holds in Hh. by rewrite E in Hh. }
  intros Hinv Hstep. revert Hinv.
  destruct Hstep as [? ? E|? ? E|? ? ? E|? ? ? ? E|? ? ? E|? ? ? ? E|? ? ? E|? ? ? ? E|? ? ? E|? ? ? E|
    ? ? ? ? E|? ? ? ? E|? ? ? ? ? E|? ? ? ? E|? ? ? ? E]; intros Hinv;
    apply (Hrun _ _ _ _ _ True E).
  - by apply Start_inv.
  - eapply holds_mono; [|by apply Peer_Stop_inv]. by intros ? ? [? _].
  - by apply Inbound_recv_inv.
  - by apply Inbound_body_inv.
  - by apply Outbound_recv_inv.
  - by apply Outbound_body_inv.
  - by apply Handshake_recv_inv.
  - by apply Handshake_body_inv.
  - by apply OutboundPacket_inv.
  - by apply InboundPacket_inv.
  - by apply send_handshakes_inv.
  - by eapply HandshakeTimeout_inv.
  - by apply TXTimeout_inv.
  - by eapply RXTimeout_inv.
  - by apply Update_inv.
Qed.
End Preservation.

(** ** Properties *)

Section LifecycleTheorems.
Context `{Noise, PoolChoice, NodeExt}.
Abbreviation Peer := NodePeer.Peer.
Implicit Types (p : Peer) (s : PS).

(** A peer as [AddPeer] stores it. *)
Definition added_peer (id : Z) (ip : Addr) (key : list Z) (host : string) (ua : UDPAddr) : Peer :=
  NewPeer <| ID := id |> <| IP := ip |> <| pubkey := key |> <| Hostname := host |> <| raddr := Some ua |>.

(** C21. The lock discipline of a peer: from the moment it is added, through any sequence of
    starts, stops, packets, updates, timer expiries and turns of its goroutines that do not
    crash, the invariant holds - the state is one of the three, the lock the packets wait for
    is held exactly by a running peer that is not in transport, a handshake under way has a
    retry count between one and ten, the timers are armed only where their functions expect
    it. In particular a goroutine that gets through its turn with a data packet does so in
    transport: no packet is encrypted or decrypted before a handshake has finished. *)
Theorem peer_lifecycle id ip key host ua e s
    (Hreach : reach peer_step (mkPS _ (added_peer id ip key host ua) e) s) :
  peer_inv (self s) /\
  (forall b s', g_inbound (self s) = Busy b -> Inbound_body b s = Done tt s' -> state (self s) = 2) /\
  (forall b s', g_outbound (self s) = Busy b -> Outbound_body b s = Done tt s' -> state (self s) = 2).
Proof.
  assert (Hinv : peer_inv (self s)).
  { eapply (reach_invariant _ (fun s => peer_inv (self s))); [|intros x y; apply step_inv|exact Hreach].
    unfold added_peer, NewPeer. cbn. constructor; cbn; try done; auto. }
  split; [done|]. destruct (inv_routines _ Hinv) as (G1 & G2 & _ & _).
  pose proof (inv_lock _ Hinv) as HL.
  assert (Hfree : pendingLock (self s) <> wlocked -> running (self s) = true -> state (self s) = 2).
  { intros Hne Hr. rewrite Hr in HL. case_bool_decide; done. }
  split; intros b s' Hb Hrun; apply Hfree.
  - intros Hl. pose proof (Inbound_body_stuck b s (fun _ _ => False) Hl) as Hs. unfold holds in Hs. by rewrite Hrun in Hs.
  - by rewrite <- G1, Hb.
  - intros Hl. pose proof (Outbound_body_stuck b s (fun _ _ => False) Hl) as Hs. unfold holds in Hs. by rewrite Hrun in Hs.
  - by rewrite <- G2, Hb.
Qed.
End LifecycleTheorems.

(** ** A concrete life: started, a packet to send, the packet taken by its goroutine. *)

Definition demo_added : NodePeer.Peer := added_peer 2 (Addr4 0x64460002) [12] "peer" (demo_ua 2).
Definition life (m1 : go PS (option string)) (m2 m3 : go PS unit) : go PS (option string * bool * Z) :=
  r ← m1;
  _ ← m2;
  g ← pget g_outbound;
  _ ← m3;
  st ← pget state;
  mret (r, match g with Waiting => true | _ => false end, st).
Lemma life_run m1 m2 m3 s0 v :
  out_val (life m1 m2 m3 s0) = Some (None, true, v) ->
  exists s1 s2 s3, m1 s0 = Done None s1 /\ m2 s1 = Done tt s2 /\ g_outbound (self s2) = Waiting /\
    m3 s2 = Done tt s3 /\ state (self s3) = v.
Proof.
  unfold life, mbind, go_bind. destruct (m1 s0) as [r s1| |]; [|done..].
  destruct (m2 s1) as [[] s2| |] eqn:E2; [|done..]. cbn.
  destruct (m3 s2) as [[] s3| |] eqn:E3; [|done..]. cbn. intros [= -> Hg Hv].
  exists s1, s2, s3. split_and!; try done. by destruct (g_outbound (self s2)).
Qed.

Lemma peer_lifecycle_witness :
  exists s, (peer_inv (self s) /\
    (forall b s', g_inbound (self s) = Busy b -> Inbound_body b s = Done tt s' -> state (self s) = 2) /\
    (forall b s', g_outbound (self s) = Busy b -> Outbound_body b s = Done tt s' -> state (self s) = 2)) /\
    state (self s) = 1.
Proof.
  destruct (life_run Peer_Start (OutboundPacket demo_packet) Outbound_recv (mkPS toy_noise demo_added (demo_env 1)) 1)
    as (s1 & s2 & s3 & E1 & E2 & Hg & E3 & Hs); [vm_compute; reflexivity|].
  exists s3. split; [|exact Hs].
  apply (peer_lifecycle 2 (Addr4 0x64460002) [12] "peer" (demo_ua 2) (demo_env 1) s3).
  apply (reach_step _ _ s2 s3 (reach_step _ _ s1 s2 (reach_step _ _ (mkPS toy_noise demo_added (demo_env 1)) s1 (reach_refl _ _)
           (step_start _ s1 E1)) (step_tunnel_packet demo_packet s1 s2 E2)) (step_outbound_recv s2 s3 Hg E3)).
Defined.
