(* ===== verification/PeerData.v ===== *)
(** What the data path of a peer relies on, as an invariant of all its programs: the packets in
    its channels and in its goroutines' hands are well-formed, it has an address, in transport
    it has both ciphers, while it waits for an answer it has the session that answer is for,
    and the pools it returns buffers to are clean.

    With it the goroutines that encrypt and decrypt never crash, whatever they are handed. *)

From S2P Require Import Prelude Bytes Header GoTime Netip Types GoSync Queue Grpc NodePeer NoiseLaws NodeCore Transport PeerWp.

(** ** The invariant *)

Section Data.
Context `{Noise, PoolChoice, NodeExt}.
Abbreviation Peer := NodePeer.Peer.
Implicit Types (p : Peer) (s : PS).

Definition ob_pkt_ok (b : OutboundBuffer) : Prop := ob_ok b /\ 0 <= ob_size b <= Z.of_nat BufferSize.
Definition out_queue_ok (q : list (option OutboundBuffer)) : Prop := Forall (from_option ob_pkt_ok True) q.
Definition out_routine_ok (g : routine OutboundBuffer) : Prop :=
  match g with Busy b => ob_pkt_ok b | _ => True end.

Record session_ok p : Prop := mkSession {
  session_idle : state p = 0 -> initiator p = false;
  session_waiting : state p = 1 -> initiator p = true /\ exists h, hs p = Some h /\ initiated h;
  session_ciphers : state p = 2 -> is_Some (rx p) /\ is_Some (tx p);
  session_over : state p = 2 -> initiator p = true -> hs p = None
}.

(** [id] is the peer's id, which no program of it changes. *)
Record base_ok (id : Z) s : Prop := mkBase {
  base_id : ID (self s) = id;
  base_in : peer_pkts_ok (self s);
  base_out : out_queue_ok (outbound (self s)) /\ out_routine_ok (g_outbound (self s));
  base_raddr : is_Some (raddr (self s));
  base_pools : pools_clean (pools (env s))
}.
Definition data_ok (id : Z) s : Prop := base_ok id s /\ session_ok (self s).

Definition keeps_data {A} (m : go PS A) : Prop :=
  forall id s, data_ok id s -> holds m s (fun _ s' => data_ok id s').
End Data.

(** ** Rules with the pools *)

Section PoolRules.
Context `{Noise, PoolChoice}.
Implicit Types (s : PS).

Lemma holds_put_in b s (Q : unit -> PS -> Prop) :
  ib_ok b -> pools_clean (pools (env s)) ->
  (forall q, pools_clean q -> Q tt (mkPS _ (self s) ((env s) <| pools := q |>))) ->
  holds (with_pools (PutInboundBuffer (Some b))) s Q.
Proof.
  intros Hb Hp HQ. destruct (PutInboundBuffer_clean b _ Hb Hp) as (q & E & Hq & _).
  unfold holds, with_pools, zoom. rewrite E. destruct s. by apply HQ.
Qed.
Lemma holds_put_out b s (Q : unit -> PS -> Prop) :
  ob_ok b -> pools_clean (pools (env s)) ->
  (forall q, pools_clean q -> Q tt (mkPS _ (self s) ((env s) <| pools := q |>))) ->
  holds (with_pools (PutOutboundBuffer (Some b))) s Q.
Proof.
  intros Hb Hp HQ. destruct (PutOutboundBuffer_clean b _ Hb Hp) as (q & E & Hq & _).
  unfold holds, with_pools, zoom. rewrite E. destruct s. by apply HQ.
Qed.
Lemma holds_get_out s (Q : OutboundBuffer -> PS -> Prop) :
  pools_clean (pools (env s)) ->
  (forall b q, ob_clean b -> pools_clean q -> Q b (mkPS _ (self s) ((env s) <| pools := q |>))) ->
  holds (with_pools GetOutboundBuffer) s Q.
Proof.
  intros Hp HQ. destruct (GetOutboundBuffer_clean _ Hp) as (b & q & E & Hb & Hq & _).
  unfold holds, with_pools, zoom. rewrite E. destruct s. by apply HQ.
Qed.
Lemma holds_put_in_any (b : option InboundBuffer) s (Q : unit -> PS -> Prop) :
  from_option ib_ok True b -> pools_clean (pools (env s)) ->
  (forall q, pools_clean q -> Q tt (mkPS _ (self s) ((env s) <| pools := q |>))) ->
  holds (with_pools (PutInboundBuffer b)) s Q.
Proof. destruct b; [apply holds_put_in|done]. Qed.
Lemma holds_put_out_any (b : option OutboundBuffer) s (Q : unit -> PS -> Prop) :
  from_option ob_ok True b -> pools_clean (pools (env s)) ->
  (forall q, pools_clean q -> Q tt (mkPS _ (self s) ((env s) <| pools := q |>))) ->
  holds (with_pools (PutOutboundBuffer b)) s Q.
Proof. destruct b; [apply holds_put_out|done]. Qed.

(** What a write to the socket leaves of the environment. *)
Lemma holds_socket b a s (Q : unit -> PS -> Prop) :
  (forall e, pools e = pools (env s) -> Q tt (mkPS _ (self s) e)) -> holds (WriteToUDP b a) s Q.
Proof.
  intros HQ. unfold WriteToUDP. destruct a; [|apply holds_mret; destruct s; by apply HQ].
  apply holds_emod. by apply HQ.
Qed.

Lemma holds_encode {A} b t i n (k : OutboundBuffer -> slice -> go PS A) s Q :
  ob_ok b -> (forall b' out, ob_ok b' -> ob_packet b' = ob_packet b -> ob_size b' = ob_size b -> holds (k b' out) s Q) ->
  holds (let '(b', out) := encode_header b t i n in k b' out) s Q.
Proof. intros Hb Hk. destruct (encode_header_eq b t i n Hb) as (b' & -> & Hb' & Ep & Es). by apply Hk. Qed.
End PoolRules.

(** ** Programs that never crash

    [runs m s Q]: [m] finishes from [s] with [Q], or waits. *)

Section Runs.
Context `{Noise, PoolChoice}.
Implicit Types (s : PS).

Definition runs {A} (m : go PS A) s (Q : A -> PS -> Prop) : Prop :=
  match m s with Done a s' => Q a s' | Blocked _ _ => True | Crash _ _ => False end.

Lemma runs_holds {A} (m : go PS A) s Q : runs m s Q -> holds m s Q.
Proof. unfold runs, holds. by destruct (m s). Qed.
Lemma runs_bind {A B} (m : go PS A) (f : A -> go PS B) s Q :
  runs m s (fun a s' => runs (f a) s' Q) -> runs (m ≫= f) s Q.
Proof. unfold runs, mbind, go_bind. by destruct (m s). Qed.
Lemma runs_mret {A} (a : A) s Q : Q a s -> runs (mret a) s Q.
Proof. done. Qed.
Lemma runs_pget {A} (f : NodePeer.Peer -> A) s Q : Q (f (self s)) s -> runs (pget f) s Q.
Proof. done. Qed.
Lemma runs_eget {A} (f : Env -> A) s Q : Q (f (env s)) s -> runs (eget f) s Q.
Proof. done. Qed.
Lemma runs_pmod f s p' Q : f (self s) = p' -> Q tt (mkPS _ p' (env s)) -> runs (pmod f) s Q.
Proof. destruct s. by intros <-. Qed.
Lemma runs_emod f s e' Q : f (env s) = e' -> Q tt (mkPS _ (self s) e') -> runs (emod f) s Q.
Proof. destruct s. by intros <-. Qed.
Lemma runs_lib {A} (o : result crash A) a s Q : o = Ok a -> Q a s -> runs (lib o) s Q.
Proof. by intros ->. Qed.
Lemma runs_slice b lo hi s Q :
  0 <= lo /\ lo <= hi /\ hi <= s_cap b -> (forall x, Q x s) -> runs (slice_expr b lo hi) s Q.
Proof. intros Hb HQ. unfold slice_expr, reslice. rewrite decide_True by done. apply HQ. Qed.
Lemma runs_mu_RLock p e (Q : unit -> PS -> Prop) :
  (forall n p', p <| mu := mkRWMutex false (S n) |> = p' -> Q tt (mkPS _ p' e)) -> runs (with_mu RLock) (mkPS _ p e) Q.
Proof. intros HQ. unfold runs, with_mu, zoom, RLock. cbn. destruct (mu p) as [[] n]; [done|]. by eapply HQ. Qed.
Lemma runs_mu_RUnlock x n p e p' (Q : unit -> PS -> Prop) :
  mu p = mkRWMutex x (S n) -> p <| mu := mkRWMutex x n |> = p' -> Q tt (mkPS _ p' e) ->
  runs (with_mu RUnlock) (mkPS _ p e) Q.
Proof. intros E <- HQ. unfold runs, with_mu, zoom, RUnlock. cbn. by rewrite E. Qed.
Lemma runs_mu_Lock p e p' (Q : unit -> PS -> Prop) :
  p <| mu := wlocked |> = p' -> Q tt (mkPS _ p' e) -> runs (with_mu Lock) (mkPS _ p e) Q.
Proof. intros <- HQ. unfold runs, with_mu, zoom, Lock. cbn. by destruct (mu p) as [[] []]. Qed.
Lemma runs_mu_Unlock n p e p' (Q : unit -> PS -> Prop) :
  mu p = mkRWMutex true n -> p <| mu := mkRWMutex false n |> = p' -> Q tt (mkPS _ p' e) ->
  runs (with_mu Unlock) (mkPS _ p e) Q.
Proof. intros E <- HQ. unfold runs, with_mu, zoom, Unlock. cbn. by rewrite E. Qed.
Lemma runs_pending_RLock p e (Q : unit -> PS -> Prop) :
  (forall n p', p <| pendingLock := mkRWMutex false (S n) |> = p' -> Q tt (mkPS _ p' e)) ->
  runs (with_pending RLock) (mkPS _ p e) Q.
Proof.
  intros HQ. unfold runs, with_pending, zoom, RLock. cbn. destruct (pendingLock p) as [[] n]; [done|]. by eapply HQ.
Qed.
Lemma runs_pending_RUnlock x n p e p' (Q : unit -> PS -> Prop) :
  pendingLock p = mkRWMutex x (S n) -> p <| pendingLock := mkRWMutex x n |> = p' -> Q tt (mkPS _ p' e) ->
  runs (with_pending RUnlock) (mkPS _ p e) Q.
Proof. intros E <- HQ. unfold runs, with_pending, zoom, RUnlock. cbn. by rewrite E. Qed.
Lemma runs_put_in b p e (Q : unit -> PS -> Prop) :
  ib_ok b -> pools_clean (pools e) -> (forall e', pools_clean (pools e') -> Q tt (mkPS _ p e')) ->
  runs (with_pools (PutInboundBuffer (Some b))) (mkPS _ p e) Q.
Proof.
  intros Hb Hp HQ. destruct (PutInboundBuffer_clean b _ Hb Hp) as (q & E & Hq & _).
  unfold runs, with_pools, zoom. cbn [env]. rewrite E. by apply HQ.
Qed.
Lemma runs_put_out b p e (Q : unit -> PS -> Prop) :
  ob_ok b -> pools_clean (pools e) -> (forall e', pools_clean (pools e') -> Q tt (mkPS _ p e')) ->
  runs (with_pools (PutOutboundBuffer (Some b))) (mkPS _ p e) Q.
Proof.
  intros Hb Hp HQ. destruct (PutOutboundBuffer_clean b _ Hb Hp) as (q & E & Hq & _).
  unfold runs, with_pools, zoom. cbn [env]. rewrite E. by apply HQ.
Qed.
Lemma runs_socket b a p e (Q : unit -> PS -> Prop) :
  (forall e', pools e' = pools e -> Q tt (mkPS _ p e')) -> runs (WriteToUDP b a) (mkPS _ p e) Q.
Proof.
  intros HQ. unfold WriteToUDP. destruct a; [|apply runs_mret; by apply HQ].
  eapply runs_emod; [reflexivity|]. by apply HQ.
Qed.
Lemma runs_tun b p e (Q : unit -> PS -> Prop) :
  (forall e', pools e' = pools e -> Q tt (mkPS _ p e')) -> runs (tun_Write b) (mkPS _ p e) Q.
Proof. intros HQ. unfold tun_Write. eapply runs_emod; [reflexivity|]. by apply HQ. Qed.
End Runs.

(** One rule at a time, as far as they apply without a side condition. *)
Ltac run_step :=
  lazymatch goal with
  | |- runs (mbind _ _) _ _ => apply runs_bind
  | |- runs (mret _) _ _ => apply runs_mret
  | |- runs (pget _) _ _ => apply runs_pget
  | |- runs (eget _) _ _ => apply runs_eget
  | |- runs (pmod _) _ _ => eapply runs_pmod; [cbn; reflexivity|]
  | |- runs (with_mu Lock) _ _ => eapply runs_mu_Lock; [cbn; reflexivity|]
  | |- runs (with_mu RLock) _ _ => apply runs_mu_RLock; intros ? ? ?; cbn in *; subst
  | |- runs (with_mu RUnlock) _ _ => eapply runs_mu_RUnlock; [reflexivity|cbn; reflexivity|]
  | |- runs (with_mu Unlock) _ _ => eapply runs_mu_Unlock; [reflexivity|cbn; reflexivity|]
  | |- runs (with_pending RUnlock) _ _ => eapply runs_pending_RUnlock; [reflexivity|cbn; reflexivity|]
  | |- runs (WriteToUDP _ _) _ _ => apply runs_socket; intros ? ?
  | |- runs (tun_Write _) _ _ => apply runs_tun; intros ? ?
  end.
Ltac run_walk := repeat (run_step; cbn beta).
Ltac pools_done := first [assumption | match goal with E : pools _ = pools _ |- _ => rewrite E; assumption end].

Section RunsPeer.
Context `{Noise, PoolChoice}.

(** A peer that has an address compares it with the one of a packet. *)
Lemma runs_UpdateEndpoint a p e (Q : unit -> PS -> Prop) :
  is_Some (raddr p) -> is_Some a ->
  (forall m r p', is_Some r -> p <| mu := m |> <| raddr := r |> = p' -> Q tt (mkPS _ p' e)) ->
  runs (UpdateEndpoint a) (mkPS _ p e) Q.
Proof.
  destruct p. cbn. intros [x ->] [y ->] HQ. unfold UpdateEndpoint. run_walk. unfold same_endpoint. cbn.
  destruct (_ && _); run_walk; by eapply HQ.
Qed.
End RunsPeer.

(** ** The goroutines that encrypt and decrypt *)

Section Bodies.
Context `{NoiseSession, PoolChoice, NodeExt}.
Implicit Types (s : PS).

Lemma in_bounds (b : InboundBuffer) : pkt_ok b -> 0 <= HeaderLen /\ HeaderLen <= ib_size b /\ ib_size b <= s_cap (ib_in b).
Proof. intros ((_ & Ha) & Hs & _). unfold s_cap. rewrite Ha. unfold HeaderLen in *. lia. Qed.
Lemma out_bounds (b : OutboundBuffer) n : ob_pkt_ok b -> ob_size b = n -> 0 <= 0 /\ 0 <= n /\ n <= s_cap (ob_packet b).
Proof. intros ((_ & _ & Ha) & Hs) <-. unfold s_cap. rewrite Ha. lia. Qed.

(** It finishes with the data invariant, or waits. *)
Definition data_runs (m : go PS unit) id s : Prop := runs m s (fun _ s' => data_ok id s').

(** The invariant of the peer a walk has reached. *)
Lemma data_again p p' e e' id :
  data_ok id (mkPS _ p e) -> pools_clean (pools e') ->
  ID p' = ID p /\ inbound p' = inbound p /\ handshakes p' = handshakes p /\ outbound p' = outbound p /\
  state p' = state p /\ initiator p' = initiator p /\ hs p' = hs p ->
  routine_ok (g_inbound p') /\ out_routine_ok (g_outbound p') /\ routine_ok (g_handshake p') -> is_Some (raddr p') ->
  (is_Some (rx p) -> is_Some (rx p')) -> (is_Some (tx p) -> is_Some (tx p')) -> data_ok id (mkPS _ p' e').
Proof.
  intros [[Hid (Q1 & Q2 & Q3 & Q4) [O1 O2] Hr Hp] [S1 S2 S3 S4]] He' (E1 & E2 & E3 & E4 & E5 & E6 & E7) (G1 & G2 & G3) Hr' Hrx Htx.
  cbn in *. split; split; cbn; unfold peer_pkts_ok in *; rewrite ?E1, ?E2, ?E3, ?E4, ?E5, ?E6, ?E7; auto.
  intros E. destruct (S3 E). auto.
Qed.

Lemma Inbound_body_data b id s :
  pkt_ok b -> is_Some (rx (self s)) -> data_ok id s -> data_runs (Inbound_body b) id s.
Proof.
  destruct s as [p e]. intros Hb [c Hc] Hok. pose proof Hok as [[Hid (Q1 & Q2 & Q3 & Q4) [O1 O2] Hr Hp] _].
  cbn [self env] in *. unfold data_runs, Inbound_body. run_walk.
  apply runs_pending_RLock. cbn [field_upd rebuild]. intros n p1 <-. run_walk. cbn. rewrite Hc.
  destruct (session_set_nonce c (Counter (ib_header b))) as [c1 E1].
  eapply runs_lib; [exact E1|]. run_walk. apply runs_slice; [unfold s_cap; lia|]. intros x. run_walk.
  apply runs_slice; [by apply in_bounds|]. intros ct. run_walk.
  destruct (session_decrypt c1 x (s_bytes ct)) as (c2 & pk & err & E2).
  eapply runs_lib; [exact E2|]. cbn beta iota. destruct err as [err|]; run_walk.
  - apply runs_put_in; [by destruct Hb|done|]. intros e' Hq. run_walk. by eapply data_again.
  - unfold when. case_bool_decide; run_walk;
      (apply runs_UpdateEndpoint; [done|by destruct Hb as (_ & _ & ? & _)|]; cbn; intros m r p' Hr' <-; run_walk;
       apply runs_put_in; [by destruct Hb|pools_done|]; intros e2 Hq; run_walk; by eapply data_again).
Qed.

Lemma Outbound_body_data b id s :
  ob_pkt_ok b -> is_Some (tx (self s)) -> data_ok id s -> data_runs (Outbound_body b) id s.
Proof.
  destruct s as [p e]. intros Hb [c Hc] Hok. pose proof Hok as [[Hid (Q1 & Q2 & Q3 & Q4) [O1 O2] Hr Hp] _].
  cbn [self env] in *. unfold data_runs, Outbound_body. run_walk.
  apply runs_pending_RLock. cbn [field_upd rebuild]. intros n p1 <-. run_walk. cbn. rewrite Hc.
  destruct (session_nonce c) as [k En]. eapply runs_lib; [exact En|]. cbn beta.
  destruct (encode_header_eq b MsgData (node_id e) k (proj1 Hb)) as (b' & EE & Hb' & Epk & Esz).
  rewrite EE. run_walk. apply runs_slice; [rewrite Epk; by eapply out_bounds|]. intros x. run_walk.
  destruct (session_encrypt c (Slice (header_bytes (mkHeader HeaderVersion MsgData (node_id e) k HeaderPadding) ++
    drop 16 (s_arr (ob_out b))) 16) (s_bytes x)) as (c2 & out & err & E2).
  eapply runs_lib; [exact E2|]. cbn beta iota. destruct err as [err|]; run_walk.
  - apply runs_put_out; [done..|]. intros e' Hq. run_walk. by eapply data_again.
  - apply runs_put_out; [done|pools_done|]. intros e2 Hq. run_walk. by eapply data_again.
Qed.
End Bodies.

(** ** Every other program of the peer *)

Section Programs.
Context `{NoiseSession, PoolChoice, NodeExt}.
Implicit Types (s : PS).

Lemma holds_then {A B} (m : go PS A) (k : A -> go PS B) s P Q :
  holds m s P -> (forall a s', P a s' -> holds (k a) s' Q) -> holds (m ≫= k) s Q.
Proof. intros Hm Hk. apply holds_bind. eapply holds_mono; [|exact Hm]. exact Hk. Qed.

(** Fields the invariant does not mention. *)
Lemma flushInbound_base id q s :
  base_ok id s -> inbound (self s) = q -> holds (flushInbound_loop q) s (fun _ s' => base_ok id s').
Proof.
  revert s. induction q as [|b q IH]; intros [[] e] [Hid (Q1 & Q2 & Q3 & Q4) Ho Hr Hp] Hq; cbn in *; subst;
    cbn [flushInbound_loop]; [by split|].
  apply list.Forall_cons in Q1 as [Hb Q1]. apply holds_bind, holds_pmod, holds_bind. cbn beta.
  apply holds_put_in_any; [destruct b; [apply Hb|done]|done|]. intros p Hp'. apply IH; [|done]. split; cbn; try done.
Qed.
Lemma flushHandshake_base id q s :
  base_ok id s -> handshakes (self s) = q -> holds (flushHandshake_loop q) s (fun _ s' => base_ok id s').
Proof.
  revert s. induction q as [|b q IH]; intros [[] e] [Hid (Q1 & Q2 & Q3 & Q4) Ho Hr Hp] Hq; cbn in *; subst;
    cbn [flushHandshake_loop]; [by split|].
  apply list.Forall_cons in Q2 as [Hb Q2]. apply holds_bind, holds_pmod, holds_bind. cbn beta.
  apply holds_put_in_any; [destruct b; [apply Hb|done]|done|]. intros p Hp'. apply IH; [|done]. split; cbn; try done.
Qed.
Lemma flushOutbound_base id q s :
  base_ok id s -> outbound (self s) = q -> holds (flushOutbound_loop q) s (fun _ s' => base_ok id s').
Proof.
  revert s. induction q as [|b q IH]; intros [[] e] [Hid Hi [O1 O2] Hr Hp] Hq; cbn in *; subst;
    cbn [flushOutbound_loop]; [by split|].
  apply list.Forall_cons in O1 as [Hb O1]. apply holds_bind, holds_pmod, holds_bind. cbn beta.
  apply holds_put_out_any; [destruct b; [apply Hb|done]|done|]. intros p Hp'. apply IH; [|done]. split; cbn; try done.
Qed.
Lemma flushQueues_base id s : base_ok id s -> holds flushQueues s (fun _ s' => base_ok id s').
Proof.
  intros Hb. unfold flushQueues, flushHandshakeQueue, flushOutboundQueue, flushInboundQueue.
  eapply (holds_then _ _ _ (fun _ => base_ok id)); [by apply holds_bind, holds_pget, flushHandshake_base|intros [] s1 H1'].
  eapply (holds_then _ _ _ (fun _ => base_ok id)); [by apply holds_bind, holds_pget, flushOutbound_base|intros [] s2 H2'].
  by apply holds_bind, holds_pget, flushInbound_base.
Qed.

(** *** Programs that keep the base, by their structure *)

Definition keeps_base {A} (m : go PS A) : Prop :=
  forall id s, base_ok id s -> holds m s (fun _ s' => base_ok id s').

Lemma kb_bind {A B} (m : go PS A) (k : A -> go PS B) :
  keeps_base m -> (forall a, keeps_base (k a)) -> keeps_base (m ≫= k).
Proof. intros Hm Hk id s Hs. eapply holds_then; [by apply Hm|]. intros a s' Hs'. by apply Hk. Qed.
Lemma kb_mret {A} (a : A) : keeps_base (mret a).
Proof. by intros id s Hs. Qed.
Lemma kb_reads {A} (f : PS -> A) : keeps_base (reads f).
Proof. by intros id s Hs. Qed.
Lemma kb_panic {A} c : keeps_base (panic c : go PS A).
Proof. by intros id s Hs. Qed.
Lemma kb_block {A} w : keeps_base (block w : go PS A).
Proof. by intros id s Hs. Qed.
Lemma kb_lib {A} (o : result crash A) : keeps_base (lib o).
Proof. intros id s Hs. by destruct o. Qed.
Lemma kb_slice b lo hi : keeps_base (slice_expr b lo hi).
Proof. intros id s Hs. unfold slice_expr. by destruct (reslice b lo hi). Qed.
(** A change of the peer that the base does not see. *)
Lemma kb_pmod f :
  (forall p, ID (f p) = ID p /\ inbound (f p) = inbound p /\ handshakes (f p) = handshakes p /\
     outbound (f p) = outbound p /\ raddr (f p) = raddr p /\ (routine_ok (g_inbound p) -> routine_ok (g_inbound (f p))) /\
     (out_routine_ok (g_outbound p) -> out_routine_ok (g_outbound (f p))) /\
     (routine_ok (g_handshake p) -> routine_ok (g_handshake (f p)))) -> keeps_base (pmod f).
Proof.
  intros Hf id s [Hid (Q1 & Q2 & Q3 & Q4) [O1 O2] Hr Hp]. apply holds_pmod.
  destruct (Hf (self s)) as (E1 & E2 & E3 & E4 & E5 & E6 & E7 & E8).
  split; cbn; unfold peer_pkts_ok; rewrite ?E1, ?E2, ?E3, ?E4, ?E5; auto.
Qed.
Lemma kb_emod f : (forall e, pools (f e) = pools e) -> keeps_base (emod f).
Proof. intros Hf id s [Hid Hi Ho Hr Hp]. apply holds_emod. split; cbn; try done. by rewrite Hf. Qed.
Lemma kb_mu {A} (m : go RWMutex A) : keeps_base (with_mu m).
Proof. intros id [p e] [Hid Hi Ho Hr Hp]. unfold holds, with_mu, zoom. by destruct (m _). Qed.
Lemma kb_pending {A} (m : go RWMutex A) : keeps_base (with_pending m).
Proof. intros id [p e] [Hid Hi Ho Hr Hp]. unfold holds, with_pending, zoom. by destruct (m _). Qed.
Lemma kb_put_in b : ib_ok b -> keeps_base (with_pools (PutInboundBuffer (Some b))).
Proof. intros Hb id [p e] [Hid Hi Ho Hr Hp]. apply holds_put_in; [done..|]. by split. Qed.
Lemma kb_put_out b : ob_ok b -> keeps_base (with_pools (PutOutboundBuffer (Some b))).
Proof. intros Hb id [p e] [Hid Hi Ho Hr Hp]. apply holds_put_out; [done..|]. by split. Qed.
Lemma kb_get_out {A} (k : OutboundBuffer -> go PS A) :
  (forall b, ob_clean b -> keeps_base (k b)) -> keeps_base (with_pools GetOutboundBuffer ≫= k).
Proof.
  intros Hk id [p e] [Hid Hi Ho Hr Hp]. apply holds_bind, holds_get_out; [done|]. intros b q Hb Hq.
  apply Hk; [done|]. by split.
Qed.
Lemma kb_encode {A} b t i n (k : OutboundBuffer -> slice -> go PS A) :
  ob_ok b -> (forall b' out, ob_ok b' -> keeps_base (k b' out)) ->
  keeps_base (let '(b', out) := encode_header b t i n in k b' out).
Proof. intros Hb Hk. destruct (encode_header_eq b t i n Hb) as (b' & -> & Hb' & _). by apply Hk. Qed.
Lemma kb_raddr a : is_Some a -> keeps_base (pmod (fun p => p <| raddr := a |>)).
Proof. intros Ha id [p e] [Hid Hi Ho Hr Hp]. apply holds_pmod. by split. Qed.
Lemma kb_flush : keeps_base flushQueues.
Proof. intros id s. apply flushQueues_base. Qed.
End Programs.

Ltac kb_step :=
  lazymatch goal with
  | |- keeps_base (with_pools GetOutboundBuffer ≫= _) => apply kb_get_out; intros ? ?
  | |- keeps_base (mbind _ _) => apply kb_bind; [|intros ?]
  | |- keeps_base (mret _) => apply kb_mret
  | |- keeps_base (pget _) => apply kb_reads
  | |- keeps_base (eget _) => apply kb_reads
  | |- keeps_base (reads _) => apply kb_reads
  | |- keeps_base (panic _) => apply kb_panic
  | |- keeps_base (block _) => apply kb_block
  | |- keeps_base (lib _) => apply kb_lib
  | |- keeps_base (slice_expr _ _ _) => apply kb_slice
  | |- keeps_base (pmod _) => first [apply kb_pmod; intros ?; split_and!; first [reflexivity | exact id | exact (fun _ => I)] | apply kb_raddr]
  | |- keeps_base (emod _) => apply kb_emod; done
  | |- keeps_base (with_mu _) => apply kb_mu
  | |- keeps_base (with_pending _) => apply kb_pending
  | |- keeps_base (with_pools (PutInboundBuffer (Some _))) => apply kb_put_in
  | |- keeps_base (with_pools (PutOutboundBuffer (Some _))) => apply kb_put_out
  | |- keeps_base flushQueues => apply kb_flush
  | |- keeps_base (when ?b _) => unfold when; destruct b
  | |- keeps_base (let '_ := encode_header _ _ _ _ in _) => apply kb_encode; [|intros ? ? ?]
  | |- keeps_base (match ?x with _ => _ end) => destruct x
  end.
Ltac kb := repeat (kb_step; cbn beta).

Section Programs2.
Context `{NoiseSession, PoolChoice, NodeExt}.
Implicit Types (s : PS).

Lemma ResetState_base : keeps_base ResetState.
Proof. unfold ResetState. kb. Qed.
Lemma RequestPunch_base : keeps_base RequestPunch.
Proof. unfold RequestPunch, Node_RequestPunch. kb. Qed.
Lemma WriteToUDP_base b a : keeps_base (WriteToUDP b a).
Proof. unfold WriteToUDP. kb. Qed.
Lemma InitHandshake_base i : keeps_base (InitHandshake i).
Proof. unfold InitHandshake. kb. Qed.
Lemma handshakeP1_base b : ob_ok b -> keeps_base (handshakeP1 b).
Proof. intros Hb. unfold handshakeP1, fresh_random. kb; auto using WriteToUDP_base. Qed.
Lemma TrySendHandshake_send_base : keeps_base TrySendHandshake_send.
Proof.
  unfold TrySendHandshake_send. kb; auto using InitHandshake_base. apply handshakeP1_base. by apply ob_clean_ok.
Qed.
Lemma TrySendHandshake_base r : keeps_base (TrySendHandshake r).
Proof.
  unfold TrySendHandshake. kb; auto using ResetState_base, RequestPunch_base, TrySendHandshake_send_base.
Qed.
Lemma same_endpoint_some r (a : option UDPAddr) b : same_endpoint r a = Some b -> is_Some a.
Proof. unfold same_endpoint. destruct r, a; done. Qed.
Lemma UpdateEndpoint_base a : keeps_base (UpdateEndpoint a).
Proof.
  unfold UpdateEndpoint. apply kb_bind; [kb|intros _]. apply kb_bind; [kb|intros r]. apply kb_bind; [kb|intros _].
  destruct (same_endpoint r a) eqn:E; [|kb]. apply same_endpoint_some in E. kb. done.
Qed.
Lemma UpdateEndpointLocked_base a : keeps_base (UpdateEndpointLocked a).
Proof.
  unfold UpdateEndpointLocked. apply kb_bind; [kb|intros r].
  destruct (same_endpoint r a) eqn:E; [|kb]. apply same_endpoint_some in E. kb. done.
Qed.
Lemma handshakeP2_base b : pkt_ok b -> keeps_base (handshakeP2 b).
Proof.
  intros Hb. unfold handshakeP2, handshakeP2_complete, handshakeP2_respond, fresh_random.
  kb; auto using InitHandshake_base, UpdateEndpointLocked_base, WriteToUDP_base, ob_clean_ok.
  all: try apply Hb. all: try (by destruct Hb as (_ & _ & ? & _)).
Qed.
End Programs2.

(** *** What a session becomes

    A walk that forgets the locks and the environment. *)

Section SessionRules.
Context `{Noise, PoolChoice}.

Lemma sw_pmod f p e p' (Q : unit -> PS -> Prop) : f p = p' -> Q tt (mkPS _ p' e) -> holds (pmod f) (mkPS _ p e) Q.
Proof. by intros <-. Qed.
Lemma sw_emod f p e (Q : unit -> PS -> Prop) : (forall e', Q tt (mkPS _ p e')) -> holds (emod f) (mkPS _ p e) Q.
Proof. intros HQ. apply HQ. Qed.
Lemma sw_mu {A} (m : go RWMutex A) p e (Q : A -> PS -> Prop) :
  (forall a x p', p <| mu := x |> = p' -> Q a (mkPS _ p' e)) -> holds (with_mu m) (mkPS _ p e) Q.
Proof. intros HQ. unfold holds, with_mu, zoom. cbn. destruct (m _); [|done..]. by eapply HQ. Qed.
Lemma sw_pending {A} (m : go RWMutex A) p e (Q : A -> PS -> Prop) :
  (forall a x p', p <| pendingLock := x |> = p' -> Q a (mkPS _ p' e)) -> holds (with_pending m) (mkPS _ p e) Q.
Proof. intros HQ. unfold holds, with_pending, zoom. cbn. destruct (m _); [|done..]. by eapply HQ. Qed.
Lemma sw_pools {A} (m : go Pools A) p e (Q : A -> PS -> Prop) :
  (forall a e', Q a (mkPS _ p e')) -> holds (with_pools m) (mkPS _ p e) Q.
Proof. intros HQ. unfold holds, with_pools, zoom. destruct (m _); [|done..]. apply HQ. Qed.
Lemma sw_socket b a p e (Q : unit -> PS -> Prop) :
  (forall e', Q tt (mkPS _ p e')) -> holds (WriteToUDP b a) (mkPS _ p e) Q.
Proof. intros HQ. unfold WriteToUDP. destruct a; [by apply sw_emod|apply HQ]. Qed.
End SessionRules.

Ltac sw_step :=
  lazymatch goal with
  | |- holds (mbind _ _) _ _ => apply holds_bind
  | |- holds (mret _) _ _ => apply holds_mret
  | |- holds (pget _) _ _ => apply holds_pget; cbn [self field_upd rebuild]
  | |- holds (eget _) _ _ => apply holds_eget
  | |- holds (reads _) _ _ => apply holds_reads
  | |- holds (pmod _) _ _ => eapply sw_pmod; [cbn; reflexivity|]
  | |- holds (emod _) _ _ => apply sw_emod; intros ?
  | |- holds (panic _) _ _ => apply holds_panic
  | |- holds (block _) _ _ => apply holds_block
  | |- holds (lib _) _ _ => apply holds_lib; intros ? ?
  | |- holds (slice_expr _ _ _) _ _ => apply holds_slice_expr; intros ?
  | |- holds (with_pools _) _ _ => apply sw_pools; intros ? ?
  | |- holds (with_mu _) _ _ => apply sw_mu; let E := fresh in intros ? ? ? E; cbn in E; subst
  | |- holds (with_pending _) _ _ => apply sw_pending; let E := fresh in intros ? ? ? E; cbn in E; subst
  | |- holds (WriteToUDP _ _) _ _ => apply sw_socket; intros ?
  | |- holds (when ?b _) _ _ => unfold when; destruct b eqn:?
  | |- holds (match ?x with _ => _ end) _ _ => destruct x eqn:?
  | |- holds (let '_ := ?x in _) _ _ => destruct x eqn:?
  end.
Ltac sw := repeat (sw_step; cbn beta).

Section Sessions.
Context `{NoiseSession, PoolChoice, NodeExt}.
Implicit Types (s : PS).

Lemma holds_both {A} (m : go PS A) s (P Q R : A -> PS -> Prop) :
  holds m s P -> holds m s Q -> (forall a s', P a s' -> Q a s' -> R a s') -> holds m s R.
Proof. intros HP HQ HR. eapply holds_mono, (holds_and _ _ _ _ HP HQ). intros a s' [? ?]. by apply HR. Qed.

Lemma ResetState_data id s : base_ok id s -> holds ResetState s (fun _ s' => data_ok id s').
Proof.
  intros Hb. apply (holds_both _ _ (fun _ s' => self s' = reset_peer (self s)) (fun _ s' => base_ok id s')).
  - by apply holds_ResetState.
  - exact (ResetState_base id s Hb).
  - intros [] s' E Hb'. split; [done|]. rewrite E. by split.
Qed.

Lemma send_session s : holds TrySendHandshake_send s (fun _ s' => session_ok (self s')).
Proof.
  destruct s as [p e]. unfold TrySendHandshake_send, InitHandshake, CreateHandshake, handshakeP1, fresh_random. sw;
    try done; cbn in *; simplify_eq.
  match goal with
  | E : NewHandshakeState true _ _ = Ok ?h0, E' : WriteMessage _ (Some ?h0) _ = Ok (?h, _, _, _, None) |- _ =>
      destruct (session_write_some _ _ _ _ _ _ _ _ E') as [h' ->];
      split; cbn; try done; intros _; split; [done|]; exists h'; split; [done|];
      unfold initiated; do 8 eexists; split; [exact E|exact E']
  end.
Qed.
Lemma TrySendHandshake_send_data id s : base_ok id s -> holds TrySendHandshake_send s (fun _ s' => data_ok id s').
Proof.
  intros Hb. exact (holds_both _ _ _ _ _ (TrySendHandshake_send_base id s Hb) (send_session s) (fun _ _ X Y => conj X Y)).
Qed.
(** A program that keeps the base, before one that makes the session good again. *)
Lemma base_then {A} (m : go PS A) (k : A -> go PS unit) id s :
  keeps_base m -> base_ok id s -> (forall a s', base_ok id s' -> holds (k a) s' (fun _ s' => data_ok id s')) ->
  holds (m ≫= k) s (fun _ s' => data_ok id s').
Proof. intros Hm Hs Hk. eapply holds_then; [by apply Hm|exact Hk]. Qed.

Lemma TrySendHandshake_data r id s : base_ok id s -> holds (TrySendHandshake r) s (fun _ s' => data_ok id s').
Proof.
  intros Hb. unfold TrySendHandshake.
  apply base_then; [kb|done|]. intros [] s1 H1'. destruct r; [|by apply TrySendHandshake_send_data].
  apply base_then; [kb|done|]. intros n s2 H2'. case_bool_decide.
  - apply base_then; [kb|done|]. intros [] s3. apply ResetState_data.
  - apply base_then; [apply RequestPunch_base|done|]. intros [] s3. apply TrySendHandshake_send_data.
Qed.

(** The second message of a handshake yields both ciphers. *)
Lemma P2_ciphers b s :
  (initiator (self s) = true -> forall h, hs (self s) = Some h -> initiated h) ->
  holds (handshakeP2 b) s (fun err s' => err = None ->
    is_Some (rx (self s')) /\ is_Some (tx (self s')) /\ (initiator (self s) = true -> hs (self s') = None)).
Proof.
  destruct s as [p e]. cbn. intros Hin.
  unfold handshakeP2, handshakeP2_complete, handshakeP2_respond, InitHandshake, CreateHandshake, fresh_random,
    UpdateEndpointLocked.
  sw; cbn in *; simplify_eq; try done.
  all: intros _; lazymatch goal with
  | E : NewHandshakeState false _ _ = Ok ?h, E1 : ReadMessage (Some ?h) _ = _, E2 : WriteMessage _ _ _ = _ |- _ =>
      destruct (session_responder _ _ _ _ _ _ _ _ _ _ _ _ _ E E1 E2); split_and!; [done|done|congruence]
  | E : ReadMessage (hs ?p) _ = _ |- _ =>
      destruct (hs p) as [h|]; [|by rewrite session_read_nil in E];
      destruct (session_initiator _ _ _ _ _ _ (Hin ltac:(assumption) h eq_refl) E); by split_and!
  end.
Qed.

Lemma sw_P2 b p e (Q : option string -> PS -> Prop) :
  (initiator p = true -> forall h, hs p = Some h -> initiated h) ->
  (forall err h c1 c2 r e' p', session_peer h c1 c2 r p = p' ->
     (err = None -> is_Some c1 /\ is_Some c2 /\ (initiator p = true -> h = None)) -> Q err (mkPS _ p' e')) ->
  holds (handshakeP2 b) (mkPS _ p e) Q.
Proof.
  intros Hin HQ.
  assert (Hshape : holds (handshakeP2 b) (mkPS _ p e) (fun _ s' => exists h c1 c2 r, self s' = session_peer h c1 c2 r p))
    by (apply holds_handshakeP2; eauto).
  apply (holds_both _ _ _ _ _ Hshape (P2_ciphers b (mkPS _ p e) Hin)).
  intros err [p' e'] (h & c1 & c2 & r & E) Hc. cbn [self] in *. subst p'. eapply HQ; [done|]. exact Hc.
Qed.

(** *** Programs that keep the session, by their structure *)

Definition keeps_session {A} (m : go PS A) : Prop :=
  forall s, session_ok (self s) -> holds m s (fun _ s' => session_ok (self s')).

Lemma ks_bind {A B} (m : go PS A) (k : A -> go PS B) :
  keeps_session m -> (forall a, keeps_session (k a)) -> keeps_session (m ≫= k).
Proof. intros Hm Hk s Hs. eapply holds_then; [by apply Hm|]. intros a s' Hs'. by apply Hk. Qed.
Lemma ks_mret {A} (a : A) : keeps_session (mret a).
Proof. by intros s Hs. Qed.
Lemma ks_reads {A} (f : PS -> A) : keeps_session (reads f).
Proof. by intros s Hs. Qed.
Lemma ks_panic {A} c : keeps_session (panic c : go PS A).
Proof. by intros s Hs. Qed.
Lemma ks_block {A} w : keeps_session (block w : go PS A).
Proof. by intros s Hs. Qed.
Lemma ks_emod f : keeps_session (emod f).
Proof. by intros s Hs. Qed.
Lemma ks_mu {A} (m : go RWMutex A) : keeps_session (with_mu m).
Proof. intros [p e] [S1 S2 S3 S4]. unfold holds, with_mu, zoom. by destruct (m _). Qed.
Lemma ks_pending {A} (m : go RWMutex A) : keeps_session (with_pending m).
Proof. intros [p e] [S1 S2 S3 S4]. unfold holds, with_pending, zoom. by destruct (m _). Qed.
Lemma ks_pools {A} (m : go Pools A) : keeps_session (with_pools m).
Proof. intros [p e] Hs. unfold holds, with_pools, zoom. by destruct (m _). Qed.
Lemma ks_pmod f :
  (forall p, state (f p) = state p /\ initiator (f p) = initiator p /\ hs (f p) = hs p /\ rx (f p) = rx p /\
     tx (f p) = tx p) -> keeps_session (pmod f).
Proof.
  intros Hf s [S1 S2 S3 S4]. apply holds_pmod. destruct (Hf (self s)) as (E1 & E2 & E3 & E4 & E5).
  split; cbn; rewrite E1, ?E2, ?E3, ?E4, ?E5; auto.
Qed.

Lemma keeps_both {A} (m : go PS A) : keeps_base m -> keeps_session m -> keeps_data m.
Proof.
  intros Hb Hs id s [H1' H2']. exact (holds_both _ _ _ _ _ (Hb id s H1') (Hs s H2') (fun _ _ X Y => conj X Y)).
Qed.
Lemma kd_bind {A B} (m : go PS A) (k : A -> go PS B) :
  keeps_data m -> (forall a, keeps_data (k a)) -> keeps_data (m ≫= k).
Proof. intros Hm Hk id s Hs. eapply holds_then; [by apply Hm|]. intros a s' Hs'. by apply Hk. Qed.
End Sessions.

Ltac ks_step :=
  lazymatch goal with
  | |- keeps_session (mbind _ _) => apply ks_bind; [|intros ?]
  | |- keeps_session (mret _) => apply ks_mret
  | |- keeps_session (pget _) => apply ks_reads
  | |- keeps_session (eget _) => apply ks_reads
  | |- keeps_session (reads _) => apply ks_reads
  | |- keeps_session (panic _) => apply ks_panic
  | |- keeps_session (block _) => apply ks_block
  | |- keeps_session (emod _) => apply ks_emod
  | |- keeps_session (pmod _) => apply ks_pmod; intros ?; split_and!; reflexivity
  | |- keeps_session (with_mu _) => apply ks_mu
  | |- keeps_session (with_pending _) => apply ks_pending
  | |- keeps_session (with_pools _) => apply ks_pools
  | |- keeps_session (when ?b _) => unfold when; destruct b
  | |- keeps_session (match ?x with _ => _ end) => destruct x
  end.
Ltac ks := repeat (ks_step; cbn beta).
(** Both invariants, by structure. *)
Ltac kd := apply keeps_both; [kb|ks].

(** *** The programs *)

Section Programs3.
Context `{NoiseSession, PoolChoice, NodeExt}.
Implicit Types (s : PS).

Lemma Start_data : keeps_data Peer_Start.
Proof. unfold Peer_Start. kd. Qed.
Lemma Update_endpoint_data c n : keeps_data (Update_endpoint c n).
Proof.
  unfold Update_endpoint. apply keeps_both; [|ks]. kb. by eexists.
Qed.
Lemma Update_hostname_data c n : keeps_data (Update_hostname c n).
Proof. unfold Update_hostname. kd. Qed.
Lemma Update_ip_data c n : keeps_data (Update_ip c n).
Proof. unfold Update_ip. kd. Qed.

(** A queue takes a packet, or gives one to its goroutine. *)
Lemma push_inbound_data b : pkt_ok b -> keeps_data (InboundPacket b).
Proof.
  intros Hb id [p e] [[Hid (Q1 & Q2 & Q3 & Q4) [O1 O2] Hr Hp] [S1 S2 S3 S4]]. unfold InboundPacket.
  apply holds_bind, holds_pget. destruct (negb _).
  - apply holds_put_in; [by destruct Hb|done|]. intros q Hq. split; [|done]. by split; [| | | |].
  - apply holds_bind, holds_pget. case_bool_decide; [|done]. apply holds_pmod.
    split; [|done]. split; try done. split_and!; try done. by apply queue_ok_snoc.
Qed.
Lemma push_handshake_data b : pkt_ok b -> keeps_data (send_handshakes (Some b)).
Proof.
  intros Hb id [p e] [[Hid (Q1 & Q2 & Q3 & Q4) [O1 O2] Hr Hp] [S1 S2 S3 S4]]. unfold send_handshakes.
  apply holds_bind, holds_pget. case_bool_decide; [|done]. apply holds_pmod.
  split; [|done]. split; try done. split_and!; try done. by apply queue_ok_snoc.
Qed.
Lemma Inbound_recv_data : keeps_data Inbound_recv.
Proof.
  intros id [p e] [[Hid (Q1 & Q2 & Q3 & Q4) [O1 O2] Hr Hp] [S1 S2 S3 S4]]. unfold Inbound_recv.
  apply holds_bind, holds_pget. cbn [self] in *. destruct (inbound p) as [|[b|] q] eqn:Eq; [done|..];
    apply list.Forall_cons in Q1 as [Hb Q1]; apply holds_pmod; (split; [|done]); split; try done; split_and!; try done.
Qed.
Lemma Handshake_recv_data : keeps_data Handshake_recv.
Proof.
  intros id [p e] [[Hid (Q1 & Q2 & Q3 & Q4) [O1 O2] Hr Hp] [S1 S2 S3 S4]]. unfold Handshake_recv.
  apply holds_bind, holds_pget. cbn [self] in *. destruct (handshakes p) as [|[b|] q] eqn:Eq; [done|..];
    apply list.Forall_cons in Q2 as [Hb Q2]; apply holds_pmod; (split; [|done]); split; try done; split_and!; try done.
Qed.
Lemma Outbound_recv_data : keeps_data Outbound_recv.
Proof.
  intros id [p e] [[Hid Hi [O1 O2] Hr Hp] [S1 S2 S3 S4]]. unfold Outbound_recv.
  apply holds_bind, holds_pget. cbn [self] in *. destruct (outbound p) as [|[b|] q] eqn:Eq; [done|..];
    apply list.Forall_cons in O1 as [Hb O1]; apply holds_pmod; (split; [|done]); split; try done; split_and!; try done.
Qed.
Lemma send_outbound_data b : ob_pkt_ok b -> keeps_data (send_outbound (Some b)).
Proof.
  intros Hb id [p e] [[Hid Hi [O1 O2] Hr Hp] [S1 S2 S3 S4]]. unfold send_outbound.
  apply holds_bind, holds_pget. case_bool_decide; [|done]. apply holds_pmod. split; [|done]. split; try done.
  split; [|done]. cbn. apply Forall_app. split; [done|]. by apply Forall_singleton.
Qed.

Lemma OutboundPacket_data b : ob_pkt_ok b -> keeps_data (OutboundPacket b).
Proof.
  intros Hb id s Hok. unfold OutboundPacket. apply holds_bind, holds_pget. destruct (negb _).
  - destruct s as [p e], Hok as [[Hid Hi Ho Hr Hp] [S1 S2 S3 S4]]. apply holds_put_out; [by destruct Hb|done|].
    intros q Hq. split; [|done]. by split.
  - apply holds_bind, holds_pget. eapply holds_then.
    + instantiate (1 := fun _ s' => data_ok id s'). case_bool_decide; [|done].
      destruct s as [p e], Hok as [[Hid Hi [O1 O2] Hr Hp] [S1 S2 S3 S4]]. apply holds_pmod.
      split; [|done]. split; try done. split; [|done]. cbn. apply Forall_app. split; [done|]. by apply Forall_singleton.
    + intros [] s' Hs'. apply holds_bind, holds_reads. destruct (_ && _); [|done]. apply TrySendHandshake_data, Hs'.
Qed.

Lemma HandshakeTimeout_data : keeps_data (HandshakeTimeout).
Proof.
  unfold HandshakeTimeout. apply kd_bind; [kd|intros st]. case_bool_decide; [|kd].
  apply kd_bind; [kd|intros _]. apply kd_bind; [kd|intros i]. destruct i; [|kd].
  intros id s [Hb _]. by apply TrySendHandshake_data.
Qed.
Lemma TXTimeout_data ptr : keeps_data (TXTimeout ptr).
Proof.
  unfold TXTimeout. apply kd_bind; [kd|intros q]. case_bool_decide; [|kd].
  intros id [p e] [[Hid Hi Ho Hr Hp] Hs]. apply holds_bind, holds_get_out; [done|]. intros b q' Hb Hq.
  apply send_outbound_data; [|by split]. destruct Hb as (E1 & E2 & E3 & E4). split; [|cbn; rewrite E3; unfold BufferSize; lia].
  unfold ob_ok. cbn. rewrite E1, E2. split; apply make_slice_full.
Qed.
Lemma RXTimeout_data : keeps_data RXTimeout.
Proof.
  intros id s [Hb Hs]. unfold RXTimeout. apply holds_bind, holds_pget. destruct (negb _); [done|].
  do 7 (apply base_then; [kb|done|]; intros ? ? ?). destruct (negb _).
  - do 2 (apply base_then; [kb|done|]; intros ? ? ?). by apply ResetState_data.
  - by apply TrySendHandshake_data.
Qed.

(** Receiving: a goroutine without the cipher leaves a peer that is not in transport. *)
Lemma Inbound_body_keeps b : pkt_ok b -> keeps_data (Inbound_body b).
Proof.
  intros Hb id s Hok. destruct (rx (self s)) as [c|] eqn:Ec.
  - apply runs_holds. apply Inbound_body_data; [done|by eexists|done].
  - destruct s as [p e], Hok as [Hbase [S1 S2 S3 S4]]. cbn in *.
    refine (holds_both _ _ _ (fun _ s' => session_ok (self s')) _ (_ : holds _ _ (fun _ s' => base_ok id s')) _ (fun _ _ X Y => conj X Y)).
    + revert Hbase. generalize (mkPS _ p e) as s. revert id. change (keeps_base (Inbound_body b)). unfold Inbound_body, tun_Write.
      kb; auto using UpdateEndpoint_base; try apply Hb.
    + unfold Inbound_body, UpdateEndpoint, tun_Write. sw; try done; cbn; split; cbn; auto;
        intros E; destruct (S3 E) as [[? ?] _]; congruence.
Qed.
Lemma Outbound_body_keeps b : ob_pkt_ok b -> keeps_data (Outbound_body b).
Proof.
  intros Hb id s Hok. destruct (tx (self s)) as [c|] eqn:Ec.
  - apply runs_holds. apply Outbound_body_data; [done|by eexists|done].
  - destruct s as [p e], Hok as [Hbase [S1 S2 S3 S4]]. cbn in *.
    refine (holds_both _ _ _ (fun _ s' => session_ok (self s')) _ (_ : holds _ _ (fun _ s' => base_ok id s')) _ (fun _ _ X Y => conj X Y)).
    + revert Hbase. generalize (mkPS _ p e) as s. revert id. change (keeps_base (Outbound_body b)). unfold Outbound_body.
      kb; auto using WriteToUDP_base; try apply Hb; done.
    + unfold Outbound_body. sw; try done; cbn; split; cbn; auto;
        intros E; destruct (S3 E) as [_ [? ?]]; congruence.
Qed.

Lemma P2_or_panic_session b p e (Q : unit -> PS -> Prop) :
  (initiator p = true -> forall h, hs p = Some h -> initiated h) ->
  (forall h c1 c2 r e' p', session_peer h (Some c1) (Some c2) r p = p' -> (initiator p = true -> h = None) ->
     Q tt (mkPS _ p' e')) ->
  holds (handshakeP2_or_panic b) (mkPS _ p e) Q.
Proof.
  intros Hin HQ. unfold handshakeP2_or_panic. apply holds_bind, sw_P2; [done|].
  intros [err|] h c1 c2 r e' p' E Hc; [done|]. destruct (Hc eq_refl) as ([x ->] & [y ->] & Hi).
  apply holds_mret. by eapply HQ.
Qed.

(** A finished handshake is in transport, with both ciphers. *)
Lemma Handshake_body_session b s :
  session_ok (self s) -> holds (Handshake_body b) s (fun _ s' => session_ok (self s')).
Proof.
  destruct s as [p e]. intros [S1 S2 S3 S4]. cbn in *.
  unfold Handshake_body. apply holds_bind, holds_pget, holds_bind. cbn [self].
  repeat case_bool_decide; try apply holds_panic.
  - apply holds_bind, P2_or_panic_session; [rewrite S1 by done; done|]. intros h c1 c2 r e' p' <- Hi. sw.
    by split; cbn.
  - destruct S2 as (_ & h0 & Eh & Hi0); [done|].
    apply holds_bind, P2_or_panic_session; [by rewrite Eh; intros _ ? [= <-]|]. intros h c1 c2 r e' p' <- Hi. sw.
    by split; cbn.
  - unfold UpdateEndpoint. sw; try done;
      (apply P2_or_panic_session; cbn; [intros E; rewrite S4; done|]; intros h c1 c2 r e' p' <- Hi; sw;
       by split; cbn).
Qed.

Lemma Handshake_body_keeps b : pkt_ok b -> keeps_data (Handshake_body b).
Proof.
  intros Hb. apply keeps_both; [|intros s; apply Handshake_body_session].
  unfold Handshake_body, handshakeP2_or_panic. kb; auto using handshakeP2_base, UpdateEndpoint_base.
Qed.

(** ** Stopping and updating *)

Lemma Inbound_exit_data n : keeps_data (Inbound_exit n).
Proof.
  induction n as [|n IH]; intros id s Hs; cbn [Inbound_exit]; apply holds_bind, holds_pget;
    destruct (g_inbound (self s)) as [| |b] eqn:Eg; try done;
    (apply (holds_then _ _ _ (fun _ s' => data_ok id s')); [|intros [] s' Hs'; by apply IH]); [by apply Inbound_recv_data|].
  apply Inbound_body_keeps; [|done]. destruct Hs as [[_ (_ & _ & Q & _) _ _ _] _]. by rewrite Eg in Q.
Qed.
Lemma Outbound_exit_data n : keeps_data (Outbound_exit n).
Proof.
  induction n as [|n IH]; intros id s Hs; cbn [Outbound_exit]; apply holds_bind, holds_pget;
    destruct (g_outbound (self s)) as [| |b] eqn:Eg; try done;
    (apply (holds_then _ _ _ (fun _ s' => data_ok id s')); [|intros [] s' Hs'; by apply IH]); [by apply Outbound_recv_data|].
  apply Outbound_body_keeps; [|done]. destruct Hs as [[_ _ [_ Q] _ _] _]. by rewrite Eg in Q.
Qed.
Lemma Handshake_exit_data n : keeps_data (Handshake_exit n).
Proof.
  induction n as [|n IH]; intros id s Hs; cbn [Handshake_exit]; apply holds_bind, holds_pget;
    destruct (g_handshake (self s)) as [| |b] eqn:Eg; try done;
    (apply (holds_then _ _ _ (fun _ s' => data_ok id s')); [|intros [] s' Hs'; by apply IH]); [by apply Handshake_recv_data|].
  apply Handshake_body_keeps; [|done]. destruct Hs as [[_ (_ & _ & _ & Q) _ _ _] _]. by rewrite Eg in Q.
Qed.
Lemma wait_group_data : keeps_data wait_group.
Proof.
  unfold wait_group. apply kd_bind; [kd|intros p]. apply kd_bind; [apply Handshake_exit_data|intros _].
  apply kd_bind; [apply Inbound_exit_data|intros _]. apply Outbound_exit_data.
Qed.

(** The nil that ends a goroutine. *)
Lemma send_nil_data : keeps_data (_ ← send_handshakes None; _ ← send_inbound None; send_outbound None).
Proof.
  intros id [p e] [[Hid (Q1 & Q2 & Q3 & Q4) [O1 O2] Hr Hp] [S1 S2 S3 S4]].
  unfold send_handshakes, send_inbound, send_outbound. sw; try done; cbn in *.
  split; [|by split]. split; cbn; try done; split_and!; cbn; try done; (apply Forall_app; split; [done|by apply Forall_singleton]).
Qed.
Lemma Stop_data : keeps_data Peer_Stop.
Proof.
  unfold Peer_Stop, Peer_Stop_begin. apply kd_bind; [|intros _].
  - apply kd_bind; [kd|intros _]. apply kd_bind; [intros id s [Hb _]; by apply ResetState_data|intros _].
    apply kd_bind; [kd|intros _]. apply send_nil_data.
  - apply kd_bind; [apply wait_group_data|intros _]. kd.
Qed.
Lemma Update_key_data c n : keeps_data (Update_key c n).
Proof.
  unfold Update_key. destruct (DecodeBase64Key n); [|kd]. case_bool_decide; [|kd].
  apply kd_bind; [apply Stop_data|intros _]. do 3 (apply kd_bind; [kd|intros _]).
  apply kd_bind; [apply Start_data|intros [e|]]; kd.
Qed.
Lemma Update_data info : keeps_data (Update info).
Proof.
  unfold Update. do 3 (apply kd_bind; [kd|intros ?]). destruct (ParseAddrPort _); [|kd].
  apply kd_bind; [apply Update_endpoint_data|intros _]. apply kd_bind; [apply Update_hostname_data|intros _].
  apply kd_bind; [apply Update_key_data|intros _]. apply kd_bind; [apply Update_ip_data|intros _]. kd.
Qed.
End Programs3.
