(* ===== verification/Hazards.v ===== *)
(** The ways a peer's life ends the process or hangs: what the invariant of [Lifecycle] does
    not protect from. Each theorem runs the code from states the program reaches. *)

From S2P Require Import Prelude Bytes Header GoTime Netip Types GoSync Queue Grpc NodePeer NoiseLaws NodeCore Transport PeerWp Lifecycle.

Section Runs.
Context `{Noise, PoolChoice, NodeExt}.
Abbreviation Peer := NodePeer.Peer.
Implicit Types (p : Peer) (s : PS).

(** Returning a buffer that is not nil succeeds. *)
Lemma put_in_done b q : exists q', PutInboundBuffer (Some b) q = Done tt q'.
Proof. by eexists. Qed.
Lemma put_out_done b q : exists q', PutOutboundBuffer (Some b) q = Done tt q'.
Proof. by eexists. Qed.

Lemma flushInbound_done q p e :
  Forall is_Some q -> inbound p = q ->
  exists r, flushInbound_loop q (mkPS _ p e) =
    Done tt (mkPS _ (p <| inbound := [] |>) (e <| pools := r |>)).
Proof.
  revert p e. induction q as [|b q IH]; intros p e Hq Hp.
  - exists (pools e). destruct p, e; cbn in *; by subst.
  - apply list.Forall_cons in Hq as [[b' ->] Hq]. cbn [flushInbound_loop].
    erewrite bind_done by reflexivity. destruct (put_in_done b' (pools e)) as [q' E].
    erewrite bind_done by (apply zoom_done; exact E).
    destruct (IH (p <| inbound := q |>) (e <| pools := q' |>)) as [r IH']; [done..|].
    exists r. exact IH'.
Qed.
Lemma flushOutbound_done q p e :
  Forall is_Some q -> outbound p = q ->
  exists r, flushOutbound_loop q (mkPS _ p e) =
    Done tt (mkPS _ (p <| outbound := [] |>) (e <| pools := r |>)).
Proof.
  revert p e. induction q as [|b q IH]; intros p e Hq Hp.
  - exists (pools e). destruct p, e; cbn in *; by subst.
  - apply list.Forall_cons in Hq as [[b' ->] Hq]. cbn [flushOutbound_loop].
    erewrite bind_done by reflexivity. destruct (put_out_done b' (pools e)) as [q' E].
    erewrite bind_done by (apply zoom_done; exact E).
    destruct (IH (p <| outbound := q |>) (e <| pools := q' |>)) as [r IH']; [done..|].
    exists r. exact IH'.
Qed.
Lemma flushHandshake_done q p e :
  Forall is_Some q -> handshakes p = q ->
  exists r, flushHandshake_loop q (mkPS _ p e) =
    Done tt (mkPS _ (p <| handshakes := [] |>) (e <| pools := r |>)).
Proof.
  revert p e. induction q as [|b q IH]; intros p e Hq Hp.
  - exists (pools e). destruct p, e; cbn in *; by subst.
  - apply list.Forall_cons in Hq as [[b' ->] Hq]. cbn [flushHandshake_loop].
    erewrite bind_done by reflexivity. destruct (put_in_done b' (pools e)) as [q' E].
    erewrite bind_done by (apply zoom_done; exact E).
    destruct (IH (p <| handshakes := q |>) (e <| pools := q' |>)) as [r IH']; [done..|].
    exists r. exact IH'.
Qed.

Definition queues_clean p : Prop :=
  Forall is_Some (inbound p) /\ Forall is_Some (outbound p) /\ Forall is_Some (handshakes p).

Lemma flushQueues_done p e :
  queues_clean p ->
  exists r, flushQueues (mkPS _ p e) =
    Done tt (mkPS _ (p <| handshakes := [] |> <| outbound := [] |> <| inbound := [] |>) (e <| pools := r |>)).
Proof.
  intros (Q1 & Q2 & Q3). unfold flushQueues, flushHandshakeQueue, flushOutboundQueue, flushInboundQueue.
  destruct (flushHandshake_done _ p e Q3 eq_refl) as [r1 E1].
  pose (p1 := p <| handshakes := [] |>). pose (p2 := p1 <| outbound := [] |>).
  destruct (flushOutbound_done (outbound p) p1 (e <| pools := r1 |>) Q2 eq_refl) as [r2 E2].
  destruct (flushInbound_done (inbound p) p2 (e <| pools := r2 |>) Q1 eq_refl) as [r3 E3].
  exists r3.
  erewrite bind_done by (erewrite bind_done by reflexivity; exact E1).
  erewrite bind_done by (erewrite bind_done by reflexivity; exact E2).
  erewrite bind_done by reflexivity. exact E3.
Qed.

Lemma ResetState_done p e :
  mu p = unlocked -> queues_clean p ->
  exists r, ResetState (mkPS _ p e) = Done tt (mkPS _ (reset_peer p) (e <| pools := r |>)).
Proof.
  destruct p. intros Hmu Hq; cbn in *; subst. unfold ResetState. remember flushQueues as f eqn:Ef. go_eval.
  match goal with |- context [f (mkPS _ ?q ?e1)] => destruct (flushQueues_done q e1 Hq) as [r E] end.
  rewrite Ef, E. cbn. exists r. by destruct running.
Qed.

Lemma Stop_begin_done p e :
  mu p = unlocked -> queues_clean p ->
  exists r, Peer_Stop_begin (mkPS _ p e) = Done tt (mkPS _ (stop_peer p) (e <| pools := r |>)).
Proof.
  destruct p. intros Hmu Hq; cbn in *; subst. unfold Peer_Stop_begin, send_handshakes, send_inbound, send_outbound.
  remember ResetState as f eqn:Ef. go_eval.
  match goal with |- context [f (mkPS _ ?q ?e1)] => destruct (ResetState_done q e1 eq_refl Hq) as [r E] end.
  rewrite Ef, E. exists r. cbn. reflexivity.
Qed.
End Runs.

(** ** Stopping a peer *)

Section StopHazards.
Context `{Noise, PoolChoice, NodeExt}.
Abbreviation Peer := NodePeer.Peer.
Implicit Types (p : Peer) (s : PS).

Lemma inv_queues_clean p : peer_inv p -> queues_clean p.
Proof. intros Hinv. apply (inv_queues _ Hinv). Qed.

(** Where [Stop] is caught when the outbound goroutine holds a packet that waits for the
    handshake: with the peer's own lock in hand, waiting for a goroutine that waits for
    [pendingLock]. *)
Definition stuck (b : OutboundBuffer) s : Prop :=
  mu (self s) = wlocked /\ pendingLock (self s) = wlocked /\ running (self s) = false /\
  state (self s) = 0 /\ g_outbound (self s) = Busy b /\ g_inbound (self s) = Off /\
  g_handshake (self s) = Off /\ keepalive (self s) = None /\ receivedPacket (self s) = None.

Ltac absurd_lock :=
  try match goal with
  | Hl : mu _ = _ |- _ => discriminate Hl
  | Hl : pendingLock _ = _ |- _ => discriminate Hl
  end.
Ltac stuck_walk :=
  intros (? & ? & ? & ? & ? & ? & ? & ? & ?); cbn in *; subst; try discriminate;
  repeat (walk_step; cbn beta; absurd_lock); try discriminate; try (split_and!; done).

Lemma stuck_step b s s' : stuck b s -> peer_step s s' -> stuck b s'.
Proof.
  assert (Hrun : forall A (m : go PS A) s0 a s1, m s0 = Done a s1 -> holds m s0 (fun _ s => stuck b s) -> stuck b s1).
  { intros A m s0 a s1 E Hh. unfold holds in Hh. by rewrite E in Hh. }
  intros Hs Hstep. revert Hs.
  destruct Hstep as [s s' E|s s' E|s s' Hg E|b1 s s' Hg E|s s' Hg E|b1 s s' Hg E|s s' Hg E|b1 s s' Hg E|b1 s s' E|b1 s s' E|
    b1 s s' Hg E|d s s' Hg E|d ptr s s' Hg E|d s s' Hg E|info r s s' E]; intros Hs;
    apply (Hrun _ _ _ _ _ E); clear E Hrun; destruct s as [[] e]; revert Hs.
  - unfold Peer_Start. stuck_walk.
  - unfold Peer_Stop, Peer_Stop_begin. stuck_walk.
  - stuck_walk.
  - stuck_walk.
  - stuck_walk.
  - intros Hs. pose proof Hs as (? & ? & _). by apply Outbound_body_stuck.
  - stuck_walk.
  - stuck_walk.
  - unfold OutboundPacket. stuck_walk.
  - unfold InboundPacket. stuck_walk.
  - stuck_walk.
  - unfold fire, HandshakeTimeout. stuck_walk.
  - stuck_walk.
  - stuck_walk.
  - unfold Update. stuck_walk.
Qed.
End StopHazards.

(** ** Properties *)

Section HazardTheorems.
Context `{Noise, PoolChoice, NodeExt}.
Abbreviation Peer := NodePeer.Peer.
Implicit Types (p : Peer) (s : PS).

Lemma Stop_transport p e :
  peer_inv p -> state p = 2 -> running p = true ->
  g_inbound p = Waiting /\ g_outbound p = Waiting /\ g_handshake p = Waiting ->
  exists s, Peer_Stop (mkPS _ p e) = Crash UnlockOfUnlocked s.
Proof.
  intros Hinv Hstate Hrun Hgo.
  destruct (Stop_begin_done p e (inv_mu _ Hinv) (inv_queues_clean _ Hinv)) as [r E].
  pose proof (inv_lock _ Hinv) as HL. rewrite Hstate, Hrun in HL. cbn in HL.
  rewrite bool_decide_true in HL by done.
  unfold Peer_Stop. rewrite (bind_done _ _ _ _ _ E).
  destruct Hgo as (G1 & G2 & G3). destruct p; cbn in *; subst. eexists. vm_compute. reflexivity.
Qed.


(** C23. Stopping a peer that holds a packet for a handshake that has not finished never
    returns: [Stop] waits for the outbound goroutine, which waits for the lock only a
    handshake or the end of [Stop] releases. It blocks with the peer's own lock held, and
    however the node's other parts go on, the peer stays like this: the goroutine keeps the
    packet, the lock stays taken, the peer is never started again. *)
Theorem stop_with_pending_packet_deadlocks p e b
    (Hinv : peer_inv p) (Hstate : state p <> 2) (Hrun : running p = true)
    (Hgo : g_inbound p = Waiting /\ g_outbound p = Busy b /\ g_handshake p = Waiting) :
  exists s, Peer_Stop (mkPS _ p e) = Blocked WaitLock s /\
    forall s', reach peer_step s s' -> stuck b s'.
Proof.
  destruct (Stop_begin_done p e (inv_mu _ Hinv) (inv_queues_clean _ Hinv)) as [r E].
  pose proof (inv_lock _ Hinv) as HL. rewrite Hrun, bool_decide_false in HL by done. cbn in HL.
  destruct Hgo as (G1 & G2 & G3). unfold Peer_Stop. rewrite (bind_done _ _ _ _ _ E).
  destruct p; cbn in *; subst. eexists. split; [vm_compute; reflexivity|].
  intros s' Hr. eapply (reach_invariant _ (stuck b)); [|intros x y; apply stuck_step|exact Hr].
  split_and!; reflexivity.
Qed.

(** What a node does not expect of the next handshake packet from a peer: a first message with
    a counter other than zero, an answer with a counter other than one, any message at all
    when it has itself initiated the session it is in. *)
Definition unexpected p (c : Z) : Prop :=
  state p = 0 /\ c <> 0 \/ state p = 1 /\ c <> 1 \/
  state p = 2 /\ initiator p = true /\ hs p = None.
End HazardTheorems.

Section NetworkHazards.
Context `{NoiseLaws, PoolChoice, NodeExt}.
Abbreviation Peer := NodePeer.Peer.
Implicit Types (p : Peer) (s : PS).

Lemma unexpected_crashes p e b :
  peer_inv p -> unexpected p (Counter (ib_header b)) -> ib_ok b ->
  HeaderLen <= ib_size b <= Z.of_nat BufferSize -> is_Some (raddr p) -> is_Some (ib_raddr b) ->
  running p = true -> exists k, crashes (Handshake_body b) (mkPS _ p e) k.
Proof.
  intros Hinv Hun Hb Hsz [a Ha] [a' Ha'] Hrun. unfold Handshake_body, crashes.
  destruct Hun as [[Hs Hc]|[[Hs Hc]|(Hs & Hi & Hh)]].
  - exists (PanicWith "header counter doesnt match state 0").
    rewrite (bind_done _ _ _ (state p) (mkPS _ p e)), Hs by done.
    erewrite bind_crash; [done|]. rewrite bool_decide_true, bool_decide_true by done. done.
  - exists (PanicWith "header counter doesnt match state 1").
    rewrite (bind_done _ _ _ (state p) (mkPS _ p e)), Hs by done.
    erewrite bind_crash; [done|].
    rewrite (bool_decide_false (1 = 0)), bool_decide_true, bool_decide_true by done. done.
  - exists NilDeref. pose proof (inv_mu _ Hinv). pose proof (inv_lock _ Hinv) as HL.
    rewrite Hs, Hrun in HL. cbn in HL. rewrite bool_decide_true in HL by done.
    destruct p; cbn in *; subst. pose proof (payload_slice b Hb Hsz) as Hre.
    unfold UpdateEndpoint, handshakeP2_or_panic, handshakeP2, handshakeP2_complete.
    go_unfold. cbn. unfold same_endpoint. rewrite Ha'. cbn.
    rewrite (bool_decide_false (2 = 0)), (bool_decide_false (2 = 1)), (bool_decide_true (2 = 2)) by lia. cbn.
    destruct (IP_Equal _ _ && bool_decide _); cbn; rewrite Hre; cbn; rewrite read_nil; done.
Qed.

(** C24. One datagram from anywhere takes a node down: sixteen bytes, a handshake header that
    names a known peer's id and carries a counter the peer's state does not expect (any
    counter will do for a session the node has initiated itself). Nothing is authenticated
    before the panic, and no address is checked. *)
Theorem handshake_datagram_crashes (n : Node) id c from ptr p
    (Hpools : pools_clean (pools (n_env n))) (Hmaps : maps_ok n) (Hid : u32 id) (Hc : u64 c)
    (Hptr : id_map n !! id = Some ptr) (Hp : heap n !! ptr = Some p) (Hinv : peer_inv p)
    (Hrun : running p = true) (Hq : handshakes p = []) (Hra : is_Some (raddr p)) (Hun : unexpected p c) :
  exists n1 k, ReadUDPPackets (Ok (handshake_datagram id c [], from)) n = Done true n1 /\
    crashes (on_peer ptr Handshake_turn) n1 k.
Proof.
  destruct (udp_handshake_queued n id c [] from ptr p Hpools Hmaps Hid Hc) as
    (b & q & U & Hq1 & B & C & Z & Y & F); try done.
  { unfold BufferSize. cbn. lia. }
  set (n1 := n <| heap ::= _ |> <| n_env := _ |>) in *.
  pose (p1 := (p <| handshakes := [] |>) <| g_handshake := Busy b |>).
  assert (Hinv1 : peer_inv p1).
  { destruct Hinv as [? ? ? ? ? (? & ? & ? & ?)]. destruct p; cbn in *; subst. constructor; cbn; try done.
    all: by destruct_and!. }
  destruct (unexpected_crashes p1 (n_env n1) b Hinv1) as [k Hk]; try done;
    first [by rewrite C | by eexists | rewrite Z; unfold HeaderLen, BufferSize; cbn; lia | idtac].
  pose (p0 := p <| handshakes := [Some b] |>).
  assert (HT : Handshake_turn (mkPS _ p0 (n_env n1)) = Handshake_body b (mkPS _ p1 (n_env n1)))
    by (apply (Handshake_turn_eq b p0); reflexivity).
  assert (Hn1 : heap n1 !! ptr = Some p0) by (subst n1; cbn; by rewrite lookup_insert_eq).
  exists n1, k. split; [exact U|]. unfold crashes, on_peer, zoom in *. rewrite Hn1, HT. by destruct (Handshake_body _ _).
Qed.
End NetworkHazards.

(** ** Concrete peers *)

(** Waiting for the answer to its first attempt. *)
Definition demo_pending : NodePeer.Peer :=
  (demo_entry 2) <| state := 1 |> <| initiator := true |> <| handshakeRetries := 1 |>
    <| handshakeSent := Some (Second * 3) |>.

Lemma demo_entry_inv j : peer_inv (demo_entry j).
Proof. constructor; cbn; try done; auto; lia. Qed.
Lemma demo_transport_inv j k : peer_inv (demo_transport j k).
Proof. constructor; cbn; try done; auto; lia. Qed.
Lemma demo_pending_inv g : alive g = true -> peer_inv (demo_pending <| g_outbound := g |>).
Proof. intros Hg. constructor; cbn; try done; auto; try lia. Qed.


Lemma stop_with_pending_packet_deadlocks_witness :
  exists s, Peer_Stop (mkPS _ (demo_pending <| g_outbound := Busy demo_packet |>) (demo_env 1)) = Blocked WaitLock s /\
    forall s', reach peer_step s s' -> stuck demo_packet s'.
Proof.
  apply (stop_with_pending_packet_deadlocks (demo_pending <| g_outbound := Busy demo_packet |>) (demo_env 1) demo_packet);
    [apply demo_pending_inv; done|done..].
Defined.

Lemma handshake_datagram_crashes_witness :
  exists n1 k, ReadUDPPackets (Ok (handshake_datagram 2 5 [], demo_ua 66)) (demo_node 1 2 (demo_entry 2)) = Done true n1 /\
    crashes (on_peer 7 Handshake_turn) n1 k.
Proof.
  apply (handshake_datagram_crashes (demo_node 1 2 (demo_entry 2)) 2 5 (demo_ua 66) 7 (demo_entry 2));
    [apply demo_pools_clean|apply demo_maps_ok|done..|apply demo_entry_inv|done|done|by eexists|by left].
Defined.
