(* ===== verification/Retry.v ===== *)
(** A handshake that is never answered: the retries end. *)

From S2P Require Import Prelude Bytes Header GoTime Netip Types GoSync Queue Grpc NodePeer NoiseLaws NodeCore Transport PeerWp Lifecycle Hazards.

Section Retry.
Context `{Noise, PoolChoice, NodeExt}.
Abbreviation Peer := NodePeer.Peer.
Implicit Types (p : Peer) (s : PS).

(** The peer's key makes a handshake that can be started: an initiation is written. *)
Definition can_initiate p (k : DHKey) : Prop :=
  exists i0, NewHandshakeState true k (Some (pubkey p)) = Ok i0 /\
    forall rnd out, slice_ok out -> exists h out', WriteMessage rnd (Some i0) out = Ok (h, out', None, None, None).

Lemma TrySendHandshake_send_done p e a :
  mu p = unlocked -> raddr p = Some a -> pools_clean (pools e) -> can_initiate p (keyPair e) ->
  exists h m e',
    TrySendHandshake_send (mkPS _ p e) = Done tt (mkPS _ (sent_peer h p) e') /\
    pools_clean (pools e') /\ net_out e' = net_out e ++ [(m, a)] /\ punches e' = punches e /\
    keyPair e' = keyPair e.
Proof.
  intros Hmu Ha Hq (i0 & Hnew & Hwrite). destruct p; cbn in *; subst.
  destruct (GetOutboundBuffer_clean (pools e) Hq) as (b & q & EG & Hb & Hq' & _).
  destruct (encode_header_eq b MsgHandshake (node_id e) 0 (ob_clean_ok _ Hb)) as (b' & HE & Hb' & _).
  destruct (header_slice (mkHeader HeaderVersion MsgHandshake (node_id e) 0 HeaderPadding) (s_arr (ob_out b)))
    as [Hok _].
  set (out0 := Slice _ 16) in *. destruct (Hwrite (entropy e) out0 Hok) as (h & out' & HW).
  destruct (PutOutboundBuffer_clean b' q Hb' Hq') as (q2 & EP & Hq2 & _).
  exists h, (s_bytes out'), (e <| net_out ::= (fun l => l ++ [(s_bytes out', a)]) |> <| pools := q2 |> <| entropy := entropy e + 1 |>).
  split.
  - unfold TrySendHandshake_send, InitHandshake, CreateHandshake, handshakeP1, fresh_random.
    go_eval. rewrite Hnew. cbn. rewrite EG. cbn. rewrite HE. cbn. rewrite HW. cbn.
    destruct e; cbn in *. rewrite EP. cbn. reflexivity.
  - cbn. done.
Qed.

Definition timeout : go PS unit := fire (fun p => p <| handshakeSent := None |>) HandshakeTimeout.

(** A peer that waits for the answer to its [n]-th attempt. *)
Definition waiting (n : Z) p : Prop :=
  mu p = unlocked /\ state p = 1 /\ initiator p = true /\ handshakeRetries p = n /\ queues_clean p.

Lemma timeout_retries n p e a :
  waiting n p -> 1 <= n < CountHandshakeRetries -> raddr p = Some a -> pools_clean (pools e) ->
  can_initiate p (keyPair e) ->
  exists p' e' m, timeout (mkPS _ p e) = Done tt (mkPS _ p' e') /\ waiting (n + 1) p' /\
    raddr p' = Some a /\ pools_clean (pools e') /\ can_initiate p' (keyPair e') /\
    pendingLock p' = pendingLock p /\ running p' = running p /\
    net_out e' = net_out e ++ [(m, a)] /\ length (punches e') = S (length (punches e)).
Proof.
  intros (Hmu & Hst & Hini & Hn & Hqs) Hrange Ha Hq Hcan. destruct p; cbn in *; subst.
  unfold timeout, fire, HandshakeTimeout, TrySendHandshake, RequestPunch, Node_RequestPunch.
  remember TrySendHandshake_send as f eqn:Ef. go_eval.
  rewrite (bool_decide_true (0 < 1)) by lia. cbn.
  rewrite bool_decide_false by (rewrite add64_small; unfold CountHandshakeRetries in *; lia). cbn.
  rewrite Ef. match goal with |- context [TrySendHandshake_send (mkPS _ ?p1 ?e1)] =>
    destruct (TrySendHandshake_send_done p1 e1 a eq_refl eq_refl Hq Hcan) as (h & m & e2 & E & P1 & P2 & P3 & P4) end.
  rewrite E. eexists _, e2, m. split; [reflexivity|].
  cbn in *. rewrite P2, P3, P4, length_app. split_and!; try done.
  - unfold waiting. cbn. split_and!; try done. apply add64_small. unfold CountHandshakeRetries in *. lia.
  - cbn. lia.
Qed.

(** After the tenth attempt the peer gives up. *)
Lemma timeout_gives_up p e :
  waiting CountHandshakeRetries p ->
  exists r, timeout (mkPS _ p e) =
    Done tt (mkPS _ (reset_peer (p <| handshakeSent := None |>)) (e <| pools := r |>)).
Proof.
  intros (Hmu & Hst & Hini & Hn & Hqs). destruct p; cbn in *; subst.
  unfold timeout, fire, HandshakeTimeout, TrySendHandshake.
  remember TrySendHandshake_send as f eqn:Ef. remember ResetState as g eqn:Eg. go_eval.
  rewrite (bool_decide_true (0 < 1)) by lia. cbn.
  rewrite bool_decide_true by (rewrite add64_small; unfold CountHandshakeRetries in *; lia). cbn.
  match goal with |- context [g (mkPS _ ?p1 ?e1)] => destruct (ResetState_done p1 e1 eq_refl Hqs) as [r E] end.
  exists r. rewrite Eg. exact E.
Qed.

Fixpoint timeouts (n : nat) : go PS unit :=
  match n with O => mret tt | S n' => _ ← timeout; timeouts n' end.
End Retry.

(** ** Property *)

Section RetryTheorem.
Context `{Noise, PoolChoice, NodeExt}.
Abbreviation Peer := NodePeer.Peer.

Lemma timeouts_retry (k : nat) (n : Z) (p : Peer) e a :
  waiting n p -> 1 <= n -> n + Z.of_nat k <= CountHandshakeRetries -> raddr p = Some a ->
  pools_clean (pools e) -> can_initiate p (keyPair e) ->
  exists p' e' sent, timeouts k (mkPS _ p e) = Done tt (mkPS _ p' e') /\ waiting (n + Z.of_nat k) p' /\
    pendingLock p' = pendingLock p /\ running p' = running p /\
    net_out e' = net_out e ++ sent /\ length sent = k /\ (forall d : list Z * UDPAddr, d ∈ sent -> d.2 = a) /\
    length (punches e') = (length (punches e) + k)%nat.
Proof.
  revert n p e. induction k as [|k IH]; intros n p e Hw Hn1 Hn2 Ha Hq Hcan.
  - exists p, e, []. rewrite Z.add_0_r, app_nil_r, Nat.add_0_r. split_and!; try done. by intros d ?%not_elem_of_nil.
  - destruct (timeout_retries n p e a Hw ltac:(lia) Ha Hq Hcan) as
      (p1 & e1 & m & E & Hw1 & Ha1 & Hq1 & Hcan1 & L1 & R1 & N1 & P1).
    destruct (IH (n + 1) p1 e1 Hw1 ltac:(lia) ltac:(lia) Ha1 Hq1 Hcan1) as
      (p2 & e2 & sent & E2 & Hw2 & L2 & R2 & N2 & S2 & A2 & P2).
    exists p2, e2, ((m, a) :: sent). cbn [timeouts]. rewrite (bind_done _ _ _ _ _ E).
    replace (n + Z.of_nat (S k)) with (n + 1 + Z.of_nat k) by lia.
    split; [exact E2|]. split; [exact Hw2|]. rewrite L2, R2, N2, N1, <- app_assoc. cbn.
    split_and!; try done; [congruence| |rewrite P2, P1; lia].
    intros d [->|Hd]%elem_of_cons; [done|auto].
Qed.

(** C25. A handshake that is never answered ends: a peer that waits for the answer to its
    [n]-th attempt sends the initiation again at each expiry of its timer, each time asking
    the controller for a punch, until the tenth attempt; the next expiry gives up. The peer
    is then idle with empty queues and stopped timers, and still running, so that the next
    packet starts a fresh handshake. *)
Theorem handshake_gives_up (n : Z) (p : Peer) e a
    (Hw : waiting n p) (Hn : 1 <= n <= CountHandshakeRetries) (Ha : raddr p = Some a)
    (Hpools : pools_clean (pools e)) (Hcan : can_initiate p (keyPair e)) :
  exists p' e' sent, timeouts (Z.to_nat (CountHandshakeRetries + 1 - n)) (mkPS _ p e) = Done tt (mkPS _ p' e') /\
    state p' = 0 /\ initiator p' = false /\ inTransport p' = false /\ handshakeRetries p' = 0 /\
    inbound p' = [] /\ outbound p' = [] /\ handshakes p' = [] /\
    handshakeSent p' = None /\ receivedPacket p' = None /\ keepalive p' = None /\
    pendingLock p' = pendingLock p /\ running p' = running p /\
    net_out e' = net_out e ++ sent /\ length sent = Z.to_nat (CountHandshakeRetries - n) /\
    (forall d : list Z * UDPAddr, d ∈ sent -> d.2 = a) /\
    length (punches e') = (length (punches e) + length sent)%nat.
Proof.
  destruct (timeouts_retry (Z.to_nat (CountHandshakeRetries - n)) n p e a Hw ltac:(lia) ltac:(lia) Ha Hpools Hcan)
    as (p1 & e1 & sent & E1 & Hw1 & L1 & R1 & N1 & S1 & A1 & P1).
  replace (n + _) with CountHandshakeRetries in Hw1 by lia.
  destruct (timeout_gives_up p1 e1 Hw1) as [r E2].
  eexists _, _, sent. split.
  - replace (Z.to_nat (CountHandshakeRetries + 1 - n)) with (Z.to_nat (CountHandshakeRetries - n) + 1)%nat by lia.
    assert (Hsplit : forall k s s1 s2, timeouts k s = Done tt s1 -> timeout s1 = Done tt s2 -> timeouts (k + 1) s = Done tt s2).
    { intros k. induction k as [|k IH]; intros s s1 s2 Ek Et; cbn [timeouts Nat.add] in *.
      - injection Ek as <-. rewrite (bind_done _ _ _ _ _ Et). done.
      - apply bind_done_inv in Ek as ([] & s3 & E3 & Ek). rewrite (bind_done _ _ _ _ _ E3). by eapply IH. }
    eapply Hsplit; [exact E1|exact E2].
  - destruct p1; cbn in *. rewrite S1. split_and!; done.
Qed.
End RetryTheorem.

Lemma handshake_gives_up_witness :
  exists p' e' sent, timeouts (Z.to_nat (CountHandshakeRetries + 1 - 1)) (mkPS _ demo_pending (demo_env 1)) = Done tt (mkPS _ p' e') /\
    state p' = 0 /\ initiator p' = false /\ inTransport p' = false /\ handshakeRetries p' = 0 /\
    inbound p' = [] /\ outbound p' = [] /\ handshakes p' = [] /\
    handshakeSent p' = None /\ receivedPacket p' = None /\ keepalive p' = None /\
    pendingLock p' = wlocked /\ running p' = true /\
    net_out e' = [] ++ sent /\ length sent = Z.to_nat (CountHandshakeRetries - 1) /\
    (forall d : list Z * UDPAddr, d ∈ sent -> d.2 = demo_ua 2) /\
    length (punches e') = (0 + length sent)%nat.
Proof.
  apply (handshake_gives_up 1 demo_pending (demo_env 1) (demo_ua 2)); try done.
  exists (mkToyHS true 11 12 0). split; [reflexivity|]. intros rnd out Hout. eexists _, _. cbn. reflexivity.
Defined.
