(* ===== verification/Dispatch.v ===== *)
(** What the node does with a packet from the tunnel (node/node.go, OnTunnelPacket) and with
    a STUN answer (node/stun.go), and the whole way of a first packet between two idle nodes. *)

From S2P Require Import Prelude Bytes Header GoTime Netip Types Ipam GoSync Queue Grpc NodePeer NoiseLaws NodeCore Transport.

Section DispatchLemmas.
Context `{Noise, PoolChoice, NodeExt}.

(** The buffer the tunnel reader hands on: the packet and zeros behind it. *)
Definition tun_buffer (data : list Z) : OutboundBuffer :=
  NewOutboundBuffer <| ob_packet := Slice (take BufferSize data ++ replicate (BufferSize - length data) 0) BufferSize |>
    <| ob_size := Z.of_nat (min BufferSize (length data)) |>.

Lemma tun_buffer_ok data : ob_ok (tun_buffer data).
Proof.
  split; [apply make_slice_full|]. split; [done|].
  change (length (take BufferSize data ++ replicate (BufferSize - length data) 0) = BufferSize).
  rewrite length_app, length_take, length_replicate. lia.
Qed.

(** Where a packet for the IPv4 address [dst] goes: to a peer's entry, or nowhere. *)
Definition tunnel_route (n : Node) (dst : Z) : option Z :=
  if bool_decide (Addr4 dst = p_addr (n_ip n)) then None
  else if bool_decide (net_num (n_ip n) <= dst <= bcast_num (n_ip n)) then ip_map n !! Addr4 dst else None.

Lemma IP_Equal_4 x y : length x = 4%nat -> length y = 4%nat -> IP_Equal x y = bool_decide (x = y).
Proof. intros Hx Hy. unfold IP_Equal. by rewrite bool_decide_true by congruence. Qed.

Lemma be_bytes4_inj a b : u32 a -> u32 b -> be_bytes 4 a = be_bytes 4 b -> a = b.
Proof.
  unfold u32. intros Ha Hb E. apply (f_equal be_word) in E. by rewrite !be_word_bytes_small in E by done.
Qed.

Lemma masked_contains p a : prefix4 p -> u32 a -> Contains (Masked p) (Addr4 a) = Contains p (Addr4 a).
Proof.
  intros [Ha Hb] Hu. unfold is4 in Ha. unfold Masked, Contains. destruct p as [[|x|] bits]; try done. cbn in *.
  rewrite bool_decide_true by lia. cbn. rewrite !Z.shiftr_lxor by lia.
  unfold mask_num. rewrite Z.shiftr_shiftl_l by lia. rewrite Z.sub_diag, Z.shiftl_0_r. by rewrite bool_decide_true by lia.
Qed.

(** The dispatcher is the route: the buffer goes to the peer, or back to the pool. *)
Lemma OnTunnelPacket_route (n : Node) b own dst :
  prefix4 (n_ip n) -> p_addr (n_ip n) = Addr4 own -> u32 dst ->
  ipv4_ParseHeader_Dst (s_bytes (ob_packet b)) = Ok (be_bytes 4 dst) ->
  OnTunnelPacket b n =
    match tunnel_route n dst with
    | Some ptr => on_peer ptr (OutboundPacket b) n
    | None => on_pools (PutOutboundBuffer (Some b)) n
    end.
Proof.
  intros Hp Ho Hd HP. assert (Hown : u32 own) by (destruct Hp as [Ha _]; by rewrite Ho in Ha).
  unfold OnTunnelPacket, tunnel_route. rewrite HP.
  rewrite (bind_done _ _ _ (n_ip n) n) by done.
  rewrite IP_Equal_4 by (rewrite ?Ho; apply be_bytes_length). rewrite Ho. cbn [AsSlice].
  rewrite (bool_decide_ext _ (Addr4 dst = Addr4 own)).
  2: { split; [intros E; f_equal; by apply be_bytes4_inj|by intros [= ->]]. }
  case_bool_decide; [done|].
  unfold To4. rewrite bool_decide_true by apply be_bytes_length.
  unfold AddrFromSlice. rewrite be_bytes_length, bool_decide_true, be_word_bytes_small by done.
  rewrite masked_contains by done.
  pose proof (Contains4 (n_ip n) dst Hp Hd) as HC.
  destruct (Contains (n_ip n) (Addr4 dst)); cbn [negb].
  - rewrite bool_decide_true by (by apply HC).
    rewrite (bind_done _ _ _ (ip_map n) n) by done. by destruct (ip_map n !! Addr4 dst).
  - rewrite bool_decide_false; [done|]. intros Hin. by apply HC in Hin.
Qed.

(** The tunnel reader's turn with a packet whose header parses. *)
Lemma ReadTunPackets_route (n : Node) data own dst :
  pools_clean (pools (n_env n)) -> prefix4 (n_ip n) -> p_addr (n_ip n) = Addr4 own -> u32 dst ->
  ipv4_ParseHeader_Dst (s_bytes (ob_packet (tun_buffer data))) = Ok (be_bytes 4 dst) ->
  exists q b, pools_clean q /\ OBuffersInUse q = add64 (OBuffersInUse (pools (n_env n))) 1 /\
    ob_ok b /\ ob_packet b = ob_packet (tun_buffer data) /\
    ob_size b = ob_size (tun_buffer data) /\
    let n1 := n <| n_env := (n_env n) <| pools := q |> |> in
    ReadTunPackets (Ok data) n =
      match tunnel_route n dst with
      | Some ptr => (_ ← on_peer ptr (OutboundPacket b); mret true) n1
      | None => (_ ← on_pools (PutOutboundBuffer (Some b)); mret true) n1
      end.
Proof.
  intros Hq Hp Ho Hd HP.
  destruct (GetOutboundBuffer_clean _ Hq) as (b & q & EG & Hb & Hq' & Hu & _).
  exists q, ((b <| ob_packet := ob_packet (tun_buffer data) |>) <| ob_size := ob_size (tun_buffer data) |>).
  split; [done|]. split; [done|]. split.
  { pose proof (ob_clean_ok _ Hb) as [Hout _]. split; [exact Hout|]. apply (tun_buffer_ok data). }
  split; [done|]. split; [done|]. cbn zeta. set (n1 := n <| n_env := _ |>).
  unfold ReadTunPackets. rewrite (bind_done _ _ _ _ _ (on_pools_done _ _ _ _ EG)).
  destruct Hb as (_ & Hpk & _). rewrite Hpk, read_into_clean.
  unfold mbind at 1, go_bind at 1. fold n1.
  rewrite (OnTunnelPacket_route n1 _ own dst) by done.
  change (tunnel_route n1 dst) with (tunnel_route n dst). by destruct (tunnel_route n dst).
Qed.
End DispatchLemmas.

(** ** Properties of the dispatch *)

Section DispatchTheorems.
Context `{Noise, PoolChoice, NodeExt}.

(** The peer's part when no handshake has to be started. *)
Lemma OutboundPacket_queues b p e :
  running p = true -> (length (outbound p) < OutboundChannelSize)%nat -> inTransport p = true \/ state p <> 0 ->
  OutboundPacket b (mkPS _ p e) = Done tt (mkPS _ (p <| outbound := outbound p ++ [Some b] |>) e).
Proof.
  intros Hr Hroom Hst. unfold OutboundPacket.
  rewrite (bind_done _ _ _ (running p) (mkPS _ p e)) by done. rewrite Hr. cbn [negb].
  rewrite (bind_done _ _ _ (outbound p) (mkPS _ p e)) by done. rewrite bool_decide_true by done.
  erewrite bind_done by reflexivity. erewrite bind_done by reflexivity. cbn [self field_upd inTransport state].
  destruct Hst as [-> | Hs]; [done|]. rewrite (bool_decide_false (state p = 0)), andb_false_r by done. done.
Qed.


(** What the socket's reader hands on: the datagram and zeros behind it. *)
Definition udp_bytes (data : list Z) : list Z := take BufferSize data ++ replicate (BufferSize - length data) 0.
Definition stun_reports (n : Node) (ep : string) : list UpdateEndpointRequest :=
  if bool_decide (discoveredEndpoint (n_env n) = ep) then [] else [mkUER (machineID (n_env n)) ep].

Lemma drop_inbound b (n : Node) :
  ib_ok b -> pools_clean (pools (n_env n)) ->
  exists q, pools_clean q /\
    on_pools (PutInboundBuffer (Some b)) n = Done tt (n <| n_env := (n_env n) <| pools := q |> |>).
Proof.
  intros Hb Hq. destruct (PutInboundBuffer_clean b _ Hb Hq) as (q & E & Hq' & _).
  exists q. split; [done|]. by apply on_pools_done.
Qed.

Lemma handleStun_eq m ep (n : Node) :
  stun_mapped m = Ok ep ->
  handleStunMessage m n = Done tt (n <| n_env := (n_env n) <| discoveredEndpoint := ep |> |>
                                     <| endpoint_reports ::= (fun l => l ++ stun_reports n ep) |>).
Proof.
  intros Hm. unfold handleStunMessage, decodeStunMessage, stun_reports. rewrite Hm.
  destruct n as [? ? ? ? ? ? ? ? [] ? ? ? ?]. cbn. unfold mbind, go_bind, reads. cbn.
  destruct (decide (discoveredEndpoint = ep)) as [->|Hne].
  - rewrite bool_decide_false, bool_decide_true by (done || tauto). by rewrite app_nil_r.
  - by rewrite bool_decide_true, bool_decide_false by done.
Qed.

Lemma OnUDPPacket_stun b (n : Node) ep :
  ib_ok b -> pools_clean (pools (n_env n)) -> Padding (header_of (s_bytes (ib_in b))) <> HeaderPadding ->
  stun_IsMessage (s_bytes (ib_in b)) = true -> stun_mapped (s_bytes (ib_in b)) = Ok ep ->
  exists q, pools_clean q /\
    OnUDPPacket b n = Done tt (n <| n_env := (n_env n) <| discoveredEndpoint := ep |> <| pools := q |> |>
                                 <| endpoint_reports ::= (fun l => l ++ stun_reports n ep) |>).
Proof.
  intros Hb Hq Hpad Hmsg Hep. unfold OnUDPPacket.
  destruct (Parse (Some (ib_header b)) (ib_in b)) as [h [e|]] eqn:EP.
  - cbn [ib_in field_upd]. rewrite Hmsg. cbn [when]. pose proof (handleStun_eq _ ep n Hep) as EH.
    set (n2 := n <| n_env := _ |> <| endpoint_reports ::= _ |>) in EH.
    set (b' := b <| ib_header := default (ib_header b) h |>).
    destruct (drop_inbound b' n2) as (q1 & Hq1 & E1); [exact Hb|exact Hq|].
    exists q1. split; [done|]. rewrite (bind_done _ _ _ _ _ EH). etransitivity; [exact E1|]. subst n2. by destruct n as [? ? ? ? ? ? ? ? [] ? ? ? ?].
  - exfalso. apply Hpad. destruct h as [h|]; [|unfold Parse in EP; repeat case_match; simplify_eq].
    apply Parse_accepts in EP as (_ & -> & _ & HP); [done|]. destruct Hb. unfold slice_ok. lia.
Qed.

(** A STUN answer changes the node's endpoint to the address it carries, tells the
    controller exactly when that is a new one, and does nothing else: no peer, no queue and
    no socket is touched and the buffer goes back. That the header parser rejects the
    datagram first is a hypothesis, since an answer can be mistaken for a packet of the
    overlay (C29). *)
Theorem stun_answer_reported (n : Node) data from ep
    (Hpools : pools_clean (pools (n_env n)))
    (Hmsg : stun_IsMessage (udp_bytes data) = true) (Hep : stun_mapped (udp_bytes data) = Ok ep)
    (Hpad : Padding (header_of (udp_bytes data)) <> HeaderPadding) :
  exists q, pools_clean q /\
    ReadUDPPackets (Ok (data, from)) n =
      Done true (n <| n_env := (n_env n) <| discoveredEndpoint := ep |> <| pools := q |> |>
                   <| endpoint_reports ::= (fun l => l ++ stun_reports n ep) |>).
Proof.
  destruct (GetInboundBuffer_clean _ Hpools) as (b & q & EG & (Hin & Hraddr & Hsize & Hpeer) & Hq & _).
  unfold ReadUDPPackets. rewrite (bind_done _ _ _ _ _ (on_pools_done _ _ _ _ EG)).
  set (n1 := n <| n_env := _ |>).
  rewrite Hin, read_into_clean. fold (udp_bytes data).
  set (sl := Slice (udp_bytes data) BufferSize).
  assert (Hlen : length (udp_bytes data) = BufferSize) by (unfold udp_bytes; rewrite length_app, length_take, length_replicate; lia).
  assert (Hbytes : s_bytes sl = udp_bytes data) by (unfold sl, s_bytes; cbn [s_len s_arr]; apply take_ge; lia).
  set (b1 := ((b <| ib_in := sl |>) <| ib_size := _ |>) <| ib_raddr := Some from |>).
  destruct (OnUDPPacket_stun b1 n1 ep) as (q1 & Hq1 & E1); try done.
  { change (Padding (header_of (s_bytes sl)) <> HeaderPadding). by rewrite Hbytes. }
  { change (stun_IsMessage (s_bytes sl) = true). by rewrite Hbytes. }
  { change (stun_mapped (s_bytes sl) = Ok ep). by rewrite Hbytes. }
  exists q1. split; [done|]. rewrite (bind_done _ _ _ _ _ E1). unfold mret, go_ret. f_equal.
Qed.

(** The first twenty bytes of the answer to a STUN binding request (RFC 5389): type, length,
    magic cookie and the transaction id the request has chosen at random. *)
Definition stun_answer (len : Z) (tid : list Z) : list Z :=
  [1; 1] ++ be_bytes 2 len ++ [0x21; 0x12; 0xa4; 0x42] ++ tid.

(** STUN answers and the overlay's packets share a socket and are told apart by the
    header parser alone, which an answer passes exactly when two bytes of its random
    transaction id spell the header's padding. It is then taken for a handshake message of
    the peer whose id its length and cookie make up, and its endpoint is not seen. *)
Theorem stun_answer_mistaken (g : Header) len tid rest (Hlen : u16 len) (Htid : length tid = 12%nat) :
  ((exists h, Parse (Some g) (of_bytes (stun_answer len tid ++ rest)) = (Some h, None)) <->
     be_word (bytes_at 6 2 tid) = HeaderPadding) /\
  forall h, Parse (Some g) (of_bytes (stun_answer len tid ++ rest)) = (Some h, None) ->
    MsgType h = MsgHandshake /\ SenderIndex h = len * 2 ^ 16 + 0x2112.
Proof.
  set (bs := stun_answer len tid ++ rest).
  assert (Hok : slice_ok (of_bytes bs)) by (unfold slice_ok; cbn; lia).
  assert (Hbs : s_bytes (of_bytes bs) = bs) by (unfold s_bytes; cbn [s_len s_arr of_bytes]; by apply take_ge).
  assert (Hl : (20 <= length bs)%nat).
  { unfold bs, stun_answer. rewrite !length_app, be_bytes_length, Htid. cbn. lia. }
  assert (Hhdr : Version (header_of bs) = 1 /\ MsgType (header_of bs) = MsgHandshake /\
                 SenderIndex (header_of bs) = len * 2 ^ 16 + 0x2112 /\
                 Padding (header_of bs) = be_word (bytes_at 6 2 tid)).
  { do 12 (destruct tid as [|? tid]; [discriminate|]). destruct tid; [|discriminate].
    split; [done|]. split; [done|]. split; [|done].
    unfold header_of, bs, stun_answer. cbn [SenderIndex].
    change (bytes_at 2 4 _) with ((be_bytes 2 len ++ [0x21]) ++ [0x12]).
    rewrite !be_word_snoc by (unfold u8; lia). rewrite be_word_bytes_small by (unfold u16 in *; cbn; lia). lia. }
  destruct Hhdr as (Hv & Ht & Hs & Hp).
  assert (HP : forall h, Parse (Some g) (of_bytes bs) = (Some h, None) <->
                 h = header_of bs /\ be_word (bytes_at 6 2 tid) = HeaderPadding).
  { intros h. rewrite Parse_accepts by done. rewrite Hbs. split.
    - intros (_ & -> & _ & E). by rewrite <- Hp.
    - intros [-> E]. split; [unfold HeaderLen; cbn [s_len of_bytes]; lia|]. rewrite Hp, Hv. done. }
  split.
  - split; [intros [h Hh]; by apply HP in Hh as [_ ?]|]. intros E. exists (header_of bs). by apply HP.
  - intros h Hh. apply HP in Hh as [-> _]. done.
Qed.
End DispatchTheorems.

(** ** The first packet for an idle peer *)

Section FirstPacket.
Context `{NoiseLaws, PoolChoice, NodeExt}.

Lemma OutboundPacket_initiates b p e :
  running p = true -> outbound p = [] -> inTransport p = false -> state p = 0 ->
  OutboundPacket b (mkPS _ p e) = TrySendHandshake false (mkPS _ (p <| outbound := [Some b] |>) e).
Proof.
  intros Hr Ho Ht Hs. destruct p; cbn in *; subst. unfold OutboundPacket.
  remember TrySendHandshake as f eqn:Ef. go_eval. reflexivity.
Qed.

Lemma Outbound_body_waits b p e :
  pendingLock p = wlocked -> Outbound_body b (mkPS _ p e) = Blocked WaitLock (mkPS _ p e).
Proof. intros Hl. destruct p; cbn in *; subst. reflexivity. Qed.

Lemma Outbound_recv_some b q p e :
  outbound p = Some b :: q ->
  Outbound_recv (mkPS _ p e) = Done tt (mkPS _ ((p <| outbound := q |>) <| g_outbound := Busy b |>) e).
Proof. intros Hq. destruct p; cbn in *; subst. reflexivity. Qed.

(** The packet is queued, the handshake goes out, the goroutine takes the packet and waits. *)
Lemma node_holds_first (n : Node) ptr p b dst i0 i1 m1 :
  heap n !! ptr = Some p -> maps_ok n -> pools_clean (pools (n_env n)) -> idle p -> raddr p = Some dst ->
  inTransport p = false -> outbound p = [] ->
  NewHandshakeState true (keyPair (n_env n)) (Some (pubkey p)) = Ok i0 ->
  (forall out, slice_ok out -> exists out',
     WriteMessage (entropy (n_env n)) (Some i0) out = Ok (Some i1, out', None, None, None) /\
     s_bytes out' = s_bytes out ++ m1) ->
  exists n1 n2 p2,
    on_peer ptr (OutboundPacket b) n = Done tt n1 /\ on_peer ptr Outbound_recv n1 = Done tt n2 /\
    on_peer ptr (Outbound_body b) n2 = Blocked WaitLock n2 /\
    net_out (n_env n1) = net_out (n_env n) ++ [(handshake_datagram (node_id (n_env n)) 0 m1, dst)] /\
    net_out (n_env n2) = net_out (n_env n1) /\
    heap n2 !! ptr = Some p2 /\ maps_ok n2 /\ pools_clean (pools (n_env n2)) /\ id_map n2 = id_map n /\
    node_id (n_env n2) = node_id (n_env n) /\
    state p2 = 1 /\ initiator p2 = true /\ mu p2 = unlocked /\ pendingLock p2 = wlocked /\
    hs p2 = Some i1 /\ running p2 = true /\ handshakes p2 = [] /\ g_outbound p2 = Busy b.
Proof.
  intros Hp Hm Hq (S0 & I0 & M0 & L0 & R0 & Q0 & G0 & U0) Hdst Ht Ho Hnew Hwrite.
  pose (p1 := p <| outbound := [Some b] |>).
  destruct (TrySendHandshake_first p1 (n_env n) dst i0 i1 m1 M0 Hdst U0 Hq Hnew) as (q & Hq1 & T); [auto|].
  subst p1. rewrite <- (OutboundPacket_initiates b p (n_env n) R0 Ho Ht S0) in T.
  match type of T with _ = Done tt ?s => set (s1 := s) in T end.
  pose proof (on_peer_done ptr _ n p tt _ Hp T) as O1. set (n1 := n <| heap ::= _ |> <| n_env := _ |>) in O1.
  pose (p2 := self s1).
  assert (Hp2 : heap n1 !! ptr = Some p2) by (subst n1; cbn; by rewrite lookup_insert_eq).
  pose (p3 := (p2 <| outbound := [] |>) <| g_outbound := Busy b |>).
  pose proof (Outbound_recv_some b [] p2 (n_env n1) eq_refl) as T2.
  pose proof (on_peer_done ptr _ n1 p2 tt _ Hp2 T2) as O2. set (n2 := n1 <| heap ::= _ |> <| n_env := _ |>) in O2.
  exists n1, n2, p3. split; [exact O1|]. split; [exact O2|].
  assert (Hp3 : heap n2 !! ptr = Some p3) by (subst n2; cbn; by rewrite lookup_insert_eq).
  split.
  { unfold on_peer, zoom. rewrite Hp3, Outbound_body_waits by exact L0. cbn [self env].
    f_equal. subst n2. cbn. by rewrite insert_insert_eq. }
  do 2 (split; [reflexivity|]). split; [exact Hp3|]. split.
  { eapply maps_ok_insert; [exact Hm|done..|]. subst n2. cbn. by rewrite insert_insert_eq. }
  split; [exact Hq1|]. subst p3. cbn. by split_and!.
Qed.

(** C27. A packet for an idle peer is not lost: the tunnel reader queues it and starts the
    handshake, the peer's goroutine takes it and waits; the two handshake messages cross,
    through whatever addresses; the goroutine gets through and sends the packet to the address
    the answer came from, and the other node writes exactly its bytes to its own tunnel. *)
Theorem first_packet_delivered (na nb : Node) pta ptb (pa pb : Peer) data own dst_ip dst old fromA fromB fromA'
    (Hpa : heap na !! pta = Some pa) (Hma : id_map na !! node_id (n_env nb) = Some pta)
    (Hna : maps_ok na) (Hea : pools_clean (pools (n_env na))) (Hia : u32 (node_id (n_env na)))
    (Hpb : heap nb !! ptb = Some pb) (Hmb : id_map nb !! node_id (n_env na) = Some ptb)
    (Hnb : maps_ok nb) (Heb : pools_clean (pools (n_env nb))) (Hib : u32 (node_id (n_env nb)))
    (Hida : idle pa) (Hidb : idle pb) (Hda : raddr pa = Some dst) (Hob : raddr pb = Some old)
    (Hkey : pubkey pa = Public (keyPair (n_env nb)))
    (Hidle : inTransport pa = false /\ outbound pa = [] /\ inbound pb = [])
    (Hip : prefix4 (n_ip na)) (Hown : p_addr (n_ip na) = Addr4 own) (Hdst : u32 dst_ip)
    (Hhdr : ipv4_ParseHeader_Dst (s_bytes (ob_packet (tun_buffer data))) = Ok (be_bytes 4 dst_ip))
    (Hroute : tunnel_route na dst_ip = Some pta)
    (Hlen : (0 < length data <= BufferSize - 32)%nat) :
  exists b d1 d2 d3 na1 na2 na3 na4 na5 nb1 nb2 nb3 nb4,
    ReadTunPackets (Ok data) na = Done true na1 /\
    net_out (n_env na1) = net_out (n_env na) ++ [(d1, dst)] /\
    on_peer pta Outbound_recv na1 = Done tt na2 /\
    on_peer pta (Outbound_body b) na2 = Blocked WaitLock na2 /\
    ReadUDPPackets (Ok (d1, fromA)) nb = Done true nb1 /\
    on_peer ptb Handshake_turn nb1 = Done tt nb2 /\
    net_out (n_env nb2) = net_out (n_env nb) ++ [(d2, roam old fromA)] /\
    ReadUDPPackets (Ok (d2, fromB)) na2 = Done true na3 /\
    on_peer pta Handshake_turn na3 = Done tt na4 /\
    on_peer pta (Outbound_body b) na4 = Done tt na5 /\
    net_out (n_env na5) = net_out (n_env na1) ++ [(d3, fromB)] /\
    ReadUDPPackets (Ok (d3, fromA')) nb2 = Done true nb3 /\
    on_peer ptb Inbound_turn nb3 = Done tt nb4 /\
    tun_out (n_env nb4) = tun_out (n_env nb) ++ [data].
Proof.
  destruct Hidle as (Ht & Hoq & Hin). pose proof Hidb as (_ & _ & _ & _ & Hrb & _).
  destruct (ReadTunPackets_route na data own dst_ip Hea Hip Hown Hdst Hhdr) as (q & b & Hq & _ & Hb & Hpk & Hsz & HR).
  cbn zeta in HR. rewrite Hroute in HR. set (n0 := na <| n_env := _ |>) in HR.
  destruct (ik_handshake (keyPair (n_env na)) (keyPair (n_env nb)) (entropy (n_env na)) (entropy (n_env nb)))
    as (i0 & i1 & m1 & d0 & d1 & d2 & m2 & c1 & c2 & i2 & c1' & c2' & sl1 & sl2 &
        Ei & Ed & Wi & L1 & Rd & Wd & L2 & Ri & P1 & P2 & N1 & N2).
  destruct (node_holds_first n0 pta pa b dst i0 i1 m1 Hpa Hna Hq Hida Hda Ht Hoq) as
    (na1 & na2 & p2 & O1 & O2 & O3 & D1 & D1' & Hp2 & Hna2 & Hea2 & Hid2 & Hno2 & W1 & W2 & W3 & W4 & W5 & W6 & W7 & W8);
    [by rewrite Hkey|done|].
  rewrite (bind_done _ _ _ _ _ O1) in HR.
  destruct (node_answers nb ptb pb (node_id (n_env na)) m1 fromA old d0 d1 d2 sl1 m2 c1 c2) as
    (nb1 & nb2 & pb' & U1 & B2 & D2 & Hpb' & (E2 & E2' & E2r) & A2 & X2 & Y2 & (K2 & K2i & _) & K3 & K4 & K5 & K6 & K7); try done.
  destruct (node_completes na2 pta p2 (node_id (n_env nb)) m2 fromB i1 i2 sl2 c1' c2') as
    (na3 & na4 & pa' & U2 & O4 & Hpa' & (E3 & E3' & E3r) & A3 & X3 & Y3 & D3 & (_ & _ & _ & _ & G3) & _ & G4 & _ & _ & G6); try done;
    [by rewrite Hid2|].
  assert (HszZ : ob_size b = Z.of_nat (length data)) by (rewrite Hsz; cbn [tun_buffer ob_size field_upd]; f_equal; lia).
  assert (Hbytes : take (Z.to_nat (ob_size b)) (s_arr (ob_packet b)) = data).
  { rewrite Hpk, HszZ, Nat2Z.id. cbn [tun_buffer ob_packet field_upd s_arr].
    rewrite (take_ge data) by lia. by rewrite take_app_length. }
  destruct (Outbound_body_sends b pa' (n_env na4) c1' 0 fromB E3r X3 A3 Hb) as (c' & ct & qa & EO & _ & _ & Hct & Hdec); try done.
  { rewrite HszZ. unfold BufferSize in *. lia. } { by exists c1. }
  rewrite Hbytes in Hdec. rewrite HszZ, Nat2Z.id in Hct.
  destruct (node_delivers (fun _ => True) nb2 ptb pb' (node_id (n_env na)) 0 ct data fromA' (roam old fromA) c1)
    as (nb3 & nb4 & r2 & pb2 & U3 & B3 & T3 & _); try done; try congruence.
  { unfold BufferSize in *. lia. } { by destruct data; [cbn in Hlen; lia|]. }
  { intros buf Hbuf. destruct (Hdec c1 buf P1 Hbuf) as (r1 & r3 & buf' & ? & ? & ? & ? & _). by exists r1, r3, buf'. }
  eexists b, _, _, _, na1, na2, na3, na4, _, nb1, nb2, nb3, nb4.
  split; [exact HR|]. split; [exact D1|]. split; [exact O2|]. split; [exact O3|].
  split; [exact U1|]. split; [exact B2|]. split; [exact D2|]. split; [exact U2|]. split; [exact O4|].
  split; [eapply on_peer_done; [exact Hpa'|exact EO]|].
  split; [cbn; rewrite D3, D1', G4, Hno2; reflexivity|]. split; [exact U3|]. split; [exact B3|].
  rewrite T3, K5. done.
Qed.
End FirstPacket.

(** ** Concrete packets *)

(** A packet of [len] bytes for 100.70.0.2. *)
Definition demo_ip_packet : list Z := [69; 0; 0; 24; 0; 0; 0; 0; 64; 17; 0; 0] ++ be_bytes 4 0x64460001 ++ be_bytes 4 0x64460002 ++ [1; 2; 3; 4].
(** The answer 192.0.2.7:5000 to a STUN request. *)
Definition demo_tid : list Z := [1; 2; 3; 4; 5; 6; 7; 8; 9; 10; 11; 12].
Definition demo_stun_answer : list Z :=
  stun_answer 12 demo_tid ++ [0; 0x20; 0; 8; 0; 1] ++ be_bytes 2 (Z.lxor 5000 0x2112) ++ be_bytes 4 (Z.lxor 0xc0000207 0x2112a442).

Lemma demo_prefix4 i j p : 0 <= i < 256 -> prefix4 (n_ip (demo_node i j p)).
Proof. intros Hi. split; cbn; unfold u32; lia. Qed.


Lemma first_packet_delivered_witness :
  exists b d1 d2 d3 na1 na2 na3 na4 na5 nb1 nb2 nb3 nb4,
    ReadTunPackets (Ok demo_ip_packet) (demo_node 1 2 (demo_entry 2)) = Done true na1 /\
    net_out (n_env na1) = [] ++ [(d1, demo_ua 2)] /\
    on_peer 7 Outbound_recv na1 = Done tt na2 /\
    on_peer 7 (Outbound_body b) na2 = Blocked WaitLock na2 /\
    ReadUDPPackets (Ok (d1, demo_ua 97)) (demo_node 2 1 (demo_entry 1)) = Done true nb1 /\
    on_peer 7 Handshake_turn nb1 = Done tt nb2 /\
    net_out (n_env nb2) = [] ++ [(d2, roam (demo_ua 1) (demo_ua 97))] /\
    ReadUDPPackets (Ok (d2, demo_ua 98)) na2 = Done true na3 /\
    on_peer 7 Handshake_turn na3 = Done tt na4 /\
    on_peer 7 (Outbound_body b) na4 = Done tt na5 /\
    net_out (n_env na5) = net_out (n_env na1) ++ [(d3, demo_ua 98)] /\
    ReadUDPPackets (Ok (d3, demo_ua 99)) nb2 = Done true nb3 /\
    on_peer 7 Inbound_turn nb3 = Done tt nb4 /\
    tun_out (n_env nb4) = [] ++ [demo_ip_packet].
Proof.
  apply (first_packet_delivered (demo_node 1 2 (demo_entry 2)) (demo_node 2 1 (demo_entry 1)) 7 7
           (demo_entry 2) (demo_entry 1) demo_ip_packet 0x64460001 0x64460002 (demo_ua 2) (demo_ua 1)
           (demo_ua 97) (demo_ua 98) (demo_ua 99));
    try done; try apply demo_maps_ok; try apply demo_pools_clean; try (by apply demo_prefix4);
    try (vm_compute; reflexivity).
  cbn [demo_ip_packet length app]. unfold demo_ip_packet. rewrite !length_app, !be_bytes_length. unfold BufferSize. cbn. lia.
Defined.

Lemma stun_answer_reported_witness :
  exists q, pools_clean q /\
    ReadUDPPackets (Ok (demo_stun_answer, demo_ua 9)) (demo_node 1 2 (demo_entry 2)) =
      Done true ((demo_node 1 2 (demo_entry 2)) <| n_env := (demo_env 1) <| discoveredEndpoint := "192.0.2.7:5000"%string |> <| pools := q |> |>
                   <| endpoint_reports ::= (fun l => l ++ [mkUER "machine" "192.0.2.7:5000"]) |>).
Proof.
  apply (stun_answer_reported (demo_node 1 2 (demo_entry 2)) demo_stun_answer (demo_ua 9) "192.0.2.7:5000");
    [apply demo_pools_clean|vm_compute; reflexivity..|vm_compute; discriminate].
Defined.

Lemma stun_answer_mistaken_witness :
  let tid := [1; 2; 3; 4; 5; 6; 0xfe; 0xed; 7; 8; 9; 10] in
  (((exists h, Parse (Some NewHeader) (of_bytes (stun_answer 12 tid ++ [])) = (Some h, None)) <->
      be_word (bytes_at 6 2 tid) = HeaderPadding) /\
   forall h, Parse (Some NewHeader) (of_bytes (stun_answer 12 tid ++ [])) = (Some h, None) ->
     MsgType h = MsgHandshake /\ SenderIndex h = 12 * 2 ^ 16 + 0x2112) /\
  be_word (bytes_at 6 2 tid) = HeaderPadding.
Proof.
  split; [|vm_compute; reflexivity].
  apply (stun_answer_mistaken NewHeader 12 [1; 2; 3; 4; 5; 6; 0xfe; 0xed; 7; 8; 9; 10] []); [by vm_compute|reflexivity].
Defined.
