(* ===== verification/Sync.v ===== *)
(** The node's control plane: what the controller's updates (node/grpcclient.go) and a login
    (node/service.go) do to the node, errors included. *)

From S2P Require Import Prelude Bytes Header GoStd GoTime Netip Base64 Types Ipam Auth GoSync Queue Grpc.
From S2P Require Import NodePeer NoiseLaws NodeCore Transport PeerWp Lifecycle Hazards.

(** ** Adding peers *)

Section AddLemmas.
Context `{Noise, PoolChoice, NodeExt}.
Abbreviation Peer := NodePeer.Peer.
Implicit Types (n : Node) (m : PeerMsg).

(** The fields of a message a node needs to read, when it can. *)
Definition entry m : option (Addr * list Z * UDPAddr) :=
  match ParseAddr (m_Ip m), DecodeBase64Key (m_PublicKey m), ResolveUDPAddr (m_Endpoint m) with
  | Ok a, Ok k, Ok ua => Some (a, k, ua)
  | _, _, _ => None
  end.
Definition entry_addr m : option Addr := (fun x => x.1.1) <$> entry m.

(** An added peer after its start. *)
Definition started_peer m (a : Addr) (k : list Z) (ua : UDPAddr) : Peer :=
  (added_peer (m_Id m) a k (m_Hostname m) ua) <| pendingLock := wlocked |> <| wg := 3 |>
    <| g_inbound := Waiting |> <| g_outbound := Waiting |> <| g_handshake := Waiting |> <| running := true |>.

Lemma started_peer_ok m a k ua :
  idle (started_peer m a k ua) /\ peer_inv (started_peer m a k ua) /\
  inTransport (started_peer m a k ua) = false /\ inbound (started_peer m a k ua) = [] /\
  outbound (started_peer m a k ua) = [].
Proof.
  split_and!; try done. constructor; cbn; try done; auto.
Qed.

(** The node with a new started peer. *)
Definition with_peer m a k ua n : Node :=
  n <| heap ::= <[next_ptr n := started_peer m a k ua]> |> <| next_ptr := next_ptr n + 1 |>
    <| id_map ::= <[m_Id m := next_ptr n]> |> <| ip_map ::= <[a := next_ptr n]> |>.

Lemma Start_added id ip key host ua e :
  Peer_Start (mkPS _ (added_peer id ip key host ua) e) =
    Done None (mkPS _ ((added_peer id ip key host ua) <| pendingLock := wlocked |> <| wg := 3 |>
      <| g_inbound := Waiting |> <| g_outbound := Waiting |> <| g_handshake := Waiting |> <| running := true |>) e).
Proof. reflexivity. Qed.

Lemma AddPeer_ok m a k ua n :
  entry m = Some (a, k, ua) ->
  AddPeer m n = Done (Ok (next_ptr n))
    (n <| heap ::= <[next_ptr n := added_peer (m_Id m) a k (m_Hostname m) ua]> |> <| next_ptr := next_ptr n + 1 |>
       <| id_map ::= <[m_Id m := next_ptr n]> |> <| ip_map ::= <[a := next_ptr n]> |>).
Proof.
  unfold entry, AddPeer.
  destruct (ParseAddr _); [|done]. destruct (DecodeBase64Key _); [|done]. destruct (ResolveUDPAddr _); [|done].
  intros [= -> -> ->]. reflexivity.
Qed.
Lemma AddPeer_bad m n : entry m = None -> exists e : string, AddPeer m n = Done (Err e) n.
Proof.
  unfold entry, AddPeer. intros He.
  destruct (ParseAddr _); [|by eexists]. destruct (DecodeBase64Key _); [|by eexists].
  destruct (ResolveUDPAddr _); [done|by eexists].
Qed.

Lemma add_and_start m a k ua n {A} (f : option string -> go Node A) :
  entry m = Some (a, k, ua) ->
  (r ← AddPeer m; match r with Err e => panic (PanicWith e) | Ok p => err ← on_peer p Peer_Start; f err end) n
  = f None (with_peer m a k ua n).
Proof.
  intros He. rewrite (bind_done _ _ _ _ _ (AddPeer_ok m a k ua n He)).
  set (n1 := n <| heap ::= _ |> <| next_ptr := _ |> <| id_map ::= _ |> <| ip_map ::= _ |>).
  assert (Hp : heap n1 !! next_ptr n = Some (added_peer (m_Id m) a k (m_Hostname m) ua))
    by (subst n1; cbn; by rewrite lookup_insert_eq).
  rewrite (bind_done _ _ _ _ _ (on_peer_done _ _ n1 _ None _ Hp (Start_added _ _ _ _ _ (n_env n1)))).
  f_equal. subst n1. destruct n. unfold with_peer. cbn. by rewrite insert_insert_eq.
Qed.
End AddLemmas.

Section SyncLemmas.
Context `{Noise, PoolChoice, NodeExt}.
Abbreviation Peer := NodePeer.Peer.
Implicit Types (n : Node) (m : PeerMsg) (l : list PeerMsg).

(** The heap's free addresses are above [next_ptr]. *)
Definition heap_ok n : Prop := forall ptr, is_Some (heap n !! ptr) -> ptr < next_ptr n.
(** The node has the message's peer, started and idle, under its id and under its address. *)
Definition synced n m : Prop := exists a k ua ptr,
  entry m = Some (a, k, ua) /\ id_map n !! m_Id m = Some ptr /\ ip_map n !! a = Some ptr /\
  heap n !! ptr = Some (started_peer m a k ua).
(** Only the peers and the maps differ. *)
Definition same_rest n n' : Prop :=
  n' = n <| heap := heap n' |> <| next_ptr := next_ptr n' |> <| id_map := id_map n' |> <| ip_map := ip_map n' |>.

Lemma with_peer_ok m a k ua n :
  entry m = Some (a, k, ua) -> heap_ok n -> maps_ok n ->
  let n' := with_peer m a k ua n in
  synced n' m /\ heap_ok n' /\ maps_ok n' /\ same_rest n n' /\
  (forall m', synced n m' -> m_Id m' <> m_Id m -> entry_addr m' <> Some a -> synced n' m').
Proof.
  intros He Hh [Hm1 Hm2] n'. destruct n as [co tu nip ho hp np im ip en ru lo ct st er].
  unfold n', with_peer, heap_ok, same_rest in *. cbn in *. split.
  { exists a, k, ua, np. cbn. by rewrite !lookup_insert_eq. }
  split. { intros ptr. cbn. rewrite lookup_insert. case_decide; [lia|]. intros Hp. specialize (Hh ptr Hp). lia. }
  split. { split; intros i ptr; cbn; rewrite !lookup_insert; repeat case_decide; naive_solver. }
  split; [done|]. intros m' (a' & k' & ua' & ptr & E & E1 & E2 & E3) Hid Ha.
  exists a', k', ua', ptr. cbn in *. split; [done|].
  assert (a' <> a) by (intros ->; apply Ha; unfold entry_addr; by rewrite E).
  assert (np <> ptr) by (specialize (Hh ptr ltac:(by eexists)); lia).
  by rewrite !lookup_insert_ne by done.
Qed.

Lemma same_rest_trans n1 n2 n3 : same_rest n1 n2 -> same_rest n2 n3 -> same_rest n1 n3.
Proof.
  unfold same_rest. intros E1 E2. rewrite E2, E1. destruct n1, n2, n3. cbn in *. by injection E2.
Qed.

Lemma sync_peers_ok l n :
  heap_ok n -> maps_ok n -> Forall (fun m => is_Some (entry m)) l -> NoDup (m_Id <$> l) ->
  NoDup (entry_addr <$> l) ->
  exists n', sync_peers l n = Done tt n' /\ Forall (synced n') l /\ heap_ok n' /\ maps_ok n' /\ same_rest n n' /\
    (forall m', synced n m' -> m_Id m' ∉ m_Id <$> l -> entry_addr m' ∉ entry_addr <$> l -> synced n' m').
Proof.
  revert n. induction l as [|m l IH]; intros n Hh Hm Hv Hi Ha.
  - exists n. split_and!; try done. by destruct n.
  - apply list.Forall_cons in Hv as [[[[a k] ua] He] Hv].
    apply list.NoDup_cons in Hi as [Hi1 Hi2]. apply list.NoDup_cons in Ha as [Ha1 Ha2].
    destruct (with_peer_ok m a k ua n He Hh Hm) as (S1 & S2 & S3 & S4 & S5). set (n1 := with_peer m a k ua n) in *.
    destruct (IH n1 S2 S3 Hv Hi2 Ha2) as (n' & E & F1 & F2 & F3 & F4 & F5).
    exists n'. cbn [sync_peers]. rewrite (add_and_start m a k ua n _ He). split; [exact E|].
    split; [constructor; [by apply F5|done]|]. do 2 (split; [done|]). split; [by eapply same_rest_trans|].
    intros m' Hs Hid Haddr. apply not_elem_of_cons in Hid as [? ?]. apply not_elem_of_cons in Haddr as [Hne ?].
    apply F5; [|done..]. apply S5; [done..|]. intros E1. apply Hne. rewrite E1. unfold entry_addr. by rewrite He.
Qed.

Lemma sync_peers_bad l n :
  ~ Forall (fun m => is_Some (entry m)) l -> exists e : string, crashes (sync_peers l) n (PanicWith e).
Proof.
  revert n. induction l as [|m l IH]; intros n Hbad; [by destruct Hbad|].
  destruct (entry m) as [[[a k] ua]|] eqn:He.
  - unfold crashes. cbn [sync_peers]. rewrite (add_and_start m a k ua n _ He). apply IH.
    intros Hl. apply Hbad. constructor; [by rewrite He|done].
  - destruct (AddPeer_bad m n He) as [e E]. exists e. unfold crashes. cbn [sync_peers].
    by rewrite (bind_done _ _ _ _ _ E).
Qed.
End SyncLemmas.

Section UpdateLemmas.
Context `{Noise, PoolChoice, NodeExt}.
Abbreviation Peer := NodePeer.Peer.
Implicit Types (n : Node) (m : PeerMsg) (p : Peer).

(** A peer after an update that leaves its key. *)
Definition updated_raddr p (ap : AddrPort) : option UDPAddr :=
  if bool_decide (CompareAddrPort (udp_AddrPort (raddr p)) ap = 0) then raddr p
  else match ResolveUDPAddr (addr_port_string ap) with Ok ua => Some ua | Err _ => raddr p end.
Definition updated_ip m : Addr := match ParseAddr (m_Ip m) with Ok a => a | Err _ => AddrZero end.
Definition updated p m ap : Peer :=
  p <| raddr := updated_raddr p ap |> <| Hostname := m_Hostname m |> <| IP := updated_ip m |>.

Lemma Update_endpoint_eq c ap p e :
  mu p = unlocked -> c = udp_AddrPort (raddr p) ->
  Update_endpoint c ap (mkPS _ p e) = Done tt (mkPS _ (p <| raddr := updated_raddr p ap |>) e).
Proof.
  intros Hmu ->. unfold Update_endpoint, updated_raddr. destruct p; cbn in *; subst.
  destruct (decide (CompareAddrPort (udp_AddrPort raddr) ap = 0)) as [E|E].
  - rewrite bool_decide_false, bool_decide_true by (done || tauto). done.
  - rewrite bool_decide_true, bool_decide_false by done. go_eval. by destruct (ResolveUDPAddr _).
Qed.
Lemma Update_hostname_eq h p e :
  mu p = unlocked ->
  Update_hostname (Hostname p) h (mkPS _ p e) = Done tt (mkPS _ (p <| Hostname := h |>) e).
Proof.
  intros Hmu. unfold Update_hostname. destruct p; cbn in *; subst.
  destruct (decide (Hostname = h)) as [->|E].
  - rewrite bool_decide_false by tauto. done.
  - rewrite bool_decide_true by done. go_eval. done.
Qed.
Lemma Update_ip_eq m p e :
  mu p = unlocked -> Update_ip (IP p) (m_Ip m) (mkPS _ p e) = Done tt (mkPS _ (p <| IP := updated_ip m |>) e).
Proof.
  intros Hmu. unfold Update_ip. fold (updated_ip m). destruct p; cbn in *; subst.
  destruct (decide (IP = updated_ip m)) as [->|E].
  - rewrite bool_decide_false; [done|]. rewrite AddrCompare_eq. tauto.
  - rewrite bool_decide_true; [|by rewrite AddrCompare_eq]. go_eval. done.
Qed.

(** The key of the update is the peer's own, or does not decode. *)
Definition same_key p m : Prop := forall k, DecodeBase64Key (m_PublicKey m) = Ok k -> k = pubkey p.

(** An update up to the treatment of its key. *)
Lemma Update_to_key m p e ap :
  mu p = unlocked -> ParseAddrPort (m_Endpoint m) = Ok ap ->
  Update m (mkPS _ p e) =
    (_ ← Update_key (pubkey p) (m_PublicKey m); _ ← Update_ip (IP p) (m_Ip m); mret None)
      (mkPS _ ((p <| raddr := updated_raddr p ap |>) <| Hostname := m_Hostname m |>) e).
Proof.
  intros Hmu Hap. unfold Update.
  assert (HR : with_mu RLock (mkPS _ p e) = Done tt (mkPS _ (p <| mu := mkRWMutex false 1 |>) e))
    by (destruct p; cbn in *; by subst).
  rewrite (bind_done _ _ _ _ _ HR). clear HR. set (p1 := p <| mu := _ |>).
  rewrite (bind_done _ _ _ p1 (mkPS _ p1 e)) by done.
  assert (HU : with_mu RUnlock (mkPS _ p1 e) = Done tt (mkPS _ p e))
    by (subst p1; destruct p; cbn in *; by subst).
  rewrite (bind_done _ _ _ _ _ HU), Hap. subst p1. cbn [raddr Hostname pubkey IP field_upd].
  rewrite (bind_done _ _ _ _ _ (Update_endpoint_eq _ ap p e Hmu eq_refl)).
  pose (p2 := p <| raddr := updated_raddr p ap |>).
  by rewrite (bind_done _ _ _ _ _ (Update_hostname_eq (m_Hostname m) p2 e Hmu)).
Qed.

Lemma Update_eq m p e ap :
  mu p = unlocked -> ParseAddrPort (m_Endpoint m) = Ok ap -> same_key p m ->
  Update m (mkPS _ p e) = Done None (mkPS _ (updated p m ap) e).
Proof.
  intros Hmu Hap Hkey. rewrite (Update_to_key m p e ap Hmu Hap). set (p3 := _ <| Hostname := _ |>).
  assert (HK : Update_key (pubkey p) (m_PublicKey m) (mkPS _ p3 e) = Done tt (mkPS _ p3 e)).
  { unfold Update_key. destruct (DecodeBase64Key (m_PublicKey m)) as [k|] eqn:Ek; [|done].
    rewrite (Hkey k Ek), bool_decide_false by tauto. done. }
  rewrite (bind_done _ _ _ _ _ HK). by rewrite (bind_done _ _ _ _ _ (Update_ip_eq m p3 e Hmu)).
Qed.

(** A changed key stops the peer, which is fatal in transport. *)
Lemma Update_rekey m p e ap k :
  peer_inv p -> state p = 2 -> running p = true ->
  g_inbound p = Waiting /\ g_outbound p = Waiting /\ g_handshake p = Waiting ->
  ParseAddrPort (m_Endpoint m) = Ok ap -> DecodeBase64Key (m_PublicKey m) = Ok k -> k <> pubkey p ->
  exists s, Update m (mkPS _ p e) = Crash UnlockOfUnlocked s.
Proof.
  intros Hinv Hst Hrun Hgo Hap Hk Hne. rewrite (Update_to_key m p e ap (inv_mu _ Hinv) Hap).
  set (p3 := _ <| Hostname := _ |>).
  assert (Hinv3 : peer_inv p3) by (destruct Hinv, p; constructor; done).
  destruct (Stop_transport p3 e Hinv3 Hst Hrun Hgo) as [s Es]. exists s.
  unfold Update_key. rewrite Hk, bool_decide_true by congruence.
  by rewrite (bind_crash _ _ _ _ _ (bind_crash _ _ _ _ _ Es)).
Qed.
End UpdateLemmas.

(** ** Logging in *)

Section LoginLemmas.
Context `{Noise, PoolChoice, NodeExt}.

Lemma Login_ok (n : Node) (row : Types.Peer) a b bits pkce :
  u32 a -> 0 <= bits <= 32 -> Types.IP row = addr_string (Addr4 a) ->
  PPrefix row = prefix_string (mkPrefix (Addr4 b) bits) ->
  exists resp, Login (ReplyOk (Some (ProtoConfig row))) pkce n =
    Done (Ok resp) (n <| n_env ::= (fun e => e <| node_id := Types.ID row |>) |>
                      <| n_ip := mkPrefix (Addr4 a) bits |> <| loggedIn := true |>) /\
    r_Status resp = "login successful"%string.
Proof.
  intros Ha Hb Hip Hpre. eexists. unfold Login, Login_finish, ProtoConfig.
  cbn [c_PeerId c_Prefix c_TunnelIp]. rewrite Hip, Hpre, split_prefix_text, parse_prefix_text by done.
  split; [reflexivity|done].
Qed.
End LoginLemmas.

(** ** Properties *)

Section SyncTheorems.
Context `{Noise, PoolChoice, NodeExt}.
Abbreviation Peer := NodePeer.Peer.
Implicit Types (n : Node) (m : PeerMsg) (p : Peer).

(** C30. The first update of the stream: a node that gets a list of peers it can read, with
    different ids and addresses, has every one of them afterwards - the same object under its
    id and under its address, started, idle, with the announced key, name and endpoint - and
    still has the peers it had under other ids and addresses; nothing else of it changes. *)
Theorem initial_sync_adds n u l
    (Hinit : UType u = INIT) (Hlist : UPeerList u = Some l) (Hheap : heap_ok n) (Hmaps : maps_ok n)
    (Hread : Forall (fun m => is_Some (entry m)) (Peers l)) (Hids : NoDup (m_Id <$> Peers l))
    (Haddrs : NoDup (entry_addr <$> Peers l)) :
  exists n', HandleUpdate u n = Done tt n' /\ Forall (synced n') (Peers l) /\
    heap_ok n' /\ maps_ok n' /\ same_rest n n' /\
    (forall m, synced n m -> m_Id m ∉ m_Id <$> Peers l -> entry_addr m ∉ entry_addr <$> Peers l -> synced n' m) /\
    (forall m, m ∈ Peers l -> exists ptr p, id_map n' !! m_Id m = Some ptr /\ heap n' !! ptr = Some p /\
       idle p /\ peer_inv p).
Proof.
  destruct (sync_peers_ok (Peers l) n Hheap Hmaps Hread Hids Haddrs) as (n' & E & F1 & F2 & F3 & F4 & F5).
  exists n'. split.
  { unfold HandleUpdate, handleInitialSync, peer_list. rewrite Hinit, Hlist. by rewrite (bind_done _ _ _ l n). }
  split_and!; try done; [apply F3..|].
  intros m Hm. rewrite list.Forall_forall in F1. destruct (F1 m Hm) as (a & k & ua & ptr & He & E1 & _ & E3).
  exists ptr, (started_peer m a k ua). do 2 (split; [done|]). by destruct (started_peer_ok m a k ua) as (? & ? & _).
Qed.

(** One peer the node cannot read - an address, a key or an endpoint that does not parse -
    anywhere in the first list takes the node down, whatever the other entries are. *)
Theorem initial_sync_bad_entry_crashes n u l
    (Hinit : UType u = INIT) (Hlist : UPeerList u = Some l)
    (Hbad : exists m, m ∈ Peers l /\ entry m = None) :
  exists e, crashes (HandleUpdate u) n (PanicWith e).
Proof.
  destruct (sync_peers_bad (Peers l) n) as [e He].
  { intros Hall. rewrite list.Forall_forall in Hall. destruct Hbad as (m & Hm & E).
    destruct (Hall m Hm) as [? E']. by rewrite E in E'. }
  exists e. unfold HandleUpdate, handleInitialSync, peer_list. rewrite Hinit, Hlist.
  unfold crashes. by rewrite (bind_done _ _ _ l n).
Qed.

(** The node's part of a CONNECT update whose list is not empty. *)
Lemma connect_eq u l rp rest n :
  UType u = CONNECT -> UPeerList u = Some l -> Peers l = rp :: rest -> 1 <= Count l ->
  HandleUpdate u n =
    match id_map n !! m_Id rp with
    | None =>
        (r ← AddPeer rp;
         match r with
         | Err _ => mret tt
         | Ok p => err ← on_peer p Peer_Start; match err with Some e => panic (PanicWith e) | None => mret tt end
         end) n
    | Some p => (err ← on_peer p (Update rp); match err with Some e => panic (PanicWith e) | None => mret tt end) n
    end.
Proof.
  intros Ht Hl Hp Hc. unfold HandleUpdate, handlePeerConnectUpdate, peer_list. rewrite Ht, Hl.
  rewrite (bind_done _ _ _ l n), bool_decide_false, bool_decide_false by (done || lia || tauto).
  rewrite Hp, (bind_done _ _ _ (id_map n) n) by done. by destruct (id_map n !! m_Id rp).
Qed.

(** A peer that connects later: one the node does not know is added and started when it can
    be read, and ignored when not; of one it knows, under the same key, endpoint, name and
    address are taken over, in the peer alone - the maps stay as they are, so that packets
    go on being routed by the old address; one it knows and whose endpoint it cannot parse
    takes the node down. *)
Theorem connect_update n u l rp rest
    (Hconn : UType u = CONNECT) (Hlist : UPeerList u = Some l) (Hpeers : Peers l = rp :: rest)
    (Hcount : 1 <= Count l) :
  (id_map n !! m_Id rp = None ->
     match entry rp with
     | Some (a, k, ua) => HandleUpdate u n = Done tt (with_peer rp a k ua n)
     | None => HandleUpdate u n = Done tt n
     end) /\
  (forall ptr p ap, id_map n !! m_Id rp = Some ptr -> heap n !! ptr = Some p -> mu p = unlocked ->
     ParseAddrPort (m_Endpoint rp) = Ok ap -> same_key p rp ->
     HandleUpdate u n = Done tt (n <| heap ::= <[ptr := updated p rp ap]> |>)) /\
  (forall ptr p e, id_map n !! m_Id rp = Some ptr -> heap n !! ptr = Some p -> mu p = unlocked ->
     ParseAddrPort (m_Endpoint rp) = Err e -> crashes (HandleUpdate u) n (PanicWith e)).
Proof.
  pose proof (connect_eq u l rp rest n Hconn Hlist Hpeers Hcount) as HE. split_and!.
  - intros Hid. rewrite Hid in HE. rewrite HE. destruct (entry rp) as [[[a k] ua]|] eqn:He.
    + rewrite (bind_done _ _ _ _ _ (AddPeer_ok rp a k ua n He)).
      pose proof (add_and_start rp a k ua n (fun err => match err with Some e => panic (PanicWith e) | None => mret tt end) He) as HA.
      rewrite (bind_done _ _ _ _ _ (AddPeer_ok rp a k ua n He)) in HA. exact HA.
    + destruct (AddPeer_bad rp n He) as [e E]. by rewrite (bind_done _ _ _ _ _ E).
  - intros ptr p ap Hid Hp Hmu Hap Hkey. rewrite Hid in HE. rewrite HE.
    rewrite (bind_done _ _ _ _ _ (on_peer_done ptr _ n p None _ Hp (Update_eq rp p (n_env n) ap Hmu Hap Hkey))).
    by destruct n.
  - intros ptr p e Hid Hp Hmu Hap. rewrite Hid in HE. unfold crashes. rewrite HE.
    assert (HU : Update rp (mkPS _ p (n_env n)) = Done (Some e) (mkPS _ p (n_env n))).
    { unfold Update. destruct p; cbn in *; subst. go_eval. by rewrite Hap. }
    by rewrite (bind_done _ _ _ _ _ (on_peer_done ptr _ n p (Some e) _ Hp HU)).
Qed.

(** A node whose other side comes back with another key goes down: in transport with a
    peer, the CONNECT update that announces a new key for it stops the peer, and unlocks the
    lock a peer in transport does not hold. A node makes a new key every time its service
    starts, so this is what restarting one node does to the nodes it was talking to. *)
Theorem rekey_in_transport_crashes n u l rp rest ptr p ap k
    (Hconn : UType u = CONNECT) (Hlist : UPeerList u = Some l) (Hpeers : Peers l = rp :: rest)
    (Hcount : 1 <= Count l) (Hid : id_map n !! m_Id rp = Some ptr) (Hp : heap n !! ptr = Some p)
    (Hinv : peer_inv p) (Hstate : state p = 2) (Hrun : running p = true)
    (Hgo : g_inbound p = Waiting /\ g_outbound p = Waiting /\ g_handshake p = Waiting)
    (Hap : ParseAddrPort (m_Endpoint rp) = Ok ap) (Hk : DecodeBase64Key (m_PublicKey rp) = Ok k)
    (Hne : k <> pubkey p) :
  crashes (HandleUpdate u) n UnlockOfUnlocked.
Proof.
  pose proof (connect_eq u l rp rest n Hconn Hlist Hpeers Hcount) as HE. rewrite Hid in HE.
  destruct (Update_rekey rp p (n_env n) ap k Hinv Hstate Hrun Hgo Hap Hk Hne) as [s Es].
  unfold crashes. rewrite HE. erewrite bind_crash; [reflexivity|].
  unfold on_peer, zoom. by rewrite Hp, Es.
Qed.

(** A login the controller accepts makes the node what the controller says it is: its id,
    its address and the network's size are the registered peer's, and the prefix is a
    well-formed one. *)
Theorem login_configures n (row : Types.Peer) a b bits pkce
    (Ha : u32 a) (Hbits : 0 <= bits <= 32) (Hip : Types.IP row = addr_string (Addr4 a))
    (Hprefix : PPrefix row = prefix_string (mkPrefix (Addr4 b) bits)) :
  exists resp, Login (ReplyOk (Some (ProtoConfig row))) pkce n =
    Done (Ok resp) (n <| n_env ::= (fun e => e <| node_id := Types.ID row |>) |>
                      <| n_ip := mkPrefix (Addr4 a) bits |> <| loggedIn := true |>) /\
    r_Status resp = "login successful"%string /\ prefix4 (mkPrefix (Addr4 a) bits).
Proof. destruct (Login_ok n row a b bits pkce Ha Hbits Hip Hprefix) as [resp [E1 E2]]. exists resp. by split_and!. Qed.

(** A login the controller refuses: for want of a token the node answers with what a
    client needs to get one, any error that is not a status is returned, and neither changes
    the node; every other refusal - a disabled peer, another user's machine - takes the node
    down, since the missing response is read. *)
Theorem login_refused n pkce :
  (forall msg, exists r, Login (ReplyStatus Unauthenticated msg) pkce n = Done r n /\
     match pkce, r with
     | Ok info, Ok resp => r_Status resp = "need access token"%string /\ r_ClientId resp = PClientId info /\
                           r_TokenEndpoint resp = PTokenEndpoint info /\ r_Audience resp = PAudience info
     | Err _, Err e => e = "error getting pkce info for auth flow"%string
     | _, _ => False
     end) /\
  (forall e, Login (ReplyError e) pkce n = Done (Err e) n) /\
  (forall code msg, code <> Unauthenticated -> crashes (Login (ReplyStatus code msg) pkce) n NilDeref).
Proof.
  split_and!.
  - intros msg. destruct pkce as [info|e]; cbn; eexists; by split.
  - done.
  - intros code msg Hne. by destruct code.
Qed.
End SyncTheorems.

(** ** Concrete updates *)

(** The message for node [j], with the given key and endpoint. *)
Definition demo_msg (j : Z) (key endpoint : string) : PeerMsg :=
  mkPeerMsg j key "peer" (addr_string (Addr4 (0x64460000 + j))) endpoint "100.70.0.0/24" "ann" true.
Definition demo_init : UpdateResponse :=
  mkUpdateResponse INIT (Some (mkPeerList [demo_msg 3 "DQ==" "192.0.2.3:5000"; demo_msg 4 "Dg==" "192.0.2.4:5000"] 2)) "".
Definition demo_connect (key : string) : UpdateResponse :=
  mkUpdateResponse CONNECT (Some (mkPeerList [demo_msg 2 key "192.0.2.2:5000"] 1)) "".

Lemma demo_heap_ok i j p : heap_ok (demo_node i j p).
Proof. intros ptr [x Hx]. cbn in Hx. apply lookup_singleton_Some in Hx as [<- _]. cbn. lia. Qed.
Lemma demo_entry3 : entry (demo_msg 3 "DQ==" "192.0.2.3:5000") = Some (Addr4 0x64460003, [13], demo_ua 3).
Proof. vm_compute. reflexivity. Qed.
Lemma demo_entry4 : entry (demo_msg 4 "Dg==" "192.0.2.4:5000") = Some (Addr4 0x64460004, [14], demo_ua 4).
Proof. vm_compute. reflexivity. Qed.

Lemma initial_sync_adds_witness :
  exists n', HandleUpdate demo_init (demo_node 1 2 (demo_entry 2)) = Done tt n' /\
    synced n' (demo_msg 3 "DQ==" "192.0.2.3:5000") /\ synced n' (demo_msg 4 "Dg==" "192.0.2.4:5000").
Proof.
  destruct (initial_sync_adds (demo_node 1 2 (demo_entry 2)) demo_init
              (mkPeerList [demo_msg 3 "DQ==" "192.0.2.3:5000"; demo_msg 4 "Dg==" "192.0.2.4:5000"] 2))
    as (n' & E & F & _); try done.
  - apply demo_heap_ok.
  - apply demo_maps_ok.
  - repeat constructor; cbn [Peers]; [rewrite demo_entry3|rewrite demo_entry4]; by eexists.
  - apply (bool_decide_unpack _). vm_compute. exact I.
  - unfold entry_addr. cbn [Peers fmap list_fmap]. rewrite demo_entry3, demo_entry4. apply (bool_decide_unpack _). vm_compute. exact I.
  - exists n'. cbn [Peers] in F. apply list.Forall_cons in F as [F3 F]. apply list.Forall_cons in F as [F4 _]. done.
Defined.

Lemma initial_sync_bad_entry_crashes_witness :
  exists e, crashes (HandleUpdate (mkUpdateResponse INIT (Some (mkPeerList [demo_msg 3 "DQ==" "nowhere"] 1)) ""))
    (demo_node 1 2 (demo_entry 2)) (PanicWith e).
Proof.
  apply (initial_sync_bad_entry_crashes (demo_node 1 2 (demo_entry 2)) _ (mkPeerList [demo_msg 3 "DQ==" "nowhere"] 1));
    [done..|].
  exists (demo_msg 3 "DQ==" "nowhere"). split; [by left|vm_compute; reflexivity].
Defined.

(** The peer under its own key: [demo_entry 2] has the key 12, which is "DA==". *)
Lemma connect_update_witness :
  HandleUpdate (demo_connect "DA==") (demo_node 1 2 (demo_entry 2)) =
    Done tt ((demo_node 1 2 (demo_entry 2)) <| heap ::=
      <[7 := updated (demo_entry 2) (demo_msg 2 "DA==" "192.0.2.2:5000") (mkAddrPort (Addr4 0xc0000202) 5000)]> |>).
Proof.
  destruct (connect_update (demo_node 1 2 (demo_entry 2)) (demo_connect "DA==") _ (demo_msg 2 "DA==" "192.0.2.2:5000") []
              eq_refl eq_refl eq_refl ltac:(done)) as (_ & HK & _).
  apply (HK 7 (demo_entry 2)); try (vm_compute; reflexivity).
  intros k Hk. vm_compute in Hk. injection Hk as <-. vm_compute. reflexivity.
Defined.

Lemma rekey_in_transport_crashes_witness :
  crashes (HandleUpdate (demo_connect "Y2M=")) (demo_node 1 2 (demo_transport 2 0)) UnlockOfUnlocked.
Proof.
  apply (rekey_in_transport_crashes (demo_node 1 2 (demo_transport 2 0)) (demo_connect "Y2M=") _
           (demo_msg 2 "Y2M=" "192.0.2.2:5000") [] 7 (demo_transport 2 0) (mkAddrPort (Addr4 0xc0000202) 5000) [99; 99]
           eq_refl eq_refl eq_refl); try done; try apply demo_transport_inv; vm_compute; reflexivity.
Defined.

Definition demo_login_row : Types.Peer :=
  zeroPeer <| Types.ID := 5 |> <| Types.IP := "100.70.0.5"%string |> <| PPrefix := "100.70.0.0/24"%string |>.
Lemma login_configures_witness :
  exists resp, Login (ReplyOk (Some (ProtoConfig demo_login_row))) (Err "none"%string) (demo_node 1 2 (demo_entry 2)) =
    Done (Ok resp) ((demo_node 1 2 (demo_entry 2)) <| n_env ::= (fun e => e <| node_id := Types.ID demo_login_row |>) |>
                      <| n_ip := mkPrefix (Addr4 0x64460005) 24 |> <| loggedIn := true |>) /\
    r_Status resp = "login successful"%string /\ prefix4 (mkPrefix (Addr4 0x64460005) 24).
Proof.
  apply (login_configures (demo_node 1 2 (demo_entry 2)) demo_login_row 0x64460005 0x64460000 24 (Err "none"%string));
    first [done | vm_compute; reflexivity].
Defined.
