(* ===== verification/Overlay.v ===== *)
(** The controller and the nodes together: what one node tells the controller, as another
    node gets it. The controller's side is [Grpc] and [Controller], the nodes' [NodeCore]. *)

From S2P Require Import Prelude Bytes Header GoStd GoTime Netip Base64 Types Store MemStore Ipam Auth Controller Grpc.
From S2P Require Import GoSync Queue NodePeer NoiseLaws NodeCore Transport PeerWp Lifecycle Hazards Dispatch Sync.

Section Joining.
Context `{GormLaws, NetipXLaws, MapOrder} {idp : IdP} (tv : TokenValidator).
Context `{Noise, PoolChoice, NodeExt}.

(** A registered node's record, as another node reads it. *)
Lemma registered_entry (nA : Node) token (row : Types.Peer) a ua :
  Forall u8 (Public (keyPair (n_env nA))) ->
  ResolveUDPAddr (discoveredEndpoint (n_env nA)) = Ok ua ->
  u32 a -> Types.IP row = addr_string (Addr4 a) ->
  NoisePublicKey row = PublicKey (login_request nA token) ->
  Endpoint row = ReqEndpoint (login_request nA token) ->
  entry (Proto row) = Some (Addr4 a, Public (keyPair (n_env nA)), ua).
Proof.
  intros Hk Hua Ha Hip Hkey Hep. unfold entry, ParseAddr, DecodeBase64Key. cbn [Proto m_Ip m_PublicKey m_Endpoint].
  rewrite Hip, Hkey, Hep. cbn [login_request PublicKey ReqEndpoint].
  by rewrite parse_addr_string4, b64_roundtrip, Hua by done.
Qed.

End Joining.

Section BadEndpoint.
Context `{GormLaws, NetipXLaws, MapOrder}.
Context `{Noise, PoolChoice, NodeExt}.

(** What a stream that starts sends first. *)
Lemma UpdateStream_init_sends other pc c c' :
  UpdateStream_init other pc true c = Done None c' ->
  exists ps, db_GetConnectedPeers (c_db c) = Ok ps /\
    let l := Proto <$> filter (fun p => Types.ID p <> Types.ID other) ps in
    c' = c <| delivered ::= (fun d => d ++
           [(pc, mkUpdateResponse INIT (Some (mkPeerList l (Z.of_nat (length l) mod 2 ^ 32))) "")]) |>.
Proof.
  unfold UpdateStream_init, GetConnectedPeers, mbind, go_bind, reads.
  destruct (db_GetConnectedPeers (c_db c)) as [ps|e]; cbn; [|done].
  intros [= <-]. by exists ps.
Qed.

(** C37. The controller takes any text for an endpoint, as long as it is not empty, and the nodes
    do not survive one they cannot resolve: after an update the controller has accepted for a
    connected peer, the first message of the stream of any other peer takes the node that
    receives it down. *)
Theorem bad_endpoint_takes_nodes_down c req c1 row other pc c2
    (Hkeys : forall i p, rows (c_db c) !! i = Some p -> i <> 0)
    (Hupdate : Grpc.UpdateEndpoint req c = Done (Ok tt) c1)
    (Hrow : GetPeerByMachineID (c_db c) (ue_MachineId req) = Some row) (Hconn : Connected row = true)
    (Hbad : exists e, ResolveUDPAddr (ue_Endpoint req) = Err e)
    (Hother : Types.ID other <> Types.ID row) (Hinit : UpdateStream_init other pc true c1 = Done None c2) :
  exists u, delivered c2 = delivered c1 ++ [(pc, u)] /\
    forall n : Node, exists e, crashes (HandleUpdate u) n (PanicWith e).
Proof.
  apply UpdateEndpoint_rows in Hupdate as (peer & Hg & _ & _ & _ & _ & Hrows); [|done].
  rewrite Hrow in Hg. injection Hg as <-.
  apply UpdateStream_init_sends in Hinit as (ps & Hps & ->).
  eexists. split; [reflexivity|]. intros n. apply GetConnectedPeers_rows in Hps as [_ Hps].
  set (row' := (row <| Endpoint := ue_Endpoint req |>) <| UpdatedAt := now c |>) in *.
  assert (Hin : row' ∈ ps).
  { apply Hps. rewrite Hrows. split; [|done]. change (Types.ID row') with (Types.ID row). by rewrite lookup_insert_eq. }
  unfold HandleUpdate, handleInitialSync, peer_list. cbn [UType UPeerList].
  destruct (sync_peers_bad (Proto <$> filter (fun p => Types.ID p <> Types.ID other) ps) n) as [e He].
  - intros Hall. rewrite list.Forall_forall in Hall. specialize (Hall (Proto row')).
    destruct Hall as [x Hx].
    { apply list_elem_of_fmap. exists row'. split; [done|]. apply list_elem_of_filter. split; [|done].
      change (Types.ID row') with (Types.ID row). congruence. }
    unfold entry in Hx. destruct Hbad as [e Hbad]. change (m_Endpoint (Proto row')) with (ue_Endpoint req) in Hx.
    rewrite Hbad in Hx. by repeat case_match.
  - exists e. exact He.
Qed.
End BadEndpoint.

Section Punching.
Context `{GormLaws, NetipXLaws, MapOrder}.
Context `{Noise, PoolChoice, NodeExt}.

Definition punch_datagram (id : Z) : list Z := header_bytes (mkHeader HeaderVersion MsgPunch id 0 HeaderPadding).

Lemma handlePunch_sends (n : Node) ep ua :
  ResolveUDPAddr ep = Ok ua ->
  HandleUpdate (mkUpdateResponse PUNCH None ep) n =
    Done tt (n <| n_env := (n_env n) <| net_out ::= (fun l => l ++ [(punch_datagram (node_id (n_env n)), ua)]) |> |>).
Proof.
  intros Hua. unfold HandleUpdate, handlePeerPunchRequest. cbn [UType PunchEndpoint]. rewrite Hua.
  rewrite (bind_done _ _ _ (n_env n) n) by done.
  rewrite Encode_ok by (unfold s_cap, HeaderLen, make_slice; cbn [s_arr]; rewrite length_replicate; lia). reflexivity.
Qed.

(** A punch packet is dropped by the node it reaches; its way through the NAT is its purpose. *)
Lemma udp_punch_dropped (n : Node) id from :
  pools_clean (pools (n_env n)) -> u32 id ->
  exists q, pools_clean q /\
    ReadUDPPackets (Ok (punch_datagram id, from)) n = Done true (n <| n_env := (n_env n) <| pools := q |> |>).
Proof.
  intros Hq Hid. destruct (GetInboundBuffer_clean _ Hq) as (b & q & EG & (Hin & _) & Hq' & _).
  set (h := mkHeader HeaderVersion MsgPunch id 0 HeaderPadding).
  destruct (datagram_buffer h []) as (bin & ER & Hfull & HP & _); [|done|done|unfold BufferSize; cbn; lia|].
  { unfold h, header_ok, HeaderVersion, MsgPunch, HeaderPadding, u8, u16, u32, u64 in *. cbn. lia. }
  rewrite app_nil_r in ER. unfold ReadUDPPackets. rewrite (bind_done _ _ _ _ _ (on_pools_done _ _ _ _ EG)).
  unfold punch_datagram. fold h. rewrite Hin, ER. set (n1 := n <| n_env := _ |>).
  set (b1 := ((b <| ib_in := bin |>) <| ib_size := _ |>) <| ib_raddr := Some from |>).
  destruct (drop_inbound (b1 <| ib_header := h |>) n1) as (q1 & Hq1 & E1); [exact Hfull|exact Hq'|].
  exists q1. split; [done|].
  assert (EO : OnUDPPacket b1 n1 = Done tt (n1 <| n_env := (n_env n1) <| pools := q1 |> |>)).
  { unfold OnUDPPacket. change (ib_in b1) with bin. rewrite HP. exact E1. }
  by rewrite (bind_done _ _ _ _ _ EO).
Qed.

Lemma RequestPunch_eq p e :
  mu p = unlocked ->
  RequestPunch (mkPS _ p e) = Done tt (mkPS _ p (e <| punches ::= (fun l => l ++
    [mkPR (machineID e) (NodePeer.ID p) (discoveredEndpoint e)]) |>)).
Proof. intros Hmu. destruct p; cbn in *; subst. reflexivity. Qed.

Lemma Punch_delivers req rowA rowB pc c :
  validateMachineID (pr_MachineId req) = true -> GetPeerByMachineID (c_db c) (pr_MachineId req) = Some rowA ->
  Types.Disabled rowA = false -> LoggedIn rowA = true -> IsAuthExpired (now c) rowA = false ->
  pr_Endpoint req <> ""%string -> GetPeerbyID (c_db c) (pr_DstPeerId req) = Some rowB ->
  peerChannels c !! pr_DstPeerId req = Some pc -> serving c pc ->
  Punch req c = Done (Ok tt)
    (c <| delivered ::= (fun l => l ++ [(pc, mkUpdateResponse PUNCH None (pr_Endpoint req))]) |>).
Proof.
  intros Hv HA Hd Hl Hx He HB Hpc Hs. unfold Punch. rewrite Hv. cbn [negb].
  rewrite (bind_done _ _ _ c c), HA by done. unfold IsDisabled, IsLoggedIn. rewrite Hd, Hl, Hx. cbn [negb].
  rewrite bool_decide_false by done. unfold PeerPunchRequest.
  erewrite bind_done; [reflexivity|].
  rewrite (bind_done _ _ _ (c_db c) c), HB by done. rewrite (bind_done _ _ _ (peerChannels c) c), Hpc by done.
  by apply chan_send_serving.
Qed.

(** C38. A punch request crosses the system: the peer object of one node asks the controller,
    which checks the asking machine and hands its endpoint to the stream of the named peer;
    that node sends one header-only datagram to the endpoint, and the node that asked drops
    it, buffer returned, whatever address it comes from. Nothing else changes on the way. *)
Theorem punch_crosses (nA nB : Node) ptr p c rowA rowB pc ua from
    (Hp : heap nA !! ptr = Some p) (Hmu : mu p = unlocked) (Hpools : pools_clean (pools (n_env nA)))
    (Hv : validateMachineID (machineID (n_env nA)) = true)
    (HA : GetPeerByMachineID (c_db c) (machineID (n_env nA)) = Some rowA)
    (Hd : Types.Disabled rowA = false) (Hl : LoggedIn rowA = true) (Hx : IsAuthExpired (now c) rowA = false)
    (He : discoveredEndpoint (n_env nA) <> ""%string) (HB : GetPeerbyID (c_db c) (NodePeer.ID p) = Some rowB)
    (Hpc : peerChannels c !! NodePeer.ID p = Some pc) (Hs : serving c pc)
    (Hua : ResolveUDPAddr (discoveredEndpoint (n_env nA)) = Ok ua) (Hid : u32 (node_id (n_env nB))) :
  let req := mkPR (machineID (n_env nA)) (NodePeer.ID p) (discoveredEndpoint (n_env nA)) in
  exists nA1 c1 u nB1 d q,
    on_peer ptr RequestPunch nA = Done tt nA1 /\ punches (n_env nA1) = punches (n_env nA) ++ [req] /\
    Punch req c = Done (Ok tt) c1 /\ delivered c1 = delivered c ++ [(pc, u)] /\ c_db c1 = c_db c /\
    HandleUpdate u nB = Done tt nB1 /\ nB1 = nB <| n_env ::= (fun e => e <| net_out ::= (fun l => l ++ [(d, ua)]) |>) |> /\
    length d = 16%nat /\
    ReadUDPPackets (Ok (d, from)) nA1 = Done true (nA1 <| n_env := (n_env nA1) <| pools := q |> |>) /\ pools_clean q.
Proof.
  intros req.
  pose proof (on_peer_done ptr RequestPunch nA p tt _ Hp (RequestPunch_eq p (n_env nA) Hmu)) as EA.
  set (nA1 := nA <| heap ::= _ |> <| n_env := _ |>) in EA.
  destruct (udp_punch_dropped nA1 (node_id (n_env nB)) from Hpools Hid) as (q & Hq & ER).
  eexists nA1, _, _, _, _, q. split; [exact EA|]. split; [reflexivity|].
  split; [by eapply (Punch_delivers req)|]. split; [reflexivity|]. split; [reflexivity|].
  split; [by apply handlePunch_sends|]. split; [reflexivity|]. split; [apply header_bytes_length|].
  split; [exact ER|done].
Qed.
End Punching.

(** ** Concrete runs *)

(** Node 1 on machine [m], with its endpoint discovered. *)
Definition demo_joining (m : string) : Node :=
  (demo_node 1 2 (demo_entry 2)) <| n_env ::= (fun e => (e <| machineID := demo_machine m |>)
    <| discoveredEndpoint := "192.0.2.1:5000"%string |>) |>.
Definition demo_list : PeerList :=
  mkPeerList [mkPeerMsg 2 "Cw==" "host" "100.70.0.2" "192.0.2.1:5000" "100.70.0.0/24" "ann" false] 1.
Definition demo_list_init : UpdateResponse := mkUpdateResponse INIT (Some demo_list) "".


Definition demo_other : Types.Peer := zeroPeer <| Types.ID := 2 |>.
Lemma bad_endpoint_takes_nodes_down_witness :
  exists (c1 c2 : @Ctl mem_gorm) u, delivered c2 = delivered c1 ++ [(30, u)] /\
    forall n : @Node toy_noise, exists e, crashes (HandleUpdate u) n (PanicWith e).
Proof.
  run_of ((r ← Grpc.UpdateEndpoint (mkUER (demo_machine "a") "nowhere");
           r2 ← UpdateStream_init demo_other 30 true; mret (r, r2)) (demo_server false))
    to (Ok (E := Status) tt, @None Status) as c E.
  apply bind_done_inv in E as (r & c1 & E1 & E). apply bind_done_inv in E as (r2 & c2 & E2 & E).
  injection E as -> -> _. exists c1, c2.
  apply (bad_endpoint_takes_nodes_down (demo_server false) (mkUER (demo_machine "a") "nowhere") c1 (demo_row false)
           demo_other 30 c2 (demo_ids false) E1);
    [vm_compute; reflexivity|vm_compute; reflexivity|eexists; vm_compute; reflexivity|vm_compute; discriminate|exact E2].
Defined.

(** Two registered machines, both with a stream. *)
Definition demo_db : @DB mem_gorm := [demo_row false; demo_peer 2 (demo_machine "b") "100.70.0.2"].
Definition demo_two : @Ctl mem_gorm :=
  (demo_server false) <| c_db := demo_db |>
    <| peerChannels := {[1 := 10; 2 := 20]} |>.

Lemma punch_crosses_witness :
  let req := mkPR (demo_machine "a") 2 "192.0.2.1:5000" in
  exists (nA1 nB1 : @Node toy_noise) (c1 : @Ctl mem_gorm) u d q,
    on_peer 7 RequestPunch (demo_joining "a") = Done tt nA1 /\
    Punch req demo_two = Done (Ok tt) c1 /\ delivered c1 = delivered demo_two ++ [(20, u)] /\
    HandleUpdate u (demo_node 2 1 (demo_entry 1)) = Done tt nB1 /\
    ReadUDPPackets (Ok (d, demo_ua 77)) nA1 = Done true (nA1 <| n_env := (n_env nA1) <| pools := q |> |>).
Proof.
  destruct (punch_crosses (demo_joining "a") (demo_node 2 1 (demo_entry 1)) 7 (demo_entry 2) demo_two
              (demo_row false) (demo_peer 2 (demo_machine "b") "100.70.0.2") 20 (demo_ua 1) (demo_ua 77))
    as (nA1 & c1 & u & nB1 & d & q & EA & _ & EP & ED & _ & EB & _ & _ & ER & _);
    [apply lookup_singleton_eq|reflexivity|exact (demo_pools_clean 1)|vm_compute; reflexivity|vm_compute; reflexivity|vm_compute; reflexivity|vm_compute; reflexivity
    |vm_compute; reflexivity|vm_compute; discriminate|vm_compute; reflexivity|vm_compute; reflexivity|vm_compute; reflexivity|vm_compute; reflexivity|unfold u32; cbn; lia|].
  exists nA1, nB1, c1, u, d, q. split; [exact EA|]. split; [exact EP|]. split; [exact ED|]. split; [exact EB|exact ER].
Defined.
