(* ===== verification/WinTun.v ===== *)
(** The Windows tunnel device, node/tun/tun_win.go: [Read], [Write], [LUID] and [Close] as
    calls that run at the same time and interleave at every access to the state they share.

    A call is a program counter ([Pc]); [turn] is the next piece of it, up to and including
    one access to shared state; [win_step] starts a call or lets one take a turn.  The wintun
    driver is outside the repository: what it answers in a turn - packets, errors, whether
    waiting resets the event, whether it signals a packet first - is the argument [Driver] and
    may be anything.  Making the device and giving it an address are in [Devices].

    [sync.WaitGroup] is its counter and the one waiter [Close] can be: the call of [Done] that
    brings the counter to zero wakes it, and it panics when it then finds the counter raised
    again, as the library documents for a group reused before [Wait] has returned. *)

From S2P Require Import Prelude.

Inductive RxResult : Type :=
| RxPacket (p : list Z) | RxNoMoreItems | RxHandleEOF | RxInvalidData | RxError (e : string).
Inductive TxResult : Type := TxOk | TxHandleEOF | TxBufferOverflow | TxError (e : string).

Record Driver : Type := mkDriver {
  signals : bool; resets : bool; rx : RxResult; tx : TxResult; luid : Z; wt_close : option string
}.

(** What a call returns: the bytes [Read] filled in, the count of [Write], the id of [LUID]. *)
Inductive Ret : Type :=
| RetRead (data : list Z) (err : option string)
| RetWrite (n : Z) (err : option string)
| RetLUID (id : Z)
| RetClose (err : option string).

(** [Exit] is the deferred [running.Done()] the first three share. *)
Inductive Pc : Type :=
| RAdd (size : nat) | RCheck (size : nat) | RRetry (size : nat) | RReceive (size : nat)
| RRelease (size : nat) (packet : list Z) | RWait (size : nat)
| WAdd (b : list Z) | WCheck (b : list Z) | WLock (b : list Z) | WAlloc (b : list Z)
| WSend (b : list Z) | WUnlock (r : Ret)
| LAdd | LCheck | LGet
| COnce | CStore | CSetEvent | CWait | CWaiting | CEnd | CAdapter | CReturn (err : option string)
| Exit (r : Ret)
| Returned (r : Ret).

Inductive Op : Type := Read (size : nat) | Write (b : list Z) | LUID | Close.
Definition entry (op : Op) : Pc :=
  match op with Read size => RAdd size | Write b => WAdd b | LUID => LAdd | Close => COnce end.

Inductive Once : Type := OnceFresh | OnceRunning | OnceFinished.
#[export] Instance Once_eq_dec : EqDecision Once.
Proof. solve_decision. Defined.

(** The fields of the Go struct that change, the state of the driver's session and adapter,
    and the packets sent, oldest first. *)
Record Tun : Type := mkTun {
  closed : bool;
  closeOnce : Once;
  running : Z;
  wg_waiting : bool;
  wg_woken : bool;
  writeLock : bool;
  event : bool;
  session_ended : bool;
  adapter_closed : bool;
  sent : list (list Z)
}.
#[export] Instance Tun_rebuild : Rebuild Tun := {| rebuild := fun s =>
  mkTun (closed s) (closeOnce s) (running s) (wg_waiting s) (wg_woken s) (writeLock s) (event s)
    (session_ended s) (adapter_closed s) (sent s) |}.

Definition NewTun : Tun := mkTun false OnceFresh 0 false false false false false false [].

Definition ErrClosed : string := "file already closed".

Definition wg_Add : go Tun unit := modify (fun s => s <| running ::= Z.succ |>).
Definition wg_Done : go Tun unit := modify (fun s =>
  let s := s <| running ::= Z.pred |> in
  if bool_decide (running s = 0) && wg_waiting s then s <| wg_waiting := false |> <| wg_woken := true |>
  else s).

(** The next piece of a call. *)
Definition turn (d : Driver) (p : Pc) : go Tun Pc :=
  match p with
  | RAdd size => _ ← wg_Add; mret (RCheck size)
  | RCheck size =>
      c ← reads closed; mret (if c : bool then Exit (RetRead [] (Some ErrClosed)) else RRetry size)
  | RRetry size =>
      c ← reads closed; mret (if c : bool then Exit (RetRead [] (Some ErrClosed)) else RReceive size)
  | RReceive size =>
      mret match rx d with
           | RxPacket packet => RRelease size packet
           | RxNoMoreItems => RWait size
           | RxHandleEOF => Exit (RetRead [] (Some ErrClosed))
           | RxInvalidData => Exit (RetRead [] (Some "Invalid Data"%string))
           | RxError e => Exit (RetRead [] (Some ("Read failed: " +:+ e)))
           end
  | RRelease size packet => mret (Exit (RetRead (take size packet) None))
  | RWait size =>
      e ← reads event;
      if e : bool then _ ← modify (fun s => if resets d then s <| event := false |> else s); mret (RRetry size)
      else block WaitChan
  | WAdd b => _ ← wg_Add; mret (WCheck b)
  | WCheck b => c ← reads closed; mret (if c : bool then Exit (RetWrite 0 (Some ErrClosed)) else WLock b)
  | WLock b =>
      l ← reads writeLock;
      if l : bool then block WaitLock else _ ← modify (fun s => s <| writeLock := true |>); mret (WAlloc b)
  | WAlloc b =>
      mret match tx d with
           | TxOk => WSend b
           | TxHandleEOF => WUnlock (RetWrite 0 (Some ErrClosed))
           | TxBufferOverflow => WUnlock (RetWrite 0 (Some "wintun send buffer full"%string))
           | TxError e => WUnlock (RetWrite 0 (Some ("error writing to tunnel: " +:+ e)))
           end
  | WSend b =>
      _ ← modify (fun s => s <| sent ::= (fun l => l ++ [b]) |>);
      mret (WUnlock (RetWrite (Z.of_nat (length b)) None))
  | WUnlock r => _ ← modify (fun s => s <| writeLock := false |>); mret (Exit r)
  | LAdd => _ ← wg_Add; mret LCheck
  | LCheck => c ← reads closed; mret (if c : bool then Exit (RetLUID 0) else LGet)
  | LGet => mret (Exit (RetLUID (luid d)))
  | COnce =>
      o ← reads closeOnce;
      match o with
      | OnceFresh => _ ← modify (fun s => s <| closeOnce := OnceRunning |>); mret CStore
      | OnceRunning => block WaitLock
      | OnceFinished => mret (Returned (RetClose None))
      end
  | CStore => _ ← modify (fun s => s <| closed := true |>); mret CSetEvent
  | CSetEvent => _ ← modify (fun s => s <| event := true |>); mret CWait
  | CWait =>
      n ← reads running;
      if bool_decide (n = 0) then mret CEnd
      else _ ← modify (fun s => s <| wg_waiting := true |>); mret CWaiting
  | CWaiting =>
      s ← reads (fun s => s);
      if wg_woken s then
        if bool_decide (running s = 0) then _ ← modify (fun s => s <| wg_woken := false |>); mret CEnd
        else panic (PanicWith "sync: WaitGroup is reused before previous Wait has returned")
      else block WaitGroup
  | CEnd => _ ← modify (fun s => s <| session_ended := true |>); mret CAdapter
  | CAdapter => _ ← modify (fun s => s <| adapter_closed := true |>); mret (CReturn (wt_close d))
  | CReturn err => _ ← modify (fun s => s <| closeOnce := OnceFinished |>); mret (Returned (RetClose err))
  | Exit r => _ ← wg_Done; mret (Returned r)
  | Returned r => block WaitForever
  end.

(** The device and the calls there have been. *)
Record Win : Type := mkWin { tun : Tun; calls : gmap nat Pc }.

(** A turn of call [t], before which the driver may have signalled the event. *)
Definition piece (w : Win) (t : nat) (d : Driver) : outcome Tun Pc :=
  match calls w !! t with
  | Some p => turn d p ((tun w) <| event ::= orb (signals d) |>)
  | None => Blocked WaitForever (tun w)
  end.

Inductive moves (w : Win) : Win -> Prop :=
| moves_turn t d p' s' : piece w t d = Done p' s' -> moves w (mkWin s' (<[t := p']> (calls w))).

(** [Read] has been called and has not got to its deferred function. *)
Definition reading (p : Pc) : bool :=
  match p with RAdd _ | RCheck _ | RRetry _ | RReceive _ | RRelease _ _ | RWait _ => true | _ => false end.

(** A new call, or a turn.  With [single], as in the node, nobody calls [Read] while another
    [Read] is running. *)
Inductive win_step (single : bool) (w : Win) : Win -> Prop :=
| step_call t op :
    calls w !! t = None ->
    (single = true -> reading (entry op) = true -> forall t' p, calls w !! t' = Some p -> reading p = false) ->
    win_step single w (mkWin (tun w) (<[t := entry op]> (calls w)))
| step_moves w' : moves w w' -> win_step single w w'.

(** ** Counting calls *)

Definition tally (f : Pc -> nat) (m : gmap nat Pc) : nat := map_fold (fun _ p n => (f p + n)%nat) 0%nat m.
Definition count (f : Pc -> bool) : gmap nat Pc -> nat := tally (fun p => Nat.b2n (f p)).

Lemma tally_delete f m t p :
  m !! t = Some p -> tally f m = (f p + tally f (delete t m))%nat.
Proof.
  intros Hp. unfold tally. apply (map_fold_delete_L (fun _ p n => (f p + n)%nat)); [|done].
  intros. lia.
Qed.

Lemma tally_insert f m t p p' :
  m !! t = Some p -> (tally f (<[t := p']> m) + f p = tally f m + f p')%nat.
Proof.
  intros Hp. rewrite (tally_delete f m t p Hp), (tally_delete f (<[t := p']> m) t p') by apply lookup_insert_eq.
  rewrite delete_insert_eq. lia.
Qed.

Lemma tally_new f m t p : m !! t = None -> tally f (<[t := p]> m) = (f p + tally f m)%nat.
Proof.
  intros Hp. rewrite (tally_delete f _ t p) by apply lookup_insert_eq. by rewrite delete_insert_id.
Qed.

Lemma tally_elem f m t p : m !! t = Some p -> (f p <= tally f m)%nat.
Proof. intros Hp. rewrite (tally_delete f m t p Hp). lia. Qed.

Lemma tally_two f m t t' p p' :
  m !! t = Some p -> m !! t' = Some p' -> t <> t' -> (f p + f p' <= tally f m)%nat.
Proof.
  intros Hp Hp' Ht. rewrite (tally_delete f m t p Hp).
  assert (Hd : delete t m !! t' = Some p') by by rewrite lookup_delete_ne.
  apply (tally_elem f) in Hd. lia.
Qed.

Lemma tally_pos f m : (0 < tally f m)%nat -> exists t p, m !! t = Some p /\ (0 < f p)%nat.
Proof.
  induction m as [|t p m Hm IH] using map_ind; [unfold tally; rewrite map_fold_empty; lia|].
  rewrite tally_new by done. intros Hpos. destruct (decide (0 < f p)%nat) as [Hf|Hf].
  - exists t, p. by rewrite lookup_insert_eq.
  - destruct IH as (t' & p' & Hp' & Hf'); [lia|]. exists t', p'. split; [|done].
    rewrite lookup_insert_ne; [done|congruence].
Qed.

Lemma count_pos f m : (0 < count f m)%nat <-> exists t p, m !! t = Some p /\ f p = true.
Proof.
  split.
  - intros (t & p & Hp & Hf)%tally_pos. exists t, p. split; [done|]. destruct (f p); [done|cbn in Hf; lia].
  - intros (t & p & Hp & Hf). apply (tally_elem (fun p => Nat.b2n (f p))) in Hp. rewrite Hf in Hp. exact Hp.
Qed.

Lemma count_zero f m t p : count f m = 0%nat -> m !! t = Some p -> f p = false.
Proof.
  intros H0 Hp. destruct (f p) eqn:E; [|done].
  enough (0 < count f m)%nat by lia. apply count_pos. eauto.
Qed.

Lemma count_le f g m : (forall p, f p = true -> g p = true) -> (count f m <= count g m)%nat.
Proof.
  intros Hfg. unfold count. induction m as [|t p m Hm IH] using map_ind; [done|].
  rewrite !tally_new by done. specialize (Hfg p). destruct (f p); [rewrite Hfg by done|]; cbn; lia.
Qed.

(** ** What a turn does

    A call between [running.Add] and [running.Done]; past its check of [closed]; holding the
    write lock; inside [closeOnce]; between [ReceivePacket] and the end of its wait. *)

Definition counted (p : Pc) : bool :=
  match p with
  | RCheck _ | RRetry _ | RReceive _ | RRelease _ _ | RWait _ | WCheck _ | WLock _ | WAlloc _ | WSend _
  | WUnlock _ | LCheck | LGet | Exit _ => true
  | _ => false
  end.
Definition passed (p : Pc) : bool :=
  match p with
  | RRetry _ | RReceive _ | RRelease _ _ | RWait _ | WLock _ | WAlloc _ | WSend _ | WUnlock _ | LGet => true
  | _ => false
  end.
Definition holding (p : Pc) : bool :=
  match p with WAlloc _ | WSend _ | WUnlock _ => true | _ => false end.
Definition closing (p : Pc) : bool :=
  match p with CStore | CSetEvent | CWait | CWaiting | CEnd | CAdapter | CReturn _ => true | _ => false end.
Definition polling (p : Pc) : bool := match p with RReceive _ | RWait _ => true | _ => false end.
Definition signalling (p : Pc) : bool := match p with CSetEvent => true | _ => false end.

Ltac turn_cases p E :=
  destruct p; cbv [turn wg_Add wg_Done modify reads panic block mbind go_bind mret go_ret field_upd] in E;
  cbn [rebuild Tun_rebuild running wg_waiting closed event writeLock closeOnce wg_woken] in E;
  repeat case_match; simplify_eq; cbn in *;
  repeat match goal with
  | H : bool_decide _ = false |- _ => apply bool_decide_eq_false in H
  | H : bool_decide _ = true |- _ => apply bool_decide_eq_true in H
  | H : _ && _ = true |- _ => apply andb_true_iff in H as [? ?]
  | H : _ && _ = false |- _ => apply andb_false_iff in H
  end; try done.

Section Turn.
Variables (d : Driver) (p p' : Pc) (s s' : Tun).
Hypothesis (E : turn d p s = Done p' s').

Lemma turn_closed : closed s = true -> closed s' = true.
Proof. turn_cases p E. Qed.
Lemma turn_passed : closed s = true -> passed p = false -> passed p' = false.
Proof. turn_cases p E; congruence. Qed.
Lemma turn_running : running s' = running s + Z.b2z (counted p') - Z.b2z (counted p).
Proof. turn_cases p E; lia. Qed.
Lemma turn_lock :
  (holding p = true -> writeLock s = true) ->
  (Nat.b2n (writeLock s') + Nat.b2n (holding p) = Nat.b2n (writeLock s) + Nat.b2n (holding p'))%nat.
Proof. intros Hl. turn_cases p E; rewrite ?Hl by done; try done; by destruct (writeLock _). Qed.
Lemma turn_once :
  (closing p = true -> closeOnce s = OnceRunning) ->
  (Nat.b2n (bool_decide (closeOnce s' = OnceRunning)) + Nat.b2n (closing p)
   = Nat.b2n (bool_decide (closeOnce s = OnceRunning)) + Nat.b2n (closing p'))%nat.
Proof.
  intros Ho. turn_cases p E; rewrite ?Ho by done; try done;
    repeat match goal with H : closeOnce _ = _ |- _ => rewrite H end; done.
Qed.
Lemma turn_finished :
  closeOnce s' = OnceFinished -> closeOnce s = OnceFinished \/ exists err, p = CReturn err.
Proof. turn_cases p E; eauto; intros; simplify_eq; eauto. Qed.
Lemma turn_waiting : wg_waiting s' = true ->
  (wg_waiting s = true /\ (0 < running s -> 0 < running s')) \/
  (p = CWait /\ running s' = running s /\ running s <> 0).
Proof. turn_cases p E; intros Hw; try (left; split; [done|lia]); try (by right).
  left. match goal with H : _ \/ _ |- _ => destruct H as [H|H]; [apply bool_decide_eq_false in H|congruence] end.
  split; [done|lia].
Qed.
Lemma turn_woken : wg_woken s' = true ->
  wg_woken s = true \/ (running s' = 0 /\ wg_waiting s = true).
Proof. turn_cases p E; intros; auto; naive_solver. Qed.
Lemma turn_kept : p <> CWaiting -> wg_waiting s || wg_woken s = true -> wg_waiting s' || wg_woken s' = true.
Proof. turn_cases p E; intros; try done; by rewrite orb_true_r. Qed.
Lemma turn_ended : session_ended s' = true \/ adapter_closed s' = true ->
  session_ended s = true \/ adapter_closed s = true \/ p = CEnd \/ p = CAdapter.
Proof. turn_cases p E; tauto. Qed.
Lemma turn_event : event s = true -> event s' = true \/ exists size, p = RWait size.
Proof. turn_cases p E; eauto. Qed.
Lemma turn_reading : reading p' = true -> reading p = true.
Proof. turn_cases p E. Qed.
Lemma turn_polling :
  closed s' = true -> polling p' = true -> event s' = event s /\ closed s = true /\ polling p = true /\ signalling p = false.
Proof. turn_cases p E; intros; try congruence. Qed.
Lemma turn_store : closed s = false -> closed s' = true -> signalling p' = true.
Proof. turn_cases p E; congruence. Qed.
Lemma turn_signalled : signalling p = true -> event s' = true.
Proof. turn_cases p E. Qed.
End Turn.

(** ** The invariant *)

Definition pc_ok (w : Win) (p : Pc) : Prop :=
  match p with
  | CSetEvent | CWait => closed (tun w) = true
  | CWaiting => closed (tun w) = true /\ wg_waiting (tun w) || wg_woken (tun w) = true
  | CEnd | CAdapter | CReturn _ => closed (tun w) = true /\ count passed (calls w) = 0%nat
  | _ => True
  end.

Record win_ok (single : bool) (w : Win) : Prop := mkWinOk {
  ok_running : running (tun w) = Z.of_nat (count counted (calls w));
  ok_lock : Nat.b2n (writeLock (tun w)) = count holding (calls w);
  ok_once : Nat.b2n (bool_decide (closeOnce (tun w) = OnceRunning)) = count closing (calls w);
  ok_finished : closeOnce (tun w) = OnceFinished -> closed (tun w) = true;
  ok_waiting : wg_waiting (tun w) = true -> closed (tun w) = true /\ 0 < running (tun w);
  ok_woken : wg_woken (tun w) = true -> closed (tun w) = true /\ count passed (calls w) = 0%nat;
  ok_ended : session_ended (tun w) = true \/ adapter_closed (tun w) = true ->
    closed (tun w) = true /\ count passed (calls w) = 0%nat;
  ok_pc t p : calls w !! t = Some p -> pc_ok w p;
  ok_readers : single = true -> (count reading (calls w) <= 1)%nat;
  ok_event t p : single = true -> closed (tun w) = true -> calls w !! t = Some p -> polling p = true ->
    event (tun w) = true \/ (0 < count signalling (calls w))%nat
}.

Lemma passed_counted p : passed p = true -> counted p = true.
Proof. by destruct p. Qed.
Lemma polling_reading p : polling p = true -> reading p = true.
Proof. by destruct p. Qed.

Lemma count_insert f m t p p' :
  m !! t = Some p -> (count f (<[t := p']> m) + Nat.b2n (f p) = count f m + Nat.b2n (f p'))%nat.
Proof. apply (tally_insert (fun p => Nat.b2n (f p))). Qed.

Lemma count_new f m t p : m !! t = None -> count f (<[t := p]> m) = (Nat.b2n (f p) + count f m)%nat.
Proof. apply (tally_new (fun p => Nat.b2n (f p))). Qed.

Lemma count_elem f m t p : m !! t = Some p -> f p = true -> (0 < count f m)%nat.
Proof. intros Hp Hf. apply count_pos. eauto. Qed.

(** Signalling the event breaks nothing. *)
Lemma win_ok_signal single w b :
  win_ok single w -> win_ok single (mkWin ((tun w) <| event ::= orb b |>) (calls w)).
Proof.
  intros [R L O F W K D P S V]. split; try done; cbn.
  intros t p Hs Hc Hp Hpoll. destruct (V t p Hs Hc Hp Hpoll) as [->|?]; [|by right].
  left. apply orb_true_r.
Qed.

Section Preserved.
Variables (single : bool) (w : Win) (t : nat) (d : Driver) (p p' : Pc) (s' : Tun).
Hypothesis (Hok : win_ok single w) (Hp : calls w !! t = Some p) (E : turn d p (tun w) = Done p' s').

Lemma passed_stays : closed (tun w) = true -> count passed (calls w) = 0%nat ->
  count passed (<[t := p']> (calls w)) = 0%nat.
Proof.
  intros Hc H0. pose proof (count_zero _ _ _ _ H0 Hp) as Hf.
  pose proof (count_insert passed _ _ _ p' Hp) as Hi.
  rewrite (turn_passed _ _ _ _ _ E Hc Hf), Hf, H0 in Hi. cbn in Hi. lia.
Qed.

Lemma running_stays : running s' = Z.of_nat (count counted (<[t := p']> (calls w))).
Proof.
  rewrite (turn_running _ _ _ _ _ E), (ok_running _ _ Hok).
  pose proof (count_insert counted _ _ _ p' Hp) as Hi. destruct (counted p), (counted p'); cbn in *; lia.
Qed.

Lemma none_passed : running s' = 0 -> count passed (<[t := p']> (calls w)) = 0%nat.
Proof.
  rewrite running_stays. intros H0. pose proof (count_le _ _ (<[t := p']> (calls w)) passed_counted). lia.
Qed.

(** The call that took the turn is where it should be. *)
Lemma pc_ok_turn : pc_ok (mkWin s' (<[t := p']> (calls w))) p'.
Proof.
  pose proof (ok_pc _ _ Hok t p Hp) as Hpc. pose proof passed_stays as Hs. pose proof none_passed as Hn.
  clear Hok. turn_cases p E; intuition.
Qed.

(** The other calls still are. *)
Lemma pc_ok_other t' q :
  calls w !! t' = Some q -> t' <> t -> pc_ok (mkWin s' (<[t := p']> (calls w))) q.
Proof.
  intros Hq Ht. pose proof (ok_pc _ _ Hok t' q Hq) as Hpc.
  pose proof (turn_closed _ _ _ _ _ E) as Hc. pose proof passed_stays as Hs.
  destruct q; cbn in *; try done; try tauto; [].
  destruct Hpc as [H1 H2]. split; [auto|]. apply (turn_kept _ _ _ _ _ E); [|done]. intros ->.
  pose proof (tally_two (fun p => Nat.b2n (closing p)) _ _ _ _ _ Hp Hq ltac:(done)) as H3.
  pose proof (ok_once _ _ Hok) as H4. unfold count in H4. rewrite <- H4 in H3.
  by destruct (bool_decide _); cbn in H3; lia.
Qed.
End Preserved.

Lemma win_ok_turn single w t d p p' s' :
  win_ok single w -> calls w !! t = Some p -> turn d p (tun w) = Done p' s' ->
  win_ok single (mkWin s' (<[t := p']> (calls w))).
Proof.
  intros Hok Hp E. destruct (Hok) as [R L O F W K D P S V].
  pose proof (turn_closed _ _ _ _ _ E) as Hc. pose proof (passed_stays _ _ _ _ _ _ Hp E) as Hs.
  split; cbn.
  - by eapply running_stays.
  - pose proof (count_insert holding _ _ _ p' Hp) as Hi.
    pose proof (turn_lock _ _ _ _ _ E) as Hl. rewrite <- L in Hi. enough (holding p = true -> writeLock (tun w) = true) by (specialize (Hl ltac:(done)); lia).
    intros Hh. pose proof (count_elem _ _ _ _ Hp Hh) as Hpos. rewrite <- L in Hpos.
    destruct (writeLock (tun w)); [done|cbn in Hpos; lia].
  - pose proof (count_insert closing _ _ _ p' Hp) as Hi.
    pose proof (turn_once _ _ _ _ _ E) as Hl. rewrite <- O in Hi.
    enough (closing p = true -> closeOnce (tun w) = OnceRunning) by (specialize (Hl ltac:(done)); lia).
    intros Hh. pose proof (count_elem _ _ _ _ Hp Hh) as Hpos. rewrite <- O in Hpos.
    case_bool_decide; [done|cbn in Hpos; lia].
  - intros Hf. destruct (turn_finished _ _ _ _ _ E Hf) as [Hf'|[err ->]]; [auto|].
    apply Hc. apply (P t _ Hp).
  - intros Hw. destruct (turn_waiting _ _ _ _ _ E Hw) as [[Hw' Hr]|(-> & Hr & Hnz)].
    + destruct (W Hw'). auto.
    + split; [apply Hc, (P t _ Hp)|lia].
  - intros Hw. destruct (turn_woken _ _ _ _ _ E Hw) as [Hw'|[Hr Hw']].
    + destruct (K Hw'). auto.
    + split; [apply Hc; by apply W|by eapply none_passed].
  - intros He. destruct (turn_ended _ _ _ _ _ E He) as [?|[?|[-> | ->]]]; pose proof (P t _ Hp) as Hpc; cbn in Hpc; intuition.
  - intros t' q [[<- <-]|[Hne Hq]]%lookup_insert_Some; [by eapply pc_ok_turn|by eapply pc_ok_other].
  - intros Hsi. pose proof (count_insert reading _ _ _ p' Hp) as Hi. specialize (S Hsi).
    pose proof (turn_reading _ _ _ _ _ E) as Hr. destruct (reading p), (reading p'); cbn in *; lia.
  - intros t' q Hsi Hc' Hq Hpoll.
    pose proof (count_insert signalling _ _ _ p' Hp) as Hi.
    assert (Hkeep : closed (tun w) = true -> (exists t0 q0, calls w !! t0 = Some q0 /\ polling q0 = true /\ (t0 <> t \/ polling p' = true)) ->
      event s' = true \/ (0 < count signalling (<[t := p']> (calls w)))%nat).
    { intros Hcl (t0 & q0 & Hq0 & Hpoll0 & Ht0). destruct (signalling p) eqn:Hsig.
      { left. by eapply turn_signalled. }
      destruct (V t0 q0 Hsi Hcl Hq0 Hpoll0) as [He|Hpos]; [|right; cbn in Hi; destruct (signalling p'); cbn in *; lia].
      destruct (turn_event _ _ _ _ _ E He) as [?|[size ->]]; [by left|].
      destruct Ht0 as [Ht0|Ht0].
      - exfalso. specialize (S Hsi). pose proof (tally_two (fun p => Nat.b2n (reading p)) _ _ _ _ _ Hp Hq0 ltac:(done)) as H2.
        cbn beta in H2. rewrite (polling_reading _ Hpoll0) in H2. unfold count in S. cbn in *. lia.
      - apply (turn_polling _ _ _ _ _ E Hc') in Ht0 as (Hev & _). rewrite Hev. by left. }
    apply lookup_insert_Some in Hq as [[<- <-]|[Hne Hq]].
    + destruct (turn_polling _ _ _ _ _ E Hc' Hpoll) as (Hev & Hcl & Hpp & _). apply Hkeep; [done|]. exists t, p. auto.
    + destruct (closed (tun w)) eqn:Hcl; [apply Hkeep; [done|]; exists t', q; auto|].
      right. apply count_pos. exists t, p'. split; [apply lookup_insert_eq|by eapply turn_store].
Qed.

Lemma win_ok_step single w w' : win_ok single w -> win_step single w w' -> win_ok single w'.
Proof.
  intros Hok [t op Hnew Hsingle|? [t d p' s' E]].
  - destruct Hok as [R L O F W K D P S V].
    assert (Hz : forall f, f (entry op) = false -> count f (<[t := entry op]> (calls w)) = count f (calls w)).
    { intros f Hf. rewrite count_new by done. by rewrite Hf. }
    split; cbn; rewrite ?Hz by (by destruct op); auto.
    + intros t' q [[<- <-]|[_ Hq]]%lookup_insert_Some; [by destruct op|].
      specialize (P t' q Hq). destruct q; cbn in *; rewrite ?Hz by (by destruct op); done.
    + intros Hs. rewrite count_new by done. destruct (reading (entry op)) eqn:Hr; [|by apply S].
      enough (count reading (calls w) = 0%nat) as -> by done.
      destruct (decide (0 < count reading (calls w))%nat) as [(t' & q & Hq & Hrq)%count_pos|]; [|lia].
      by rewrite (Hsingle Hs eq_refl t' q Hq) in Hrq.
    + intros t' q Hs Hc [[<- <-]|[_ Hq]]%lookup_insert_Some Hpoll; [by destruct op|eauto].
  - unfold piece in E. destruct (calls w !! t) as [p|] eqn:Hp; [|done].
    apply (win_ok_turn single (mkWin ((tun w) <| event ::= orb (signals d) |>) (calls w)) t d p);
      [by apply win_ok_signal|done|done].
Qed.

(** ** Closing ends *)

Definition finished (w : Win) : Prop := forall t p, calls w !! t = Some p -> exists r, p = Returned r.

(** Call [t] gets on, whatever the driver answers; a panic is the end of the process. *)
Definition ready (w : Win) (t : nat) : Prop :=
  forall d, match piece w t d with Blocked _ _ => False | _ => True end.

(** However the turns are chosen, and with no call made any more, [Q] comes about (or the
    process panics): there is always a call that can take a turn, and no way to take turns
    for ever. *)
Inductive inevitable (Q : Win -> Prop) (w : Win) : Prop :=
| inevitable_now : Q w -> inevitable Q w
| inevitable_later t : ready w t -> (forall w', moves w w' -> inevitable Q w') -> inevitable Q w.

Definition going (p : Pc) : bool := match p with Returned _ => false | _ => true end.

(** The turns a call still has once [closed] is set. *)
Definition rank (p : Pc) : nat :=
  match p with
  | COnce => 8 | CStore => 7 | CSetEvent => 6 | CWait | WLock _ => 5
  | CWaiting | RReceive _ | WAlloc _ => 4
  | CEnd | RAdd _ | RWait _ | WAdd _ | WSend _ | LAdd => 3
  | CAdapter | RCheck _ | RRetry _ | RRelease _ _ | WCheck _ | WUnlock _ | LCheck | LGet => 2
  | CReturn _ | Exit _ => 1
  | Returned _ => 0
  end%nat.

Lemma turn_rank d p p' s s' :
  turn d p s = Done p' s' -> closed s = true -> (rank p' < rank p)%nat.
Proof. intros E. turn_cases p E; intros; try congruence; lia. Qed.

Lemma moves_rank w w' :
  moves w w' -> closed (tun w) = true ->
  closed (tun w') = true /\ (tally rank (calls w') < tally rank (calls w))%nat.
Proof.
  intros [t d p' s' E] Hc. unfold piece in E. destruct (calls w !! t) as [p|] eqn:Hp; [|done].
  split; [by apply (turn_closed _ _ _ _ _ E)|]. cbn.
  pose proof (tally_insert rank _ _ _ p' Hp). apply turn_rank in E; [lia|done].
Qed.

(** What a turn can wait for. *)
Lemma ready_call w t p :
  calls w !! t = Some p ->
  match p with
  | RWait _ => event (tun w) = true
  | WLock _ => writeLock (tun w) = false
  | COnce => closeOnce (tun w) <> OnceRunning
  | CWaiting => wg_woken (tun w) = true
  | Returned _ => False
  | _ => True
  end -> ready w t.
Proof.
  intros Hp Hpc d. unfold piece. rewrite Hp. unfold turn, mbind, go_bind, reads, modify, mret, go_ret, wg_Add, wg_Done, panic, block.
  destruct p; cbn; try done; rewrite ?Hpc, ?orb_true_r; try done; repeat case_match; try done; by destruct Hpc.
Qed.

Lemma count_ready single w f (P : win_ok single w) :
  (0 < count f (calls w))%nat ->
  (forall t p, calls w !! t = Some p -> f p = true -> exists t', ready w t') -> exists t', ready w t'.
Proof. intros (t & p & Hp & Hf)%count_pos Hall. eauto. Qed.

(** The driver's help is not needed. *)
Lemma closed_progress w :
  win_ok true w -> closed (tun w) = true -> finished w \/ exists t, ready w t.
Proof.
  intros Hok Hc.
  assert (Hread : forall t size, calls w !! t = Some (RWait size) -> exists t', ready w t').
  { intros t size Hp. destruct (ok_event _ _ Hok t _ eq_refl Hc Hp eq_refl) as [He|(t' & q & Hq & Hf)%count_pos].
    - exists t. by apply (ready_call _ _ _ Hp).
    - exists t'. apply (ready_call _ _ _ Hq). by destruct q. }
  assert (Hwrite : forall t b, calls w !! t = Some (WLock b) -> exists t', ready w t').
  { intros t b Hp. destruct (writeLock (tun w)) eqn:Hl; [|exists t; by apply (ready_call _ _ _ Hp)].
    pose proof (ok_lock _ _ Hok) as Hn. rewrite Hl in Hn.
    assert (Hpos : (0 < count holding (calls w))%nat) by (rewrite <- Hn; cbn; lia).
    apply count_pos in Hpos as (t' & q & Hq & Hf). exists t'. apply (ready_call _ _ _ Hq). by destruct q. }
  assert (Hwait : forall t, calls w !! t = Some CWaiting -> exists t', ready w t').
  { intros t Hp. destruct (wg_woken (tun w)) eqn:Hw; [exists t; by apply (ready_call _ _ _ Hp)|].
    pose proof (ok_pc _ _ Hok t _ Hp) as [_ Hpc]. rewrite Hw, orb_false_r in Hpc.
    destruct (ok_waiting _ _ Hok Hpc) as [_ Hr]. rewrite (ok_running _ _ Hok) in Hr.
    apply (count_ready true w counted Hok); [lia|]. intros t' q Hq Hf.
    destruct q; try done; try (exists t'; by apply (ready_call _ _ _ Hq)); eauto. }
  destruct (decide (0 < count going (calls w))%nat) as [Hpos|Hz].
  - right. apply (count_ready _ _ _ Hok Hpos). intros t q Hq Hf.
    destruct q; try done; try (exists t; by apply (ready_call _ _ _ Hq)); eauto.
    destruct (decide (closeOnce (tun w) = OnceRunning)) as [Ho|Ho]; [|exists t; by apply (ready_call _ _ _ Hq)].
    pose proof (ok_once _ _ Hok) as Hn. rewrite bool_decide_true in Hn by done.
    apply (count_ready _ _ closing Hok); [cbn in Hn; lia|]. intros t' q Hq' Hf'.
    destruct q; try done; try (exists t'; by apply (ready_call _ _ _ Hq')); eauto.
  - left. intros t p Hp. pose proof (count_zero going (calls w) t p ltac:(lia) Hp). destruct p; try done. eauto.
Qed.

Lemma closed_ends w : win_ok true w -> closed (tun w) = true -> inevitable finished w.
Proof.
  remember (tally rank (calls w)) as n eqn:Hn. revert w Hn.
  induction n as [n IH] using lt_wf_ind. intros w -> Hok Hc.
  destruct (closed_progress w Hok Hc) as [Hf|[t Ht]]; [by apply inevitable_now|].
  apply (inevitable_later _ _ t Ht). intros w' Hm. destruct (moves_rank _ _ Hm Hc) as [Hc' Hlt].
  eapply IH; [exact Hlt|done| |done]. eapply win_ok_step; [exact Hok|by apply step_moves].
Qed.

(** ** Schedules

    A run given as the list of its steps: calls and turns. *)

Abbreviation sched := (list (nat * (Op + Driver))).

Fixpoint run_sched (single : bool) (l : sched) (w : Win) : option Win :=
  match l with
  | [] => Some w
  | (t, inl op) :: l =>
      match calls w !! t with
      | Some _ => None
      | None =>
          if single && reading (entry op) && (0 <? count reading (calls w))%nat then None
          else run_sched single l (mkWin (tun w) (<[t := entry op]> (calls w)))
      end
  | (t, inr d) :: l =>
      match piece w t d with
      | Done p s => run_sched single l (mkWin s (<[t := p]> (calls w)))
      | _ => None
      end
  end.

Lemma run_sched_reach single l w0 w w' :
  reach (win_step single) w0 w -> run_sched single l w = Some w' -> reach (win_step single) w0 w'.
Proof.
  revert w. induction l as [|[t [op|d]] l IH]; intros w Hr; cbn [run_sched].
  - by intros [= <-].
  - destruct (calls w !! t) eqn:Hp; [done|]. destruct (_ && _ && _) eqn:Hb; [done|]. intros E.
    eapply IH, E. eapply reach_step; [exact Hr|]. apply step_call; [done|].
    intros -> Hread t' q Hq. rewrite Hread in Hb. cbn [andb] in Hb. apply Nat.ltb_ge in Hb.
    by eapply (count_zero reading (calls w)), Hq; lia.
  - destruct (piece w t d) as [p s| |] eqn:E; [|done..]. intros E'.
    eapply IH, E'. eapply reach_step; [exact Hr|]. by eapply step_moves, moves_turn.
Qed.

(** ** Properties *)

Lemma initial_ok single : win_ok single (mkWin NewTun ∅).
Proof.
  assert (Hz : forall f, count f ∅ = 0%nat) by (intros; apply map_fold_empty).
  split; cbn; rewrite ?Hz; try done; try (intros; lia); try (intros []; done); by intros.
Qed.


(** ** Concrete runs

    Call 0 reads and waits for a packet; call 1 closes. *)

Definition idle : Driver := mkDriver false true RxNoMoreItems TxOk 7 None.
Definition packet (p : list Z) : Driver := mkDriver false true (RxPacket p) TxOk 7 None.
Definition turns (t : nat) (ds : list Driver) : sched := (fun d => (t, inr d)) <$> ds.

Definition demo_waiting : sched :=
  (0%nat, inl (Read 4)) :: turns 0 [idle; idle; idle; idle] ++ (1%nat, inl Close) :: turns 1 [idle; idle].
(** From there: the event, the reader's way out, the close. *)
Definition demo_rest : sched := turns 1 [idle; idle] ++ turns 0 [idle; idle; idle] ++ turns 1 [idle; idle; idle; idle].

Definition results (w : Win) : option Pc * option Pc := (calls w !! 0%nat, calls w !! 1%nat).

(** The reader gets the error of a closed device, the close ends with the driver's answer. *)
Example demo_close :
  option_map results (run_sched true (demo_waiting ++ demo_rest) (mkWin NewTun ∅))
  = Some (Some (Returned (RetRead [] (Some ErrClosed))), Some (Returned (RetClose None))).
Proof. vm_compute. reflexivity. Qed.

(** A packet is cut to the buffer; a write is sent. *)
Example demo_traffic :
  option_map (fun w => (results w, sent (tun w)))
    (run_sched true ((0%nat, inl (Read 2)) :: turns 0 [idle; idle; idle; packet [1; 2; 3]; idle; idle] ++
                     (1%nat, inl (Write [9; 8])) :: turns 1 [idle; idle; idle; idle; idle; idle; idle]) (mkWin NewTun ∅))
  = Some ((Some (Returned (RetRead [1; 2] None)), Some (Returned (RetWrite 2 None))), [[9; 8]]).
Proof. vm_compute. reflexivity. Qed.

(** The reader returns with a packet, which wakes the waiting [Close], and is called again
    before [Close] runs: the next turn of [Close] is a panic. *)
Lemma close_can_panic : exists w,
  reach (win_step true) (mkWin NewTun ∅) w /\
  exists s', piece w 1 idle = Crash (PanicWith "sync: WaitGroup is reused before previous Wait has returned") s'.
Proof.
  pose (l := (0%nat, inl (Read 4)) :: turns 0 [idle; idle; idle; packet [1]] ++
             (1%nat, inl Close) :: turns 1 [idle; idle; idle; idle] ++ turns 0 [idle; idle] ++
             (2%nat, inl (Read 4)) :: turns 2 [idle]).
  destruct (run_sched true l (mkWin NewTun ∅)) as [w|] eqn:E; [|by vm_compute in E].
  exists w. split; [eapply run_sched_reach, E; apply reach_refl|].
  vm_compute in E. injection E as <-. eexists. vm_compute. reflexivity.
Qed.

