(* ===== verification/NixTun.v ===== *)
(** The address configuration of the unix tunnel, node/tun/tun_nix.go: the commands it runs, in
    order, and what it makes of their failures.  Its other methods are in
    [Devices]. *)

From S2P Require Import Prelude Netip.

Definition MTU : Z := 1300.

Record Command : Type := mkCommand { path : string; args : list string }.
#[export] Instance Command_eq_dec : EqDecision Command.
Proof. solve_decision. Defined.

(** The commands run so far, oldest first. *)
Record Machine : Type := mkMachine { ran : list Command }.
#[export] Instance Machine_rebuild : Rebuild Machine := {| rebuild := fun m => mkMachine (ran m) |}.

Section NixTun.
(** [exec.Command(...).Run()]: the error the command ends with, if any. *)
Context (run : Command -> option string).

Definition exec (c : Command) : go Machine (option string) := fun m =>
  Done (run c) (m <| ran ::= (fun l => l ++ [c]) |>).

Definition ip (args : list string) : Command := mkCommand "/sbin/ip" args.

Definition link_mtu (name : string) : Command := ip ["link"; "set"; "dev"; name; "mtu"; "1400"]%string.
Definition addr_add (name : string) (addr : Prefix) : Command :=
  ip ["addr"; "add"; addr_string (p_addr addr) +:+ "/32"; "dev"; name]%string.
Definition link_up (name : string) : Command := ip ["link"; "set"; "dev"; name; "up"]%string.
Definition route_add (addr : Prefix) : Command :=
  ip ["route"; "add"; prefix_string (Masked addr); "via"; addr_string (p_addr addr)]%string.

Definition ifconfig (name : string) (addr : Prefix) : Command :=
  mkCommand "/sbin/ifconfig"
    [name; "mtu"; "1400"; addr_string (p_addr addr); addr_string (p_addr addr); "up"]%string.
Definition bsd_route (addr : Prefix) : Command :=
  mkCommand "/sbin/route" ["-n"; "add"; "-net"; prefix_string (Masked addr); addr_string (p_addr addr)]%string.

(** [log.Fatalf] ends the process. *)
Definition ConfigureIPAddress (goos name : string) (addr : Prefix) : go Machine (option string) :=
  if bool_decide (goos = "linux"%string) then
    err ← exec (link_mtu name);
    match err with
    | Some e => mret (Some ("ip link error: " +:+ e))
    | None =>
        err ← exec (addr_add name addr);
        match err with
        | Some e => mret (Some ("ip addr error: " +:+ e))
        | None =>
            err ← exec (link_up name);
            match err with
            | Some e => mret (Some ("ip link error: " +:+ e))
            | None =>
                err ← exec (route_add addr);
                match err with
                | Some e => panic (PanicWith ("route add error: " +:+ e))
                | None => mret None
                end
            end
        end
    end
  else if bool_decide (goos = "darwin"%string) then
    err ← exec (ifconfig name addr);
    match err with
    | Some e => mret (Some ("ifconfig error " +:+ name +:+ ": " +:+ e))
    | None =>
        err ← exec (bsd_route addr);
        match err with
        | Some e => panic (PanicWith ("route add error: " +:+ e))
        | None => mret None
        end
    end
  else mret (Some ("no tun support for: " +:+ goos)).

(** On linux it succeeds exactly when the four commands do, which then have run in this
    order; the first that fails is the last that is run, and a route that cannot be added
    ends the process instead of being reported. *)
Lemma ConfigureIPAddress_linux name addr m :
  match ConfigureIPAddress "linux" name addr m with
  | Done None m' =>
      ran m' = ran m ++ [link_mtu name; addr_add name addr; link_up name; route_add addr] /\
      Forall (fun c => run c = None) [link_mtu name; addr_add name addr; link_up name; route_add addr]
  | Done (Some _) m' => exists done c rest,
      [link_mtu name; addr_add name addr; link_up name] = done ++ c :: rest /\
      ran m' = ran m ++ done ++ [c] /\ Forall (fun c => run c = None) done /\ run c <> None
  | Crash _ m' => run (route_add addr) <> None /\
      ran m' = ran m ++ [link_mtu name; addr_add name addr; link_up name; route_add addr]
  | Blocked _ _ => False
  end.
Proof.
  destruct m as [l]. unfold ConfigureIPAddress. cbn [bool_decide]. unfold mbind, go_bind, exec, mret, go_ret, panic.
  rewrite bool_decide_true by done. cbn.
  destruct (run (link_mtu name)) eqn:E1; cbn.
  { exists [], (link_mtu name), [addr_add name addr; link_up name]. rewrite E1. repeat split; try done; constructor. }
  destruct (run (addr_add name addr)) eqn:E2; cbn.
  { exists [link_mtu name], (addr_add name addr), [link_up name]. rewrite E2.
    split; [done|]. split; [by rewrite <- app_assoc|]. split; [by repeat constructor|done]. }
  destruct (run (link_up name)) eqn:E3; cbn.
  { exists [link_mtu name; addr_add name addr], (link_up name), []. rewrite E3.
    split; [done|]. split; [by rewrite <- !app_assoc|]. split; [by repeat constructor|done]. }
  destruct (run (route_add addr)) eqn:E4; cbn; rewrite <- !app_assoc.
  - split; [congruence|done].
  - split; [done|]. by repeat constructor.
Qed.
End NixTun.
