(* ===== verification/Boot.v ===== *)
(** How the two programs come up: the identity provider's configuration and the token
    validator (controller/auth/oauth.go), the controller's object (controller/controller.go),
    the node's object (node/node.go, NewNode), and the key file and the outbound address of
    node/helpers.go.  What they ask of the machine is the class [World]. *)

From S2P Require Import Prelude Bytes GoStd Netip Base64 Types Store Auth Controller.
From S2P Require Import GoSync Queue NodePeer NodeCore.

(** How a process ends: [log.Fatal] writes its argument and exits with 1. *)
Inductive exit : Type := ExitOk | ExitFatal (msg : string).

Record Key : Type := mkKey { KeyPublic : string; KeyPrivate : string }.

(** The operating system, the network and the decoders of third-party formats, at the moment
    of the call. *)
Class World `{Noise} : Type := {
  getenv : string -> string;
  http_client_get : string -> result string string;
  json_OpenIDConfig : string -> result string OpenIDConfig;
  keyfunc_NewDefaultCtx : string -> option string;
  CipherSuite_GenerateKeypair : result string DHKey;
  machineid_ProtectedID : result string string;
  os_Hostname : result string string;
  rand_Uint32 : Z;
  grpc_DialContext : string -> option string;
  udp_local_addr : result string string;
  yaml_Encode : Key -> result string string;
  yaml_Decode : string -> result string Key
}.

Section Boot.
Context `{World}.

(** ** oauth.go *)

Definition getOpenIDConfiguration (url : string) : result string OpenIDConfig :=
  match http_client_get url with
  | Err e => Err e
  | Ok body => match json_OpenIDConfig body with Err e => Err e | Ok config => Ok config end
  end.

Definition NewTokenValidator : result string TokenValidator :=
  match getOpenIDConfiguration (getenv "OPENID_CONFIG_URL") with
  | Err e => Err e
  | Ok config =>
      match keyfunc_NewDefaultCtx (JWKSEndpoint config) with
      | Some e => Err e
      | None =>
          Ok (mkTokenValidator config (getenv "OPENID_CLIENT_ID") (getenv "OPENID_AUDIENCE")
                (getenv "OPENID_CALLBACK_URL"))
      end
  end.

(** ** helpers.go

    The key file: [None] when it is not there. *)

Definition GenerateNewKeypair : result string DHKey :=
  match CipherSuite_GenerateKeypair with Err e => Err e | Ok keypair => Ok keypair end.

Definition LoadKeyFromDisk (keyfile : option string) : result string (list Z * list Z) :=
  match keyfile with
  | None => Err "File not found"%string
  | Some text =>
      match yaml_Decode text with
      | Err _ => Err "error decoding file"%string
      | Ok key =>
          match DecodeString (KeyPrivate key) with
          | None => Err "error decoding private key"%string
          | Some priv =>
              match DecodeString (KeyPublic key) with
              | None => Err "error decoding public key"%string
              | Some pub => Ok (pub, priv)
              end
          end
      end
  end.

(** [can_create]: the error of creating the file, which truncates it. The error and the file
    afterwards. *)
Definition StoreKeyToDisk (can_create : option string) (pub priv : list Z) (keyfile : option string) :
    option string * option string :=
  match can_create with
  | Some e => (Some e, keyfile)
  | None =>
      let key := mkKey (EncodeToString pub) (EncodeToString priv) in
      match yaml_Encode key with
      | Err e => (Some e, Some ""%string)
      | Ok text => (None, Some text)
      end
  end.

Definition GetPreferredOutboundAddr : result string Addr :=
  match udp_local_addr with
  | Err e => Err e
  | Ok text => match parse_addr text with Some a => Ok a | None => Err "unable to parse IP"%string end
  end.

(** ** node.go, grpcclient.go *)

Definition NewControllerClient (address : string) : option string :=
  match grpc_DialContext address with
  | Some _ => Some ("error connecting to controller grpc server at: " +:+ address)
  | None => None
  end.

(** [pools]: the buffer pools of the process; [entropy]: its source of randomness. The default
    of a host name that cannot be read is logged and goes nowhere. *)
Definition NewNode (controller : string) (pools : Pools) (entropy : Z) : result string Node :=
  match GenerateNewKeypair with
  | Err e => Err ("could not generate keypair: " +:+ e)
  | Ok keypair =>
      match machineid_ProtectedID with
      | Err e => Err ("error generating machine ID: " +:+ e)
      | Ok machineID =>
          let hostname :=
            match os_Hostname with
            | Err _ => ""%string
            | Ok host => default ""%string (head (strings_Split host "."))
            end in
          match NewControllerClient controller with
          | Some e => Err e
          | None =>
              Ok (mkNode _ NilHandle NilHandle (mkPrefix AddrZero (-1)) hostname ∅ 0 ∅ ∅
                    (mkEnv _ 0 keypair machineID "" [] [] [] pools entropy) false false false [] [])
          end
      end
  end.
End Boot.

(** ** controller.go

    A controller at the time [t]. *)
Definition NewController `{Gorm} (db : DB) (prefix : Prefix) (t : Z) : Ctl :=
  mkCtl _ db prefix ∅ ∅ 0 [] [] ∅ t.

(** ** Lemmas *)

Section BootLemmas.
Context `{World}.

(** A stored key pair is loaded again. *)
Lemma stored_key_loads pub priv old :
  Forall u8 pub -> Forall u8 priv -> (forall k s, yaml_Encode k = Ok s -> yaml_Decode s = Ok k) ->
  match StoreKeyToDisk None pub priv old with
  | (None, file) => LoadKeyFromDisk file = Ok (pub, priv)
  | (Some _, _) => True
  end.
Proof.
  intros Hpub Hpriv Hyaml. unfold StoreKeyToDisk. destruct (yaml_Encode _) as [text|e] eqn:E; [|done].
  unfold LoadKeyFromDisk. rewrite (Hyaml _ _ E). cbn [KeyPublic KeyPrivate].
  by rewrite !b64_roundtrip.
Qed.

(** A new node has no peers and its maps point nowhere. *)
Lemma NewNode_maps_ok controller pools entropy n : NewNode controller pools entropy = Ok n -> maps_ok n.
Proof.
  unfold NewNode. repeat case_match; intros; simplify_eq; split; intros k ptr [=].
Qed.

(** The default host name is lost. *)
Lemma NewNode_no_hostname controller pools entropy n e :
  os_Hostname = Err e -> NewNode controller pools entropy = Ok n -> hostname n = ""%string.
Proof. intros He. unfold NewNode. rewrite He. repeat case_match; intros; by simplify_eq. Qed.
End BootLemmas.
