(* ===== verification/NodeLife.v ===== *)
(** A node from its start on: the readers, the updates of the controller, the calls of the local
    service, the goroutines and timers of its peers and the stops it has launched, in any
    order; the invariant they keep, and that no packet can take the node down on the data path.

    [node_step] is one such step, [quiet_step] one that brings no message of the controller's.  A step that would block has not been taken, one that crashes
    ends the process: what is shown is about the states between them. *)

From S2P Require Import Prelude Bytes Header GoStd GoTime Netip Base64 Types Store Auth Controller GoSync Queue Grpc.
From S2P Require Import NodePeer NoiseLaws NodeCore Transport PeerWp Lifecycle PeerData Sync Boot.

(** ** The steps *)

Section Steps.
Context `{Noise, PoolChoice, NodeExt}.
Abbreviation Peer := NodePeer.Peer.

(** What a peer does by itself: its goroutines and its timers. *)
Inductive routine_step (ptr : Z) : PS -> PS -> Prop :=
| routine_inbound_recv s s' : g_inbound (self s) = Waiting -> Inbound_recv s = Done tt s' -> routine_step ptr s s'
| routine_inbound_body b s s' : g_inbound (self s) = Busy b -> Inbound_body b s = Done tt s' -> routine_step ptr s s'
| routine_outbound_recv s s' : g_outbound (self s) = Waiting -> Outbound_recv s = Done tt s' -> routine_step ptr s s'
| routine_outbound_body b s s' : g_outbound (self s) = Busy b -> Outbound_body b s = Done tt s' -> routine_step ptr s s'
| routine_handshake_recv s s' : g_handshake (self s) = Waiting -> Handshake_recv s = Done tt s' -> routine_step ptr s s'
| routine_handshake_body b s s' : g_handshake (self s) = Busy b -> Handshake_body b s = Done tt s' -> routine_step ptr s s'
| routine_handshake_timer d s s' :
    handshakeSent (self s) = Some d ->
    fire (fun p => p <| handshakeSent := None |>) HandshakeTimeout s = Done tt s' -> routine_step ptr s s'
| routine_keepalive_timer d s s' :
    keepalive (self s) = Some d ->
    fire (fun p => p <| keepalive := None |>) (TXTimeout ptr) s = Done tt s' -> routine_step ptr s s'
| routine_receive_timer d s s' :
    receivedPacket (self s) = Some d ->
    fire (fun p => p <| receivedPacket := None |>) RXTimeout s = Done tt s' -> routine_step ptr s s'.

(** Everything but a message of the controller's: packets, the service's calls that bring none,
    the peers' own steps, and the launched stops. *)
Inductive quiet_step (n : Node) : Node -> Prop :=
| node_udp read b n' : ReadUDPPackets read n = Done b n' -> quiet_step n n'
| node_tun read b n' : ReadTunPackets read n = Done b n' -> quiet_step n n'
| node_up_fails io e n' : Up io n = Done (Err e) n' -> quiet_step n n'
| node_down r n' : Down n = Done r n' -> quiet_step n n'
| node_login reply pkce r n' : Login reply pkce n = Done r n' -> quiet_step n n'
| node_stun r n' : sendStunRequest n = Done r n' -> quiet_step n n'
| node_routine ptr p s' :
    heap n !! ptr = Some p -> routine_step ptr (mkPS _ p (n_env n)) s' ->
    quiet_step n (n <| heap ::= <[ptr := self s']> |> <| n_env := env s' |>)
| node_peer_stop ptr rest n' :
    stops n ≡ₚ ptr :: rest -> on_peer ptr Peer_Stop n = Done tt n' -> quiet_step n (n' <| stops := rest |>).

Inductive node_step (n : Node) : Node -> Prop :=
| node_quiet n' : quiet_step n n' -> node_step n n'
| node_update u n' : HandleUpdate u n = Done tt n' -> node_step n n'
| node_up io text n' : Up io n = Done (Ok text) n' -> node_step n n'.
End Steps.

(** ** The invariant *)

Section Invariant.
Context `{NoiseSession, PoolChoice, NodeExt}.
Abbreviation Peer := NodePeer.Peer.
Implicit Types (n : Node) (p : Peer).

Definition peer_ok p (e : Env) : Prop := peer_inv p /\ data_ok (ID p) (mkPS _ p e).

(** Both maps lead to peers, the first to the peer with that id; every peer keeps its
    invariants; the pools are clean; what is to be stopped exists. *)
Record node_ok n : Prop := mkNodeOk {
  nok_heap : heap_ok n;
  nok_ids id ptr : id_map n !! id = Some ptr -> exists p, heap n !! ptr = Some p /\ ID p = id;
  nok_ips a ptr : ip_map n !! a = Some ptr -> is_Some (heap n !! ptr);
  nok_peers ptr p : heap n !! ptr = Some p -> peer_ok p (n_env n);
  nok_pools : pools_clean (pools (n_env n));
  nok_stops ptr : ptr ∈ stops n -> is_Some (heap n !! ptr)
}.

Lemma node_ok_maps n : node_ok n -> maps_ok n.
Proof.
  intros Hn. split; [|apply (nok_ips _ Hn)]. intros id ptr Hid.
  destruct (nok_ids _ Hn _ _ Hid) as (p & Hp & _). by exists p.
Qed.
Lemma node_ok_pkts n : node_ok n -> node_pkts_ok n.
Proof.
  intros Hn. split; [|apply (nok_pools _ Hn)]. intros ptr p Hp. destruct (nok_peers _ Hn _ _ Hp) as [_ [[_ Hi _ _ _] _]].
  exact Hi.
Qed.

Lemma peer_ok_env p e e' : peer_ok p e -> pools_clean (pools e') -> peer_ok p e'.
Proof. intros [Hi [[Hid Hin Ho Hr _] Hs]] He. split; [done|]. by split. Qed.

(** Fields the invariant does not mention, and a longer list of peers to stop. *)
Lemma node_ok_frame n n' :
  node_ok n -> heap n' = heap n -> next_ptr n' = next_ptr n -> id_map n' = id_map n -> ip_map n' = ip_map n ->
  pools (n_env n') = pools (n_env n) -> (forall ptr, ptr ∈ stops n' -> is_Some (heap n !! ptr)) -> node_ok n'.
Proof.
  intros [Hh Hi Ha Hp Hq Hs] E1 E2 E3 E4 E5 Hst.
  split; unfold heap_ok in *; rewrite ?E1, ?E2, ?E3, ?E4, ?E5; try done.
  intros ptr p Hptr. eapply peer_ok_env; [by apply (Hp ptr)|by rewrite E5].
Qed.

(** One peer has run, with its part of the node. *)
Lemma node_ok_peer n ptr p p' e' :
  node_ok n -> heap n !! ptr = Some p -> peer_ok p' e' -> ID p' = ID p ->
  node_ok (n <| heap ::= <[ptr := p']> |> <| n_env := e' |>).
Proof.
  intros [Hh Hi Ha Hp Hq Hs] Hptr Hok Hid.
  assert (He : pools_clean (pools e')) by (by destruct Hok as [_ [[_ _ _ _ He] _]]).
  assert (Hsome : forall k, is_Some (heap n !! k) -> is_Some (<[ptr := p']> (heap n) !! k))
    by (intros k Hk; apply lookup_insert_is_Some'; by right).
  split; cbn.
  - intros k [q Hk]. cbn in Hk. apply lookup_insert_Some in Hk as [[<- _]|[_ Hk]]; apply Hh; by eexists.
  - intros id k Hk. destruct (Hi _ _ Hk) as (q & Hq' & Eq). destruct (decide (ptr = k)) as [<-|Hne].
    + exists p'. rewrite lookup_insert_eq. split; [done|]. congruence.
    + exists q. by rewrite lookup_insert_ne.
  - eauto.
  - intros k q [[<- <-]|[_ Hk]]%lookup_insert_Some; [done|]. by eapply peer_ok_env, He; eapply Hp.
  - done.
  - eauto.
Qed.

(** ** Programs that keep it *)

Definition keeps_node {A} (m : go Node A) : Prop := forall n, node_ok n -> holds m n (fun _ n' => node_ok n').
(** A program of a peer that keeps both its invariants. *)
Definition keeps_peer {A} (m : go PS A) : Prop :=
  forall p e, peer_ok p e -> holds m (mkPS _ p e) (fun _ s' => peer_ok (self s') (env s') /\ ID (self s') = ID p).

Lemma kn_bind {A B} (m : go Node A) (k : A -> go Node B) :
  keeps_node m -> (forall a, keeps_node (k a)) -> keeps_node (m ≫= k).
Proof. intros Hm Hk n Hn. apply holds_bind. eapply holds_mono; [|by apply Hm]. intros a n' Hn'. by apply Hk. Qed.
Lemma kn_mret {A} (a : A) : keeps_node (mret a).
Proof. by intros n Hn. Qed.
Lemma kn_reads {A} (f : Node -> A) : keeps_node (reads f).
Proof. by intros n Hn. Qed.
Lemma kn_panic {A} c : keeps_node (panic c : go Node A).
Proof. by intros n Hn. Qed.
Lemma kn_modify f :
  (forall n, heap (f n) = heap n /\ next_ptr (f n) = next_ptr n /\ id_map (f n) = id_map n /\
     ip_map (f n) = ip_map n /\ pools (n_env (f n)) = pools (n_env n) /\ stops (f n) = stops n) ->
  keeps_node (modify f).
Proof.
  intros Hf n Hn. destruct (Hf n) as (E1 & E2 & E3 & E4 & E5 & E6).
  unfold holds, modify. apply (node_ok_frame n); try done. rewrite E6. apply (nok_stops _ Hn).
Qed.
Lemma kn_env f : (forall e, pools (f e) = pools e) -> keeps_node (on_env (modify f)).
Proof.
  intros Hf n Hn. unfold holds, on_env, zoom, modify. apply (node_ok_frame n); try done; [|apply (nok_stops _ Hn)].
  cbn. apply Hf.
Qed.
Lemma kn_put_in b : ib_ok b -> keeps_node (on_pools (PutInboundBuffer (Some b))).
Proof.
  intros Hb n Hn. destruct (PutInboundBuffer_clean b _ Hb (nok_pools _ Hn)) as (q & E & Hq & _).
  unfold holds. rewrite (on_pools_done _ _ _ _ E). destruct Hn as [Hh Hi Ha Hp _ Hs].
  split; cbn; try done. intros ptr p Hptr. by eapply peer_ok_env; [apply (Hp ptr)|].
Qed.
Lemma kn_put_out b : ob_ok b -> keeps_node (on_pools (PutOutboundBuffer (Some b))).
Proof.
  intros Hb n Hn. destruct (PutOutboundBuffer_clean b _ Hb (nok_pools _ Hn)) as (q & E & Hq & _).
  unfold holds. rewrite (on_pools_done _ _ _ _ E). destruct Hn as [Hh Hi Ha Hp _ Hs].
  split; cbn; try done. intros ptr p Hptr. by eapply peer_ok_env; [apply (Hp ptr)|].
Qed.
Lemma kn_peer {A} ptr (m : go PS A) : keeps_peer m -> keeps_node (on_peer ptr m).
Proof.
  intros Hm n Hn. unfold holds, on_peer. destruct (heap n !! ptr) as [p|] eqn:Hp; [|done].
  pose proof (Hm p (n_env n) (nok_peers _ Hn _ _ Hp)) as Hh. unfold holds in Hh. unfold zoom.
  destruct (m _) as [a s'| |]; [|done..]. destruct Hh as [Hok Hid]. by eapply node_ok_peer.
Qed.

Lemma peer_kept {A} (m : go PS A) :
  (forall s, peer_inv (self s) -> holds m s (fun _ s' => peer_inv (self s'))) -> keeps_data m -> keeps_peer m.
Proof.
  intros Hi Hd p e [Hp Hok]. apply (holds_both _ _ _ _ _ (Hi (mkPS _ p e) Hp) (Hd (ID p) _ Hok)).
  intros a [p' e'] Hp' Hok'. destruct Hok' as [Hb Hs]. pose proof (base_id _ _ Hb) as Hid. cbn in *.
  split; [|done]. split; [done|]. cbn. rewrite Hid. by split.
Qed.
End Invariant.

Ltac kn_step :=
  lazymatch goal with
  | |- keeps_node (mbind _ _) => apply kn_bind; [|intros ?]
  | |- keeps_node (mret _) => apply kn_mret
  | |- keeps_node (reads _) => apply kn_reads
  | |- keeps_node (panic _) => apply kn_panic
  | |- keeps_node (modify _) => apply kn_modify; intros ?; split_and!; reflexivity
  | |- keeps_node (on_env (modify _)) => apply kn_env; intros ?; reflexivity
  | |- keeps_node (when ?b _) => unfold when; destruct b
  | |- keeps_node (match ?x with _ => _ end) => destruct x
  end.
Ltac kn := repeat (kn_step; cbn beta).

(** ** Every program of the node *)

Section Programs.
Context `{NoiseSession, PoolChoice, NodeExt}.
Abbreviation Peer := NodePeer.Peer.
Implicit Types (n : Node) (p : Peer).

Lemma deliver_data_kept b : pkt_ok b -> keeps_peer (InboundPacket b).
Proof. intros Hb. apply peer_kept; [apply InboundPacket_inv|by apply push_inbound_data]. Qed.
Lemma deliver_handshake_kept b : pkt_ok b -> keeps_peer (r ← pget running; when r (send_handshakes (Some b))).
Proof.
  intros Hb. apply peer_kept.
  - intros s Hs. apply holds_bind, holds_pget. destruct (running (self s)) eqn:Er; [|done].
    by apply send_handshakes_inv.
  - apply kd_bind; [kd|intros []]; [by apply push_handshake_data|kd].
Qed.
Lemma send_packet_kept b : ob_pkt_ok b -> keeps_peer (OutboundPacket b).
Proof. intros Hb. apply peer_kept; [apply OutboundPacket_inv|by apply OutboundPacket_data]. Qed.
Lemma start_kept : keeps_peer Peer_Start.
Proof. apply peer_kept; [apply Start_inv|apply Start_data]. Qed.
Lemma update_kept info : keeps_peer (Update info).
Proof. apply peer_kept; [intros s; apply Update_inv|apply Update_data]. Qed.
Lemma stop_kept : keeps_peer Peer_Stop.
Proof.
  apply peer_kept; [|apply Stop_data]. intros s Hs. eapply holds_mono; [|by apply Peer_Stop_inv]. by intros a s' [? _].
Qed.

(** *** The readers *)

Lemma lookupPeer_kept id : keeps_node (lookupPeer id).
Proof. unfold lookupPeer. kn. Qed.
Lemma handleStun_kept bs : keeps_node (handleStunMessage bs).
Proof. unfold handleStunMessage, report_endpoint. kn. Qed.
Lemma OnUDPPacket_kept b :
  ib_ok b -> (forall h, Parse (Some (ib_header b)) (ib_in b) = (Some h, None) -> pkt_ok (b <| ib_header := h |>)) ->
  keeps_node (OnUDPPacket b).
Proof.
  intros Hb Hparse. unfold OnUDPPacket. destruct (Parse _ _) as [h [e|]] eqn:HP.
  - apply kn_bind; [kn; apply handleStun_kept|intros _; by apply kn_put_in].
  - assert (exists g, h = Some g) as [g ->] by (unfold Parse in HP; repeat case_match; simplify_eq; eauto).
    specialize (Hparse g eq_refl). cbn [default from_option].
    case_bool_decide; [|case_bool_decide; [|by apply kn_put_in]];
      (apply kn_bind; [apply lookupPeer_kept|intros [ptr|]; [|by apply kn_put_in]]; apply kn_peer).
    + by apply deliver_handshake_kept.
    + by apply deliver_data_kept.
Qed.

Lemma pools_kept n q : node_ok n -> pools_clean q -> node_ok (n <| n_env := (n_env n) <| pools := q |> |>).
Proof.
  intros [Hh Hi Ha Hp _ Hs] Hq. split; cbn; try done. intros ptr p Hptr. by eapply peer_ok_env; [apply (Hp ptr)|].
Qed.

Lemma ReadUDPPackets_kept read : keeps_node (ReadUDPPackets read).
Proof.
  intros n Hn. destruct read as [[data from]|closed].
  - destruct (ReadUDPPackets_buffer n data from (nok_pools _ Hn)) as (b & q & Hq & Hb & Hparse & E).
    unfold holds. rewrite E. apply (kn_bind (OnUDPPacket b) (fun _ => mret true)); [|intros _; kn|by apply pools_kept].
    by apply OnUDPPacket_kept.
  - unfold ReadUDPPackets. destruct (GetInboundBuffer_clean _ (nok_pools _ Hn)) as (b & q & E & Hb & Hq & _).
    unfold holds. rewrite (bind_done _ _ _ _ _ (on_pools_done _ _ _ _ E)).
    apply (kn_bind (on_pools (PutInboundBuffer (Some b))) (fun _ => mret (negb closed))); [|intros _; kn|by apply pools_kept].
    apply kn_put_in. by apply ib_clean_ok.
Qed.

Lemma OnTunnelPacket_kept b : ob_pkt_ok b -> keeps_node (OnTunnelPacket b).
Proof.
  intros Hb. pose proof (kn_put_out b (proj1 Hb)) as Hput. unfold OnTunnelPacket.
  destruct (ipv4_ParseHeader_Dst _); [|done]. apply kn_bind; [kn|intros q]. destruct (IP_Equal _ _); [done|].
  destruct (negb _); [done|]. apply kn_bind; [kn|intros m]. destruct (m !! _); [|done].
  by apply kn_peer, send_packet_kept.
Qed.
Lemma ReadTunPackets_kept read : keeps_node (ReadTunPackets read).
Proof.
  intros n Hn. destruct read as [data|closed].
  - destruct (ReadTunPackets_buffer n data (nok_pools _ Hn)) as (b & q & Hq & Hb & Hsz & E).
    unfold holds. rewrite E. apply (kn_bind (OnTunnelPacket b) (fun _ => mret true)); [|intros _; kn|by apply pools_kept].
    by apply OnTunnelPacket_kept.
  - unfold ReadTunPackets. destruct (GetOutboundBuffer_clean _ (nok_pools _ Hn)) as (b & q & E & Hb & Hq & _).
    unfold holds. rewrite (bind_done _ _ _ _ _ (on_pools_done _ _ _ _ E)).
    apply (kn_bind (on_pools (PutOutboundBuffer (Some b))) (fun _ => mret (negb closed))); [|intros _; kn|by apply pools_kept].
    apply kn_put_out. by apply ob_clean_ok.
Qed.

(** *** The controller's updates *)

(** A peer that has been added: its invariants hold before it is started. *)
Lemma added_ok id ip key host ua e : pools_clean (pools e) -> peer_ok (added_peer id ip key host ua) e.
Proof.
  intros He. split.
  - unfold added_peer, NewPeer. constructor; cbn; try done; auto.
  - split; split; cbn; try done; [split_and!; constructor|split; [constructor|done]].
Qed.

Lemma AddPeer_kept m : keeps_node (AddPeer m).
Proof.
  intros n Hn. destruct (entry m) as [[[a k] ua]|] eqn:He.
  2: { destruct (AddPeer_bad m n He) as [e E]. unfold holds. by rewrite E. }
  unfold holds. rewrite (AddPeer_ok m a k ua n He). destruct Hn as [Hh Hi Ha Hp Hq Hs].
  assert (Hfresh : heap n !! next_ptr n = None).
  { destruct (heap n !! next_ptr n) eqn:E; [|done]. specialize (Hh (next_ptr n) ltac:(by eexists)). lia. }
  assert (Hold : forall ptr p q, heap n !! ptr = Some p -> <[next_ptr n := q]> (heap n) !! ptr = Some p)
    by (intros ptr p q Hptr; rewrite lookup_insert_ne; [done|intros <-; congruence]).
  split; cbn; [..|done|].
  - intros ptr [q Hq']. cbn in Hq'. apply lookup_insert_Some in Hq' as [[<- _]|[_ Hq']]; cbn; [lia|].
    specialize (Hh ptr ltac:(by eexists)). lia.
  - intros id ptr [[<- <-]|[_ Hk]]%lookup_insert_Some.
    + eexists. split; [apply lookup_insert_eq|done].
    + destruct (Hi _ _ Hk) as (p & Hp' & Hid). exists p. eauto.
  - intros x ptr [[<- <-]|[_ Hk]]%lookup_insert_Some; [rewrite lookup_insert_eq; by eexists|].
    destruct (Ha _ _ Hk) as [p Hp']. exists p. eauto.
  - intros ptr p [[<- <-]|[_ Hk]]%lookup_insert_Some; [by apply added_ok|by eapply Hp].
  - intros ptr Hptr. destruct (Hs _ Hptr) as [p Hp']. exists p. eauto.
Qed.

Lemma sync_peers_kept l : keeps_node (sync_peers l).
Proof.
  induction l as [|m l IH]; cbn [sync_peers]; [kn|].
  apply kn_bind; [apply AddPeer_kept|intros [ptr|e]; [|kn]].
  apply kn_bind; [by apply kn_peer, start_kept|intros [e|]; [kn|done]].
Qed.
Lemma StopAllPeers_kept : keeps_node StopAllPeers.
Proof.
  intros n Hn. unfold StopAllPeers, holds, modify. apply (node_ok_frame n); try done.
  cbn. intros ptr [Hin|Hin]%elem_of_app; [by apply (nok_stops _ Hn)|].
  apply list_elem_of_fmap in Hin as ([id q] & -> & Hin). apply elem_of_map_to_list in Hin.
  destruct (nok_ids _ Hn _ _ Hin) as (p & Hp & _). by exists p.
Qed.
Lemma Node_Stop_kept : keeps_node Node_Stop.
Proof. unfold Node_Stop. apply kn_bind; [kn|intros n]. kn. apply StopAllPeers_kept. Qed.

Lemma HandleUpdate_kept u : keeps_node (HandleUpdate u).
Proof.
  unfold HandleUpdate. destruct (UType u).
  - unfold handleInitialSync, peer_list. apply kn_bind; [kn|intros l; apply sync_peers_kept].
  - unfold handlePeerConnectUpdate, peer_list. apply kn_bind; [kn|intros l].
    case_bool_decide; [kn|]. case_bool_decide; [kn|]. destruct (Peers l) as [|rp rest]; [kn|].
    apply kn_bind; [kn|intros m]. destruct (m !! m_Id rp) as [ptr|].
    + apply kn_bind; [by apply kn_peer, update_kept|intros []; kn].
    + apply kn_bind; [apply AddPeer_kept|intros [ptr|e]; [|kn]].
      apply kn_bind; [by apply kn_peer, start_kept|intros []; kn].
  - kn.
  - unfold handlePeerPunchRequest, n_WriteToUDP. destruct (ResolveUDPAddr _); kn.
  - unfold handleLogout. apply kn_bind; [apply Node_Stop_kept|intros _; kn].
Qed.

Lemma sendStunRequest_kept : keeps_node sendStunRequest.
Proof. unfold sendStunRequest, n_WriteToUDP. kn. Qed.
Lemma Run_kept io : keeps_node (Run io).
Proof.
  unfold Run, StartUpdateStream, fatal. kn; [apply sendStunRequest_kept|apply HandleUpdate_kept].
Qed.
Lemma Up_kept io : keeps_node (Up io).
Proof. unfold Up, Node_Start. kn. apply Run_kept. Qed.
Lemma Down_kept : keeps_node Down.
Proof. unfold Down. kn. apply Node_Stop_kept. Qed.
Lemma Login_kept reply pkce : keeps_node (Login reply pkce).
Proof. unfold Login, Login_finish. kn. Qed.
End Programs.

(** ** Every step keeps the invariant *)

Section Preservation.
Context `{NoiseSession, PoolChoice, NodeExt}.
Abbreviation Peer := NodePeer.Peer.
Implicit Types (n : Node) (p : Peer).

Lemma routine_peer_step ptr s s' : routine_step ptr s s' -> peer_step s s'.
Proof.
  intros [? ? G E|? ? ? G E|? ? G E|? ? ? G E|? ? G E|? ? ? G E|? ? ? G E|? ? ? G E|? ? ? G E].
  - by apply step_inbound_recv.
  - by eapply step_inbound_body.
  - by apply step_outbound_recv.
  - by eapply step_outbound_body.
  - by apply step_handshake_recv.
  - by eapply step_handshake_body.
  - by eapply step_handshake_timer.
  - by eapply step_keepalive_timer.
  - by eapply step_receive_timer.
Qed.

Lemma fire_data f m : keeps_data (pmod f) -> keeps_data m -> keeps_data (fire f m).
Proof. intros Hf Hm. unfold fire. apply kd_bind; [done|by intros _]. Qed.

Lemma done_data (m : go PS unit) id s s' : keeps_data m -> data_ok id s -> m s = Done tt s' -> data_ok id s'.
Proof. intros Hm Hs E. specialize (Hm id s Hs). unfold holds in Hm. by rewrite E in Hm. Qed.

Lemma routine_data ptr id s s' : data_ok id s -> routine_step ptr s s' -> data_ok id s'.
Proof.
  intros Hs Hstep. pose proof Hs as [[_ (_ & _ & Q3 & Q4) [_ Q5] _ _] _]. revert Hs Q3 Q4 Q5.
  destruct Hstep as [? ? G E|? ? ? G E|? ? G E|? ? ? G E|? ? G E|? ? ? G E|? ? ? G E|? ? ? G E|? ? ? G E];
    intros Hs Q3 Q4 Q5; try rewrite G in Q3; try rewrite G in Q4; try rewrite G in Q5; (eapply done_data; [|exact Hs|exact E]).
  - apply Inbound_recv_data.
  - by apply Inbound_body_keeps.
  - apply Outbound_recv_data.
  - by apply Outbound_body_keeps.
  - apply Handshake_recv_data.
  - by apply Handshake_body_keeps.
  - apply fire_data; [kd|apply HandshakeTimeout_data].
  - apply fire_data; [kd|apply TXTimeout_data].
  - apply fire_data; [kd|apply RXTimeout_data].
Qed.

Lemma node_step_ok n n' : node_ok n -> node_step n n' -> node_ok n'.
Proof.
  intros Hn Hstep. assert (Hdone : forall A (m : go Node A) a n', keeps_node m -> m n = Done a n' -> node_ok n').
  { intros A m a n1 Hm E. specialize (Hm n Hn). unfold holds in Hm. by rewrite E in Hm. }
  destruct Hstep as [n' Hq|u n' E|io text n' E];
    [|eapply Hdone; [apply HandleUpdate_kept|done]|eapply Hdone; [apply Up_kept|done]].
  destruct Hq as [read b n' E|read b n' E|io e n' E|r n' E|reply pkce r n' E|r n' E|ptr p s' Hp Hr|ptr rest n' Hst E].
  - eapply Hdone; [apply ReadUDPPackets_kept|done].
  - eapply Hdone; [apply ReadTunPackets_kept|done].
  - eapply Hdone; [apply Up_kept|done].
  - eapply Hdone; [apply Down_kept|done].
  - eapply Hdone; [apply Login_kept|done].
  - eapply Hdone; [apply sendStunRequest_kept|done].
  - destruct (nok_peers _ Hn _ _ Hp) as [Hinv Hdata].
    assert (Hdata' : data_ok (ID p) s') by by eapply routine_data. pose proof Hdata' as [Hb Hs].
    pose proof (step_inv (mkPS _ p (n_env n)) _ Hinv (routine_peer_step _ _ _ Hr)) as Hinv'.
    pose proof (base_id _ _ Hb) as Hid. destruct s' as [p' e']. cbn in *.
    eapply node_ok_peer; [done|done| |done]. split; [done|]. rewrite Hid. by split.
  - assert (Hn' : node_ok n') by (eapply Hdone; [by apply kn_peer, stop_kept|done]).
    apply (node_ok_frame n'); try done. cbn. intros k Hk.
    assert (Hs : stops n' = stops n /\ heap n' = <[ptr := default NewPeer (heap n' !! ptr)]> (heap n)).
    { unfold on_peer in E. destruct (heap n !! ptr) as [p|]; [|done]. unfold zoom in E.
      destruct (Peer_Stop _) as [[] s'| |]; [|done..]. injection E as <-. cbn. by rewrite lookup_insert_eq. }
    destruct Hs as [Es Eh]. apply (nok_stops _ Hn'). rewrite Es, Hst. by right.
Qed.

(** ** What a running peer's goroutines can count on *)

(** A goroutine with a packet in its hands finishes its turn or waits: it holds a cipher when
    the lock lets it through. *)
Lemma inbound_turn_safe id s b :
  peer_inv (self s) -> data_ok id s -> g_inbound (self s) = Busy b ->
  runs (Inbound_body b) s (fun _ s' => data_ok id s').
Proof.
  intros Hinv Hdata Hg. pose proof Hdata as [[_ (_ & _ & Q3 & _) _ _ _] Hs]. rewrite Hg in Q3.
  destruct (decide (pendingLock (self s) = wlocked)) as [E|Hne].
  - destruct s as [p e]. cbn in E. unfold runs, Inbound_body, mbind, go_bind, with_pending, zoom, RLock. cbn. by rewrite E.
  - apply Inbound_body_data; [done| |done]. apply Hs. pose proof (inv_lock _ Hinv) as HL.
    destruct (inv_routines _ Hinv) as (G1 & _). rewrite Hg in G1. cbn in G1. rewrite <- G1 in HL.
    case_bool_decide; done.
Qed.
Lemma outbound_turn_safe id s b :
  peer_inv (self s) -> data_ok id s -> g_outbound (self s) = Busy b ->
  runs (Outbound_body b) s (fun _ s' => data_ok id s').
Proof.
  intros Hinv Hdata Hg. pose proof Hdata as [[_ _ [_ Q] _ _] Hs]. rewrite Hg in Q.
  destruct (decide (pendingLock (self s) = wlocked)) as [E|Hne].
  - destruct s as [p e]. cbn in E. unfold runs, Outbound_body, mbind, go_bind, with_pending, zoom, RLock. cbn. by rewrite E.
  - apply Outbound_body_data; [done| |done]. apply Hs. pose proof (inv_lock _ Hinv) as HL.
    destruct (inv_routines _ Hinv) as (_ & G2 & _). rewrite Hg in G2. cbn in G2. rewrite <- G2 in HL.
    case_bool_decide; done.
Qed.

(** If [m] takes the process down from [s], then [P]. *)
Definition blames {S A} (m : go S A) (s : S) (P : crash -> Prop) : Prop := forall c, crashes m s c -> P c.
Lemma blames_safe {S A} (m : go S A) s P a s' : m s = Done a s' -> blames m s P.
Proof. intros E c. unfold crashes. by rewrite E. Qed.
Lemma blames_bind {S A B} (m : go S A) (k : A -> go S B) s P :
  blames m s P -> (forall a s', m s = Done a s' -> blames (k a) s' P) -> blames (m ≫= k) s P.
Proof.
  intros Hm Hk c. unfold crashes, mbind, go_bind. destruct (m s) as [a s'|c' s'|w s'] eqn:E; [|intros <-|done].
  - by apply Hk. - apply Hm. unfold crashes. by rewrite E.
Qed.
Lemma blames_done {S A B} (m : go S A) (k : A -> go S B) s P a s' :
  m s = Done a s' -> blames (k a) s' P -> blames (m ≫= k) s P.
Proof. intros E Hk c. unfold crashes. rewrite (bind_done _ _ _ _ _ E). apply Hk. Qed.

(** The start of a handshake of a peer, which the library can refuse. *)
Definition refused (c : crash) : Prop := exists s, crashes (TrySendHandshake false) s c.

(** A packet from the tunnel can end the process in the start of a handshake only. *)
Lemma OutboundPacket_safe b p e :
  ob_ok b -> pools_clean (pools e) ->
  blames (OutboundPacket b) (mkPS _ p e)
    (fun c => state p = 0 /\ inTransport p = false /\ running p = true /\ refused c).
Proof.
  intros Hb He. unfold OutboundPacket. eapply blames_done; [reflexivity|]. cbn. destruct (running p); cbn.
  - eapply blames_done; [reflexivity|]. cbn.
    assert (Hs : forall p', state p' = state p -> inTransport p' = inTransport p ->
      blames (if negb (inTransport p') && bool_decide (state p' = 0) then TrySendHandshake false else mret tt) (mkPS _ p' e)
        (fun c => state p = 0 /\ inTransport p = false /\ true = true /\ refused c)).
    { intros p' -> ->. destruct (inTransport p); cbn; [by intros ?|]. case_bool_decide; [|by intros ?].
      intros c Hc. split_and!; [done..|]. by eexists. }
    destruct (bool_decide (_ < _)%nat); (eapply blames_done; [reflexivity|]; eapply blames_done; [reflexivity|]; by apply Hs).
  - destruct (PutOutboundBuffer_clean b _ Hb He) as (q & EP & _ & _).
    eapply blames_safe, zoom_done, EP.
Qed.

Lemma OnTunnelPacket_safe b n :
  node_ok n -> ob_ok b ->
  blames (OnTunnelPacket b) n (fun c =>
    exists ptr p, heap n !! ptr = Some p /\ state p = 0 /\ inTransport p = false /\ running p = true /\ refused c).
Proof.
  intros Hn Hb. destruct (PutOutboundBuffer_clean b _ Hb (nok_pools _ Hn)) as (q & EP & _ & _).
  assert (Hput : forall P, blames (on_pools (PutOutboundBuffer (Some b))) n P)
    by (intros P; eapply blames_safe, (on_pools_done _ _ _ _ EP)).
  unfold OnTunnelPacket. destruct (ipv4_ParseHeader_Dst _) as [dst|]; [|done].
  eapply blames_done; [reflexivity|]. destruct (IP_Equal _ _); [done|]. destruct (negb _); [done|].
  eapply blames_done; [reflexivity|]. destruct (ip_map n !! _) as [ptr|] eqn:Hip; [|done].
  destruct (nok_ips _ Hn _ _ Hip) as [p Hp]. intros c Hc. exists ptr, p. split; [done|].
  apply (OutboundPacket_safe b p (n_env n) Hb (nok_pools _ Hn)). revert Hc.
  unfold crashes, on_peer, zoom. rewrite Hp. by destruct (OutboundPacket b _).
Qed.

Lemma ReadTunPackets_safe read n :
  node_ok n ->
  blames (ReadTunPackets read) n (fun c =>
    exists ptr p, heap n !! ptr = Some p /\ state p = 0 /\ inTransport p = false /\ running p = true /\ refused c).
Proof.
  intros Hn. destruct read as [data|closed].
  - destruct (ReadTunPackets_buffer n data (nok_pools _ Hn)) as (b & q & Hq & Hb & Hsz & E).
    intros c. unfold crashes. rewrite E. revert c. apply (blames_bind (OnTunnelPacket b)); [|by intros ?? _ ?].
    exact (OnTunnelPacket_safe b (n <| n_env := (n_env n) <| pools := q |> |>) (pools_kept _ _ Hn Hq) Hb).
  - unfold ReadTunPackets. destruct (GetOutboundBuffer_clean _ (nok_pools _ Hn)) as (b & q & EG & Hb & Hq & _).
    eapply blames_done; [apply (on_pools_done _ _ _ _ EG)|].
    destruct (PutOutboundBuffer_clean b q (ob_clean_ok _ Hb) Hq) as (q' & EP & _ & _).
    eapply blames_done; [by eapply on_pools_done, EP|by intros ?].
Qed.
End Preservation.

Section Fresh.
Context `{NoiseSession, PoolChoice, NodeExt, !World}.

Lemma NewNode_ok controller pools entropy n :
  NewNode controller pools entropy = Ok n -> pools_clean pools -> node_ok n.
Proof.
  unfold NewNode. repeat case_match; intros; simplify_eq;
    (split; cbn; try done; [by intros ptr [p [=]]|intros ptr []%not_elem_of_nil]).
Qed.
End Fresh.

(** ** Properties *)

Section NodeLifeTheorems.
Context `{NoiseSession, PoolChoice, NodeExt, !World}.
Abbreviation Peer := NodePeer.Peer.
Implicit Types (n : Node) (p : Peer).

(** C29. The node's invariant. From a node that has just been made, through any order of
    datagrams, packets, updates of the controller, calls of the local service, turns of the
    peers' goroutines, timers and launched stops: the map by id leads to the peer with that id,
    the map by address to a peer; every peer the node has ever added keeps the lock discipline
    of its life ([Lifecycle.peer_inv]) and what its data path relies on - well-formed packets
    in its channels, an address, both ciphers in transport, a session to complete while a
    handshake is under way; and the pools hold clean buffers. *)
Theorem node_invariant controller pools0 entropy n0 n
    (Hnew : NewNode controller pools0 entropy = Ok n0) (Hpools : pools_clean pools0)
    (Hreach : reach node_step n0 n) :
  (forall id ptr, id_map n !! id = Some ptr -> exists p, heap n !! ptr = Some p /\ ID p = id) /\
  (forall a ptr, ip_map n !! a = Some ptr -> is_Some (heap n !! ptr)) /\
  (forall ptr p, heap n !! ptr = Some p -> peer_inv p /\ data_ok (ID p) (mkPS _ p (n_env n))) /\
  pools_clean (pools (n_env n)).
Proof.
  assert (Hn : node_ok n).
  { eapply reach_invariant, Hreach; [by eapply NewNode_ok|apply node_step_ok]. }
  split_and!; apply Hn.
Qed.

End NodeLifeTheorems.

(** ** A concrete life *)

#[export] Instance demo_world : World (H := toy_noise) := {|
  getenv _ := ""%string;
  http_client_get _ := Err "no network"%string;
  json_OpenIDConfig _ := Err "no document"%string;
  keyfunc_NewDefaultCtx _ := None;
  CipherSuite_GenerateKeypair := Ok 11;
  machineid_ProtectedID := Ok "machine"%string;
  os_Hostname := Ok "ann.example.org"%string;
  rand_Uint32 := 7;
  grpc_DialContext _ := None;
  udp_local_addr := Ok "192.0.2.1"%string;
  yaml_Encode k := Ok (KeyPublic k +:+ " " +:+ KeyPrivate k);
  yaml_Decode _ := Err "no key file"%string
|}.

Definition demo_start_io : StartIO := mkStartIO None None None (Ok demo_init).
Definition demo_new : Node :=
  mkNode toy_noise NilHandle NilHandle (mkPrefix AddrZero (-1)) "ann" ∅ 0 ∅ ∅
    (mkEnv toy_noise 0 11 "machine" "" [] [] [] (mkPools [] [] 0 0) 42) false false false [] [].
Definition demo_logged : Node :=
  final (Login (ReplyOk (Some (ProtoConfig demo_login_row))) (Err "none"%string)) demo_new.
(** Logged in and up, with the two peers of the first update. *)
Definition demo_up : Node := final (Up demo_start_io) demo_logged.

Lemma demo_up_reached : reach node_step demo_new demo_up.
Proof.
  eapply reach_step; [eapply reach_step; [constructor|]|].
  - eapply node_quiet, node_login. apply (final_run (Login (ReplyOk (Some (ProtoConfig demo_login_row))) (Err "none"%string)) demo_new).
    vm_compute. reflexivity.
  - eapply node_up. apply (final_run (Up demo_start_io) demo_logged). vm_compute. reflexivity.
Qed.

Lemma node_invariant_witness :
  exists ptr p, id_map demo_up !! 4 = Some ptr /\ heap demo_up !! ptr = Some p /\ ID p = 4 /\ peer_inv p.
Proof.
  destruct (node_invariant "controller:50000" (mkPools [] [] 0 0) 42 demo_new demo_up) as (Hid & _ & Hp & _).
  - reflexivity.
  - split; constructor.
  - exact demo_up_reached.
  - assert (Hmap : id_map demo_up !! 4 = Some 1) by (vm_compute; reflexivity).
    destruct (Hid _ _ Hmap) as (p & Hh & HI). exists 1, p. split_and!; [done..|]. apply (Hp _ _ Hh).
Defined.

