(* ===== verification/Link.v ===== *)
(** A session as a channel: one peer's sending goroutine at one node, the other node's reader
    and receiving goroutine (node/peer_transport.go, node/node.go, node/packets.go), and a
    network that loses, repeats, reorders and invents datagrams between them.

    [NoiseSeal] is what the cipher states of the library compute; that the network cannot make
    ciphertexts of its own is a condition on the datagrams it delivers ([unforged]). *)

From S2P Require Import Prelude Bytes Header GoTime Netip Types GoSync Queue Grpc.
From S2P Require Import NodePeer NoiseLaws NodeCore Transport PeerWp Lifecycle PeerData Hazards Sync Boot NodeLife.

(** ** The ciphers

    A cipher state is a key and a counter. Encryption under a counter is a function, the
    counter goes up by one with every packet, and decryption accepts exactly the ciphertexts of
    the key and the counter it has been set to. *)

Class NoiseSeal `{Noise} : Type := {
  CipherKey : Type;
  key_of : CipherState -> CipherKey;
  counter_of : CipherState -> Z;
  seal : CipherKey -> Z -> list Z -> list Z;
  seal_nonce c : Nonce (Some c) = Ok (counter_of c);
  seal_set c n c' : SetNonce (Some c) n = Ok c' -> exists c1, c' = Some c1 /\ key_of c1 = key_of c /\ counter_of c1 = n;
  seal_encrypt c out pt c' out' :
    slice_ok out -> Encrypt (Some c) out pt = Ok (c', out', None) ->
    exists c1, c' = Some c1 /\ key_of c1 = key_of c /\ counter_of c1 = counter_of c + 1 /\
      s_bytes out' = s_bytes out ++ seal (key_of c) (counter_of c) pt;
  seal_encrypt_err c out pt c' out' e : Encrypt (Some c) out pt = Ok (c', out', Some e) -> c' = Some c;
  seal_decrypt c out ct c' out' :
    slice_ok out -> Decrypt (Some c) out ct = Ok (c', out', None) ->
    exists c1 pt, c' = Some c1 /\ key_of c1 = key_of c /\ ct = seal (key_of c) (counter_of c) pt /\
      s_bytes out' = s_bytes out ++ pt;
  seal_decrypt_err c out ct c' out' e :
    Decrypt (Some c) out ct = Ok (c', out', Some e) -> exists c1, c' = Some c1 /\ key_of c1 = key_of c
}.

#[export] Instance toy_seal : NoiseSeal (H := toy_noise).
Proof.
  unshelve refine (@Build_NoiseSeal toy_noise Z tc_key tc_nonce (fun k n pt => pt ++ be_bytes 8 k ++ be_bytes 8 n) _ _ _ _ _ _).
  - done.
  - intros c n c' [= <-]. by eexists.
  - intros c out pt c' out' Hout [= <- <-]. eexists. do 3 (split; [done|]). by apply go_append_bytes.
  - intros c out pt c' out' e [=].
  - intros c out ct c' out' Hout. cbn. destruct (toy_open c ct) as [pt|] eqn:E; [|done]. intros [= <- <-].
    eexists _, pt. do 2 (split; [done|]). split; [|by apply go_append_bytes].
    unfold toy_open in E. case_bool_decide as Ht; [|done]. injection E as <-.
    fold (toy_tag c). by rewrite <- Ht, take_drop.
  - intros c out ct c' out' e. cbn. destruct (toy_open c ct); [done|]. intros [= <- _ _]. by eexists.
Defined.

(** ** The link *)

Section Link.
Context `{NoiseSeal, PoolChoice, NodeExt}.
Abbreviation Peer := NodePeer.Peer.
Implicit Types (p : Peer) (n : Node).

(** The packet of an outbound buffer. *)
Definition packet_of (b : OutboundBuffer) : list Z := take (Z.to_nat (ob_size b)) (s_arr (ob_packet b)).
(** The datagram of the packet [pt] under the counter [c]. *)
Definition datagram (id : Z) (k : CipherKey) (x : Z * list Z) : list Z :=
  header_bytes (mkHeader HeaderVersion MsgData id x.1 HeaderPadding) ++ seal k x.1 x.2.

(** What a reader makes of a datagram's body: a buffer holds so many bytes. *)
Definition body_of (d : list Z) : list Z := drop 16 (take BufferSize d).
(** If the datagram's body is a ciphertext of the session's key under the counter of its header,
    it is one of those that were sent. *)
Definition unforged (k : CipherKey) (sent : list (Z * list Z)) (d : list Z) : Prop :=
  forall pt, body_of d = seal k (Counter (header_of d)) pt -> (Counter (header_of d), pt) ∈ sent.

(** The sender's entry with its node's environment, the receiving node, and the packets that
    have gone out, with their counters. *)
Record Link : Type := mkLink { l_a : PS; l_b : Node; sent : list (Z * list Z) }.

(** A turn of the sender's goroutine has sent a packet when there is a datagram more. *)
Definition sent_by (c : CipherState) (b : OutboundBuffer) (a a' : PS) : list (Z * list Z) :=
  if bool_decide (net_out (env a') = net_out (env a)) then [] else [(counter_of c, packet_of b)].

(** [ptr] is the sender's entry at the receiver. *)
Inductive link_step (k : CipherKey) (ptr : Z) (s : Link) : Link -> Prop :=
| link_packet b a' :
    ob_pkt_ok b -> inTransport (self (l_a s)) = true -> OutboundPacket b (l_a s) = Done tt a' ->
    link_step k ptr s (mkLink a' (l_b s) (sent s))
| link_keepalive own a' : TXTimeout own (l_a s) = Done tt a' -> link_step k ptr s (mkLink a' (l_b s) (sent s))
| link_take a' :
    g_outbound (self (l_a s)) = Waiting -> Outbound_recv (l_a s) = Done tt a' -> link_step k ptr s (mkLink a' (l_b s) (sent s))
| link_send b c a' :
    g_outbound (self (l_a s)) = Busy b -> tx (self (l_a s)) = Some c -> Outbound_body b (l_a s) = Done tt a' ->
    link_step k ptr s (mkLink a' (l_b s) (sent s ++ sent_by c b (l_a s) a'))
| link_datagram d from n' :
    unforged k (sent s) d -> ReadUDPPackets (Ok (d, from)) (l_b s) = Done true n' ->
    link_step k ptr s (mkLink (l_a s) n' (sent s))
| link_recv p n' :
    heap (l_b s) !! ptr = Some p -> g_inbound p = Waiting -> on_peer ptr Inbound_recv (l_b s) = Done tt n' ->
    link_step k ptr s (mkLink (l_a s) n' (sent s))
| link_open p b n' :
    heap (l_b s) !! ptr = Some p -> g_inbound p = Busy b -> on_peer ptr (Inbound_body b) (l_b s) = Done tt n' ->
    link_step k ptr s (mkLink (l_a s) n' (sent s)).

(** ** What it implements: a channel that may lose, repeat and reorder, and does not invent *)

Record Chan : Type := mkChan { c_sent : list (list Z); c_got : list (list Z) }.
Inductive chan_step (s : Chan) : Chan -> Prop :=
| chan_idle : chan_step s s
| chan_send x : chan_step s (mkChan (c_sent s ++ [x]) (c_got s))
| chan_deliver x : x ∈ c_sent s -> chan_step s (mkChan (c_sent s) (c_got s ++ [x])).

(** The packets that the receiver's tunnel has got since [k]. *)
Definition chan_of (before : list (list Z)) (s : Link) : Chan :=
  mkChan (sent s).*2 (drop (length before) (tun_out (n_env (l_b s)))).
End Link.

(** ** Programs that leave an observation as it is *)

Section Leaves.
Context `{Noise, PoolChoice} {S O : Type} (obs : S -> O).
Implicit Types (s : S).

Definition leaves {A} (m : go S A) : Prop := forall s, holds m s (fun _ s' => obs s' = obs s).

Lemma leaves_then {A B} (m : go S A) (k : A -> go S B) s Q :
  leaves m -> (forall a s', obs s' = obs s -> holds (k a) s' Q) -> holds (m ≫= k) s Q.
Proof. intros Hm Hk. apply holds_bind. eapply holds_mono; [|apply Hm]. apply Hk. Qed.
Lemma leaves_bind {A B} (m : go S A) (k : A -> go S B) : leaves m -> (forall a, leaves (k a)) -> leaves (m ≫= k).
Proof.
  intros Hm Hk s. apply leaves_then; [done|]. intros a s' E. eapply holds_mono; [|apply Hk]. cbn. by intros _ s'' ->.
Qed.
Lemma leaves_mret {A} (a : A) : leaves (mret a).
Proof. done. Qed.
Lemma leaves_reads {A} (f : S -> A) : leaves (reads f).
Proof. done. Qed.
Lemma leaves_panic {A} c : leaves (panic c : go S A).
Proof. done. Qed.
Lemma leaves_block {A} w : leaves (block w : go S A).
Proof. done. Qed.
Lemma leaves_modify f : (forall s, obs (f s) = obs s) -> leaves (modify f).
Proof. intros Hf s. apply Hf. Qed.
Lemma leaves_zoom {T A} get set (m : go T A) : (forall x s, obs (set x s) = obs s) -> leaves (zoom get set m).
Proof. intros Hs s. unfold holds, zoom. destruct (m _); [apply Hs|done..]. Qed.
Lemma leaves_zoom_modify {T} get set (f : T -> T) :
  (forall s, obs (set (f (get s)) s) = obs s) -> leaves (zoom get set (modify f)).
Proof. intros Hs s. apply Hs. Qed.
End Leaves.

Section PeerLeaves.
Context `{Noise, PoolChoice} {O : Type} (obs : PS -> O).
Lemma leaves_lib {A} (o : result crash A) : leaves obs (lib o).
Proof. by destruct o. Qed.
Lemma leaves_slice b lo hi : leaves obs (slice_expr b lo hi).
Proof. unfold slice_expr. by destruct (reslice b lo hi). Qed.
End PeerLeaves.

Ltac lv_step :=
  lazymatch goal with
  | |- leaves _ (mbind _ _) => apply leaves_bind; [|intros ?]
  | |- leaves _ (mret _) => apply leaves_mret
  | |- leaves _ (reads _) => apply leaves_reads
  | |- leaves _ (pget _) => apply leaves_reads
  | |- leaves _ (eget _) => apply leaves_reads
  | |- leaves _ (panic _) => apply leaves_panic
  | |- leaves _ (block _) => apply leaves_block
  | |- leaves _ (lib _) => apply leaves_lib
  | |- leaves _ (slice_expr _ _ _) => apply leaves_slice
  | |- leaves _ (modify _) => apply leaves_modify; reflexivity
  | |- leaves _ (zoom _ _ _) => apply leaves_zoom; reflexivity
  | |- leaves _ (pmod _) => apply leaves_modify; reflexivity
  | |- leaves _ (emod _) => apply leaves_modify; reflexivity
  | |- leaves _ (with_mu _) => apply leaves_zoom; reflexivity
  | |- leaves _ (with_pending _) => apply leaves_zoom; reflexivity
  | |- leaves _ (with_pools _) => apply leaves_zoom; reflexivity
  | |- leaves _ (on_env (modify _)) => apply leaves_zoom_modify; reflexivity
  | |- leaves _ (when ?b _) => unfold when; destruct b
  | |- leaves _ (match ?x with _ => _ end) => destruct x
  end.
Ltac lv := repeat (lv_step; cbn beta).

(** ** The sender *)

Section Sender.
Context `{NoiseSeal, PoolChoice, NodeExt}.
Implicit Types (s : PS).

(** What the data path of the sender changes by sending only. *)
Definition sender_obs s := (tx (self s), node_id (env s), net_out (env s)).

Lemma OutboundPacket_silent b s :
  inTransport (self s) = true -> holds (OutboundPacket b) s (fun _ s' => sender_obs s' = sender_obs s).
Proof.
  destruct s as [p e]. cbn. intros Ht. unfold OutboundPacket. wp; cbn in *; try done; by rewrite ?Ht in *.
Qed.
Lemma TXTimeout_silent own : leaves sender_obs (TXTimeout own).
Proof. unfold TXTimeout, send_outbound. lv. Qed.
Lemma Outbound_recv_silent : leaves sender_obs Outbound_recv.
Proof. unfold Outbound_recv. lv. Qed.

Lemma holds_wire b a s (Q : unit -> PS -> Prop) :
  (forall s', tx (self s') = tx (self s) -> node_id (env s') = node_id (env s) ->
     (net_out (env s') = net_out (env s) \/ exists x, net_out (env s') = net_out (env s) ++ [(s_bytes b, x)]) -> Q tt s') ->
  holds (WriteToUDP b a) s Q.
Proof. destruct s as [p e]. intros HQ. unfold WriteToUDP. destruct a as [x|]; wp; apply HQ; eauto. Qed.

(** One turn: at most one datagram, the packet under the cipher's counter, which goes up. *)
Lemma Outbound_body_seals b s c :
  ob_pkt_ok b -> tx (self s) = Some c ->
  holds (Outbound_body b) s (fun _ s' => exists c',
    tx (self s') = Some c' /\ key_of c' = key_of c /\ counter_of c <= counter_of c' /\ node_id (env s') = node_id (env s) /\
    (net_out (env s') = net_out (env s) \/
     counter_of c' = counter_of c + 1 /\ exists a,
       net_out (env s') = net_out (env s) ++ [(datagram (node_id (env s)) (key_of c) (counter_of c, packet_of b), a)])).
Proof.
  intros [Hb Hsz] Hc. unfold Outbound_body.
  eapply (leaves_then sender_obs); [lv|]. intros [] s1 E1. injection E1 as Et <- <-. rewrite <- Et in Hc. clear Et s.
  apply holds_bind, holds_eget. apply holds_bind, holds_pget.
  rewrite Hc, seal_nonce. set (id := node_id (env s1)).
  apply holds_bind, holds_lib. intros x [= <-].
  destruct (encode_header_eq b MsgData id (counter_of c) Hb) as (b' & HE & Hb' & Hpk & Hs'). rewrite HE.
  destruct (header_slice (mkHeader HeaderVersion MsgData id (counter_of c) HeaderPadding) (s_arr (ob_out b))) as [Hok Hbytes].
  set (out0 := Slice _ 16) in *. cbn beta iota. rewrite Hpk, Hs'.
  assert (Hre : reslice (ob_packet b) 0 (ob_size b) = Some (Slice (s_arr (ob_packet b)) (Z.to_nat (ob_size b)))).
  { unfold reslice, s_cap. rewrite (proj2 (proj2 Hb)), decide_True by lia. cbn. by rewrite drop_0, Z.sub_0_r. }
  unfold slice_expr. rewrite Hre. apply holds_bind, holds_mret. apply holds_bind, holds_lib. intros [[c1 out] err] HX.
  eapply holds_bind, holds_pmod. cbn [self env field_upd]. destruct err as [err|].
  - apply seal_encrypt_err in HX as ->. eapply holds_mono; [|apply (leaves_bind sender_obs); [lv|intros; lv]].
    intros [] s2 E2. injection E2 as Et Ei En. exists c. rewrite Et, Ei, En. cbn. do 2 (split; [done|]). split; [lia|]. split; [done|]. by left.
  - apply seal_encrypt in HX as (c2 & -> & Hk & Hn & Hout); [|done]. rewrite Hbytes in Hout.
    do 4 (eapply (leaves_then sender_obs); [lv|]; intros ? ? ?). apply holds_bind, holds_wire. intros s2 Et Ei En.
    eapply holds_mono; [|apply (leaves_bind sender_obs); [lv|intros; lv]].
    intros [] s3 E3. unfold sender_obs, id in *. cbn in *. simplify_eq. exists c2.
    split; [congruence|]. split; [exact Hk|]. split; [lia|]. split; [congruence|].
    destruct En as [En|[y En]]; [left; congruence|right]. split; [done|]. exists y.
    unfold datagram, packet_of. cbn. rewrite <- Hout. congruence.
Qed.
End Sender.

(** ** The receiver *)

Section Receiver.
Context `{NoiseSeal, PoolChoice, NodeExt}.
Abbreviation Peer := NodePeer.Peer.
Implicit Types (s : PS) (p : Peer) (n : Node).

Definition receiver_obs s := (rx (self s), inbound (self s), tun_out (env s)).

Lemma UpdateEndpoint_obs a : leaves receiver_obs (UpdateEndpoint a).
Proof. unfold UpdateEndpoint. lv. Qed.

Lemma reslice_nil (b : slice) : reslice b 0 0 = Some (Slice (s_arr b) 0).
Proof. unfold reslice, s_cap. rewrite decide_True by lia. cbn. by rewrite drop_0. Qed.
Lemma holds_slice b lo hi x s Q : reslice b lo hi = Some x -> Q x s -> holds (slice_expr b lo hi) s Q.
Proof. intros E HQ. unfold slice_expr. by rewrite E. Qed.

(** One turn: the tunnel gets nothing, or the packet of which the payload is the ciphertext. *)
Lemma Inbound_body_opens b s c :
  pkt_ok b -> rx (self s) = Some c ->
  holds (Inbound_body b) s (fun _ s' => exists c',
    rx (self s') = Some c' /\ key_of c' = key_of c /\ inbound (self s') = inbound (self s) /\ g_inbound (self s') = Waiting /\
    (tun_out (env s') = tun_out (env s) \/ exists pt,
       payload b = seal (key_of c) (Counter (ib_header b)) pt /\ tun_out (env s') = tun_out (env s) ++ [pt])).
Proof.
  intros (Hb & Hsz & _) Hc. unfold Inbound_body.
  eapply (leaves_then receiver_obs); [lv|]. intros [] s1 E1. injection E1 as Er <- <-. rewrite <- Er in Hc. clear Er s.
  apply holds_bind, holds_pget. rewrite Hc. apply holds_bind, holds_lib. intros c1 (c2 & -> & Hk2 & Hn2)%seal_set.
  apply holds_bind, holds_pmod. cbn [self env]. apply holds_bind, (holds_slice _ _ _ _ _ _ (reslice_nil _)).
  apply holds_bind, (holds_slice _ _ _ _ _ _ (payload_slice b Hb Hsz)).
  apply holds_bind, holds_lib. intros [[c3 packet] err] HX. apply holds_bind, holds_pmod. cbn [self env].
  destruct err as [err|].
  - apply seal_decrypt_err in HX as (c4 & -> & Hk4).
    do 2 (eapply (leaves_then receiver_obs); [lv|]; intros ? ? ?). apply holds_pmod. unfold receiver_obs in *. cbn in *. simplify_eq.
    exists c4. split; [congruence|]. split; [congruence|]. split; [congruence|]. split; [done|]. left. congruence.
  - apply seal_decrypt in HX as (c4 & pt & -> & Hk4 & Hpay & Hpt); [|unfold slice_ok; cbn; lia].
    change (s_bytes packet = pt) in Hpt. rewrite Hk2, Hn2 in Hpay. change (s_bytes _) with (payload b) in Hpay.
    do 2 (eapply (leaves_then receiver_obs); [lv|]; intros ? ? ?).
    apply holds_bind. unfold when. case_bool_decide; [apply holds_emod|apply holds_mret];
      (eapply (leaves_then receiver_obs); [apply UpdateEndpoint_obs|]; intros ? ? ?);
      (eapply (leaves_then receiver_obs); [lv|]; intros ? ? ?); apply holds_pmod; unfold receiver_obs in *; cbn in *; simplify_eq;
      exists c4; (split; [congruence|]); (split; [congruence|]); (split; [congruence|]); (split; [done|]).
    + right. eexists. split; [exact Hpay|]. congruence.
    + left. congruence.
Qed.

(** Data reaches the channels of peers only: every peer keeps its cipher and the packet in its
    goroutine's hands, and has at most one packet more in its channel, of which [G] holds. *)
Definition only_queues (G : InboundBuffer -> Prop) n n' : Prop :=
  tun_out (n_env n') = tun_out (n_env n) /\
  forall ptr p, heap n !! ptr = Some p -> exists p', heap n' !! ptr = Some p' /\
    rx p' = rx p /\ g_inbound p' = g_inbound p /\
    (inbound p' = inbound p \/ exists b, G b /\ inbound p' = inbound p ++ [Some b]).

Definition node_obs n := (heap n, tun_out (n_env n)).

Lemma pools_obs {A} (m : go Pools A) : leaves node_obs (on_pools m).
Proof. intros n. unfold holds, on_pools, on_env, zoom. by destruct (m _). Qed.

Lemma only_queues_leaves G {A} (m : go Node A) n : leaves node_obs m -> holds m n (fun _ n' => only_queues G n n').
Proof.
  intros Hm. eapply holds_mono; [|apply Hm]. intros a n' E. injection E as Eh Et. split; [done|].
  intros ptr p Hp. exists p. rewrite Eh. eauto.
Qed.
Lemma only_queues_peer G {A} ptr (m : go PS A) n :
  (forall p, holds m (mkPS _ p (n_env n)) (fun _ s' => tun_out (env s') = tun_out (n_env n) /\
     rx (self s') = rx p /\ g_inbound (self s') = g_inbound p /\
     (inbound (self s') = inbound p \/ exists b, G b /\ inbound (self s') = inbound p ++ [Some b]))) ->
  holds (on_peer ptr m) n (fun _ n' => only_queues G n n').
Proof.
  intros Hm. unfold holds, on_peer. destruct (heap n !! ptr) as [p|] eqn:Hp; [|done].
  specialize (Hm p). unfold holds in Hm. unfold zoom. destruct (m _) as [a s'| |]; [|done..].
  destruct Hm as [Ht Hm]. split; [done|]. intros k q Hk. cbn. rewrite lookup_insert. case_decide as E; [|by exists q; eauto 6].
  simplify_eq. by exists (self s').
Qed.

Lemma lookupPeer_obs id : leaves node_obs (lookupPeer id).
Proof. unfold lookupPeer. lv. Qed.
Lemma handleStun_obs bs : leaves node_obs (handleStunMessage bs).
Proof. unfold handleStunMessage, report_endpoint. lv. Qed.

Lemma OnUDPPacket_queues G b n :
  (forall h ptr, Parse (Some (ib_header b)) (ib_in b) = (Some h, None) -> G (b <| ib_header := h |> <| ib_peer := Some ptr |>)) ->
  holds (OnUDPPacket b) n (fun _ n' => only_queues G n n').
Proof.
  intros HG. unfold OnUDPPacket. destruct (Parse _ _) as [h [e|]] eqn:HP.
  - apply only_queues_leaves. lv; [apply handleStun_obs|apply pools_obs..].
  - assert (exists g, h = Some g) as [g ->] by (unfold Parse in HP; repeat case_match; simplify_eq; eauto).
    specialize (HG g). cbn [default from_option].
    assert (Hput : forall n b, holds (on_pools (PutInboundBuffer (Some b))) n (fun _ n' => only_queues G n n'))
      by (intros; apply only_queues_leaves, pools_obs).
    assert (Hpeer : forall k, (forall ptr n, holds (k ptr) n (fun _ n' => only_queues G n n')) ->
      forall id d, holds (peer ← lookupPeer id; match peer with None => on_pools (PutInboundBuffer (Some d)) | Some ptr => k ptr end)
        n (fun _ n' => only_queues G n n')).
    { intros k Hk id d. apply (leaves_then node_obs); [apply lookupPeer_obs|]. intros o n1 E.
      assert (Hn1 : forall n', only_queues G n1 n' -> only_queues G n n') by (injection E as E1 E2; unfold only_queues; by rewrite E1, E2).
      destruct o; eapply holds_mono; [|apply Hk| |apply Hput]; eauto. }
    case_bool_decide; [|case_bool_decide; [|apply Hput]]; apply Hpeer; intros ptr n1; apply only_queues_peer; intros p.
    + apply holds_bind, holds_pget. unfold when, send_handshakes. cbn [self]. destruct (running p); wp; cbn; eauto.
    + unfold InboundPacket. wp; cbn; eauto 10.
Qed.

(** [unforged], of a buffer. *)
Definition genuine (k : CipherKey) (sent : list (Z * list Z)) b : Prop :=
  forall pt, payload b = seal k (Counter (ib_header b)) pt -> (Counter (ib_header b), pt) ∈ sent.

Lemma genuine_app k sent more b : genuine k sent b -> genuine k (sent ++ more) b.
Proof. intros Hb pt E. apply elem_of_app. left. by apply Hb. Qed.

Lemma header_of_prefix l r : (16 <= length l)%nat -> header_of (l ++ r) = header_of l.
Proof.
  intros Hl. assert (Hb : forall (o i : nat), (o + i <= 16)%nat -> bytes_at o i (l ++ r) = bytes_at o i l).
  { intros o i Ho. unfold bytes_at. rewrite drop_app_le by lia. apply take_app_le. rewrite length_drop. lia. }
  unfold header_of. by rewrite !Hb by lia.
Qed.

Lemma ReadUDPPackets_queues k sent d from n :
  pools_clean (pools (n_env n)) -> unforged k sent d ->
  holds (ReadUDPPackets (Ok (d, from))) n (fun _ n' => only_queues (genuine k sent) n n').
Proof.
  intros Hp Hd. destruct (GetInboundBuffer_clean _ Hp) as (b & q & E & (Hin & _) & Hq & _).
  unfold ReadUDPPackets, holds. rewrite (bind_done _ _ _ _ _ (on_pools_done _ _ _ _ E)). rewrite Hin.
  pose proof (parsed_size) as Hsize. pose proof (read_into_full d) as Hfull. pose proof (read_into_clean d) as Hrd.
  destruct (read_into (make_slice BufferSize) d) as [bin sz] eqn:ER.
  set (n1 := n <| n_env := _ |>). set (b1 := b <| ib_in := _ |> <| ib_size := _ |> <| ib_raddr := _ |>).
  change (holds (_ ← OnUDPPacket b1; mret true) n1 (fun _ n' => only_queues (genuine k sent) n n')).
  apply holds_bind. eapply holds_mono; [intros a n' HQ; exact HQ|].
  apply (OnUDPPacket_queues (genuine k sent) b1 n1). intros h ptr HP pt Hpt. cbn [ib_header field_upd] in *.
  pose proof (Hsize h (ib_header b) d) as HS. rewrite ER in HS. destruct (HS HP) as [-> Hsz].
  assert (Ebin : bin = Slice (take BufferSize d ++ replicate (BufferSize - length d) 0) BufferSize) by congruence.
  assert (Esz : sz = Z.of_nat (min BufferSize (length d))) by congruence.
  subst bin sz. cbn [fst snd] in *. unfold HeaderLen in Hsz.
  assert (Hlen : (16 <= length (take BufferSize d))%nat) by (rewrite length_take; lia).
  assert (Hh : header_of (s_bytes (Slice (take BufferSize d ++ replicate (BufferSize - length d) 0) BufferSize)) = header_of d).
  { unfold s_bytes. cbn [s_len s_arr]. rewrite take_ge by (rewrite length_app, length_take, length_replicate; lia).
    rewrite header_of_prefix by done. rewrite <- (take_drop BufferSize d) at 2. by rewrite header_of_prefix. }
  rewrite Hh in *. apply Hd. rewrite <- Hpt. 
  change (payload _) with (take (Z.to_nat (Z.of_nat (min BufferSize (length d)) - 16))
    (drop 16 (take BufferSize d ++ replicate (BufferSize - length d) 0))).
  rewrite drop_app_le, take_app_le by (rewrite ?length_drop, ?length_take; lia).
  unfold body_of. symmetry. apply take_ge. rewrite length_drop, length_take. lia.
Qed.
End Receiver.

(** ** The invariant, and the simulation *)

Section Simulation.
Context `{NoiseSeal, !NoiseSession, PoolChoice, NodeExt}.
Abbreviation Peer := NodePeer.Peer.
Implicit Types (p : Peer) (n : Node).

(** The sender: its cipher has passed every counter it has used, and what it has written to the
    socket since [net0] are the datagrams of the packets sent. *)
Record sender_ok (k : CipherKey) (id me : Z) (net0 : list (list Z)) (a : PS) (sent : list (Z * list Z)) : Prop := mkSenderOk {
  so_data : data_ok id a;
  so_tx : exists c, tx (self a) = Some c /\ key_of c = k /\ Forall (fun x => x.1 < counter_of c) sent;
  so_fresh : NoDup sent.*1;
  so_id : node_id (env a) = me;
  so_net : (net_out (env a)).*1 = net0 ++ (datagram me k <$> sent)
}.

Definition session_rx (k : CipherKey) (sent : list (Z * list Z)) p : Prop :=
  (exists c, rx p = Some c /\ key_of c = k) /\ Forall (from_option (genuine k sent) True) (inbound p) /\
  (forall b, g_inbound p = Busy b -> genuine k sent b).
Record receiver_ok (k : CipherKey) (ptr : Z) (tun0 : list (list Z)) (n : Node) (sent : list (Z * list Z)) : Prop := mkReceiverOk {
  ro_node : node_ok n;
  ro_rx : exists p, heap n !! ptr = Some p /\ session_rx k sent p;
  ro_tun : exists got, tun_out (n_env n) = tun0 ++ got
}.

Lemma session_rx_app k sent more p : session_rx k sent p -> session_rx k (sent ++ more) p.
Proof.
  intros (Hc & Hq & Hg). split; [done|]. split.
  - eapply Forall_impl; [|exact Hq]. intros [b|]; cbn; eauto using genuine_app.
  - eauto using genuine_app.
Qed.

Lemma sender_quiet k id me net0 a a' sent :
  sender_ok k id me net0 a sent -> data_ok id a' -> sender_obs a' = sender_obs a -> sender_ok k id me net0 a' sent.
Proof. intros [Hd Ht Hf Hi Hn] Hd' E. injection E as Et Ei En. split; rewrite ?Et, ?Ei, ?En; done. Qed.

Lemma sender_sends k id me net0 a a' sent b c :
  sender_ok k id me net0 a sent -> ob_pkt_ok b -> tx (self a) = Some c -> Outbound_body b a = Done tt a' ->
  sender_ok k id me net0 a' (sent ++ sent_by c b a a').
Proof.
  intros [Hd (c0 & Ht & Hk & Hlt) Hf Hi Hn] Hb Hc E. rewrite Ht in Hc. injection Hc as ->.
  pose proof (Outbound_body_keeps b Hb id a Hd) as Hd'. pose proof (Outbound_body_seals b a c Hb Ht) as Hs.
  unfold holds in *. rewrite E in *. destruct Hs as (c' & Ht' & Hk' & Hle & Hi' & Hnet). unfold sent_by.
  assert (Hlt' : Forall (fun x => x.1 < counter_of c') sent) by (eapply Forall_impl; [|exact Hlt]; cbn; intros; lia).
  destruct Hnet as [Hnet|(Hnext & to & Hnet)].
  - rewrite bool_decide_true by done. rewrite app_nil_r. split; try done; [|congruence|congruence].
    exists c'. split; [done|]. by split; [congruence|].
  - rewrite bool_decide_false by (rewrite Hnet; intros Eq; apply (f_equal length) in Eq; rewrite length_app in Eq; cbn in Eq; lia).
    split; try done; [| |congruence|].
    + exists c'. split; [done|]. split; [congruence|]. apply Forall_app. split; [done|]. repeat constructor. cbn. lia.
    + rewrite fmap_app. apply list.NoDup_app. split; [done|]. split; [|apply NoDup_singleton].
      intros x (y & -> & Hy)%list_elem_of_fmap. cbn. rewrite list_elem_of_singleton.
      rewrite list.Forall_forall in Hlt. specialize (Hlt y Hy). lia.
    + rewrite Hnet, !fmap_app, Hn, <- app_assoc. cbn. congruence.
Qed.

Lemma receiver_app k ptr tun0 n sent more : receiver_ok k ptr tun0 n sent -> receiver_ok k ptr tun0 n (sent ++ more).
Proof. intros [Hn (p & Hp & Hr) Ht]. split; [done| |done]. exists p. split; [done|]. by apply session_rx_app. Qed.

Lemma receiver_datagram k ptr tun0 n n' sent d from :
  receiver_ok k ptr tun0 n sent -> unforged k sent d -> ReadUDPPackets (Ok (d, from)) n = Done true n' ->
  receiver_ok k ptr tun0 n' sent /\ tun_out (n_env n') = tun_out (n_env n).
Proof.
  intros [Hn (p & Hp & (c & Hc & Hk) & Hq & Hg) Ht] Hd E.
  pose proof (ReadUDPPackets_queues k sent d from n (nok_pools _ Hn) Hd) as HQ. unfold holds in HQ. rewrite E in HQ.
  destruct HQ as [Et HQ]. split; [|done].
  split; [eapply node_step_ok; [exact Hn|by eapply node_quiet, node_udp]| |by rewrite Et].
  destruct (HQ ptr p Hp) as (p' & Hp' & Er & Eg & Hin). exists p'. split; [done|]. unfold session_rx. rewrite Er, Eg.
  split; [by exists c|]. split; [|done].
  destruct Hin as [->|(b & Hb & ->)]; [done|]. apply Forall_app. split; [done|]. by repeat constructor.
Qed.

Lemma on_peer_inv {A} ptr (m : go PS A) n p a n' :
  heap n !! ptr = Some p -> on_peer ptr m n = Done a n' ->
  exists s', m (mkPS _ p (n_env n)) = Done a s' /\ n' = n <| heap ::= <[ptr := self s']> |> <| n_env := env s' |>.
Proof. intros Hp. unfold on_peer, zoom. rewrite Hp. destruct (m _) as [x s'| |]; intros [= <- <-]. by exists s'. Qed.

Lemma receiver_takes k ptr tun0 n n' sent p :
  receiver_ok k ptr tun0 n sent -> heap n !! ptr = Some p -> g_inbound p = Waiting ->
  on_peer ptr Inbound_recv n = Done tt n' ->
  receiver_ok k ptr tun0 n' sent /\ tun_out (n_env n') = tun_out (n_env n).
Proof.
  intros [Hn (q & Hq & (c & Hc & Hk) & Hin & _) Ht] Hp Hw E. rewrite Hp in Hq. injection Hq as <-.
  destruct (on_peer_inv _ _ _ _ _ _ Hp E) as (s' & Em & ->).
  assert (Hs : tun_out (env s') = tun_out (n_env n) /\ rx (self s') = rx p /\
     exists x, inbound p = x :: inbound (self s') /\ forall b, g_inbound (self s') = Busy b -> x = Some b).
  { revert Em. unfold Inbound_recv, mbind, go_bind, pget, reads. cbn [self].
    destruct (inbound p) as [|[b|] l]; intros [= <-]; cbn; (do 2 (split; [done|])); eexists; (split; [done|]);
      intros ? [= ?]; by subst. }
  destruct Hs as (Et & Er & x & Ex & Hx). split; [|done].
  split; [eapply node_step_ok; [exact Hn|by eapply node_quiet, node_routine, routine_inbound_recv]| |by cbn; rewrite Et].
  exists (self s'). cbn. rewrite lookup_insert_eq. split; [done|]. rewrite Ex in Hin. apply list.Forall_cons in Hin as [Hhd Htl].
  split; [exists c; by rewrite Er|]. split; [done|]. intros b Hb. by rewrite (Hx b Hb) in Hhd.
Qed.

Lemma receiver_opens k ptr tun0 n n' sent p b :
  receiver_ok k ptr tun0 n sent -> heap n !! ptr = Some p -> g_inbound p = Busy b ->
  on_peer ptr (Inbound_body b) n = Done tt n' ->
  receiver_ok k ptr tun0 n' sent /\
  (tun_out (n_env n') = tun_out (n_env n) \/ exists pt, pt ∈ sent.*2 /\ tun_out (n_env n') = tun_out (n_env n) ++ [pt]).
Proof.
  intros [Hn (q & Hq & (c & Hc & Hk) & Hin & Hg) (got & Ht)] Hp Hw E. rewrite Hp in Hq. injection Hq as <-.
  destruct (on_peer_inv _ _ _ _ _ _ Hp E) as (s' & Em & ->).
  destruct (nok_peers _ Hn _ _ Hp) as [_ [[_ (_ & _ & Hpk & _) _ _ _] _]]. cbn in Hpk. rewrite Hw in Hpk.
  pose proof (Inbound_body_opens b (mkPS _ p (n_env n)) c Hpk Hc) as Hs. unfold holds in Hs. rewrite Em in Hs.
  destruct Hs as (c' & Hc' & Hk' & Ein & Eg & Hout). cbn [self env] in *.
  assert (Htun : tun_out (env s') = tun_out (n_env n) \/ exists pt, pt ∈ sent.*2 /\ tun_out (env s') = tun_out (n_env n) ++ [pt]).
  { destruct Hout as [->|(pt & Hpay & ->)]; [by left|]. right. exists pt. split; [|done].
    apply list_elem_of_fmap. eexists (_, pt). split; [done|]. apply (Hg b Hw). by rewrite <- Hk. }
  split; [|exact Htun].
  split; [eapply node_step_ok; [exact Hn|by eapply node_quiet, node_routine, routine_inbound_body]| |].
  - exists (self s'). cbn. rewrite lookup_insert_eq. split; [done|]. unfold session_rx. rewrite Ein, Eg.
    split; [exists c'; split; [done|congruence]|]. by split.
  - cbn. destruct Htun as [->|(pt & _ & ->)]; [by exists got|]. exists (got ++ [pt]). by rewrite Ht, app_assoc.
Qed.

Definition link_inv (k : CipherKey) (ptr id me : Z) (net0 tun0 : list (list Z)) (s : Link) : Prop :=
  sender_ok k id me net0 (l_a s) (sent s) /\ receiver_ok k ptr tun0 (l_b s) (sent s).

Lemma link_step_simulates k ptr id me net0 tun0 s s' :
  link_inv k ptr id me net0 tun0 s -> link_step k ptr s s' ->
  link_inv k ptr id me net0 tun0 s' /\ chan_step (chan_of tun0 s) (chan_of tun0 s').
Proof.
  intros [Ha Hb] Hstep. pose proof (so_data _ _ _ _ _ _ Ha) as Hd.
  assert (Hquiet : forall (m : go PS unit) a', m (l_a s) = Done tt a' -> keeps_data m ->
    holds m (l_a s) (fun _ a' => sender_obs a' = sender_obs (l_a s)) ->
    link_inv k ptr id me net0 tun0 (mkLink a' (l_b s) (sent s)) /\
    chan_step (chan_of tun0 s) (chan_of tun0 (mkLink a' (l_b s) (sent s)))).
  { intros m a' E Hm Hs. specialize (Hm id _ Hd). unfold holds in *. rewrite E in *.
    split; [|apply chan_idle]. split; [by eapply sender_quiet|done]. }
  destruct Hstep as [b a' Hpk Ht E|own a' E|a' Hw E|b c a' Hw Hc E|d from n' Hd' E|p n' Hp Hw E|p b n' Hp Hw E].
  - eapply Hquiet; [exact E|by apply OutboundPacket_data|by apply OutboundPacket_silent].
  - eapply Hquiet; [exact E|apply TXTimeout_data|apply TXTimeout_silent].
  - eapply Hquiet; [exact E|apply Outbound_recv_data|apply Outbound_recv_silent].
  - destruct Hd as [[_ _ [_ Hob] _ _] _]. rewrite Hw in Hob. cbn in Hob.
    split; [split; [by apply (sender_sends _ _ _ _ (l_a s))|by apply receiver_app]|].
    unfold chan_of. cbn [sent l_b]. unfold sent_by. case_bool_decide; [rewrite app_nil_r; apply chan_idle|].
    rewrite fmap_app. apply (chan_send (mkChan _ _)).
  - destruct (receiver_datagram _ _ _ _ _ _ _ _ Hb Hd' E) as [Hb' Et]. split; [by split|].
    unfold chan_of. cbn [sent l_b]. rewrite Et. apply chan_idle.
  - destruct (receiver_takes _ _ _ _ _ _ _ Hb Hp Hw E) as [Hb' Et]. split; [by split|].
    unfold chan_of. cbn [sent l_b]. rewrite Et. apply chan_idle.
  - destruct (receiver_opens _ _ _ _ _ _ _ _ Hb Hp Hw E) as [Hb' Et]. split; [by split|].
    unfold chan_of. cbn [sent l_b]. destruct Et as [->|(pt & Hpt & ->)]; [apply chan_idle|].
    destruct (ro_tun _ _ _ _ _ Hb) as [got ->]. rewrite <- app_assoc, !drop_app_length.
    apply (chan_deliver (mkChan _ _)). exact Hpt.
Qed.
End Simulation.

(** ** Properties *)

Section LinkTheorems.
Context `{NoiseSeal, !NoiseSession, PoolChoice, NodeExt}.
Abbreviation Peer := NodePeer.Peer.
Implicit Types (p : Peer) (s : Link).

(** C10. A session is a channel that may lose, repeat and reorder packets and does not invent
    any. From the states two nodes are in after a handshake - the sender's entry has a cipher of
    the session's key, the receiver's entry has one and nothing of the session waits there -
    through any order of packets from the sender's tunnel, keepalives, turns of its sending
    goroutine, datagrams read at the receiver and turns of its receiving goroutine, where a
    delivered datagram is lost, repeated, reordered, cut or made up by the network as long as it
    is no ciphertext of the session's key that the sender has not made: every step is one of the
    abstract channel's or none, so that the receiver's tunnel gets only packets that were sent;
    no two packets are encrypted under the same counter; and the sender's socket has seen exactly
    the datagrams of these packets, the header with the counter and the ciphertext. *)
Theorem link_refines_channel k ptr id s0 s c0 p0 c1
    (Hdata : data_ok id (l_a s0)) (Htx : tx (self (l_a s0)) = Some c0) (Hkey : key_of c0 = k) (Hfirst : sent s0 = [])
    (Hnode : node_ok (l_b s0)) (Hp : heap (l_b s0) !! ptr = Some p0) (Hrx : rx p0 = Some c1) (Hkey' : key_of c1 = k)
    (Hempty : inbound p0 = [] /\ g_inbound p0 = Waiting) (Hreach : reach (link_step k ptr) s0 s) :
  let before := tun_out (n_env (l_b s0)) in
  reach chan_step (chan_of before s0) (chan_of before s) /\
  (forall x, x ∈ c_got (chan_of before s) -> x ∈ c_sent (chan_of before s)) /\
  NoDup (sent s).*1 /\
  (net_out (env (l_a s))).*1 = (net_out (env (l_a s0))).*1 ++ (datagram (node_id (env (l_a s0))) k <$> sent s).
Proof.
  intros before. set (I := link_inv k ptr id (node_id (env (l_a s0))) (net_out (env (l_a s0))).*1 before).
  assert (Hinit : I s0).
  { destruct Hempty as [Hin Hg]. split; [split|split]; rewrite ?Hfirst; try done.
    - by exists c0.
    - constructor.
    - by rewrite app_nil_r.
    - exists p0. split; [done|]. split; [by exists c1|]. rewrite Hin, Hg. by split.
    - exists []. by rewrite app_nil_r. }
  assert (HR : reach chan_step (chan_of before s0) (chan_of before s) /\ I s).
  { induction Hreach as [|s1 s2 Hr [IHr IHi] Hs]; [by split; [constructor|]|].
    destruct (link_step_simulates _ _ _ _ _ _ _ _ IHi Hs) as [Hi Hc]. split; [by eapply reach_step|done]. }
  destruct HR as [HR [Hs _]]. split; [done|]. split; [|split; [apply Hs|apply Hs]].
  eapply (reach_invariant chan_step (fun c => forall x, x ∈ c_got c -> x ∈ c_sent c)), HR.
  - unfold chan_of, before. cbn. rewrite drop_all. by intros x ?%not_elem_of_nil.
  - intros c c' HI [|x|x Hx]; cbn; [done|intros y Hy; apply elem_of_app; left; auto|].
    by intros y [Hy| ->%list_elem_of_singleton]%elem_of_app; [apply HI|].
Qed.
End LinkTheorems.

(** ** The same datagram again *)

Section Replay.
Context `{NoiseLaws, PoolChoice, NodeExt}.
Abbreviation Peer := NodePeer.Peer.

(** A datagram that is read and handled [j] times. *)
Fixpoint deliveries (j : nat) (d : list Z) (from : UDPAddr) (ptr : Z) : go Node unit :=
  match j with
  | O => mret tt
  | S i =>
      _ ← ReadUDPPackets (Ok (d, from));
      _ ← on_peer ptr Inbound_turn;
      deliveries i d from ptr
  end.

Lemma deliveries_eq (R : CipherState -> Prop) ptr id c ct pt from j n p old r :
  heap n !! ptr = Some p -> id_map n !! id = Some ptr -> maps_ok n -> pools_clean (pools (n_env n)) ->
  u32 id -> u64 c -> (length ct + 16 <= BufferSize)%nat -> ready p -> running p = true -> inbound p = [] ->
  rx p = Some r -> R r -> raddr p = Some old -> pt <> [] ->
  (forall r buf, R r -> slice_ok buf -> exists r1 r2 buf',
     SetNonce (Some r) c = Ok (Some r1) /\ Decrypt (Some r1) buf ct = Ok (Some r2, buf', None) /\
     slice_ok buf' /\ s_bytes buf' = s_bytes buf ++ pt /\ R r2) ->
  exists n', deliveries j (header_bytes (mkHeader HeaderVersion MsgData id c HeaderPadding) ++ ct) from ptr n = Done tt n' /\
    tun_out (n_env n') = tun_out (n_env n) ++ replicate j pt.
Proof.
  intros Hp Hid Hm Hq Hu Hc Hlen Hr Hrun Hin Hrx HR Hold Hne Hdec. revert n p old r Hp Hid Hm Hq Hr Hrun Hin Hrx HR Hold.
  induction j as [|j IH]; intros n p old r Hp Hid Hm Hq Hr Hrun Hin Hrx HR Hold.
  - exists n. by rewrite app_nil_r.
  - destruct (node_delivers R n ptr p id c ct pt from old r Hp Hid Hm Hq Hu Hc Hlen Hr Hrun Hin Hrx Hold Hne)
      as (n1 & n2 & r2 & p2 & EU & EI & ET & Hp2 & Hrx2 & HR2 & Hold2 & Hin2 & Hr2 & Hrun2 & Hmap2 & Hm2 & Hq2); [eauto|].
    destruct (IH n2 p2 (roam old from) r2) as (n' & E & Et); try done; [by rewrite Hmap2|].
    exists n'. cbn [deliveries]. rewrite (bind_done _ _ _ _ _ EU), (bind_done _ _ _ _ _ EI). split; [exact E|].
    by rewrite Et, ET, <- app_assoc.
Qed.

(** C28. A session does not recognise a packet it has had: the datagram of a packet, handed to
    the receiver's reader any number of times, from whatever address, is decrypted each time,
    since the cipher's counter is set to the datagram's before, and the tunnel gets the packet
    as often. *)
Theorem replay_is_delivered (pa : Peer) (ea : Env) (b : OutboundBuffer) (nb : Node) ptr (pb : Peer)
    (c r : CipherState) dst old from (j : nat)
    (Hra : ready pa) (Htx : tx pa = Some c) (Hdst : raddr pa = Some dst) (Hob : ob_ok b)
    (Hsize : 0 < ob_size b <= Z.of_nat BufferSize - 32) (Hea : pools_clean (pools ea))
    (Hnonce : 0 <= nonce_of c <= MaxNonce) (Hid : u32 (node_id ea))
    (Hpb : heap nb !! ptr = Some pb) (Hmap : id_map nb !! node_id ea = Some ptr) (Hmaps : maps_ok nb)
    (Heb : pools_clean (pools (n_env nb))) (Hrun : running pb = true) (Hrb : ready pb)
    (Hrx : rx pb = Some r) (Hpair : paired c r) (Hin : inbound pb = []) (Hold : raddr pb = Some old) :
  exists d a' nb',
    Outbound_body b (mkPS _ pa ea) = Done tt a' /\ net_out (env a') = net_out ea ++ [(d, dst)] /\
    deliveries j d from ptr nb = Done tt nb' /\
    tun_out (n_env nb') = tun_out (n_env nb) ++ replicate j (packet_of b).
Proof.
  destruct (Outbound_body_sends b pa ea c (nonce_of c) dst Hra Htx Hdst Hob ltac:(lia) Hea eq_refl Hnonce)
    as (c' & ct & qa & EO & _ & Hn' & Hct & Hdec); [by exists r|].
  destruct (deliveries_eq (paired c) ptr (node_id ea) (nonce_of c) ct (packet_of b) from j nb pb old r)
    as (nb' & ED & Et); try done.
  { unfold u64, MaxNonce in *. lia. } { unfold BufferSize in *. lia. } { apply packet_nonempty; [done|lia]. }
  { intros r0 buf Hr0 Hbuf. destruct (Hdec r0 buf Hr0 Hbuf) as (r1 & r2 & buf' & ? & ? & ? & ? & ? & ?). by exists r1, r2, buf'. }
  eexists _, _, nb'. split; [exact EO|]. by split.
Qed.
End Replay.

(** A datagram's way through the receiver: three steps. *)
Section Delivery.
Context `{NoiseSeal, PoolChoice, NodeExt}.
Lemma delivery_reach k ptr a sent d from n n1 n2 n3 p p' b :
  unforged k sent d -> ReadUDPPackets (Ok (d, from)) n = Done true n1 ->
  heap n1 !! ptr = Some p -> g_inbound p = Waiting -> on_peer ptr Inbound_recv n1 = Done tt n2 ->
  heap n2 !! ptr = Some p' -> g_inbound p' = Busy b -> on_peer ptr (Inbound_body b) n2 = Done tt n3 ->
  reach (link_step k ptr) (mkLink a n sent) (mkLink a n3 sent).
Proof.
  intros Hd E1 Hp Hw E2 Hp' Hb E3. eapply reach_step; [eapply reach_step; [eapply reach_step; [constructor|]|]|].
  - by eapply link_datagram.
  - by eapply (link_recv _ _ (mkLink a n1 sent)).
  - by eapply (link_open _ _ (mkLink a n2 sent)).
Qed.
(** And a packet's way through the sender. *)
Lemma sending_reach k ptr a a1 a2 a3 n b c :
  ob_pkt_ok b -> inTransport (self a) = true -> OutboundPacket b a = Done tt a1 ->
  g_outbound (self a1) = Waiting -> Outbound_recv a1 = Done tt a2 ->
  g_outbound (self a2) = Busy b -> tx (self a2) = Some c -> Outbound_body b a2 = Done tt a3 ->
  reach (link_step k ptr) (mkLink a n []) (mkLink a3 n (sent_by c b a2 a3)).
Proof.
  intros Hb Ht E1 Hw E2 Hg Hc E3. eapply reach_step; [eapply reach_step; [eapply reach_step; [constructor|]|]|].
  - by apply (link_packet _ _ (mkLink a n []) b).
  - by apply (link_take _ _ (mkLink a1 n [])).
  - by apply (link_send _ _ (mkLink a2 n []) b c).
Qed.
End Delivery.

(** ** A concrete link: node 1 sends to node 2, and the network repeats the datagram *)

Lemma demo_transport_data j k i : data_ok j (mkPS _ (demo_transport j k) (demo_env i)).
Proof.
  split; split; cbn; try done.
  - split_and!; constructor.
  - split; [constructor|done].
Qed.
Lemma demo_transport_ok i j k : node_ok (demo_node i j (demo_transport j k)).
Proof.
  split; cbn; try done.
  - intros ptr [p Hp]. cbn in *. apply lookup_singleton_Some in Hp as [<- _]. lia.
  - intros id ptr [<- <-]%lookup_singleton_Some. eexists. by rewrite lookup_singleton_eq.
  - intros a ptr [_ <-]%lookup_singleton_Some. rewrite lookup_singleton_eq. by eexists.
  - intros ptr p [_ <-]%lookup_singleton_Some. split; [apply demo_transport_inv|apply demo_transport_data].
  - intros ptr Hin. cbn in Hin. by apply not_elem_of_nil in Hin.
Qed.

Definition demo_link : Link := mkLink (mkPS _ (demo_transport 2 0) (demo_env 1)) (demo_node 2 1 (demo_transport 1 1)) [].
Definition demo_a1 : PS := final (OutboundPacket demo_packet) (l_a demo_link).
Definition demo_a2 : PS := final Outbound_recv demo_a1.
Definition demo_a3 : PS := final (Outbound_body demo_packet) demo_a2.
Definition demo_sent : list (Z * list Z) := [(0, packet_of demo_packet)].
Definition demo_datagram : list Z := datagram 1 0 (0, packet_of demo_packet).
(** One delivery at node 2: the read, the receive and the turn. *)
Definition demo_at (n : Node) : NodePeer.Peer := default NewPeer (heap n !! 7).
Definition demo_hand (n : Node) : InboundBuffer := match g_inbound (demo_at n) with Busy b => b | _ => NewInboundBuffer end.
Definition demo_read (n : Node) : Node := final (ReadUDPPackets (Ok (demo_datagram, demo_ua 99))) n.
Definition demo_recv (n : Node) : Node := final (on_peer 7 Inbound_recv) n.
Definition demo_open (n : Node) : Node := final (on_peer 7 (Inbound_body (demo_hand n))) n.

(** The network has nothing but the datagram: it opens as the packet. *)
Lemma demo_unforged : unforged 0 demo_sent demo_datagram.
Proof.
  intros pt. change (Counter (header_of demo_datagram)) with 0. unfold demo_sent.
  assert (E : body_of demo_datagram = packet_of demo_packet ++ be_bytes 8 0 ++ be_bytes 8 0) by (vm_compute; reflexivity).
  rewrite E. intros <-%app_inv_tail. by constructor.
Qed.

Definition demo_delivered (n : Node) : Prop :=
  let n1 := demo_read n in let n2 := demo_recv n1 in
  out_val (ReadUDPPackets (Ok (demo_datagram, demo_ua 99)) n) = Some true /\
  bool_decide (is_Some (heap n1 !! 7)) = true /\ g_inbound (demo_at n1) = Waiting /\
  out_val (on_peer 7 Inbound_recv n1) = Some tt /\
  bool_decide (is_Some (heap n2 !! 7)) = true /\ match g_inbound (demo_at n2) with Busy _ => true | _ => false end = true /\
  out_val (on_peer 7 (Inbound_body (demo_hand n2)) n2) = Some tt.
Lemma demo_delivery n :
  demo_delivered n ->
  reach (link_step (0 : CipherKey) 7) (mkLink demo_a3 n demo_sent) (mkLink demo_a3 (demo_open (demo_recv (demo_read n))) demo_sent).
Proof.
  intros (E1 & Hp & Hw & E2 & Hp2 & Hb & E3).
  assert (Hat : forall n, bool_decide (is_Some (heap n !! 7)) = true -> heap n !! 7 = Some (demo_at n)).
  { intros m Hm%bool_decide_eq_true_1. unfold demo_at. by destruct (heap m !! 7); [|destruct Hm]. }
  assert (Hh : forall n, match g_inbound (demo_at n) with Busy _ => true | _ => false end = true -> g_inbound (demo_at n) = Busy (demo_hand n)).
  { intros m. unfold demo_hand. by destruct (g_inbound (demo_at m)). }
  exact (delivery_reach 0 7 demo_a3 demo_sent demo_datagram (demo_ua 99) n _ _ _ _ _ _ demo_unforged
    (final_run _ _ _ E1) (Hat _ Hp) Hw (final_run _ _ _ E2) (Hat _ Hp2) (Hh _ Hb) (final_run _ _ _ E3)).
Qed.
Lemma demo_packet_ok : ob_pkt_ok demo_packet.
Proof. split; [split; [apply make_slice_full|split; reflexivity]|done]. Qed.
Lemma demo_sends : reach (link_step (0 : CipherKey) 7) demo_link (mkLink demo_a3 (l_b demo_link) demo_sent).
Proof.
  assert (E1 : OutboundPacket demo_packet (l_a demo_link) = Done tt demo_a1) by (unfold demo_a1; apply final_run; vm_compute; reflexivity).
  assert (E2 : Outbound_recv demo_a1 = Done tt demo_a2) by (unfold demo_a2; apply final_run; vm_compute; reflexivity).
  assert (E3 : Outbound_body demo_packet demo_a2 = Done tt demo_a3) by (unfold demo_a3; apply final_run; vm_compute; reflexivity).
  assert (G1 : g_outbound (self demo_a1) = Waiting) by (vm_compute; reflexivity).
  assert (G2 : g_outbound (self demo_a2) = Busy demo_packet) by (vm_compute; reflexivity).
  assert (G3 : tx (self demo_a2) = Some (mkToyCS 0 0)) by (vm_compute; reflexivity).
  assert (ES : sent_by (mkToyCS 0 0 : CipherState) demo_packet demo_a2 demo_a3 = demo_sent) by (vm_compute; reflexivity).
  rewrite <- ES. exact (sending_reach _ 7 (l_a demo_link) _ _ _ (l_b demo_link) _ _ demo_packet_ok eq_refl E1 G1 E2 G2 G3 E3).
Qed.

Lemma link_refines_channel_witness :
  exists s, reach (link_step (0 : CipherKey) 7) demo_link s /\ c_sent (chan_of [] s) = [packet_of demo_packet] /\
    c_got (chan_of [] s) = [packet_of demo_packet; packet_of demo_packet] /\
    reach chan_step (chan_of [] demo_link) (chan_of [] s).
Proof.
  set (n1 := demo_open (demo_recv (demo_read (l_b demo_link)))). set (n2 := demo_open (demo_recv (demo_read n1))).
  set (s := mkLink demo_a3 n2 demo_sent).
  assert (Hr : reach (link_step (0 : CipherKey) 7) demo_link s).
  { eapply reach_trans; [exact demo_sends|]. eapply reach_trans; apply demo_delivery; vm_compute; by split_and!. }
  exists s. split; [exact Hr|]. do 2 (split; [vm_compute; reflexivity|]).
  apply (link_refines_channel (0 : @CipherKey toy_noise toy_seal) 7 2 demo_link s (mkToyCS 0 0) (demo_transport 1 1) (mkToyCS 0 0)); try reflexivity; try done.
  - apply demo_transport_data.
  - apply demo_transport_ok.
Defined.

(** Three copies of the demo packet's datagram. *)
Lemma replay_is_delivered_witness :
  exists d a' nb',
    Outbound_body demo_packet (mkPS _ (demo_transport 2 0) (demo_env 1)) = Done tt a' /\
    net_out (env a') = [(d, demo_ua 2)] /\
    deliveries 3 d (demo_ua 99) 7 (demo_node 2 1 (demo_transport 1 1)) = Done tt nb' /\
    tun_out (n_env nb') = [packet_of demo_packet; packet_of demo_packet; packet_of demo_packet].
Proof.
  apply (replay_is_delivered (demo_transport 2 0) (demo_env 1) demo_packet (demo_node 2 1 (demo_transport 1 1)) 7
           (demo_transport 1 1) (mkToyCS 0 0) (mkToyCS 0 0) (demo_ua 2) (demo_ua 1) (demo_ua 99) 3);
    try reflexivity; try done; try apply demo_maps_ok; try apply demo_pools_clean.
Defined.
