(* ===== verification/Devices.v ===== *)
(** The devices a node opens: its socket, node/conn, and its tunnel, node/tun, on the systems
    the program is built for, and what its start and stop do with them.

    [OS] has what a process can hold open.  What the system calls answer is the argument
    [Answers] of the calls and may be anything.  [Platform] is what the node uses of the two
    packages, [PlatformLaws] what they promise it: a constructor that fails has given back what
    it took.  Both sets of source files, for unix and for windows, are instances. *)

From S2P Require Import Prelude Bytes Netip NixTun WinTun.
From S2P Require Import GoTime Netip Types GoSync Queue Grpc NodePeer NoiseLaws NodeCore Transport PeerWp Lifecycle.
From S2P Require Import PeerData Hazards Sync Boot NodeLife Link.

(** ** The operating system *)

(** [socks]: the open sockets, with the local port; [reuse]: those that share their port;
    [tuns]: the open tunnel devices, with their names; [wire], [tun_wire]: what was written to
    either.  [wins]: the state behind the handles of windows tunnels. *)
Record OS : Type := mkOS {
  socks : gmap Z Z;
  reuse : gset Z;
  tuns : gmap Z string;
  wire : list (Z * list Z * UDPAddr);
  tun_wire : list (Z * list Z);
  machine : Machine;
  wins : gmap Z WinTun.Tun;
  luids : gmap Z (list Prefix)
}.
#[export] Instance OS_rebuild : Rebuild OS := {| rebuild := fun o =>
  mkOS (socks o) (reuse o) (tuns o) (wire o) (tun_wire o) (machine o) (wins o) (luids o) |}.

(** What the calls of one start answer, an error where there is one. *)
Record Answers : Type := mkAnswers {
  a_resolve : option string;
  a_bind : option string;
  a_control : option string;
  a_sockopt : option string;
  a_water : result string string;
  a_adapter : option string;
  a_session : option string;
  a_driver : WinTun.Driver;
  a_ip : option string;
  a_run : Command -> option string
}.

Definition closed_error : string := "use of closed network connection".

(** ** node/conn *)

(** A handle that is not in use. *)
Definition unused {A} (m : gmap Z A) : Z := foldr (fun kx i => Z.max (kx.1 + 1) i) 0 (map_to_list m).
Lemma unused_free {A} (m : gmap Z A) : m !! unused m = None.
Proof.
  destruct (m !! unused m) as [x|] eqn:E; [|done]. exfalso. apply elem_of_map_to_list in E. revert E. unfold unused.
  assert (Hlt : forall l (k : Z) (y : A), (k, y) ∈ l -> k < foldr (fun kx i => Z.max (kx.1 + 1) i) 0 l).
  { induction l as [|[k' y'] l IH]; intros k y; [by intros ?%not_elem_of_nil|]. cbn. intros [[= -> ->]|Hin]%elem_of_cons; [lia|].
    specialize (IH _ _ Hin). lia. }
  intros E%Hlt. lia.
Qed.

Section Conn.
Context (a : Answers).

Definition open_sock (port : Z) : go OS Z :=
  o ← reads (fun o => o);
  let fd := unused (socks o) in
  _ ← modify (fun o => o <| socks ::= <[fd := port]> |>); mret fd.
Definition close_sock (fd : Z) : go OS unit :=
  modify (fun o => o <| socks ::= delete fd |> <| reuse ::= (fun s => s ∖ {[fd]}) |>).

(** [net.ListenUDP]. *)
Definition ListenUDP (port : Z) : go OS (result string Z) :=
  match a_bind a with Some e => mret (Err e) | None => fd ← open_sock port; mret (Ok fd) end.
(** [ListenConfig.ListenPacket] calls [Control] with the new socket before it binds it; a
    failure of either closes the socket. *)
Definition ListenPacket (Control : Z -> go OS (option string)) (port : Z) : go OS (result string Z) :=
  fd ← open_sock port;
  err ← Control fd;
  match err with
  | Some e => _ ← close_sock fd; mret (Err e)
  | None => match a_bind a with Some e => _ ← close_sock fd; mret (Err e) | None => mret (Ok fd) end
  end.

(** conn_unix.go. The function [c.Control] is handed runs unless the raw socket is gone. For
    the network udp4 a packet connection is a [*net.UDPConn]. *)
Definition reuse_port (fd : Z) : go OS (option string) :=
  match a_control a with
  | Some e => mret (Some e)
  | None =>
      match a_sockopt a with
      | Some e => mret (Some e)
      | None => _ ← modify (fun o => o <| reuse ::= (fun s => {[fd]} ∪ s) |>); mret None
      end
  end.
Definition NewConn_unix (port : Z) : go OS (result string Z) := ListenPacket reuse_port port.

(** conn_default.go *)
Definition NewConn_default (port : Z) : go OS (result string Z) :=
  match a_resolve a with Some e => mret (Err e) | None => ListenUDP port end.

(** conn.go: each method is the socket's. *)
Definition on_sock {A} (fd : Z) (k : Z -> go OS (A * option string)) (zero : A) : go OS (A * option string) :=
  s ← reads socks;
  match s !! fd with Some port => k port | None => mret (zero, Some closed_error) end.
Definition Conn_WriteToUDP (fd : Z) (b : slice) (addr : option UDPAddr) : go OS (Z * option string) :=
  on_sock fd (fun _ =>
    match addr with
    | None => mret (0, Some "missing address"%string)
    | Some x => _ ← modify (fun o => o <| wire ::= (fun l => l ++ [(fd, s_bytes b, x)]) |>); mret (Z.of_nat (s_len b), None)
    end) 0.
(** The datagram that is there, or the error of waiting for one. *)
Definition Conn_ReadFromUDP (fd : Z) (b : slice) (arrives : result string (list Z * UDPAddr)) :
    go OS ((slice * Z * option UDPAddr) * option string) :=
  on_sock fd (fun _ =>
    match arrives with
    | Err e => mret ((b, 0, None), Some e)
    | Ok (data, from) => let '(b', n) := read_into b data in mret ((b', n, Some from), None)
    end) (b, 0, None).
Definition Conn_LocalAddr (fd : Z) : go OS (option Z) := s ← reads socks; mret (s !! fd).
Definition Conn_Close (fd : Z) : go OS (option string) :=
  r ← on_sock fd (fun _ => _ ← close_sock fd; mret (tt, None)) tt; mret r.2.
Definition Conn_SetReadDeadline (fd : Z) : go OS (option string) :=
  r ← on_sock fd (fun _ => mret (tt, None)) tt; mret r.2.
End Conn.

(** ** node/tun/tun_nix.go *)

Section Nix.
Context (a : Answers).

Definition open_tun (name : string) : go OS Z :=
  o ← reads (fun o => o);
  let fd := unused (tuns o) in
  _ ← modify (fun o => o <| tuns ::= <[fd := name]> |>); mret fd.
Definition close_tun (fd : Z) : go OS unit := modify (fun o => o <| tuns ::= delete fd |>).

Definition NixTun_NewTun : go OS (result string Z) :=
  match a_water a with Err e => mret (Err e) | Ok name => fd ← open_tun name; mret (Ok fd) end.
(** Each method is the interface's. *)
Definition NixTun_Name (fd : Z) : go OS string := s ← reads tuns; mret (default ""%string (s !! fd)).
Definition NixTun_Read (fd : Z) (b : slice) (arrives : result string (list Z)) : go OS ((slice * Z) * option string) :=
  s ← reads tuns;
  match s !! fd, arrives with
  | None, _ => mret ((b, 0), Some ErrClosed)
  | _, Err e => mret ((b, 0), Some e)
  | _, Ok data => mret (read_into b data, None)
  end.
Definition NixTun_Write (fd : Z) (b : slice) : go OS (Z * option string) :=
  s ← reads tuns;
  match s !! fd with
  | None => mret (0, Some ErrClosed)
  | Some _ => _ ← modify (fun o => o <| tun_wire ::= (fun l => l ++ [(fd, s_bytes b)]) |>); mret (Z.of_nat (s_len b), None)
  end.
Definition NixTun_Close (fd : Z) : go OS (option string) :=
  s ← reads tuns;
  match s !! fd with None => mret (Some ErrClosed) | Some _ => _ ← close_tun fd; mret None end.
Definition NixTun_MTU : Z * option string := (MTU, None).
Definition on_machine {A} (m : go Machine A) : go OS A := zoom machine (fun x o => o <| machine := x |>) m.
Definition NixTun_Configure (goos : string) (fd : Z) (addr : Prefix) : go OS (option string) :=
  name ← NixTun_Name fd;
  on_machine (NixTun.ConfigureIPAddress (a_run a) goos name addr).
End Nix.

(** ** node/tun/tun_win.go *)

Section Win.
Context (a : Answers).

Definition WintunAdapaterName : string := "WintunTestAdp".

Definition WinTun_NewTun : go OS (result string Z) :=
  match a_adapter a with
  | Some e => mret (Err ("error creating wintun adapater: " +:+ e))
  | None =>
      fd ← open_tun WintunAdapaterName;
      match a_session a with
      | Some _ => _ ← close_tun fd; mret (Err "error starting wintun session"%string)
      | None => _ ← modify (fun o => o <| wins ::= <[fd := WinTun.NewTun]> |>); mret (Ok fd)
      end
  end.

(** A method from its call to its return, while no other runs. *)
Fixpoint win_run (fuel : nat) (p : WinTun.Pc) : go WinTun.Tun WinTun.Ret :=
  match p, fuel with
  | WinTun.Returned r, _ => mret r
  | _, O => block WaitForever
  | _, S f => p' ← WinTun.turn (a_driver a) p; win_run f p'
  end.
Definition on_win {A} (fd : Z) (m : go WinTun.Tun A) : go OS A :=
  w ← reads wins;
  match w !! fd with
  | None => panic NilDeref
  | Some t => zoom (fun _ => t) (fun t' o => o <| wins ::= <[fd := t']> |>) m
  end.
Definition win_call (fd : Z) (op : WinTun.Op) : go OS WinTun.Ret := on_win fd (win_run 10 (WinTun.entry op)).

Definition WinTun_Configure (fd : Z) (addr : Prefix) : go OS (option string) :=
  r ← win_call fd WinTun.LUID;
  let luid := match r with WinTun.RetLUID id => id | _ => 0 end in
  match a_ip a with
  | Some e => mret (Some e)
  | None => _ ← modify (fun o => o <| luids ::= partial_alter (fun l => Some (default [] l ++ [addr])) luid |>); mret None
  end.
(** The adapter goes when its [Close] has been called. *)
Definition WinTun_Close (fd : Z) : go OS (option string) :=
  r ← win_call fd WinTun.Close;
  w ← reads wins;
  _ ← when (from_option WinTun.adapter_closed false (w !! fd)) (close_tun fd);
  mret (match r with WinTun.RetClose err => err | _ => None end).
Definition WinTun_MTU : Z * option string := (1400, None).
End Win.

(** ** What the node uses of them *)

Class Platform : Type := {
  NewConn : Answers -> Z -> go OS (result string Z);
  NewTun : Answers -> go OS (result string Z);
  Tun_Close : Answers -> Z -> go OS (option string);
  Tun_Configure : Answers -> Z -> Prefix -> go OS (option string);
  os_ok : OS -> Prop
}.

(** A constructor opens one device or leaves what was open; [Close] gives it back; nothing else
    does either. [os_ok] is the platform's own. *)
Class PlatformLaws `{Platform} : Prop := {
  NewConn_law a port o : os_ok o -> holds (NewConn a port) o (fun r o' => os_ok o' /\ tuns o' = tuns o /\
    match r with Ok fd => socks o !! fd = None /\ socks o' = <[fd := port]> (socks o) | Err _ => socks o' = socks o end);
  NewTun_law a o : os_ok o -> holds (NewTun a) o (fun r o' => os_ok o' /\ socks o' = socks o /\
    match r with Ok fd => tuns o !! fd = None /\ exists name, tuns o' = <[fd := name]> (tuns o) | Err _ => tuns o' = tuns o end);
  Conn_Close_law fd o : os_ok o -> holds (Conn_Close fd) o (fun _ o' => os_ok o' /\ tuns o' = tuns o /\ socks o' = delete fd (socks o));
  Tun_Close_law a fd o : os_ok o -> holds (Tun_Close a fd) o (fun _ o' => os_ok o' /\ socks o' = socks o /\ tuns o' = delete fd (tuns o));
  Tun_Configure_law a fd addr o : os_ok o ->
    holds (Tun_Configure a fd addr) o (fun _ o' => os_ok o' /\ socks o' = socks o /\ tuns o' = tuns o)
}.

#[export] Instance unix (goos : string) : Platform := {|
  NewConn := NewConn_unix;
  NewTun := NixTun_NewTun;
  Tun_Close _ := NixTun_Close;
  Tun_Configure a := NixTun_Configure a goos;
  os_ok _ := True
|}.
(** A tunnel whose [Close] has run has closed its adapter. *)
#[export] Instance windows : Platform := {|
  NewConn := NewConn_default;
  NewTun := WinTun_NewTun;
  Tun_Close := WinTun_Close;
  Tun_Configure := WinTun_Configure;
  os_ok o := forall fd t, wins o !! fd = Some t -> WinTun.closeOnce t = WinTun.OnceFinished ->
    WinTun.adapter_closed t = true
|}.

(** ** The two platforms keep the promises *)

Section OsLemmas.
Implicit Types (o : OS).

Lemma open_sock_holds port o (Q : Z -> OS -> Prop) :
  (forall fd, socks o !! fd = None -> Q fd (o <| socks := <[fd := port]> (socks o) |>)) -> holds (open_sock port) o Q.
Proof. intros HQ. apply HQ, unused_free. Qed.
Lemma open_tun_holds name o (Q : Z -> OS -> Prop) :
  (forall fd, tuns o !! fd = None -> Q fd (o <| tuns := <[fd := name]> (tuns o) |>)) -> holds (open_tun name) o Q.
Proof. intros HQ. apply HQ, unused_free. Qed.
Lemma close_sock_holds fd o (Q : unit -> OS -> Prop) :
  Q tt (o <| socks := delete fd (socks o) |> <| reuse := reuse o ∖ {[fd]} |>) -> holds (close_sock fd) o Q.
Proof. done. Qed.

(** [ListenPacket] keeps a socket only when it reports one. *)
Lemma ListenPacket_holds a Control port o (Q : result string Z -> OS -> Prop) :
  (forall fd o, holds (Control fd) o (fun _ o' => socks o' = socks o /\ tuns o' = tuns o /\ wins o' = wins o)) ->
  (forall r o', tuns o' = tuns o -> wins o' = wins o ->
     match r with Ok fd => socks o !! fd = None /\ socks o' = <[fd := port]> (socks o) | Err _ => socks o' = socks o end -> Q r o') ->
  holds (ListenPacket a Control port) o Q.
Proof.
  intros HC HQ. unfold ListenPacket. apply holds_bind, open_sock_holds. intros fd Hfd. apply holds_bind.
  eapply holds_mono; [|apply HC]. cbn. intros err o1 (E1 & E2 & E3).
  assert (Hback : delete fd (socks o1) = socks o) by (rewrite E1; by apply delete_insert_id).
  destruct err as [e|]; [apply holds_bind, close_sock_holds; by apply HQ|].
  destruct (a_bind a); [apply holds_bind, close_sock_holds; by apply HQ|]. by apply HQ.
Qed.

Lemma Conn_Close_holds fd o :
  holds (Conn_Close fd) o (fun _ o' => tuns o' = tuns o /\ wins o' = wins o /\ socks o' = delete fd (socks o)).
Proof.
  unfold Conn_Close, on_sock, holds, mbind, go_bind, reads. destruct (socks o !! fd) as [port|] eqn:E; cbn; [done|].
  by rewrite delete_id.
Qed.

(** A socket that has been closed refuses everything, so that its readers come to their end. *)
Lemma closed_socket_refuses fd o :
  socks o !! fd = None ->
  (forall b x, Conn_WriteToUDP fd b x o = Done (0, Some closed_error) o) /\
  (forall b arrives, Conn_ReadFromUDP fd b arrives o = Done ((b, 0, None), Some closed_error) o) /\
  Conn_SetReadDeadline fd o = Done (Some closed_error) o /\ Conn_Close fd o = Done (Some closed_error) o.
Proof.
  intros E. unfold Conn_WriteToUDP, Conn_ReadFromUDP, Conn_SetReadDeadline, Conn_Close, on_sock, mbind, go_bind, reads.
  by rewrite E.
Qed.
Lemma Conn_Close_closes fd o : holds (Conn_Close fd) o (fun _ o' => socks o' !! fd = None).
Proof. eapply holds_mono; [|apply Conn_Close_holds]. intros _ o' (_ & _ & ->). apply lookup_delete_eq. Qed.
End OsLemmas.

#[export] Instance unix_laws goos : PlatformLaws (H := unix goos).
Proof.
  split.
  - intros a port o _. apply ListenPacket_holds; [|done].
    intros fd o'. unfold reuse_port. by destruct (a_control a), (a_sockopt a).
  - intros a o _. cbn. unfold NixTun_NewTun. destruct (a_water a); [|done].
    apply holds_bind, open_tun_holds. intros fd Hfd. cbn. eauto.
  - intros fd o _. eapply holds_mono; [|apply Conn_Close_holds]. by intros _ o' (? & _ & ?).
  - intros a fd o _. unfold Tun_Close, unix, NixTun_Close, holds, mbind, go_bind, reads.
    destruct (tuns o !! fd) eqn:E; cbn; [done|]. by rewrite delete_id.
  - intros a fd addr o _. unfold Tun_Configure, unix, NixTun_Configure. apply holds_bind.
    unfold holds, NixTun_Name, mbind, go_bind, reads, mret, go_ret, on_machine, zoom.
    by destruct (NixTun.ConfigureIPAddress _ _ _ addr _).
Qed.

Section WinLemmas.
Context (a : Answers).

(** [Close] that returns has closed the adapter, if every one before has. *)
Definition win_ok (t : WinTun.Tun) : Prop := WinTun.closeOnce t = WinTun.OnceFinished -> WinTun.adapter_closed t = true.
Lemma win_run_turn f p t Q :
  (forall r, p <> WinTun.Returned r) ->
  holds (WinTun.turn (a_driver a) p) t (fun p' t' => holds (win_run a f p') t' Q) -> holds (win_run a (S f) p) t Q.
Proof. intros Hp HQ. destruct p; try (by apply holds_bind). by destruct (Hp r). Qed.

Lemma win_run_ends f r t (Q : WinTun.Ret -> WinTun.Tun -> Prop) : Q r t -> holds (win_run a f (WinTun.Returned r)) t Q.
Proof. by destruct f. Qed.

Lemma win_end_closes f t : holds (win_run a (S (S (S f))) WinTun.CEnd) t (fun _ t' => WinTun.adapter_closed t' = true).
Proof. do 3 (apply win_run_turn; [done|]; unfold holds at 1; cbn -[win_run]). by apply win_run_ends. Qed.
Lemma win_close_closes t :
  win_ok t -> holds (win_run a 10 (WinTun.entry WinTun.Close)) t (fun _ t' => WinTun.adapter_closed t' = true).
Proof.
  intros Ht. apply win_run_turn; [done|]. unfold holds at 1. cbn -[win_run]. unfold mbind, go_bind, reads. cbn -[win_run].
  destruct (WinTun.closeOnce t) eqn:E; [|done|by apply Ht].
  do 2 (apply win_run_turn; [done|]; unfold holds at 1; cbn -[win_run]).
  apply win_run_turn; [done|]. unfold holds at 1. cbn -[win_run]. unfold mbind, go_bind, reads. cbn -[win_run].
  case_bool_decide; [apply win_end_closes|]. cbn -[win_run].
  apply win_run_turn; [done|]. unfold holds at 1. cbn -[win_run]. unfold mbind, go_bind, reads. cbn -[win_run].
  destruct (WinTun.wg_woken t); [|done]. case_bool_decide; [apply win_end_closes|done].
Qed.
Lemma win_luid_keeps t :
  holds (win_run a 10 (WinTun.entry WinTun.LUID)) t
    (fun _ t' => WinTun.closeOnce t' = WinTun.closeOnce t /\ WinTun.adapter_closed t' = WinTun.adapter_closed t).
Proof.
  do 2 (apply win_run_turn; [done|]; unfold holds at 1; cbn -[win_run]).
  unfold mbind, go_bind, reads. cbn -[win_run]. destruct (WinTun.closed t); cbn -[win_run].
  - apply win_run_turn; [done|]. unfold holds at 1. cbn -[win_run]. apply win_run_ends. cbv zeta. by destruct (_ && _).
  - do 2 (apply win_run_turn; [done|]; unfold holds at 1; cbn -[win_run]). apply win_run_ends. cbv zeta. by destruct (_ && _).
Qed.

Lemma on_win_holds {A} fd (m : go WinTun.Tun A) o (P : WinTun.Tun -> WinTun.Tun -> Prop) (Q : A -> OS -> Prop) :
  (forall t, wins o !! fd = Some t -> holds m t (fun _ t' => P t t')) ->
  (forall r t t', wins o !! fd = Some t -> P t t' -> Q r (o <| wins := <[fd := t']> (wins o) |>)) ->
  holds (on_win fd m) o Q.
Proof.
  intros Hrun HQ. unfold on_win. apply holds_bind. unfold holds at 1, reads.
  destruct (wins o !! fd) as [t|] eqn:E; [|done]. specialize (Hrun t eq_refl).
  unfold holds, zoom in *. destruct (m _) as [r t'| |]; [|done..]. by eapply HQ.
Qed.
End WinLemmas.

#[export] Instance windows_laws : PlatformLaws (H := windows).
Proof.
  split.
  - intros a port o Hok. cbn. unfold NewConn_default, ListenUDP. destruct (a_resolve a); [done|]. destruct (a_bind a); [done|].
    apply holds_bind, open_sock_holds. intros fd Hfd. cbn. eauto.
  - intros a o Hok. cbn [NewTun windows]. unfold WinTun_NewTun. destruct (a_adapter a); [done|].
    apply holds_bind, open_tun_holds. intros fd Hfd. destruct (a_session a); cbn.
    + split; [exact Hok|]. split; [done|]. by apply delete_insert_id.
    + split; [|by eauto]. intros fd' t. cbn. rewrite lookup_insert. case_decide; [by intros [= <-]|apply Hok].
  - intros fd o Hok. eapply holds_mono; [|apply Conn_Close_holds]. intros _ o' (E1 & E2 & E3). split; [|done].
    cbn in *. by rewrite E2.
  - intros a fd o Hok. cbn [Tun_Close windows]. unfold WinTun_Close. apply holds_bind.
    apply (on_win_holds fd _ o (fun _ t' => WinTun.adapter_closed t' = true)).
    { intros t Ht. apply win_close_closes. intros E. by apply (Hok fd t). }
    intros r t t' Ht Ht'. apply holds_bind. unfold holds, reads. cbn. rewrite lookup_insert_eq. cbn. rewrite Ht'. cbn.
    split; [|done]. intros fd' t2. cbn. rewrite lookup_insert. case_decide; [by intros [= <-]|apply Hok].
  - intros a fd addr o Hok. cbn [Tun_Configure windows]. unfold WinTun_Configure. apply holds_bind.
    apply (on_win_holds fd _ o (fun t t' => WinTun.closeOnce t' = WinTun.closeOnce t /\ WinTun.adapter_closed t' = WinTun.adapter_closed t)).
    { intros t _. apply win_luid_keeps. }
    intros r t t' Ht [E1 E2]. destruct (a_ip a); (split; [|done]);
      intros fd' t2; cbn; rewrite lookup_insert; (case_decide; [|apply Hok]); intros [= <-]; rewrite E1, E2; by apply (Hok fd).
Qed.

(** ** The node and its devices

    [Node.Start] and [Node.Run] with the packages' functions in place of the answers
    [NodeCore.Node_Start] takes, and the node's other programs with what becomes of the devices
    they close. *)

Section Host.
Context `{Platform, Noise, PoolChoice, NodeExt}.
Implicit Types (n : Node).

(** [h_conn], [h_tun]: what the node's two fields point to when they are not nil; [h_port]: its
    [port]. *)
Record Host : Type := mkHost { h_node : Node; h_os : OS; h_conn : Z; h_tun : Z; h_port : Z }.
#[export] Instance Host_rebuild : Rebuild Host := {| rebuild := fun h =>
  mkHost (h_node h) (h_os h) (h_conn h) (h_tun h) (h_port h) |}.

Definition on_node {A} (m : go Node A) : go Host A := zoom h_node (fun n h => h <| h_node := n |>) m.
Definition on_os {A} (m : go OS A) : go Host A := zoom h_os (fun o h => h <| h_os := o |>) m.

(** What [Run] does after the tunnel has its address. *)
Definition Run_up (first : result string UpdateResponse) : go Node (option string) :=
  err ← sendStunRequest;
  match err with
  | Some e => mret (Some ("error sending stun request: " +:+ e)%string)
  | None => _ ← StartUpdateStream first; _ ← modify (fun n => n <| n_running := true |>); mret None
  end.
Definition Host_Run (a : Answers) (first : result string UpdateResponse) : go Host (option string) :=
  h ← reads (fun h => h);
  if bool_decide (conn (h_node h) = NilHandle) || bool_decide (tun (h_node h) = NilHandle) then
    mret (Some "node connections have not been initialized"%string)
  else
    err ← on_os (Tun_Configure a (h_tun h) (n_ip (h_node h)));
    match err with Some e => mret (Some e) | None => on_node (Run_up first) end.

Definition Host_Start (a : Answers) (first : result string UpdateResponse) : go Host (option string) :=
  h ← reads (fun h => h);
  if negb (loggedIn (h_node h)) then mret (Some "node has not been logged in"%string)
  else if n_running (h_node h) then mret (Some "node is already running"%string)
  else
    c ← on_os (NewConn a (h_port h));
    match c with
    | Err e => _ ← on_node (modify (fun n => n <| conn := NilHandle |>)); mret (Some e)
    | Ok fd =>
        _ ← modify (fun h => h <| h_conn := fd |>);
        _ ← on_node (modify (fun n => n <| conn := OpenHandle |>));
        t ← on_os (NewTun a);
        match t with
        | Err e =>
            _ ← on_node (modify (fun n => n <| tun := NilHandle |>));
            _ ← on_os (Conn_Close fd);
            _ ← on_node (modify (fun n => n <| conn := ClosedHandle |>));
            mret (Some e)
        | Ok tfd =>
            _ ← modify (fun h => h <| h_tun := tfd |>);
            _ ← on_node (modify (fun n => n <| tun := OpenHandle |>));
            _ ← on_node (modify (fun n => n <| ctx_done := false |>));
            err ← Host_Run a first;
            match err with
            | Some e =>
                _ ← on_os (Conn_Close fd);
                _ ← on_node (modify (fun n => n <| conn := ClosedHandle |>));
                _ ← on_os (Tun_Close a tfd);
                _ ← on_node (modify (fun n => n <| tun := ClosedHandle |>));
                _ ← on_node (modify (fun n => n <| ctx_done := true |>));
                mret (Some e)
            | None => mret None
            end
        end
    end.

(** The calls to [Close] of a node's program other than its start. *)
Definition release (a : Answers) (n n' : Node) : go Host unit :=
  _ ← when (bool_decide (conn n = OpenHandle /\ conn n' = ClosedHandle))
        (h ← reads (fun h => h); _ ← on_os (Conn_Close (h_conn h)); mret tt);
  when (bool_decide (tun n = OpenHandle /\ tun n' = ClosedHandle))
    (h ← reads (fun h => h); _ ← on_os (Tun_Close a (h_tun h)); mret tt).

(** A start; or anything else the node does ([NodeLife.node_step]), with its devices. *)
Inductive other_step (n : Node) : Node -> Prop :=
| other_udp read b n' : ReadUDPPackets read n = Done b n' -> other_step n n'
| other_tun read b n' : ReadTunPackets read n = Done b n' -> other_step n n'
| other_down r n' : Down n = Done r n' -> other_step n n'
| other_login reply pkce r n' : Login reply pkce n = Done r n' -> other_step n n'
| other_stun r n' : sendStunRequest n = Done r n' -> other_step n n'
| other_routine ptr p s' :
    heap n !! ptr = Some p -> routine_step ptr (mkPS _ p (n_env n)) s' ->
    other_step n (n <| heap ::= <[ptr := self s']> |> <| n_env := env s' |>)
| other_peer_stop ptr rest n' :
    stops n ≡ₚ ptr :: rest -> on_peer ptr Peer_Stop n = Done tt n' -> other_step n (n' <| stops := rest |>)
| other_update u n' : HandleUpdate u n = Done tt n' -> other_step n n'.

Inductive host_step (h : Host) : Host -> Prop :=
| host_start a first r h' : Host_Start a first h = Done r h' -> host_step h h'
| host_other a n' h' :
    other_step (h_node h) n' -> release a (h_node h) n' (h <| h_node := n' |>) = Done tt h' -> host_step h h'.
End Host.

(** ** What the node's programs do to its handles *)

Section Handles.
Context `{Noise, PoolChoice, NodeExt}.
Implicit Types (n : Node).

Definition dev_obs n := (conn n, tun n, n_running n).

Lemma on_peer_dev {A} ptr (m : go PS A) : leaves dev_obs (on_peer ptr m).
Proof. intros n. unfold holds, on_peer. destruct (heap n !! ptr); [|done]. unfold zoom. by destruct (m _). Qed.
Lemma pools_dev {A} (m : go Pools A) : leaves dev_obs (on_pools m).
Proof. intros n. unfold holds, on_pools, on_env, zoom. by destruct (m _). Qed.

Ltac dv := repeat (first [apply on_peer_dev | apply pools_dev | lv_step | progress (unfold n_WriteToUDP)]; cbn beta).

Lemma lookupPeer_dev id : leaves dev_obs (lookupPeer id).
Proof. unfold lookupPeer. dv. Qed.
Lemma sendStunRequest_dev : leaves dev_obs sendStunRequest.
Proof. unfold sendStunRequest. dv. Qed.
Lemma OnUDPPacket_dev b : leaves dev_obs (OnUDPPacket b).
Proof. unfold OnUDPPacket, handleStunMessage, report_endpoint. dv; apply lookupPeer_dev. Qed.
Lemma ReadUDPPackets_dev read : leaves dev_obs (ReadUDPPackets read).
Proof. unfold ReadUDPPackets. dv; apply OnUDPPacket_dev. Qed.
Lemma OnTunnelPacket_dev b : leaves dev_obs (OnTunnelPacket b).
Proof. unfold OnTunnelPacket. dv. Qed.
Lemma ReadTunPackets_dev read : leaves dev_obs (ReadTunPackets read).
Proof. unfold ReadTunPackets. dv; apply OnTunnelPacket_dev. Qed.
Lemma Login_dev reply pkce : leaves dev_obs (Login reply pkce).
Proof. unfold Login, Login_finish. dv. Qed.
Lemma AddPeer_dev m : leaves dev_obs (AddPeer m).
Proof. unfold AddPeer. dv. Qed.
Lemma sync_peers_dev l : leaves dev_obs (sync_peers l).
Proof. induction l as [|m l IH]; cbn [sync_peers]; dv; [apply AddPeer_dev|exact IH]. Qed.

(** A stop closes both devices of a node that runs, and does nothing to one that does not. *)
Definition stops_or_leaves n n' : Prop :=
  dev_obs n' = dev_obs n \/ n_running n = true /\ dev_obs n' = (ClosedHandle, ClosedHandle, false).

Lemma leaves_stops {A} (m : go Node A) n : leaves dev_obs m -> holds m n (fun _ n' => stops_or_leaves n n').
Proof. intros Hm. eapply holds_mono; [|apply Hm]. by left. Qed.
Lemma Node_Stop_dev n : holds Node_Stop n (fun _ n' => stops_or_leaves n n').
Proof.
  unfold Node_Stop. apply holds_bind. unfold holds, reads. destruct (_ || _); [by left|]. destruct (n_running n) eqn:E; [|by left].
  by right.
Qed.
Lemma HandleUpdate_dev u n : holds (HandleUpdate u) n (fun _ n' => stops_or_leaves n n').
Proof.
  unfold HandleUpdate. destruct (UType u).
  - apply leaves_stops. unfold handleInitialSync, peer_list. dv. apply sync_peers_dev.
  - apply leaves_stops. unfold handlePeerConnectUpdate, peer_list. dv. apply AddPeer_dev.
  - by left.
  - apply leaves_stops. unfold handlePeerPunchRequest. dv.
  - unfold handleLogout. apply holds_bind. eapply holds_mono; [|apply Node_Stop_dev]. by intros r n' Hn'.
Qed.

Lemma done_stops {A} (m : go Node A) n r n' :
  holds m n (fun _ n' => stops_or_leaves n n') -> m n = Done r n' -> stops_or_leaves n n'.
Proof. unfold holds. by intros Hm E; rewrite E in Hm. Qed.
Lemma other_step_dev n n' : other_step n n' -> stops_or_leaves n n'.
Proof.
  intros [read b n1 E|read b n1 E|r n1 E|reply pkce r n1 E|r n1 E|ptr p s' Hp Hr|ptr rest n1 Hst E|u n1 E].
  - eapply done_stops, E. apply leaves_stops, ReadUDPPackets_dev.
  - eapply done_stops, E. apply leaves_stops, ReadTunPackets_dev.
  - eapply done_stops, E. unfold Down. apply holds_bind. eapply holds_mono; [|apply Node_Stop_dev]. by intros [e|] n2 Hn2.
  - eapply done_stops, E. apply leaves_stops, Login_dev.
  - eapply done_stops, E. apply leaves_stops, sendStunRequest_dev.
  - by left.
  - assert (Hn1 : stops_or_leaves n n1) by (eapply done_stops, E; apply leaves_stops, on_peer_dev). exact Hn1.
  - eapply done_stops, E. apply HandleUpdate_dev.
Qed.
End Handles.

(** ** The start implements [Node_Start], and the devices are accounted for *)

Section HostLemmas.
Context `{PlatformLaws, Noise, PoolChoice, NodeExt}.
Implicit Types (n : Node) (h : Host) (o : OS).

Lemma on_os_eq {A} (m : go OS A) h :
  on_os m h = match m (h_os h) with
              | Done x o => Done x (h <| h_os := o |>) | Crash c o => Crash c (h <| h_os := o |>)
              | Blocked w o => Blocked w (h <| h_os := o |>) end.
Proof. done. Qed.
Lemma on_os_inv {A} (m : go OS A) h x h' :
  on_os m h = Done x h' -> exists o, m (h_os h) = Done x o /\ h' = h <| h_os := o |>.
Proof. rewrite on_os_eq. destruct (m _); intros [= <- <-]. eauto. Qed.
Lemma on_node_inv {A} (m : go Node A) h x h' :
  on_node m h = Done x h' -> exists n, m (h_node h) = Done x n /\ h' = h <| h_node := n |>.
Proof. unfold on_node, zoom. destruct (m _); intros [= <- <-]. eauto. Qed.

Lemma Run_up_eq first n :
  conn n = OpenHandle -> tun n = OpenHandle -> Run (mkStartIO None None None first) n = Run_up first n.
Proof. intros E1 E2. unfold Run. unfold mbind at 1, go_bind at 1, reads at 1. by rewrite E1, E2. Qed.

(** [Node_Start] behind its two guards. *)
Definition Node_Started (io : StartIO) : go Node (option string) :=
  match io_conn io with
  | Some e => _ ← modify (fun n => n <| conn := NilHandle |>); mret (Some e)
  | None =>
      _ ← modify (fun n => n <| conn := OpenHandle |>);
      match io_tun io with
      | Some e =>
          _ ← modify (fun n => n <| tun := NilHandle |>); _ ← modify (fun n => n <| conn := ClosedHandle |>); mret (Some e)
      | None =>
          _ ← modify (fun n => n <| tun := OpenHandle |>);
          _ ← modify (fun n => n <| ctx_done := false |>);
          err ← Run io;
          match err with
          | Some e =>
              _ ← modify (fun n => n <| conn := ClosedHandle |>); _ ← modify (fun n => n <| tun := ClosedHandle |>);
              _ ← modify (fun n => n <| ctx_done := true |>); mret (Some e)
          | None => mret None
          end
      end
  end.
Lemma Node_Start_eq io n :
  Node_Start io n =
    if negb (loggedIn n) then Done (Some "node has not been logged in"%string) n
    else if n_running n then Done (Some "node is already running"%string) n
    else Node_Started io n.
Proof.
  unfold Node_Start. rewrite (bind_done _ _ _ n n) by done. destruct (negb _); [done|]. by destruct (n_running n).
Qed.

(** With the answers its devices give, the start is [Node_Start]. *)
Lemma Host_Start_refines a first h r h' :
  Host_Start a first h = Done r h' -> exists io, io_first io = first /\ Node_Start io (h_node h) = Done r (h_node h').
Proof.
  unfold Host_Start. intros (h0 & h1 & E0 & E)%bind_done_inv. injection E0 as <- <-.
  assert (Hguard : forall io, io_first io = first ->
    (if negb (loggedIn (h_node h)) then h' = h /\ r = Some "node has not been logged in"%string
     else if n_running (h_node h) then h' = h /\ r = Some "node is already running"%string
     else Node_Started io (h_node h) = Done r (h_node h')) ->
    exists io, io_first io = first /\ Node_Start io (h_node h) = Done r (h_node h')).
  { intros io Hio Hr. exists io. split; [done|]. rewrite Node_Start_eq.
    repeat case_match; [destruct Hr as [-> ->]..|]; done. }
  pose (answers := fun c t => mkStartIO c t None first).
  destruct (negb _) eqn:E1. { injection E as <- <-. by apply (Hguard (answers None None)). }
  destruct (n_running _) eqn:E2. { injection E as <- <-. by apply (Hguard (answers None None)). }
  apply bind_done_inv in E as (c & h2 & (o2 & _ & ->)%on_os_inv & E).
  destruct c as [fd|e]. 2: { injection E as <- <-. by apply (Hguard (answers (Some e) None)). }
  apply bind_done_inv in E as ([] & h3 & E3 & E). injection E3 as <-.
  apply bind_done_inv in E as ([] & h4 & E4 & E). injection E4 as <-.
  apply bind_done_inv in E as (t & h5 & (o5 & _ & ->)%on_os_inv & E).
  destruct t as [tfd|e].
  2: { apply bind_done_inv in E as ([] & h6 & E6 & E). injection E6 as <-.
       apply bind_done_inv in E as (x & h7 & (o7 & _ & ->)%on_os_inv & E).
       injection E as <- <-. by apply (Hguard (answers None (Some e))). }
  do 3 (apply bind_done_inv in E as ([] & ? & X & E); injection X as <-).
  apply bind_done_inv in E as (err & h9 & ER & E).
  set (n1 := (h_node h) <| conn := OpenHandle |> <| tun := OpenHandle |> <| ctx_done := false |>) in *.
  assert (HR : exists io, io_conn io = None /\ io_tun io = None /\ io_first io = first /\ Run io n1 = Done err (h_node h9)).
  { unfold Host_Run in ER. apply bind_done_inv in ER as (h10 & h11 & X & ER). injection X as <- <-.
    apply bind_done_inv in ER as (cerr & h12 & (o12 & _ & ->)%on_os_inv & ER).
    destruct cerr as [e|].
    - injection ER as <- <-. by exists (mkStartIO None None (Some e) first).
    - apply on_node_inv in ER as (n2 & ER & ->). exists (mkStartIO None None None first).
      split_and!; [done..|]. by rewrite Run_up_eq. }
  destruct HR as (io & Hc & Ht & Hf & HR). apply (Hguard io Hf). unfold Node_Started. rewrite Hc, Ht.
  do 3 (erewrite bind_done by reflexivity). rewrite (bind_done _ _ _ _ _ HR). destruct err as [e|].
  - apply bind_done_inv in E as (x & h10 & (o10 & _ & ->)%on_os_inv & E).
    apply bind_done_inv in E as ([] & ? & X & E). injection X as <-.
    apply bind_done_inv in E as (y & h12 & (o12 & _ & ->)%on_os_inv & E).
    do 2 (apply bind_done_inv in E as ([] & ? & X & E); injection X as <-). by injection E as <- <-.
  - by injection E as <- <-.
Qed.

(** Since the process had [o0] open, the node holds one socket and one tunnel more while it
    runs, and nothing otherwise. *)
Definition holds_devices (o0 : OS) h : Prop :=
  conn (h_node h) = OpenHandle /\ tun (h_node h) = OpenHandle /\
  socks o0 !! h_conn h = None /\ socks (h_os h) = <[h_conn h := h_port h]> (socks o0) /\
  tuns o0 !! h_tun h = None /\ exists name, tuns (h_os h) = <[h_tun h := name]> (tuns o0).
Definition holds_nothing (o0 : OS) h : Prop :=
  conn (h_node h) <> OpenHandle /\ tun (h_node h) <> OpenHandle /\ socks (h_os h) = socks o0 /\ tuns (h_os h) = tuns o0.
Record owns (o0 : OS) h : Prop := mkOwns {
  ow_os : os_ok (h_os h);
  ow_held : if n_running (h_node h) then holds_devices o0 h else holds_nothing o0 h
}.

Lemma holds_on_os {A} (m : go OS A) h (P : A -> OS -> Prop) (Q : A -> Host -> Prop) :
  holds m (h_os h) P -> (forall x o, P x o -> Q x (h <| h_os := o |>)) -> holds (on_os m) h Q.
Proof. intros Hm HQ. unfold holds in *. rewrite on_os_eq. destruct (m _); [by apply HQ|done..]. Qed.
Lemma holds_on_node {A} (m : go Node A) h (P : A -> Node -> Prop) (Q : A -> Host -> Prop) :
  holds m (h_node h) P -> (forall x n, P x n -> Q x (h <| h_node := n |>)) -> holds (on_node m) h Q.
Proof. intros Hm HQ. unfold holds, on_node, zoom in *. destruct (m _); [by apply HQ|done..]. Qed.

Lemma Run_up_dev first n :
  n_running n = false ->
  holds (Run_up first) n (fun err n' => conn n' = conn n /\ tun n' = tun n /\
    n_running n' = match err with Some _ => false | None => true end).
Proof.
  intros Hr. unfold Run_up. apply (leaves_then dev_obs); [apply sendStunRequest_dev|]. intros [e|] n1 E1; injection E1 as E1 E2 E3.
  - cbn. split_and!; congruence.
  - apply holds_bind. unfold StartUpdateStream, fatal. destruct first as [u|e]; [|done].
    eapply holds_mono; [|apply HandleUpdate_dev]. intros [] n2 [E|[Hbad _]]; [|congruence]. injection E as E4 E5 E6.
    unfold holds, mbind, go_bind, modify. cbn. split_and!; congruence.
Qed.

Lemma Host_Run_dev a first h :
  os_ok (h_os h) -> conn (h_node h) = OpenHandle -> tun (h_node h) = OpenHandle -> n_running (h_node h) = false ->
  holds (Host_Run a first) h (fun err h' =>
    os_ok (h_os h') /\ socks (h_os h') = socks (h_os h) /\ tuns (h_os h') = tuns (h_os h) /\
    h_conn h' = h_conn h /\ h_tun h' = h_tun h /\ h_port h' = h_port h /\
    conn (h_node h') = OpenHandle /\ tun (h_node h') = OpenHandle /\
    n_running (h_node h') = match err with Some _ => false | None => true end).
Proof.
  intros Hos Hc Ht Hr. unfold Host_Run. apply holds_bind. unfold holds at 1, reads. rewrite Hc, Ht.
  cbn [bool_decide orb decide]. apply holds_bind. eapply holds_on_os; [by apply Tun_Configure_law|].
  intros err o (Ho & Es & Et). cbn beta in *. destruct err as [e|]; [cbn; by rewrite Hc, Ht|].
  eapply holds_on_node; [by apply Run_up_dev|]. intros err n (E1 & E2 & E3). cbn in *. rewrite E1, E2. by split_and!.
Qed.

Lemma Host_Start_owns o0 a first h : owns o0 h -> holds (Host_Start a first) h (fun _ h' => owns o0 h').
Proof.
  intros Hown. pose proof Hown as [Hos Hheld]. unfold Host_Start. apply holds_bind. unfold holds at 1, reads.
  destruct (negb _); [done|]. destruct (n_running (h_node h)) eqn:Hr; [done|]. destruct Hheld as (Hc & Ht & Es & Et).
  apply holds_bind. eapply holds_on_os; [by apply NewConn_law|]. intros [fd|e] o1 (Ho1 & Et1 & Es1); cbn beta in *.
  2: { cbn. split; [done|]. cbn. rewrite Hr. split; [done|]. cbn. by rewrite Es1, Et1, Es, Et. }
  destruct Es1 as [Hfd Es1]. rewrite Es in Hfd, Es1.
  assert (Hback : delete fd (<[fd := h_port h]> (socks o0)) = socks o0) by by apply delete_insert_id.
  do 2 (apply holds_bind; unfold holds at 1; cbn). apply holds_bind. eapply holds_on_os; [cbn; by apply NewTun_law|].
  intros [tfd|e] o2 (Ho2 & Es2 & Et2); cbn in *.
  2: { apply holds_bind; unfold holds at 1; cbn. apply holds_bind. eapply holds_on_os; [cbn; by apply Conn_Close_law|].
       intros x o3 (Ho3 & Et3 & Es3). cbn in *. split; [done|]. cbn. rewrite Hr. split; [done|]. cbn. split; [done|].
       split; congruence. }
  destruct Et2 as [Htfd [name Et2]]. rewrite Et1, Et in Htfd, Et2.
  assert (Htback : delete tfd (<[tfd := name]> (tuns o0)) = tuns o0) by by apply delete_insert_id.
  do 3 (apply holds_bind; unfold holds at 1; cbn). apply holds_bind.
  eapply holds_mono; [|by apply Host_Run_dev]. intros err h4 (Ho4 & Es4 & Et4 & Ec & Etn & Ep & E1 & E2 & E3). cbn in *.
  destruct err as [e|].
  - apply holds_bind. eapply holds_on_os; [by apply Conn_Close_law|]. intros x o5 (Ho5 & Et5 & Es5). cbn in *.
    apply holds_bind; unfold holds at 1; cbn. apply holds_bind. eapply holds_on_os; [cbn; by apply Tun_Close_law|].
    intros y o6 (Ho6 & Es6 & Et6). cbn in *. split; [done|]. cbn. rewrite E3. split; [done|]. cbn. split; [done|]. split; congruence.
  - cbn. split; [done|]. rewrite E3. split_and!; [done..|congruence|congruence|congruence|congruence|]. exists name. congruence.
Qed.

Lemma release_owns o0 a h n' :
  owns o0 h -> stops_or_leaves (h_node h) n' ->
  holds (release a (h_node h) n') (h <| h_node := n' |>) (fun _ h' => owns o0 h' /\ h_node h' = n').
Proof.
  intros [Hos Hheld] Hstep. unfold release. destruct Hstep as [E|[Hr E]]; injection E as Ec Et Er.
  - assert (X : ~ (conn (h_node h) = OpenHandle /\ conn n' = ClosedHandle)) by (rewrite Ec; intros [? ?]; congruence).
    assert (Y : ~ (tun (h_node h) = OpenHandle /\ tun n' = ClosedHandle)) by (rewrite Et; intros [? ?]; congruence).
    rewrite (bool_decide_false _ X), (bool_decide_false _ Y).
    cbn. split; [|done]. split; [done|]. cbn. rewrite Er. unfold holds_devices, holds_nothing in *. cbn. rewrite Ec, Et. exact Hheld.
  - rewrite Hr in Hheld. destruct Hheld as (Hc & Ht & Hfd & Es & Htfd & name & Etn).
    rewrite bool_decide_true by done. rewrite bool_decide_true by done. cbn [when].
    do 2 (apply holds_bind). unfold holds at 1, reads. apply holds_bind. eapply holds_on_os; [cbn; by apply Conn_Close_law|].
    intros x o1 (Ho1 & Et1 & Es1). cbn in *. apply holds_bind. unfold holds at 1, reads. apply holds_bind.
    eapply holds_on_os; [cbn; by apply Tun_Close_law|]. intros y o2 (Ho2 & Es2 & Et2). cbn in *. split; [|done].
    split; [done|]. cbn. rewrite Er. split; cbn; [by rewrite Ec|]. split; [by rewrite Et|]. split.
    + rewrite Es2, Es1, Es. by apply delete_insert_id.
    + rewrite Et2, Et1, Etn. by apply delete_insert_id.
Qed.
End HostLemmas.

(** ** Properties *)

Section DeviceTheorems.
Context `{PlatformLaws, Noise, PoolChoice, NodeExt, !World}.

Lemma host_step_simulates o0 h h' :
  owns o0 h -> host_step h h' -> owns o0 h' /\ node_step (h_node h) (h_node h').
Proof.
  intros Hown [a first r h1 E|a n' h1 Ho E].
  - pose proof (Host_Start_owns o0 a first h Hown) as Hs. unfold holds in Hs. rewrite E in Hs. split; [done|].
    destruct (Host_Start_refines a first h r h1 E) as (io & _ & EN). destruct r as [e|].
    + apply node_quiet, (node_up_fails _ io e). unfold Up. by rewrite (bind_done _ _ _ _ _ EN).
    + apply (node_up _ io "node is running"). unfold Up. by rewrite (bind_done _ _ _ _ _ EN).
  - pose proof (release_owns o0 a h n' Hown (other_step_dev _ _ Ho)) as Hr. unfold holds in Hr. rewrite E in Hr.
    destruct Hr as [Hr ->]. split; [done|]. clear E Hr Hown.
    destruct Ho; [apply node_quiet; by econstructor..|by eapply node_update].
Qed.

Lemma host_step_port h h' : host_step h h' -> h_port h' = h_port h.
Proof.
  assert (Hl : forall A (m : go Host A) h r h', leaves h_port m -> m h = Done r h' -> h_port h' = h_port h).
  { intros A m h1 r h2 Hm E. specialize (Hm h1). unfold holds in Hm. by rewrite E in Hm. }
  intros [a first r h1 E|a n' h1 Ho E].
  - eapply Hl, E. unfold Host_Start, Host_Run, on_os, on_node. lv.
  - change (h_port h) with (h_port (h <| h_node := n' |>)). eapply Hl, E. unfold release, on_os. lv.
Qed.

(** C33. A node owns its devices. On either platform, whatever the operating system answers,
    from a node that has just been made in a process that has [o0] open, through any order of
    starts that succeed or fail at any point, stops, forced logouts, datagrams, packets,
    updates, logins, turns and timers: the node takes the steps of the node's own model, a start
    among them with the answers its devices gave; while it runs it has one socket, at its port,
    and one tunnel more than the process had; and while it does not it has nothing open. *)
Theorem node_owns_devices controller pools0 entropy n0 o0 port h
    (Hnew : NewNode controller pools0 entropy = Ok n0) (Hos : os_ok o0)
    (Hreach : reach host_step (mkHost n0 o0 0 0 port) h) :
  reach node_step n0 (h_node h) /\ h_port h = port /\
  if n_running (h_node h) then
    exists fd tfd name, socks o0 !! fd = None /\ tuns o0 !! tfd = None /\
      socks (h_os h) = <[fd := port]> (socks o0) /\ tuns (h_os h) = <[tfd := name]> (tuns o0)
  else socks (h_os h) = socks o0 /\ tuns (h_os h) = tuns o0.
Proof.
  assert (Hinit : owns o0 (mkHost n0 o0 0 0 port)).
  { split; [done|]. unfold NewNode in Hnew. repeat case_match; simplify_eq; by split_and!. }
  assert (HI : owns o0 h /\ reach node_step n0 (h_node h) /\ h_port h = port).
  { induction Hreach as [|h1 h2 Hr (IHo & IHr & IHp) Hs]; [by split; [|split; [constructor|]]|].
    destruct (host_step_simulates o0 h1 h2 IHo Hs) as [Ho Hn]. split; [done|]. split; [by eapply reach_step|].
    by rewrite (host_step_port _ _ Hs). }
  destruct HI as ([_ Hheld] & Hr & Hp). split; [done|]. split; [done|]. rewrite <- Hp.
  destruct (n_running (h_node h)).
  - destruct Hheld as (_ & _ & Hfd & Es & Htfd & name & Et). by exists (h_conn h), (h_tun h), name.
  - by destruct Hheld as (_ & _ & ? & ?).
Qed.
End DeviceTheorems.

(** ** A concrete host: node 1 on linux, logged in and up *)

Definition demo_os : OS := mkOS {[3 := 22]} ∅ ∅ [] [] (mkMachine []) ∅ ∅.
Definition demo_answers : Answers :=
  mkAnswers None None None None (Ok "tun0"%string) None None
    (WinTun.mkDriver false false WinTun.RxNoMoreItems WinTun.TxOk 0 None) None (fun _ => None).
(** The same, where the tunnel's address cannot be set. *)
Definition demo_refused : Answers :=
  mkAnswers None None None None (Ok "tun0"%string) None None
    (WinTun.mkDriver false false WinTun.RxNoMoreItems WinTun.TxOk 0 None) None (fun _ => Some "exit status 2"%string).

Definition demo_login_answer : NodeLoginResponse := mkNodeLoginResponse "login successful" "" "" "" "" "".
Definition demo_host0 : Host := mkHost demo_new demo_os 0 0 51820.
Definition demo_host1 : Host := mkHost demo_logged demo_os 0 0 51820.
Definition demo_start (a : Answers) (h : Host) : Host := final (Host_Start (H := unix "linux") a (Ok demo_init)) h.

Lemma demo_starts a h r :
  out_val (Host_Start (H := unix "linux") a (Ok demo_init) h) = Some r -> host_step (H := unix "linux") h (demo_start a h).
Proof. intros E. exact (host_start h a (Ok demo_init) r _ (final_run _ _ _ E)). Qed.
Lemma demo_host_up :
  reach (host_step (H := unix "linux")) demo_host0 (demo_start demo_answers (demo_start demo_refused demo_host1)).
Proof.
  apply (reach_step _ _ (demo_start demo_refused demo_host1)); [apply (reach_step _ _ demo_host1); [apply (reach_step _ _ demo_host0); [constructor|]|]|].
  - assert (E : Login (ReplyOk (Some (ProtoConfig demo_login_row))) (Err "none"%string) demo_new = Done (Ok demo_login_answer) demo_logged)
      by (unfold demo_logged; apply final_run; vm_compute; reflexivity).
    exact (host_other demo_host0 demo_answers demo_logged demo_host1 (other_login _ _ _ _ _ E) eq_refl).
  - apply (demo_starts _ _ (Some "ip link error: exit status 2"%string)). vm_compute. reflexivity.
  - apply (demo_starts _ _ None). vm_compute. reflexivity.
Qed.

Lemma node_owns_devices_witness :
  let h := demo_start demo_answers (demo_start demo_refused demo_host1) in
  n_running (h_node h) = true /\
  (exists fd tfd name, socks demo_os !! fd = None /\ tuns demo_os !! tfd = None /\
     socks (h_os h) = <[fd := 51820]> {[3 := 22]} /\ tuns (h_os h) = {[tfd := name]}) /\
  socks (h_os (demo_start demo_refused demo_host1)) = {[3 := 22]}.
Proof.
  intros h.
  destruct (node_owns_devices (H := unix "linux") "controller:50000" (mkPools [] [] 0 0) 42 demo_new demo_os 51820 h)
    as (_ & _ & Hh); [reflexivity|done|exact demo_host_up|].
  assert (E : n_running (h_node h) = true) by (vm_compute; reflexivity). rewrite E in Hh.
  split; [done|]. split; [exact Hh|]. vm_compute. reflexivity.
Defined.
