(* ===== verification/View.v ===== *)
(** What a node knows of the overlay: its two maps and the names, keys and addresses of its
    peers (node/node.go, node/peer.go), as a function of the controller's updates alone
    (node/grpcclient.go).

    [Who] is what an update says of a peer; [view] abstracts a node to two tables; [learn] is
    the effect of an update on them.  [hears] is a life of the node with the updates it has
    handled. *)

From S2P Require Import Prelude Bytes Header GoStd GoTime Netip Base64 Types Auth GoSync Queue Grpc.
From S2P Require Import NodePeer NoiseLaws NodeCore Transport PeerWp Lifecycle PeerData Sync Boot NodeLife.

(** ** The abstract table *)

Record Who : Type := mkWho { w_id : Z; w_host : string; w_key : list Z; w_ip : Addr }.

(** Peers by their ids, and by addresses the id of the peer a packet goes to. *)
Record View : Type := mkView { v_peers : gmap Z Who; v_routes : gmap Addr Z }.

Section Spec.
Context `{NodeExt}.

Definition v_add (v : View) (m : PeerMsg) : View :=
  match entry m with
  | Some (a, k, _) =>
      mkView (<[m_Id m := mkWho (m_Id m) (m_Hostname m) k a]> (v_peers v)) (<[a := m_Id m]> (v_routes v))
  | None => v
  end.

(** An update of a known peer: a key that does not decode is left, an address that does not
    parse is the zero address, and the routes stay as they are. *)
Definition v_update (w : Who) (m : PeerMsg) : Who :=
  mkWho (w_id w) (m_Hostname m)
    (match DecodeBase64Key (m_PublicKey m) with Ok k => k | Err _ => w_key w end) (updated_ip m).

Definition learn (v : View) (u : UpdateResponse) : View :=
  match UType u, UPeerList u with
  | INIT, Some l => foldl v_add v (Peers l)
  | CONNECT, Some l =>
      if bool_decide (Count l < 1) then v
      else
        match Peers l with
        | [] => v
        | m :: _ =>
            match v_peers v !! m_Id m with
            | None => v_add v m
            | Some w => mkView (<[m_Id m := v_update w m]> (v_peers v)) (v_routes v)
            end
        end
  | _, _ => v
  end.
End Spec.

(** ** The abstraction *)

Section Abstraction.
Context `{Noise, PoolChoice, NodeExt}.
Abbreviation Peer := NodePeer.Peer.
Implicit Types (n : Node) (p : Peer).

Definition who p : Who := mkWho (ID p) (Hostname p) (pubkey p) (IP p).

Definition view n : View :=
  mkView (omap (fun ptr => who <$> heap n !! ptr) (id_map n)) (omap (fun ptr => ID <$> heap n !! ptr) (ip_map n)).

(** A life of the node: the updates it has handled, in their order. *)
Inductive hears n : list UpdateResponse -> Node -> Prop :=
| hears_nil : hears n [] n
| hears_quiet us n1 n2 : hears n us n1 -> quiet_step n1 n2 -> hears n us n2
| hears_update us n1 u n2 : hears n us n1 -> HandleUpdate u n1 = Done tt n2 -> hears n (us ++ [u]) n2
| hears_up us n1 io u text n2 :
    hears n us n1 -> Up io n1 = Done (Ok text) n2 -> io_first io = Ok u -> hears n (us ++ [u]) n2.
End Abstraction.

(** ** Programs that do not touch who a peer is *)

Section SameWho.
Context `{Noise, PoolChoice}.
Abbreviation Peer := NodePeer.Peer.

Definition same_who {A} (m : go PS A) : Prop := forall s, holds m s (fun _ s' => who (self s') = who (self s)).

Lemma sm_bind {A B} (m : go PS A) (k : A -> go PS B) :
  same_who m -> (forall a, same_who (k a)) -> same_who (m ≫= k).
Proof.
  intros Hm Hk s. apply holds_bind. eapply holds_mono; [|apply Hm]. intros a s' E. rewrite <- E. apply Hk.
Qed.
Lemma sm_mret {A} (a : A) : same_who (mret a).
Proof. by intros s. Qed.
Lemma sm_reads {A} (f : PS -> A) : same_who (reads f).
Proof. by intros s. Qed.
Lemma sm_panic {A} c : same_who (panic c : go PS A).
Proof. by intros s. Qed.
Lemma sm_block {A} w : same_who (block w : go PS A).
Proof. by intros s. Qed.
Lemma sm_lib {A} (o : result crash A) : same_who (lib o).
Proof. by destruct o; intros s. Qed.
Lemma sm_slice b lo hi : same_who (slice_expr b lo hi).
Proof. unfold slice_expr. by intros s; destruct (reslice b lo hi). Qed.
Lemma sm_pmod f : (forall p, who (f p) = who p) -> same_who (pmod f).
Proof. intros Hf s. apply Hf. Qed.
Lemma sm_emod f : same_who (emod f).
Proof. by intros s. Qed.
Lemma sm_mu {A} (m : go RWMutex A) : same_who (with_mu m).
Proof. intros s. unfold holds, with_mu, zoom. by destruct (m _) as [a t|c t|w t]. Qed.
Lemma sm_pending {A} (m : go RWMutex A) : same_who (with_pending m).
Proof. intros s. unfold holds, with_pending, zoom. by destruct (m _) as [a t|c t|w t]. Qed.
Lemma sm_pools {A} (m : go Pools A) : same_who (with_pools m).
Proof. intros s. unfold holds, with_pools, zoom. by destruct (m _) as [a t|c t|w t]. Qed.
End SameWho.

Ltac sm_step :=
  lazymatch goal with
  | |- same_who (mbind _ _) => apply sm_bind; [|intros ?]
  | |- same_who (mret _) => apply sm_mret
  | |- same_who (reads _) => apply sm_reads
  | |- same_who (pget _) => apply sm_reads
  | |- same_who (eget _) => apply sm_reads
  | |- same_who (panic _) => apply sm_panic
  | |- same_who (block _) => apply sm_block
  | |- same_who (lib _) => apply sm_lib
  | |- same_who (slice_expr _ _ _) => apply sm_slice
  | |- same_who (pmod _) => apply sm_pmod; reflexivity
  | |- same_who (emod _) => apply sm_emod
  | |- same_who (with_mu _) => apply sm_mu
  | |- same_who (with_pending _) => apply sm_pending
  | |- same_who (with_pools _) => apply sm_pools
  | |- same_who (when ?b _) => unfold when; destruct b
  | |- same_who (match ?x with _ => _ end) => destruct x
  end.
Ltac sm := repeat (sm_step; cbn beta); auto with same_who.
Create HintDb same_who.

Section PeerPrograms.
Context `{Noise, PoolChoice}.
Abbreviation Peer := NodePeer.Peer.

Lemma sm_flushQueues : same_who flushQueues.
Proof.
  unfold flushQueues, flushHandshakeQueue, flushOutboundQueue, flushInboundQueue.
  apply sm_bind; [|intros _; apply sm_bind; [|intros _]]; (apply sm_bind; [apply sm_reads|intros q]);
    induction q; cbn; sm.
Qed.
#[local] Hint Resolve sm_flushQueues : same_who.
Lemma sm_ResetState : same_who ResetState.
Proof. unfold ResetState. sm. Qed.
#[local] Hint Resolve sm_ResetState : same_who.
Lemma sm_WriteToUDP b a : same_who (WriteToUDP b a).
Proof. unfold WriteToUDP. sm. Qed.
#[local] Hint Resolve sm_WriteToUDP : same_who.
Lemma sm_InitHandshake i : same_who (InitHandshake i).
Proof. unfold InitHandshake. sm. Qed.
#[local] Hint Resolve sm_InitHandshake : same_who.
Lemma sm_UpdateEndpoint a : same_who (UpdateEndpoint a).
Proof. unfold UpdateEndpoint. sm. Qed.
Lemma sm_UpdateEndpointLocked a : same_who (UpdateEndpointLocked a).
Proof. unfold UpdateEndpointLocked. sm. Qed.
#[local] Hint Resolve sm_UpdateEndpoint sm_UpdateEndpointLocked : same_who.
Lemma sm_TrySendHandshake r : same_who (TrySendHandshake r).
Proof. unfold TrySendHandshake, TrySendHandshake_send, handshakeP1, RequestPunch, Node_RequestPunch, fresh_random. sm. Qed.
#[local] Hint Resolve sm_TrySendHandshake : same_who.

Lemma sm_handshakeP2 b : same_who (handshakeP2_or_panic b).
Proof. unfold handshakeP2_or_panic, handshakeP2, handshakeP2_complete, handshakeP2_respond, fresh_random. sm. Qed.
#[local] Hint Resolve sm_handshakeP2 : same_who.
Lemma sm_Handshake_body b : same_who (Handshake_body b).
Proof. unfold Handshake_body. sm. Qed.
Lemma sm_Inbound_body b : same_who (Inbound_body b).
Proof. unfold Inbound_body, tun_Write. sm. Qed.
Lemma sm_Outbound_body b : same_who (Outbound_body b).
Proof. unfold Outbound_body. sm. Qed.
#[local] Hint Resolve sm_Handshake_body sm_Inbound_body sm_Outbound_body : same_who.
Lemma sm_recvs : same_who Inbound_recv /\ same_who Outbound_recv /\ same_who Handshake_recv.
Proof. unfold Inbound_recv, Outbound_recv, Handshake_recv. split; [|split]; sm. Qed.
Lemma sm_timers ptr : same_who HandshakeTimeout /\ same_who (TXTimeout ptr) /\ same_who RXTimeout.
Proof. unfold HandshakeTimeout, TXTimeout, RXTimeout, send_outbound. split; [|split]; sm. Qed.
Lemma sm_exits f : same_who (Handshake_exit f) /\ same_who (Inbound_exit f) /\ same_who (Outbound_exit f).
Proof.
  destruct sm_recvs as (R1 & R2 & R3). induction f as [|f (I1 & I2 & I3)]; cbn; split_and!; sm.
Qed.
Lemma sm_Peer_Stop : same_who Peer_Stop.
Proof.
  unfold Peer_Stop, Peer_Stop_begin, wait_group, send_handshakes, send_inbound, send_outbound.
  sm; apply sm_exits.
Qed.
Lemma sm_Peer_Start : same_who Peer_Start.
Proof. unfold Peer_Start. sm. Qed.
Lemma sm_packets b o : same_who (InboundPacket b) /\ same_who (OutboundPacket o).
Proof. unfold InboundPacket, OutboundPacket. split; sm. Qed.
Lemma sm_handshake_queued b : same_who (r ← pget running; when r (send_handshakes (Some b))).
Proof. unfold send_handshakes. sm. Qed.

Lemma routine_who ptr s s' : routine_step ptr s s' -> who (self s') = who (self s).
Proof.
  destruct sm_recvs as (R1 & R2 & R3). destruct (sm_timers ptr) as (T1 & T2 & T3).
  assert (Hdone : forall m : go PS unit, same_who m -> m s = Done tt s' -> who (self s') = who (self s)).
  { intros m Hm E. specialize (Hm s). unfold holds in Hm. by rewrite E in Hm. }
  destruct 1; match goal with E : ?m s = Done tt s' |- _ => apply (Hdone m); [unfold fire; sm|exact E] end.
Qed.
End PeerPrograms.

(** ** Programs that leave the view *)

Section SameView.
Context `{Noise, PoolChoice, NodeExt}.
Abbreviation Peer := NodePeer.Peer.
Implicit Types (n : Node) (p : Peer).

(** The maps are the same and lead to the same peers. *)
Definition same_look n n' : Prop :=
  who <$> heap n' = who <$> heap n /\ id_map n' = id_map n /\ ip_map n' = ip_map n.
Definition deaf {A} (m : go Node A) : Prop := forall n, holds m n (fun _ n' => same_look n n').

Lemma same_look_trans n1 n2 n3 : same_look n1 n2 -> same_look n2 n3 -> same_look n1 n3.
Proof. intros (E1 & E2 & E3) (F1 & F2 & F3). split_and!; congruence. Qed.

Lemma same_look_view n n' : same_look n n' -> view n' = view n.
Proof.
  intros (Eh & Ei & Ea). unfold view. rewrite Ei, Ea.
  assert (Hw : forall ptr, who <$> heap n' !! ptr = who <$> heap n !! ptr)
    by (intros ptr; by rewrite <- !lookup_fmap, Eh).
  f_equal; apply map_eq; intros k; rewrite !lookup_omap; (destruct (_ !! k) as [ptr|]; [|done]); cbn; specialize (Hw ptr); [done|].
  unfold who in Hw. destruct (heap n' !! ptr), (heap n !! ptr); cbn in *; congruence.
Qed.

Lemma same_look_peer n ptr p p' e :
  heap n !! ptr = Some p -> who p' = who p -> same_look n (n <| heap ::= <[ptr := p']> |> <| n_env := e |>).
Proof.
  intros Hp Hw. split_and!; [|done..]. cbn. rewrite fmap_insert, Hw. apply insert_id. by rewrite lookup_fmap, Hp.
Qed.

Lemma df_bind {A B} (m : go Node A) (k : A -> go Node B) : deaf m -> (forall a, deaf (k a)) -> deaf (m ≫= k).
Proof.
  intros Hm Hk n. apply holds_bind. eapply holds_mono; [|apply Hm]. intros a n1 H1'.
  eapply holds_mono; [|apply Hk]. intros b n2 H2'. exact (same_look_trans _ _ _ H1' H2').
Qed.
Lemma df_mret {A} (a : A) : deaf (mret a).
Proof. by intros n. Qed.
Lemma df_reads {A} (f : Node -> A) : deaf (reads f).
Proof. by intros n. Qed.
Lemma df_panic {A} c : deaf (panic c : go Node A).
Proof. by intros n. Qed.
Lemma df_modify f :
  (forall n, heap (f n) = heap n /\ id_map (f n) = id_map n /\ ip_map (f n) = ip_map n) -> deaf (modify f).
Proof. intros Hf n. unfold holds, modify, same_look. destruct (Hf n) as (-> & -> & ->). done. Qed.
Lemma df_env {A} (m : go Env A) : deaf (on_env m).
Proof. intros n. unfold holds, on_env, zoom. by destruct (m _). Qed.
Lemma df_peer {A} ptr (m : go PS A) : same_who m -> deaf (on_peer ptr m).
Proof.
  intros Hm n. unfold holds, on_peer. destruct (heap n !! ptr) as [p|] eqn:Hp; [|done].
  specialize (Hm (mkPS _ p (n_env n))). unfold holds in Hm. unfold zoom. destruct (m _) as [a s'|c s'|w s']; [|done..].
  by eapply same_look_peer.
Qed.
End SameView.

Ltac df_step :=
  lazymatch goal with
  | |- deaf (mbind _ _) => apply df_bind; [|intros ?]
  | |- deaf (mret _) => apply df_mret
  | |- deaf (reads _) => apply df_reads
  | |- deaf (panic _) => apply df_panic
  | |- deaf (modify _) => apply df_modify; intros ?; split_and!; reflexivity
  | |- deaf (on_env _) => apply df_env
  | |- deaf (on_pools _) => unfold on_pools; apply df_env
  | |- deaf (when ?b _) => unfold when; destruct b
  | |- deaf (match ?x with _ => _ end) => destruct x
  end.
Ltac df := repeat (df_step; cbn beta).

Section QuietPrograms.
Context `{NoiseSession, PoolChoice, NodeExt}.
Abbreviation Peer := NodePeer.Peer.
Implicit Types (n : Node) (p : Peer).

Lemma df_n_WriteToUDP b a : deaf (n_WriteToUDP b a).
Proof. unfold n_WriteToUDP. df. Qed.
Lemma df_stun_sent : deaf sendStunRequest.
Proof. unfold sendStunRequest. df. apply df_n_WriteToUDP. Qed.
Lemma df_Node_Stop : deaf Node_Stop.
Proof. unfold Node_Stop, StopAllPeers. df. Qed.
Lemma df_handleStun b : deaf (handleStunMessage b).
Proof. unfold handleStunMessage, report_endpoint. df. Qed.

Lemma df_OnUDPPacket b : deaf (OnUDPPacket b).
Proof.
  unfold OnUDPPacket, lookupPeer. df; try apply df_handleStun; apply df_peer; [apply sm_handshake_queued|].
  apply (sm_packets _ NewOutboundBuffer).
Qed.
Lemma df_ReadUDPPackets read : deaf (ReadUDPPackets read).
Proof. unfold ReadUDPPackets. df. apply df_OnUDPPacket. Qed.
Lemma df_ReadTunPackets read : deaf (ReadTunPackets read).
Proof. unfold ReadTunPackets, OnTunnelPacket. df. apply df_peer. apply (sm_packets NewInboundBuffer). Qed.
Lemma df_Login reply pkce : deaf (Login reply pkce).
Proof. unfold Login, Login_finish. df. Qed.

Lemma deaf_done {A} (m : go Node A) n a n' : deaf m -> m n = Done a n' -> same_look n n'.
Proof. intros Hm E. specialize (Hm n). unfold holds in Hm. by rewrite E in Hm. Qed.

(** A start that fails has handled no message; one that succeeds has handled the first. *)
Definition calm_to n n' : Prop := same_look n n' /\ (node_ok n -> node_ok n').
Definition heard {X} io n (err : option X) n' : Prop :=
  match err with
  | Some _ => same_look n n'
  | None => exists u n1 n2, io_first io = Ok u /\ calm_to n n1 /\ HandleUpdate u n1 = Done tt n2 /\ same_look n2 n'
  end.
Lemma heard_after {X} io n n' (err : option X) n'' : calm_to n n' -> heard io n' err n'' -> heard io n err n''.
Proof.
  intros [Hl Hk]. destruct err; cbn; [by apply same_look_trans|].
  intros (u & n1 & n2 & E & [Hl1 Hk1] & Hu). exists u, n1, n2. split; [done|].
  split; [split; [by apply (same_look_trans _ n')|auto]|done].
Qed.
Lemma holds_set {A} f (k : go Node A) n Q : holds k (f n) Q -> holds (_ ← modify f; k) n Q.
Proof. done. Qed.
Lemma holds_get {A B} (f : Node -> A) (k : A -> go Node B) n Q : holds (k (f n)) n Q -> holds (a ← reads f; k a) n Q.
Proof. done. Qed.

Lemma Run_heard io n : holds (Run io) n (heard io n).
Proof.
  unfold Run. apply holds_get. destruct (_ || _); [done|]. destruct (io_configure io); [done|].
  apply holds_bind.
  assert (Hsent : holds sendStunRequest n (fun _ n1 => calm_to n n1)).
  { pose proof (df_stun_sent n) as Hd. pose proof (sendStunRequest_kept n) as Hk. unfold holds in *.
    destruct (sendStunRequest n); done. }
  eapply holds_mono; [|exact Hsent]. intros [x|] n1 Hl; [apply Hl|].
  unfold StartUpdateStream. destruct (io_first io) as [u|x] eqn:Eu; [|done].
  apply holds_bind. unfold holds at 1. destruct (HandleUpdate u n1) as [[] n2| |] eqn:E; [|done..].
  exists u, n1, n2. done.
Qed.
Lemma Node_Start_heard io n : holds (Node_Start io) n (heard io n).
Proof.
  unfold Node_Start. apply holds_get. destruct (negb _); [done|]. destruct (n_running _); [done|].
  destruct (io_conn io); [by apply holds_set|]. apply holds_set.
  destruct (io_tun io); [by do 2 apply holds_set|]. do 2 apply holds_set.
  apply holds_bind. eapply holds_mono; [|apply Run_heard]. intros err n' Hr.
  apply (heard_after _ n) in Hr; [|split; [done|]; intros Hn; by apply (node_ok_frame n); try apply Hn]. destruct err as [x|]; [|done]. by do 3 apply holds_set.
Qed.
Lemma Up_heard io n r n' :
  Up io n = Done r n' -> heard io n (match r with Err e => Some e | Ok _ => None end) n'.
Proof.
  unfold Up. intros (err & n1 & E & E1)%bind_done_inv. pose proof (Node_Start_heard io n) as Hh.
  unfold holds in Hh. rewrite E in Hh. destruct err; by injection E1 as <- <-.
Qed.

Lemma quiet_view n n' : quiet_step n n' -> view n' = view n.
Proof.
  intros Hq. apply same_look_view. destruct Hq as [read b n' E|read b n' E|io e n' E|r n' E|reply pkce r n' E|r n' E|ptr p s' Hp Hr|ptr rest n' Hst E].
  - by eapply deaf_done, E; apply df_ReadUDPPackets.
  - by eapply deaf_done, E; apply df_ReadTunPackets.
  - by apply Up_heard in E.
  - eapply deaf_done, E. unfold Down. df. apply df_Node_Stop.
  - by eapply deaf_done, E; apply df_Login.
  - by eapply deaf_done, E; apply df_stun_sent.
  - eapply same_look_peer; [done|]. by apply (routine_who _ _ _ Hr).
  - apply (same_look_trans _ n'); [|done]. by eapply deaf_done, E; apply df_peer, sm_Peer_Stop.
Qed.
End QuietPrograms.

(** ** What an update teaches *)

Section Learning.
Context `{NoiseSession, PoolChoice, NodeExt}.
Abbreviation Peer := NodePeer.Peer.
Implicit Types (n : Node) (p : Peer) (m : PeerMsg).

Lemma holds_who {A B} (c : go PS A) (k : A -> go PS B) s Q :
  same_who c -> (forall a s', who (self s') = who (self s) -> holds (k a) s' Q) -> holds (c ≫= k) s Q.
Proof. intros Hc Hk. apply holds_bind. eapply holds_mono; [|apply Hc]. intros a s'. apply Hk. Qed.

Lemma holds_pmod_who {B} f g (k : unit -> go PS B) s Q :
  (forall p, who (f p) = g (who p)) ->
  (forall s', who (self s') = g (who (self s)) -> holds (k tt) s' Q) -> holds (pmod f ≫= k) s Q.
Proof. intros Hf Hk. apply holds_bind, holds_pmod. apply Hk. apply Hf. Qed.
Lemma holds_same {A} (c : go PS A) s w : same_who c -> who (self s) = w -> holds c s (fun _ s' => who (self s') = w).
Proof. intros Hc <-. apply Hc. Qed.

Lemma Update_hostname_who w new s :
  who (self s) = w ->
  holds (Update_hostname (w_host w) new) s (fun _ s' => who (self s') = mkWho (w_id w) new (w_key w) (w_ip w)).
Proof.
  intros Hw. unfold Update_hostname. case_bool_decide as E.
  - apply holds_who; [apply sm_mu|]. intros _ s1 E1.
    apply (holds_pmod_who _ (fun w => mkWho (w_id w) new (w_key w) (w_ip w))); [done|]. intros s2 E2.
    apply holds_same; [apply sm_mu|]. by rewrite E2, E1, Hw.
  - unfold holds. cbn. rewrite <- E, Hw. by destruct w.
Qed.
Lemma Update_key_who w new s :
  who (self s) = w ->
  holds (Update_key (w_key w) new) s (fun _ s' =>
    who (self s') = mkWho (w_id w) (w_host w) (match DecodeBase64Key new with Ok k => k | Err _ => w_key w end) (w_ip w)).
Proof.
  intros Hw. unfold Update_key. destruct (DecodeBase64Key new) as [k|e]; [|unfold holds; cbn; rewrite Hw; by destruct w].
  case_bool_decide as E.
  - apply holds_who; [apply sm_Peer_Stop|]. intros _ s1 E1. apply holds_who; [apply sm_mu|]. intros _ s2 E2.
    apply (holds_pmod_who _ (fun w => mkWho (w_id w) (w_host w) k (w_ip w))); [done|]. intros s3 E3.
    apply holds_who; [apply sm_mu|]. intros _ s4 E4. apply holds_who; [apply sm_Peer_Start|]. intros err s5 E5.
    apply holds_same; [destruct err; sm|]. by rewrite E5, E4, E3, E2, E1, Hw.
  - unfold holds. cbn. rewrite <- E, Hw. by destruct w.
Qed.
Lemma Update_ip_who w m s :
  who (self s) = w ->
  holds (Update_ip (w_ip w) (m_Ip m)) s (fun _ s' => who (self s') = mkWho (w_id w) (w_host w) (w_key w) (updated_ip m)).
Proof.
  intros Hw. unfold Update_ip. fold (updated_ip m). case_bool_decide as E.
  - apply holds_who; [apply sm_mu|]. intros _ s1 E1.
    apply (holds_pmod_who _ (fun w => mkWho (w_id w) (w_host w) (w_key w) (updated_ip m))); [done|]. intros s2 E2.
    apply holds_same; [apply sm_mu|]. by rewrite E2, E1, Hw.
  - apply AddrCompare_eq in E. unfold holds. cbn. rewrite <- E, Hw. by destruct w.
Qed.

(** An update that is not refused for its endpoint. *)
Lemma Update_who m p e :
  holds (Update m) (mkPS _ p e) (fun err s' => err = None -> who (self s') = v_update (who p) m).
Proof.
  unfold Update. apply holds_who; [apply sm_mu|]. intros _ s1 E1. cbn in E1. apply holds_bind. unfold holds at 1. cbn.
  apply holds_who; [apply sm_mu|]. intros _ s2 E2. destruct (ParseAddrPort _) as [ap|x]; [|done].
  apply holds_who; [unfold Update_endpoint; sm|]. intros _ s3 E3.
  assert (Ew : who (self s3) = who (self s1)) by congruence. clear E2 E3.
  apply holds_bind. eapply holds_mono; [|by apply (Update_hostname_who (who (self s1)))]. intros [] s4 E4.
  apply holds_bind. eapply holds_mono; [|by apply (Update_key_who _ (m_PublicKey m) s4 E4)]. intros [] s5 E5.
  apply holds_bind. eapply holds_mono; [|by apply (Update_ip_who _ m s5 E5)]. intros [] s6 E6 _.
  rewrite <- E1. exact E6.
Qed.

(** The view of a node with a new peer. *)
Lemma heap_fresh n ptr : node_ok n -> is_Some (heap n !! ptr) -> ptr <> next_ptr n.
Proof. intros Hn Hp ->. pose proof (nok_heap _ Hn _ Hp). lia. Qed.

Lemma with_peer_view m a k ua n :
  node_ok n -> entry m = Some (a, k, ua) -> view (with_peer m a k ua n) = v_add (view n) m.
Proof.
  intros Hn He. unfold view, v_add. rewrite He. f_equal; apply map_eq; intros j; cbn [v_peers v_routes];
    rewrite lookup_omap, lookup_insert; cbn; rewrite lookup_insert; case_decide as E.
  - by cbn; rewrite lookup_insert_eq.
  - rewrite lookup_omap. destruct (id_map n !! j) as [ptr|] eqn:Ej; [|done]. cbn.
    destruct (nok_ids _ Hn _ _ Ej) as (p & Hp & _). rewrite lookup_insert_ne; [done|].
    intros <-. eapply heap_fresh; [done|by eexists|done].
  - by cbn; rewrite lookup_insert_eq.
  - rewrite lookup_omap. destruct (ip_map n !! j) as [ptr|] eqn:Ej; [|done]. cbn.
    rewrite lookup_insert_ne; [done|]. intros <-. eapply heap_fresh; [done| |done]. by eapply nok_ips.
Qed.
Lemma with_peer_kept m a k ua n : node_ok n -> entry m = Some (a, k, ua) -> node_ok (with_peer m a k ua n).
Proof.
  intros Hn He. pose proof (sync_peers_kept [m] n Hn) as Hk. unfold holds in Hk. cbn [sync_peers] in Hk.
  by rewrite (add_and_start m a k ua n _ He) in Hk.
Qed.

Lemma sync_peers_view l n n' : node_ok n -> sync_peers l n = Done tt n' -> view n' = foldl v_add (view n) l.
Proof.
  revert n. induction l as [|m l IH]; intros n Hn E; [by injection E as <-|]. cbn [sync_peers] in E.
  destruct (entry m) as [[[a k] ua]|] eqn:He.
  - rewrite (add_and_start m a k ua n _ He) in E. cbn [foldl]. rewrite <- (with_peer_view m a k ua n) by done.
    apply IH; [by apply with_peer_kept|done].
  - destruct (AddPeer_bad m n He) as [x Ex]. by rewrite (bind_done _ _ _ _ _ Ex) in E.
Qed.

(** The view of a node one of whose peers has changed. *)
Lemma changed_view n id ptr p p' e :
  node_ok n -> id_map n !! id = Some ptr -> heap n !! ptr = Some p -> ID p' = ID p ->
  view (n <| heap ::= <[ptr := p']> |> <| n_env := e |>) = mkView (<[id := who p']> (v_peers (view n))) (v_routes (view n)).
Proof.
  intros Hn Hid Hp HID. unfold view. cbn. f_equal; apply map_eq; intros j; rewrite !lookup_omap.
  - rewrite lookup_insert. case_decide as E; [subst j; rewrite Hid; cbn; by rewrite lookup_insert_eq|].
    rewrite lookup_omap. destruct (id_map n !! j) as [q|] eqn:Ej; [|done]. cbn. rewrite lookup_insert_ne; [done|].
    intros ->. destruct (nok_ids _ Hn _ _ Ej) as (x & Hx & <-). destruct (nok_ids _ Hn _ _ Hid) as (y & Hy & <-). congruence.
  - destruct (ip_map n !! j) as [q|]; [|done]. cbn. rewrite lookup_insert. case_decide as E; [|done].
    subst q. by rewrite Hp; cbn; rewrite HID.
Qed.

Lemma view_known n id : node_ok n -> v_peers (view n) !! id = None <-> id_map n !! id = None.
Proof.
  intros Hn. cbn. rewrite lookup_omap. destruct (id_map n !! id) as [ptr|] eqn:Ei; [|done].
  destruct (nok_ids _ Hn _ _ Ei) as (p & Hp & _). cbn. rewrite Hp. by split.
Qed.

Lemma connect_view u n n' :
  node_ok n -> UType u = CONNECT -> HandleUpdate u n = Done tt n' -> view n' = learn (view n) u.
Proof.
  intros Hn Hu E. unfold learn. rewrite Hu. destruct (UPeerList u) as [l|] eqn:Hl.
  2: { unfold HandleUpdate, handlePeerConnectUpdate, peer_list in E. by rewrite Hu, Hl in E. }
  case_bool_decide as Hc.
  { unfold HandleUpdate, handlePeerConnectUpdate, peer_list in E. rewrite Hu, Hl in E.
    rewrite (bind_done _ _ _ l n), bool_decide_true in E by done. by injection E as <-. }
  destruct (Peers l) as [|m rest] eqn:Hp.
  { unfold HandleUpdate, handlePeerConnectUpdate, peer_list in E. rewrite Hu, Hl in E.
    by rewrite (bind_done _ _ _ l n), bool_decide_false, bool_decide_false, Hp in E by (done || tauto). }
  destruct (id_map n !! m_Id m) as [ptr|] eqn:Ei.
  - destruct (nok_ids _ Hn _ _ Ei) as (p & Hptr & HI).
    assert (Hw : v_peers (view n) !! m_Id m = Some (who p)) by (cbn; rewrite lookup_omap, Ei; cbn; by rewrite Hptr).
    rewrite Hw. rewrite (connect_eq u l m rest), Ei in E by (done || lia).
    apply bind_done_inv in E as (err & n1 & E & E1). destruct err as [x|]; [done|]. injection E1 as <-.
    unfold on_peer in E. rewrite Hptr in E. unfold zoom in E. pose proof (Update_who m p (n_env n)) as HU.
    unfold holds in HU. destruct (Update m _) as [err s'| |]; [|done..]. injection E as -> <-. specialize (HU eq_refl).
    rewrite <- HU. apply (changed_view n _ _ p); [done..|]. by injection HU.
  - rewrite (proj2 (view_known n _ Hn) Ei). destruct (connect_update n u l m rest Hu Hl Hp) as (Hadd & _); [lia|].
    specialize (Hadd Ei). unfold v_add. destruct (entry m) as [[[a k] ua]|] eqn:He; rewrite Hadd in E; injection E as <-.
    + rewrite (with_peer_view m a k ua n) by done. unfold v_add. by rewrite He.
    + done.
Qed.

Lemma HandleUpdate_view u n n' : node_ok n -> HandleUpdate u n = Done tt n' -> view n' = learn (view n) u.
Proof.
  intros Hn E. destruct (UType u) eqn:Hu; [|by apply connect_view|..];
    unfold HandleUpdate in E; unfold learn; rewrite Hu in *.
  - unfold handleInitialSync, peer_list in E. destruct (UPeerList u) as [l|]; [|done].
    apply bind_done_inv in E as (? & ? & [= <- <-] & E). by apply sync_peers_view.
  - by injection E as <-.
  - apply same_look_view. eapply deaf_done, E. unfold handlePeerPunchRequest. df. apply df_n_WriteToUDP.
  - apply same_look_view. eapply deaf_done, E. unfold handleLogout. df. apply df_Node_Stop.
Qed.

Lemma hears_reach n us n' : hears n us n' -> reach node_step n n'.
Proof.
  induction 1 as [|? ? ? _ IH Hq|? ? ? ? _ IH E|? ? ? ? ? ? _ IH E _]; [constructor|eapply reach_step; [exact IH|]..].
  - by apply node_quiet. - by eapply node_update. - by eapply node_up.
Qed.
Lemma reach_hears n n' : reach node_step n n' -> exists us, hears n us n'.
Proof.
  induction 1 as [|n1 n2 _ [us IH] Hs]; [exists []; constructor|].
  destruct Hs as [n2 Hq|u n2 E|io text n2 E].
  - exists us. by eapply hears_quiet.
  - exists (us ++ [u]). by eapply hears_update.
  - pose proof (Up_heard _ _ _ _ E) as (u & n3 & n4 & Eu & _). exists (us ++ [u]). by eapply hears_up.
Qed.
End Learning.

(** ** Properties *)

Section ViewTheorems.
Context `{NoiseSession, PoolChoice, NodeExt, !World}.

(** C32. What a node knows of the overlay is what the controller told it. Every state the node
    can reach is reached by a life with the updates it has handled, and in every such life its
    two tables - who the peer of an id is: its name, key and address; which id a packet to an
    address goes to - are the updates' effects in their order, on empty tables: packets, timers,
    handshakes, stops, logins and starts that fail change nothing. A known peer's update
    changes the first table only. *)
Theorem view_is_heard controller pools0 entropy n0 n
    (Hnew : NewNode controller pools0 entropy = Ok n0) (Hpools : pools_clean pools0) :
  (reach node_step n0 n <-> exists us, hears n0 us n) /\
  (forall us, hears n0 us n -> view n = foldl learn (mkView ∅ ∅) us).
Proof.
  split; [split; [apply reach_hears|intros [us Hh]; by eapply hears_reach]|].
  assert (Hn0 : node_ok n0) by (by eapply NewNode_ok). intros us Hh.
  induction Hh as [|us n1 n2 Hh IH Hq|us n1 u n2 Hh IH E|us n1 io u text n2 Hh IH E Eu].
  - revert Hnew. unfold NewNode. by repeat case_match; intros; simplify_eq.
  - by rewrite (quiet_view _ _ Hq).
  - rewrite foldl_snoc, <- IH. apply HandleUpdate_view; [|done].
    eapply reach_invariant; [exact Hn0|apply node_step_ok|by eapply hears_reach].
  - rewrite foldl_snoc, <- IH. pose proof (Up_heard _ _ _ _ E) as (u' & n3 & n4 & Eu' & [L1 K1] & EH & L2).
    assert (u' = u) as -> by congruence. rewrite (same_look_view _ _ L2), <- (same_look_view _ _ L1).
    apply HandleUpdate_view; [|done]. apply K1.
    eapply reach_invariant; [exact Hn0|apply node_step_ok|by eapply hears_reach].
Qed.
End ViewTheorems.

(** ** A concrete life

    The peer 3 is announced again, with another name and address. *)

Definition demo_moved : UpdateResponse :=
  mkUpdateResponse CONNECT
    (Some (mkPeerList [mkPeerMsg 3 "DQ==" "moved" "100.70.0.9" "192.0.2.3:5000" "100.70.0.0/24" "ann" true] 1)) "".
Definition demo_told : Node := final (HandleUpdate demo_moved) demo_up.

Lemma demo_told_hears : hears demo_new [demo_init; demo_moved] demo_told.
Proof.
  apply (hears_update _ [demo_init] demo_up).
  - apply (hears_up _ [] demo_logged demo_start_io demo_init "node is running"%string); [| |reflexivity].
    2: { apply (final_run (Up demo_start_io) demo_logged). vm_compute. reflexivity. }
    eapply hears_quiet; [constructor|]. eapply node_login.
    apply (final_run (Login (ReplyOk (Some (ProtoConfig demo_login_row))) (Err "none"%string)) demo_new).
    vm_compute. reflexivity.
  - unfold demo_told. apply final_run. vm_compute. reflexivity.
Qed.

(** The node knows the peer under its new name and address, and has no route to it. *)
Lemma view_is_heard_witness :
  v_peers (view demo_told) !! 3 = Some (mkWho 3 "moved" [13] (Addr4 0x64460009)) /\
  v_routes (view demo_told) !! Addr4 0x64460009 = None /\ v_routes (view demo_told) !! Addr4 0x64460003 = Some 3.
Proof.
  destruct (view_is_heard "controller:50000" (mkPools [] [] 0 0) 42 demo_new demo_told) as [_ Hview].
  - reflexivity.
  - split; constructor.
  - rewrite (Hview _ demo_told_hears). split; [|split]; vm_compute; reflexivity.
Defined.
