(* ===== verification/Commands.v ===== *)
(** The command line of the node (node/cmd/service.go, root.go, keypair.go) and its login in a
    browser (node/authflow.go).

    The commands talk to the service of a node that runs beside them; [Cli] is the command's
    process, the node and the controller behind it.  A run that crashes is a crash of the
    command's own process: a node that crashes while it is called is dead ([cl_alive]), and the
    call fails. *)

From S2P Require Import Prelude Bytes GoStd GoTime Netip Base64 Types Store MemStore Ipam Auth Controller Grpc.
From S2P Require Import GoSync Queue NodePeer NoiseLaws NodeCore Transport Sync Overlay Boot.

Definition newline : string := String "010"%char "".

(** ** authflow.go *)

Record OAuthConfig : Type := mkOAuthConfig {
  ClientID : string; AuthURL : string; TokenURL : string; RedirectURL : string; Scopes : list string
}.

(** The oauth2 library, the desktop and the network of the machine the command runs on. *)
Class Desktop : Type := {
  GenerateVerifier : string;
  (** With the S256 challenge of the verifier and the audience as its options. *)
  AuthCodeURL : OAuthConfig -> string -> string -> string -> string;
  (** [Exchange(ctx, code, VerifierOption(verifier))]: the access token; with an error the token
      is nil. *)
  Exchange : OAuthConfig -> string -> string -> result string string;
  (** [url.Parse], then [Port]. *)
  url_Port : string -> result string string;
  net_Listen : string -> option string;
  open_Start : string -> option string
}.

(** [tok] is the package's variable, [registered] that the process-wide multiplexer has a
    handler for [/]; [pages] is what the browser was shown, [urls] what it was sent to - or, when
    that failed, the user was asked to open. *)
Record AuthSt : Type := mkAuthSt {
  tok : option string; registered : bool; pages : list string; urls : list (string * bool)
}.
#[export] Instance AuthSt_rebuild : Rebuild AuthSt :=
  {| rebuild := fun a => mkAuthSt (tok a) (registered a) (pages a) (urls a) |}.

Definition missing_code : string := "Error: could not find 'code' URL parameter" +:+ newline.
Definition login_page : string := "
      <html>
			<body>
				<h1>Login successful!</h1>
				<h2>You can close this window and return</h2>
			</body>
		</html>"%string.

Section AuthFlow.
Context `{Desktop}.

Definition oauth_config (info : NodeLoginResponse) : OAuthConfig :=
  mkOAuthConfig (r_ClientId info) (r_AuthEndpoint info) (r_TokenEndpoint info) (r_RedirectUri info)
    ["openid profile email offline_access"%string].

(** The handler of a request with this [code] parameter; every path closes the server. *)
Definition auth_handler (conf : OAuthConfig) (verifier code : string) : go AuthSt unit :=
  if bool_decide (code = "") then modify (fun a => a <| pages ::= (fun l => l ++ [missing_code]) |>)
  else
    match Exchange conf code verifier with
    | Err _ => modify (fun a => a <| tok := None |>)
    | Ok t =>
        _ ← modify (fun a => a <| tok := Some t |>);
        modify (fun a => a <| pages ::= (fun l => l ++ [login_page]) |>)
    end.

Fixpoint auth_handlers (conf : OAuthConfig) (verifier : string) (codes : list string) : go AuthSt unit :=
  match codes with
  | [] => mret tt
  | code :: rest => _ ← auth_handler conf verifier code; auth_handlers conf verifier rest
  end.

(** [codes]: the requests handled before the server is closed, which the first of them asks
    for; without one it serves for ever. *)
Definition server_Serve (conf : OAuthConfig) (verifier : string) (codes : list string) : go AuthSt unit :=
  match codes with [] => block WaitForever | _ => auth_handlers conf verifier codes end.

Definition AuthFlow (info : NodeLoginResponse) (codes : list string) : go AuthSt (result string string) :=
  let conf := oauth_config info in
  let verifier := GenerateVerifier in
  let auth_url := AuthCodeURL conf "state" verifier (r_Audience info) in
  r ← reads registered;
  if (r : bool) then panic (PanicWith "http: multiple registrations for /")
  else
    _ ← modify (fun a => a <| registered := true |>);
    match url_Port (r_RedirectUri info) with
    | Err e => mret (Err ("bad redirect URL: " +:+ e +:+ newline))
    | Ok p =>
        let port := ":" +:+ p in
        match net_Listen port with
        | Some e => mret (Err ("can't listen to port " +:+ port +:+ ": " +:+ e +:+ newline))
        | None =>
            _ ← modify (fun a => a <| urls ::= (fun l => l ++ [(auth_url, bool_decide (open_Start auth_url = None))]) |>);
            _ ← server_Serve conf verifier codes;
            t ← reads tok;
            match t with None => panic NilDeref | Some t => mret (Ok t) end
        end
    end.
End AuthFlow.

(** ** service.go: the commands *)

Record Cli `{Noise, Gorm} : Type := mkCli {
  cl_node : Node; cl_alive : bool; cl_ctl : Ctl; cl_auth : AuthSt; cl_log : list string
}.
#[export] Instance Cli_rebuild `{Noise, Gorm} : Rebuild Cli := {| rebuild := fun c =>
  mkCli _ _ (cl_node c) (cl_alive c) (cl_ctl c) (cl_auth c) (cl_log c) |}.

(** The error of a call whose server is not there. *)
Definition unavailable : string := "rpc error: code = Unavailable".

Section Cli.
Context `{Gorm, NetipX, MapOrder} {idp : IdP} (tv : TokenValidator).
Context `{Noise, PoolChoice, NodeExt, Desktop}.

Definition log_Println (text : string) : go Cli unit := modify (fun c => c <| cl_log ::= (fun l => l ++ [text]) |>).

(** A call of the node's service. *)
Definition call_node {A} (m : go Node (result string A)) : go Cli (result string A) := fun c =>
  if negb (cl_alive c) then Done (Err unavailable) c
  else
    match m (cl_node c) with
    | Done r n => Done r (c <| cl_node := n |>)
    | Crash _ n => Done (Err unavailable) (c <| cl_node := n |> <| cl_alive := false |>)
    | Blocked w n => Blocked w (c <| cl_node := n |>)
    end.

(** The call of the controller that a login is. *)
Definition call_LoginPeer (req : LoginPeerRequest) : go Cli LoginReply :=
  r ← zoom cl_ctl (fun k c => c <| cl_ctl := k |>) (LoginPeer tv req);
  mret (match r with Ok cfg => ReplyOk (Some cfg) | Err (mkStatus code msg) => ReplyStatus code msg end).

(** The node's login, called with a token, over the controller. *)
Definition call_Login (token : string) : go Cli (result string NodeLoginResponse) :=
  c ← reads (fun c => c);
  if negb (cl_alive c) then mret (Err unavailable)
  else
    reply ← call_LoginPeer (login_request (cl_node c) token);
    call_node (Login reply (Ok (GetPKCEAuthInfo tv))).

(** [dial]: the error of dialling the local service. *)
Definition NewUpCommand (dial : option string) (io : StartIO) : go Cli exit :=
  match dial with
  | Some e => mret (ExitFatal e)
  | None =>
      up ← call_node (Up io);
      match up with Err e => mret (ExitFatal e) | Ok text => _ ← log_Println text; mret ExitOk end
  end.
Definition NewDownCommand (dial : option string) : go Cli exit :=
  match dial with
  | Some e => mret (ExitFatal e)
  | None =>
      down ← call_node Down;
      match down with Err e => mret (ExitFatal e) | Ok text => _ ← log_Println text; mret ExitOk end
  end.

(** [codes]: the requests of the browser, if it comes to that. *)
Definition NewLoginCommand (dial : option string) (codes : list string) : go Cli exit :=
  match dial with
  | Some e => mret (ExitFatal e)
  | None =>
      login ← call_Login "";
      match login with
      | Err e => mret (ExitFatal e)
      | Ok resp =>
          if bool_decide (r_Status resp = "login successful"%string) then
            _ ← log_Println "node login successful"; mret ExitOk
          else if bool_decide (r_Status resp = "need access token"%string) then
            token ← zoom cl_auth (fun a c => c <| cl_auth := a |>) (AuthFlow resp codes);
            match token with
            | Err e => mret (ExitFatal e)
            | Ok t =>
                login ← call_Login t;
                match login with Err e => mret (ExitFatal e) | Ok _ => mret ExitOk end
            end
          else mret ExitOk
      end
  end.
End Cli.

(** ** service.go: the service process, and root.go

    [NewService] and what the service library does with the program are arguments: the error of
    making the service, and of the action asked for. *)

Inductive server : Type := ServerCreated | ServerStopped.
(** [logger_set]: the package's logger is there. *)
Record Program `{Noise} : Type := mkProgram {
  p_node : option Node; p_server : option server; logger_set : bool; p_log : list string
}.
#[export] Instance Program_rebuild `{Noise} : Rebuild Program := {| rebuild := fun p =>
  mkProgram _ (p_node p) (p_server p) (logger_set p) (p_log p) |}.

Section Service.
Context `{Noise, PoolChoice, NodeExt, !World}.

(** [logger.Error] through the package's variable. *)
Definition logger_Error (err : string) : go Program unit :=
  l ← reads logger_set;
  if (l : bool) then modify (fun p => p <| p_log ::= (fun t => t ++ [err]) |>) else panic NilDeref.

Definition program_Start (controller : string) (pools : Pools) (entropy : Z) : go Program exit :=
  match NewNode controller pools entropy with
  | Err e => mret (ExitFatal e)
  | Ok node =>
      _ ← modify (fun p => p <| p_server := Some ServerCreated |>);
      _ ← modify (fun p => p <| p_node := Some node |>);
      mret ExitOk
  end.

(** The method's own receiver is read: before a start it is nil. *)
Definition program_Stop : go Program (option string) := fun p =>
  match p_node p with
  | None => Crash NilDeref p
  | Some n =>
      match Node_Stop n with
      | Done err n' =>
          match p_server p with
          | None => Crash NilDeref (p <| p_node := Some n' |>)
          | Some _ => Done err (p <| p_node := Some n' |> <| p_server := Some ServerStopped |>)
          end
      | Crash c n' => Crash c (p <| p_node := Some n' |>)
      | Blocked w n' => Blocked w (p <| p_node := Some n' |>)
      end
  end.

Definition ErrServerStopped : string := "grpc: the server has been stopped".

(** [listen]: the error of listening on the control port; [served]: what [Serve] returns. *)
Definition program_run (listen served : option string) : go Program unit :=
  match listen with
  | Some e => logger_Error e
  | None =>
      if bool_decide (served <> Some ErrServerStopped) then logger_Error (default "<nil>"%string served) else mret tt
  end.

(** The service, then one action on it; none of these commands sets the logger. *)
Definition service_command (new action : option string) : go Program exit :=
  match new with
  | Some e => mret (ExitFatal e)
  | None => match action with Some e => mret (ExitFatal e) | None => mret ExitOk end
  end.
Definition NewStartCommand (new svc_Start : option string) : go Program exit := service_command new svc_Start.
Definition NewInstallCommand (new svc_Install : option string) : go Program exit := service_command new svc_Install.
Definition NewUninstallCommand (new svc_Uninstall : option string) : go Program exit := service_command new svc_Uninstall.
Definition NewStopCommand (new svc_Stop : option string) : go Program exit := service_command new svc_Stop.
Definition NewRunCommand (new svc_Run : option string) : go Program exit := service_command new svc_Run.

(** The command without a name, as a service manager starts it. *)
Definition root_Run (new slogger run : option string) : go Program exit :=
  match new with
  | Some e => mret (ExitFatal e)
  | None =>
      _ ← modify (fun p => p <| logger_set := bool_decide (slogger = None) |>);
      match slogger with
      | Some e => mret (ExitFatal e)
      | None => match run with Some e => mret (ExitFatal e) | None => mret ExitOk end
      end
  end.

(** keypair.go: nothing is stored. *)
Definition NewGenerateKeypairCommand : go Program exit :=
  match GenerateNewKeypair with
  | Err e => _ ← modify (fun p => p <| p_log ::= (fun t => t ++ [e]) |>); mret ExitOk
  | Ok _ => mret ExitOk
  end.
End Service.

(** ** Lemmas *)

(** The control server of a process started by [run]: it has no logger, so an error of its
    listener, and the nil that [Serve] returns after a stop, are nil dereferences; the process
    the service manager starts logs them. *)
Section ServiceLemmas.
Context `{Noise, PoolChoice, NodeExt, !World}.

Lemma run_control_server listen served p :
  logger_set p = false ->
  (forall e, program_run (Some e) served p = Crash NilDeref p) /\
  program_run None None p = Crash NilDeref p /\
  (listen = None -> served = Some ErrServerStopped -> program_run listen served p = Done tt p).
Proof.
  intros Hl. split; [|split].
  - intros e. unfold program_run, logger_Error. by rewrite (bind_done _ _ _ false p) by (by rewrite <- Hl).
  - unfold program_run, logger_Error. rewrite bool_decide_true by done.
    by rewrite (bind_done _ _ _ false p) by (by rewrite <- Hl).
  - by intros -> ->.
Qed.
(** Started by a service manager, a stop comes through to the node, and the control server ends. *)
Lemma started_program_stops controller pools entropy p p' :
  program_Start controller pools entropy p = Done ExitOk p' ->
  exists err p'', program_Stop p' = Done err p'' /\ p_server p'' = Some ServerStopped /\
    err = Some "node connections have not been initialized, so not running"%string.
Proof.
  unfold program_Start. destruct (NewNode _ _ _) as [n|e] eqn:En; [|done]. intros [= <-]. cbn.
  assert (Hs : Node_Stop n = Done (Some "node connections have not been initialized, so not running"%string) n)
    by (revert En; unfold NewNode; repeat case_match; intros; by simplify_eq).
  unfold program_Stop. cbn. rewrite Hs. eexists _, _. by split_and!.
Qed.
End ServiceLemmas.

Section AuthLemmas.
Context `{Desktop}.

(** The token the requests leave: the last that had a code decides. *)
Definition last_token (conf : OAuthConfig) (verifier : string) (codes : list string) (t : option string) : option string :=
  foldl (fun t code =>
    if bool_decide (code = ""%string) then t
    else match Exchange conf code verifier with Ok x => Some x | Err _ => None end) t codes.

Lemma auth_handlers_tok conf v codes a :
  exists ps, auth_handlers conf v codes a =
    Done tt (mkAuthSt (last_token conf v codes (tok a)) (registered a) (pages a ++ ps) (urls a)).
Proof.
  revert a. induction codes as [|code codes IH]; intros a.
  - exists []. rewrite app_nil_r. by destruct a.
  - cbn [auth_handlers last_token foldl]. unfold auth_handler.
    case_bool_decide as Hc; [|destruct (Exchange conf code v) as [t|e] eqn:Ex].
    + destruct (IH (a <| pages ::= (fun l => l ++ [missing_code]) |>)) as [ps E]. eexists ([missing_code] ++ ps).
      rewrite (bind_done _ _ _ tt (a <| pages ::= (fun l => l ++ [missing_code]) |>)) by done. rewrite E. cbn.
      by rewrite <- app_assoc.
    + destruct (IH (a <| tok := Some t |> <| pages ::= (fun l => l ++ [login_page]) |>)) as [ps E]. eexists ([login_page] ++ ps).
      rewrite (bind_done _ _ _ tt (a <| tok := Some t |> <| pages ::= (fun l => l ++ [login_page]) |>)) by done. rewrite E. cbn.
      by rewrite <- app_assoc.
    + destruct (IH (a <| tok := None |>)) as [ps E]. exists ps.
      rewrite (bind_done _ _ _ tt (a <| tok := None |>)) by done. by rewrite E.
Qed.

Lemma AuthFlow_runs info codes a port :
  tok a = None /\ registered a = false -> url_Port (r_RedirectUri info) = Ok port -> net_Listen (":" +:+ port) = None ->
  exists a', AuthFlow info codes a =
    match codes, last_token (oauth_config info) GenerateVerifier codes None with
    | [], _ => Blocked WaitForever a'
    | _, None => Crash NilDeref a'
    | _, Some t => Done (Ok t) a'
    end.
Proof.
  intros [Ht Hr] Hport Hlisten. unfold AuthFlow. rewrite (bind_done _ _ _ false a) by (by rewrite <- Hr).
  set (a1 := a <| registered := true |>). rewrite (bind_done _ _ _ tt a1), Hport, Hlisten by done.
  set (url := AuthCodeURL _ _ _ _). set (a2 := a1 <| urls ::= (fun l => l ++ [(url, bool_decide (open_Start url = None))]) |>).
  rewrite (bind_done _ _ _ tt a2) by done.
  destruct codes as [|code rest]; [by exists a2|]. unfold server_Serve.
  destruct (auth_handlers_tok (oauth_config info) GenerateVerifier (code :: rest) a2) as [ps E].
  rewrite (bind_done _ _ _ _ _ E). assert (tok a2 = None) as -> by (by rewrite <- Ht).
  set (a3 := mkAuthSt _ _ _ _). exists a3. rewrite (bind_done _ _ _ (tok a3) a3) by done. subst a3. cbn [tok].
  destruct (last_token (oauth_config info) GenerateVerifier (code :: rest) None); done.
Qed.
End AuthLemmas.

Section CommandLemmas.
Context `{Gorm, NetipX, MapOrder} {idp : IdP} (tv : TokenValidator).
Context `{Noise, PoolChoice, NodeExt, Desktop}.

(** The node after the login of a machine whose row is [row], with the address [a]. *)
Definition logged_in n (row : Types.Peer) (a bits : Z) : Node :=
  n <| n_env ::= (fun e => e <| node_id := Types.ID row |>) |> <| n_ip := mkPrefix (Addr4 a) bits |> <| loggedIn := true |>.
(** A row's address and prefix, as the controller writes them. *)
Definition row_text (row : Types.Peer) (a bits : Z) : Prop :=
  u32 a /\ 0 <= bits <= 32 /\ Types.IP row = addr_string (Addr4 a) /\
  exists b, PPrefix row = prefix_string (mkPrefix (Addr4 b) bits).

Lemma call_Login_ok token s row c1 a bits :
  cl_alive s = true -> LoginPeer tv (login_request (cl_node s) token) (cl_ctl s) = Done (Ok (ProtoConfig row)) c1 ->
  row_text row a bits ->
  exists resp, call_Login tv token s = Done (Ok resp) (s <| cl_ctl := c1 |> <| cl_node := logged_in (cl_node s) row a bits |>) /\
    r_Status resp = "login successful"%string.
Proof.
  intros Hal HL (Ha & Hb & Hip & b & Hpre).
  destruct (Login_ok (cl_node s) row a b bits (Ok (GetPKCEAuthInfo tv)) Ha Hb Hip Hpre) as (resp & E & Hst).
  exists resp. split; [|done]. unfold call_Login. rewrite (bind_done _ _ _ s s), Hal by done. cbn [negb].
  unfold call_LoginPeer. erewrite bind_done; [|erewrite bind_done; [reflexivity|apply zoom_done, HL]].
  unfold call_node. cbn [cl_alive cl_node field_upd]. destruct s as [n al c au lg]. cbn in *. rewrite Hal, E. done.
Qed.
Lemma call_Login_refused token s code msg c1 :
  cl_alive s = true -> LoginPeer tv (login_request (cl_node s) token) (cl_ctl s) = Done (Err (mkStatus code msg)) c1 ->
  match code with
  | Unauthenticated =>
      exists resp, call_Login tv token s = Done (Ok resp) (s <| cl_ctl := c1 |>) /\ r_Status resp = "need access token"%string /\
        r_RedirectUri resp = redirectUri tv /\ oauth_config resp =
          mkOAuthConfig (clientID tv) (AuthEndpoint (config tv)) (TokenEndpoint (config tv)) (redirectUri tv)
            ["openid profile email offline_access"%string]
  | _ => call_Login tv token s = Done (Err unavailable) (s <| cl_ctl := c1 |> <| cl_alive := false |>)
  end.
Proof.
  intros Hal HL.
  assert (E : call_Login tv token s = call_node (Login (ReplyStatus code msg) (Ok (GetPKCEAuthInfo tv))) (s <| cl_ctl := c1 |>)).
  { unfold call_Login. rewrite (bind_done _ _ _ s s), Hal by done. cbn [negb].
    unfold call_LoginPeer. by erewrite bind_done; [|erewrite bind_done; [reflexivity|apply zoom_done, HL]]. }
  rewrite E. destruct s as [n al c au lg]. cbn in *. subst al. destruct code; try done. eexists. by split_and!.
Qed.
End CommandLemmas.

(** ** Properties *)

Section CommandTheorems.
Context `{Gorm, NetipX, MapOrder} {idp : IdP} (tv : TokenValidator).
Context `{Noise, PoolChoice, NodeExt, Desktop}.

(** C35. What [login] comes to, by the controller's answers. A machine it lets in without a token
    - its authentication stands - is logged in. One it asks a token of goes through the browser:
    the command dies of a nil token when the last code is refused, or none came, and waits for
    ever when the browser never comes; with a token, the second answer decides - the node is
    logged in, or is not although the command ends well, or is dead. Every refusal but the
    request for a token kills the node. *)
Theorem login_command_outcomes s codes r1 c1
    (Halive : cl_alive s = true) (Hfresh : tok (cl_auth s) = None /\ registered (cl_auth s) = false)
    (Hfirst : LoginPeer tv (login_request (cl_node s) "") (cl_ctl s) = Done r1 c1) :
  let run := NewLoginCommand tv None codes s in
  let conf := mkOAuthConfig (clientID tv) (AuthEndpoint (config tv)) (TokenEndpoint (config tv)) (redirectUri tv)
                ["openid profile email offline_access"%string] in
  match r1 with
  | Ok cfg => forall row a bits, cfg = ProtoConfig row -> row_text row a bits ->
      exists s', run = Done ExitOk s' /\ cl_node s' = logged_in (cl_node s) row a bits /\ cl_ctl s' = c1
  | Err (mkStatus Unauthenticated _) => forall port, url_Port (redirectUri tv) = Ok port -> net_Listen (":" +:+ port) = None ->
      (codes = [] -> exists s', run = Blocked WaitForever s') /\
      (codes <> [] ->
       match last_token conf GenerateVerifier codes None with
       | None => crashes (NewLoginCommand tv None codes) s NilDeref
       | Some t => forall r2 c2, LoginPeer tv (login_request (cl_node s) t) c1 = Done r2 c2 ->
           match r2 with
           | Ok cfg => forall row a bits, cfg = ProtoConfig row -> row_text row a bits ->
               exists s', run = Done ExitOk s' /\ cl_node s' = logged_in (cl_node s) row a bits /\ cl_ctl s' = c2
           | Err (mkStatus Unauthenticated _) =>
               exists s', run = Done ExitOk s' /\ cl_node s' = cl_node s /\ cl_ctl s' = c2
           | Err _ => exists s', run = Done (ExitFatal unavailable) s' /\ cl_alive s' = false /\ cl_ctl s' = c2
           end
       end)
  | Err _ => exists s', run = Done (ExitFatal unavailable) s' /\ cl_alive s' = false /\ cl_ctl s' = c1
  end.
Proof.
  intros run conf. subst run. unfold NewLoginCommand. destruct r1 as [cfg|[code msg]].
  - intros row a bits -> Hrow. destruct (call_Login_ok tv "" s row c1 a bits Halive Hfirst Hrow) as (resp & E & Hst).
    rewrite (bind_done _ _ _ _ _ E), Hst, bool_decide_true by done. eexists. split; [reflexivity|]. by destruct s.
  - pose proof (call_Login_refused tv "" s code msg c1 Halive Hfirst) as HR. destruct code;
      try (rewrite (bind_done _ _ _ _ _ HR); eexists; split; [reflexivity|by destruct s]).
    destruct HR as (resp & E & Hst & Huri & Hconf). intros port Hport Hlisten. unfold crashes.
    rewrite !(bind_done _ _ _ _ _ E), Hst, bool_decide_false, bool_decide_true by done.
    destruct (AuthFlow_runs resp codes (cl_auth s) port Hfresh) as [a' EA]; [by rewrite Huri|done|].
    rewrite Hconf in EA. split.
    + intros ->. eexists. unfold mbind at 1, go_bind at 1, zoom. cbn [cl_auth field_upd]. rewrite EA. reflexivity.
    + intros Hne. destruct codes as [|c0 rest]; [done|]. destruct (last_token _ _ _ _) as [t|].
      2: { unfold mbind, go_bind, zoom. cbn [cl_auth field_upd]. by rewrite EA. }
      intros r2 c2 Hsecond. set (s1 := s <| cl_ctl := c1 |>) in *. set (s2 := s1 <| cl_auth := a' |>).
      rewrite (bind_done _ _ _ (Ok t) s2) by (unfold zoom; cbn [cl_auth field_upd s1]; by rewrite EA).
      destruct r2 as [cfg|[code2 msg2]].
      * intros row a bits -> Hrow.
        destruct (call_Login_ok tv t s2 row c2 a bits Halive Hsecond Hrow) as (resp2 & E2 & _).
        rewrite (bind_done _ _ _ _ _ E2). eexists. split; [reflexivity|]. by destruct s.
      * pose proof (call_Login_refused tv t s2 code2 msg2 c2 Halive Hsecond) as HR2.
        destruct code2; try (rewrite (bind_done _ _ _ _ _ HR2); eexists; split; [reflexivity|by destruct s]).
        destruct HR2 as (resp2 & E2 & _). rewrite (bind_done _ _ _ _ _ E2). eexists. split; [reflexivity|]. by destruct s.
Qed.
End CommandTheorems.

(** ** A concrete login

    The machine b is not registered; the browser comes once without a code, then with one. *)

#[export] Instance demo_desktop : Desktop := {|
  GenerateVerifier := "verifier"%string;
  AuthCodeURL conf state verifier audience := (AuthURL conf +:+ "?state=" +:+ state +:+ "&audience=" +:+ audience)%string;
  Exchange _ code _ := if bool_decide (code = "7"%string) then Ok "ann"%string else Err "invalid_grant"%string;
  url_Port _ := Ok "8085"%string;
  net_Listen _ := None;
  open_Start _ := Some "no browser"%string
|}.
Definition demo_cli : @Cli toy_noise mem_gorm :=
  mkCli toy_noise mem_gorm (demo_joining "b") true (demo_server false) (mkAuthSt None false [] []) [].

Definition demo_refused : @Ctl mem_gorm :=
  final (LoginPeer (idp := demo_idp) demo_validator (login_request (demo_joining "b") "")) (demo_server false).
Definition demo_registered : Types.Peer :=
  zeroPeer <| Types.ID := 2 |> <| Types.IP := "100.70.0.2"%string |> <| PPrefix := "100.70.0.0/24"%string |>.
Lemma demo_login_refused :
  LoginPeer (idp := demo_idp) demo_validator (login_request (demo_joining "b") "") (demo_server false) =
    Done (Err (mkStatus Unauthenticated "error parsing access token: token is malformed")) demo_refused.
Proof. unfold demo_refused. apply final_run. vm_compute. reflexivity. Qed.
Lemma demo_login_accepted :
  LoginPeer (idp := demo_idp) demo_validator (login_request (demo_joining "b") "ann") demo_refused =
    Done (Ok (ProtoConfig demo_registered))
      (final (LoginPeer (idp := demo_idp) demo_validator (login_request (demo_joining "b") "ann")) demo_refused).
Proof. apply final_run. vm_compute. reflexivity. Qed.
Lemma demo_row_text : row_text demo_registered 0x64460002 24.
Proof.
  unfold row_text, u32. split; [lia|]. split; [lia|]. split; [vm_compute; reflexivity|].
  exists 0x64460000. vm_compute. reflexivity.
Qed.

Lemma login_command_outcomes_witness :
  crashes (NewLoginCommand (idp := demo_idp) demo_validator None ["7"; "8"]%string) demo_cli NilDeref /\
  exists s', NewLoginCommand (idp := demo_idp) demo_validator None [""; "7"]%string demo_cli = Done ExitOk s' /\
    cl_node s' = logged_in (demo_joining "b") demo_registered 0x64460002 24.
Proof.
  pose proof (fun codes => login_command_outcomes (idp := demo_idp) demo_validator demo_cli codes _ demo_refused eq_refl
    (conj eq_refl eq_refl) demo_login_refused "8085"%string eq_refl eq_refl) as H. split.
  - exact (proj2 (H ["7"; "8"]%string) ltac:(done)).
  - destruct (proj2 (H [""; "7"]%string) ltac:(done) _ _ demo_login_accepted demo_registered 0x64460002 24 eq_refl demo_row_text)
      as (s' & E & En & _). by exists s'.
Defined.
