(* ===== verification/Serve.v ===== *)
(** The controller's process (controller/cmd/root.go, controller/db/db.go): its flags, what it
    sets up in which order, and the two servers from their start to the end of the process.

    The servers, the clean-up and the graceful stop are goroutines; a turn of one of them, or an
    event of the world - a signal, a stream that opens or ends - is an [Ev], and [turn] the state
    after it, if it can happen.  Of gRPC's server the model has what its documentation says:
    [Serve] returns an error unless the server is stopped, then nil once the stop is through, and
    [ErrServerStopped] when it is called after that; [GracefulStop] waits for the calls that
    run, [Stop] ends them. *)

From S2P Require Import Prelude GoStd Netip Types Store Ipam Auth Controller Streams Registry NodePeer NodeCore Boot.

(** ** Start *)

Record Flags : Type := mkFlags {
  storePath : string; f_prefix : string; autoCert : bool; grpcPort : Z; httpPort : Z; debug : bool
}.
Definition default_flags : Flags := mkFlags "store.db" "100.70.0.0/24" false 50000 8080 false.

Section Start.
Context `{Noise, !World, Gorm, NetipX, MapOrder}.

(** db.go. The error of the migration is assigned and dropped. *)
Definition db_New (gorm_Open : string -> result string DB) (db_DB Ping AutoMigrate : option string) (path : string) :
    result string DB :=
  match gorm_Open ("file:" +:+ path +:+ "?cache=shared&_journal_mode=WAL") with
  | Err e => Err e
  | Ok db =>
      match db_DB with
      | Some e => Err e
      | None => match Ping with Some e => Err e | None => Ok db end
      end
  end.

(** Up to the servers. [store]: what opening the store returns; [gateway]: the error of
    registering the gateway's handler, which dials localhost:50000 whatever the flags. *)
Definition set_up (flags : Flags) (store : string -> result string DB) (gateway : option string) (t : Z) :
    exit + (Ctl * TokenValidator) :=
  match store (storePath flags) with
  | Err e => inl (ExitFatal e)
  | Ok db =>
      match parse_prefix (f_prefix flags) with
      | None => inl (ExitFatal "error parsing prefix")
      | Some pfix =>
          let ctrl := NewController db pfix t in
          match NewTokenValidator with
          | Err e => inl (ExitFatal ("error creating token validator: " +:+ e))
          | Ok tv => match gateway with Some e => inl (ExitFatal e) | None => inr (ctrl, tv) end
          end
      end
  end.
End Start.

(** What the register of leases starts from ([Registry.fresh_start]) is what the set-up makes of
    an empty store; the default prefix is one of the kind it asks for. *)
Section StartLemmas.
Context `{Noise, !World, GormLaws, NetipX, MapOrder}.

Lemma set_up_fresh flags store gateway t ctrl tv :
  set_up flags store gateway t = inr (ctrl, tv) ->
  exists d p, store (storePath flags) = Ok d /\ parse_prefix (f_prefix flags) = Some p /\
    (rows d = ∅ -> fresh_start p (mkSys ctrl ∅ 0)).
Proof.
  unfold set_up. destruct (store _) as [d|]; [|done]. destruct (parse_prefix _) as [p|]; [|done].
  destruct NewTokenValidator as [v|]; [|done]. destruct gateway; [done|]. intros [= <- <-].
  exists d, p. by split_and!.
Qed.
Lemma default_prefix_ok :
  exists p, parse_prefix (f_prefix default_flags) = Some p /\ prefix4 p /\ p_addr p = Addr4 0x64460000.
Proof.
  exists (mkPrefix (Addr4 0x64460000) 24). split; [vm_compute; reflexivity|]. split; [|done].
  split; cbn; [unfold u32; lia|lia].
Qed.
End StartLemmas.

(** ** The servers *)

Inductive GrpcPc : Type := GListen | GBound | GServing | GDone (err : option string).
Inductive HttpPc : Type := HStart | HServing | HDone (err : option string).
(** The clean-up: at the context, in the select of [StopGRPCServer], in [Shutdown], at its end. *)
Inductive CleanPc : Type := CWait | CSelect | CShutdown | CDone.
(** The goroutine that [StopGRPCServer] starts: not there, before [GracefulStop], in it, at its end. *)
Inductive DrainPc : Type := DNone | DStart | DWait | DDone.

Record Proc : Type := mkProc {
  g_grpc : GrpcPc; g_http : HttpPc; g_clean : CleanPc; g_drain : DrainPc;
  grpc_quit : bool; grpc_done : bool; http_down : bool;
  streams : nat; requests : nat;
  signalled : bool; cancelled : bool; group_err : option string
}.
#[export] Instance Proc_rebuild : Rebuild Proc := {| rebuild := fun s =>
  mkProc (g_grpc s) (g_http s) (g_clean s) (g_drain s) (grpc_quit s) (grpc_done s) (http_down s)
    (streams s) (requests s) (signalled s) (cancelled s) (group_err s) |}.

Definition launched : Proc := mkProc GListen HStart CWait DNone false false false 0 0 false false None.

(** The return of a goroutine of the group: the first error is kept and cancels the others. *)
Definition returns (err : option string) (s : Proc) : Proc :=
  match err, group_err s with
  | Some e, None => s <| group_err := Some e |> <| cancelled := true |>
  | _, _ => s
  end.

Inductive Ev : Type :=
| EvSignal
| EvStream | EvStreamEnds | EvRequest | EvRequestEnds
| EvListen (err : option string) | EvServe | EvAcceptFails (e : string) | EvServed
| EvHttp (err : option string) | EvHttpFails (e : string) | EvHttpClosed
| EvCleanup | EvDrain | EvDrained | EvStopped | EvGrpcTimer | EvIdle | EvDeadline.

Definition ErrServerStopped : string := "grpc: the server has been stopped".

(** [main]'s goroutine at the signals. *)
Definition on_signal (s : Proc) : option Proc :=
  if signalled s then None else Some (s <| signalled := true |> <| cancelled := true |>).

(** The calls the servers run. *)
Definition on_traffic (e : Ev) (s : Proc) : option Proc :=
  match e with
  | EvStream =>
      match g_grpc s with
      | GServing => if grpc_quit s then None else Some (s <| streams ::= S |>)
      | _ => None
      end
  | EvStreamEnds => match streams s with O => None | S n => Some (s <| streams := n |>) end
  | EvRequest =>
      match g_http s with
      | HServing => if http_down s then None else Some (s <| requests ::= S |>)
      | _ => None
      end
  | EvRequestEnds => match requests s with O => None | S n => Some (s <| requests := n |>) end
  | _ => None
  end.

(** The first goroutine of the group. *)
Definition grpc_turn (e : Ev) (s : Proc) : option Proc :=
  match e, g_grpc s with
  | EvListen (Some e), GListen => Some (returns (Some e) (s <| g_grpc := GDone (Some e) |>))
  | EvListen None, GListen => Some (s <| g_grpc := GBound |>)
  | EvServe, GBound =>
      if grpc_quit s
      then Some (returns (Some ErrServerStopped) (s <| g_grpc := GDone (Some ErrServerStopped) |>))
      else Some (s <| g_grpc := GServing |>)
  | EvAcceptFails e, GServing =>
      if grpc_quit s then None else Some (returns (Some e) (s <| g_grpc := GDone (Some e) |>))
  | EvServed, GServing => if grpc_done s then Some (returns None (s <| g_grpc := GDone None |>)) else None
  | _, _ => None
  end.

(** The second: [ListenAndServe], whose [ErrServerClosed] is not an error. *)
Definition http_turn (e : Ev) (s : Proc) : option Proc :=
  match e, g_http s with
  | EvHttp err, HStart =>
      if http_down s then Some (returns None (s <| g_http := HDone None |>))
      else
        match err with
        | Some e => Some (returns (Some e) (s <| g_http := HDone (Some e) |>))
        | None => Some (s <| g_http := HServing |>)
        end
  | EvHttpFails e, HServing =>
      if http_down s then None else Some (returns (Some e) (s <| g_http := HDone (Some e) |>))
  | EvHttpClosed, HServing => if http_down s then Some (returns None (s <| g_http := HDone None |>)) else None
  | _, _ => None
  end.

(** [StopGRPCServer]: [GracefulStop] in a goroutine, against a timer of ten seconds. *)
Definition StopGRPCServer_turn (e : Ev) (s : Proc) : option Proc :=
  match e with
  | EvDrain => match g_drain s with DStart => Some (s <| g_drain := DWait |> <| grpc_quit := true |>) | _ => None end
  | EvDrained =>
      match g_drain s with
      | DWait => if bool_decide (streams s = 0%nat) then Some (s <| g_drain := DDone |> <| grpc_done := true |>) else None
      | _ => None
      end
  | EvGrpcTimer =>
      match g_clean s with
      | CSelect =>
          Some (s <| grpc_quit := true |> <| streams := 0%nat |> <| grpc_done := true |>
                  <| g_clean := CShutdown |> <| http_down := true |>)
      | _ => None
      end
  | EvStopped =>
      match g_clean s, g_drain s with
      | CSelect, DDone => Some (s <| g_clean := CShutdown |> <| http_down := true |>)
      | _, _ => None
      end
  | _ => None
  end.

(** [StopHTTPServer]: [Shutdown] with a deadline of ten seconds, and [Close] behind it. *)
Definition StopHTTPServer_turn (e : Ev) (s : Proc) : option Proc :=
  match e, g_clean s with
  | EvIdle, CShutdown => if bool_decide (requests s = 0%nat) then Some (returns None (s <| g_clean := CDone |>)) else None
  | EvDeadline, CShutdown => Some (returns None (s <| requests := 0%nat |> <| g_clean := CDone |>))
  | _, _ => None
  end.

(** The third goroutine: the outer [err] it returns is nil when the group is started. *)
Definition clean_turn (e : Ev) (s : Proc) : option Proc :=
  match e with
  | EvCleanup =>
      match g_clean s with
      | CWait => if cancelled s then Some (s <| g_clean := CSelect |> <| g_drain := DStart |>) else None
      | _ => None
      end
  | EvDrain | EvDrained | EvStopped | EvGrpcTimer => StopGRPCServer_turn e s
  | _ => StopHTTPServer_turn e s
  end.

Definition turn (e : Ev) (s : Proc) : option Proc :=
  match e with
  | EvSignal => on_signal s
  | EvStream | EvStreamEnds | EvRequest | EvRequestEnds => on_traffic e s
  | EvListen _ | EvServe | EvAcceptFails _ | EvServed => grpc_turn e s
  | EvHttp _ | EvHttpFails _ | EvHttpClosed => http_turn e s
  | EvCleanup | EvDrain | EvDrained | EvStopped | EvGrpcTimer | EvIdle | EvDeadline => clean_turn e s
  end.
Definition step (s s' : Proc) : Prop := exists e, turn e s = Some s'.

(** [eg.Wait], when the three have returned, and what [main] does then. *)
Definition eg_Wait (s : Proc) : option exit :=
  match g_grpc s, g_http s, g_clean s with
  | GDone _, HDone _, CDone => Some (match group_err s with Some e => ExitFatal e | None => ExitOk end)
  | _, _, _ => None
  end.

(** ** Lemmas *)

(** The turns of the process, as opposed to what happens to it. *)
Definition internal (e : Ev) : bool :=
  match e with EvSignal | EvStream | EvStreamEnds | EvRequest | EvRequestEnds => false | _ => true end.

(** How many turns are left at most. *)
Definition rank (s : Proc) : nat :=
  match g_grpc s with GListen => 3 | GBound => 2 | GServing => 1 | GDone _ => 0 end +
  match g_http s with HStart => 2 | HServing => 1 | HDone _ => 0 end +
  match g_clean s with CWait => 3 | CSelect => 2 | CShutdown => 1 | CDone => 0 end +
  match g_drain s with DNone => 3 | DStart => 2 | DWait => 1 | DDone => 0 end.

Definition failed (s : Proc) : bool := match group_err s with Some _ => true | None => false end.

Record proc_ok (s : Proc) : Prop := mkProcOk {
  ok_cancelled : cancelled s = signalled s || failed s;
  ok_wait : g_clean s = CWait -> g_drain s = DNone /\ grpc_quit s = false /\ http_down s = false;
  ok_woken : g_clean s <> CWait -> cancelled s = true /\ g_drain s <> DNone;
  ok_quit : grpc_done s = true -> grpc_quit s = true /\ streams s = 0%nat;
  ok_drain : match g_drain s with DNone | DStart => True | DWait => grpc_quit s = true | DDone => grpc_done s = true end;
  ok_down : match g_clean s with
            | CWait | CSelect => http_down s = false
            | CShutdown => http_down s = true /\ grpc_done s = true
            | CDone => http_down s = true /\ grpc_done s = true /\ requests s = 0%nat
            end;
  ok_grpc : match g_grpc s with GDone None => grpc_done s = true | GDone (Some _) => failed s = true | _ => streams s = 0%nat \/ g_grpc s = GServing end;
  ok_http : match g_http s with HDone None => http_down s = true | HDone (Some _) => failed s = true | _ => True end
}.

Lemma launched_ok : proc_ok launched.
Proof. split; cbn; auto; done. Qed.

(** The branches of a turn. *)
Ltac branches E :=
  unfold on_signal, on_traffic, grpc_turn, http_turn, clean_turn, StopGRPCServer_turn, StopHTTPServer_turn, returns in E; cbn in E;
  repeat (match type of E with context [match ?x with _ => _ end] => destruct x eqn:? end; cbn in E; try discriminate E);
  injection E as <-.
Ltac proc_solve :=
  split; unfold failed; cbn; rewrite ?orb_true_r; intros; first [done | congruence | tauto | by intuition congruence].

Lemma proc_turn_ok e s s' : proc_ok s -> turn e s = Some s' -> proc_ok s'.
Proof.
  intros Hs E. destruct s as [gg gh gc gd gq gn hd st rq sg ca er].
  destruct e; cbn in E; branches E; destruct Hs as [K1 K2 K3 K4 K5 K6 K7 K8]; unfold failed in *; cbn in *; subst.
  all: repeat match goal with Hb : bool_decide _ = true |- _ => apply bool_decide_eq_true in Hb end; try by proc_solve.
  all: destruct_and?; simplify_eq; try (destruct gc; destruct_and?; simplify_eq; try by proc_solve).
  all: try (destruct gg as [| | |[]]; try by proc_solve); try (destruct gh as [| |[]]; by proc_solve).
  all: destruct gd, gh as [| |[]]; by proc_solve.
Qed.

Lemma proc_turn_rank e s s' :
  proc_ok s -> turn e s = Some s' -> if internal e then (rank s' < rank s)%nat else rank s' = rank s.
Proof.
  intros Hs E. pose proof (ok_wait _ Hs) as Hw. destruct s as [gg gh gc gd gq gn hd st rq sg ca er]. unfold rank. cbn in Hw.
  destruct e; cbn in E; branches E; cbn; try lia. destruct (Hw eq_refl) as (-> & _). lia.
Qed.

(** Until the group is done, a cancelled process has a turn to take. *)
Lemma cancelled_moves s :
  proc_ok s -> cancelled s = true -> eg_Wait s = None -> exists e s', internal e = true /\ turn e s = Some s'.
Proof.
  intros [K1 K2 K3 K4 K5 K6 K7 K8] Hc Hw. destruct s as [gg gh gc gd gq gn hd st rq sg ca er]. cbn in *. subst ca.
  destruct gc.
  - exists EvCleanup. by eexists.
  - exists EvGrpcTimer. by eexists.
  - exists EvDeadline. by eexists.
  - destruct K6 as (-> & -> & ->). destruct (K4 eq_refl) as [-> ->]. destruct gg.
    + exists (EvListen None). by eexists.
    + exists EvServe. by eexists.
    + exists EvServed. by eexists.
    + destruct gh; [exists (EvHttp None)|exists EvHttpClosed|done]; by eexists.
Qed.

Fixpoint run (es : list Ev) (s : Proc) : option Proc :=
  match es with [] => Some s | e :: rest => match turn e s with Some s' => run rest s' | None => None end end.

Lemma proc_run_ok es s s' : proc_ok s -> run es s = Some s' -> proc_ok s' /\ (length (filter (fun e => internal e = true) es) + rank s' <= rank s)%nat.
Proof.
  revert s. induction es as [|e es IH]; intros s Hs E; [injection E as <-; cbn; split; [done|lia]|].
  cbn in E. destruct (turn e s) as [s1|] eqn:E1; [|done]. destruct (IH s1 (proc_turn_ok _ _ _ Hs E1) E) as [Hs' Hl].
  split; [done|]. pose proof (proc_turn_rank _ _ _ Hs E1) as Hr. rewrite filter_cons. destruct (internal e); case_decide; cbn; try done; lia.
Qed.

(** ** Properties *)

(** C31. How the controller ends. Nothing starts its shutdown but a signal or the error of a
    server, and the first error is kept. However the goroutines interleave with signals and
    calls, a process takes at most eleven turns in its life; once its context is cancelled there
    is always a turn to take until the three goroutines of the group have returned - whatever
    streams stay open, by the timers - and then both servers are down, no call is left, and the
    process ends well exactly when no server has failed. *)
Theorem controller_shuts_down es s (Hrun : run es launched = Some s) :
  (cancelled s = signalled s || failed s) /\
  (length (filter (fun e => internal e = true) es) <= 11)%nat /\
  (cancelled s = true -> eg_Wait s = None -> exists e s', internal e = true /\ turn e s = Some s') /\
  (forall x, eg_Wait s = Some x ->
     cancelled s = true /\ grpc_done s = true /\ http_down s = true /\ streams s = 0%nat /\ requests s = 0%nat /\
     (x = ExitOk <-> failed s = false)).
Proof.
  destruct (proc_run_ok es launched s launched_ok Hrun) as [Hs Hl]. split; [apply (ok_cancelled _ Hs)|].
  split; [cbn in Hl; lia|]. split; [by apply cancelled_moves|]. intros x Hx. unfold eg_Wait in Hx.
  destruct Hs as [K1 K2 K3 K4 K5 K6 K7 K8]. destruct (g_grpc s), (g_http s), (g_clean s); try done.
  destruct K6 as (H1 & H2 & H3). destruct (K4 H2) as [_ H4]. destruct (K3 ltac:(done)) as [H5 _]. split_and!; try done.
  unfold failed. injection Hx as <-. by destruct (group_err s).
Qed.

(** A signal with a stream open: the graceful stop waits for it until the timer ends it. *)
Lemma controller_shuts_down_witness :
  exists s, run [EvListen None; EvServe; EvHttp None; EvStream; EvSignal; EvCleanup; EvDrain; EvGrpcTimer; EvServed;
                 EvHttpClosed; EvDrained; EvIdle] launched = Some s /\
    eg_Wait s = Some ExitOk /\ streams s = 0%nat.
Proof.
  eexists. split; [vm_compute; reflexivity|]. split; [reflexivity|].
  match goal with |- streams ?s = _ =>
    exact (proj1 (proj2 (proj2 (proj2 (proj2 (proj2 (proj2 (controller_shuts_down
      [EvListen None; EvServe; EvHttp None; EvStream; EvSignal; EvCleanup; EvDrain; EvGrpcTimer; EvServed;
       EvHttpClosed; EvDrained; EvIdle] s eq_refl))) ExitOk eq_refl)))))
  end.
Defined.
