(* ===== verification/Cmdline.v ===== *)
(** What the two programs declare to the libraries that run them: the command trees and their
    flags (node/cmd/root.go, node/cmd/service.go, node/cmd/keypair.go, controller/cmd/root.go),
    and the description of the node's service.

    The parsing of a command line is cobra's, an argument here. *)

From S2P Require Import Prelude GoStd NodePeer NodeCore Boot Serve.

Inductive FlagDefault : Type := StringVar (s : string) | Uint16Var (n : Z) | BoolVar (b : bool).
Record Flag : Type := mkFlag { f_name : string; f_default : FlagDefault; f_usage : string }.
Record CobraCommand : Type := mkCommand { Use : string; Short : string; PersistentFlags : list Flag }.
(** A root command and those added to it. *)
Record CommandTree : Type := mkTree { root : CobraCommand; Commands : list CobraCommand }.

(** ** The node *)

Definition controller_flag : Flag :=
  mkFlag "controller" (StringVar "127.0.0.1:50000") "controller address in <ip:port> format".
Definition port_flag : Flag :=
  mkFlag "port" (Uint16Var 0) "listen port for udp socket - defaults to 0 for randomly selected port".

Definition start_command : CobraCommand := mkCommand "start" "start service" [controller_flag; port_flag].
Definition up_command : CobraCommand := mkCommand "up" "runs node service" [].
Definition login_command : CobraCommand := mkCommand "login" "login" [].
Definition run_command : CobraCommand := mkCommand "run" "runs the background service" [controller_flag; port_flag].
Definition install_command : CobraCommand := mkCommand "install" "install the background service" [].
Definition uninstall_command : CobraCommand := mkCommand "uninstall" "uninstall the background service" [].
Definition stop_command : CobraCommand := mkCommand "stop" "stops the background service" [].
Definition down_command : CobraCommand := mkCommand "down" "downs node service" [].
Definition generate_command : CobraCommand := mkCommand "generate" "generate's new keypair and saves to disk" [].

(** In the order [init] adds them. *)
Definition node_rootCmd : CommandTree :=
  mkTree (mkCommand "" "" [])
    [up_command; down_command; install_command; uninstall_command; start_command; run_command; stop_command;
     generate_command; login_command].

Record Config : Type := mkConfig {
  Name : string; DisplayName : string; Description : string; Option : gmap string string
}.
Definition svcConfig : Config :=
  mkConfig "com.zeronet.node.service" "Zeronet Node Service" "Zeronet Node Service"
    (<["SuccessExitStatus" := "1 2 8 SIGKILL"]> (<["Restart" := "on-success"]> ∅))%string.
(** [service_New]: the service library's constructor. *)
Definition NewService {Service} (service_New : Config -> result string Service) : result string Service :=
  service_New svcConfig.

(** ** The controller *)

Definition controller_rootCmd : CommandTree :=
  mkTree (mkCommand "controller" "ZeroNet Controller"
    [mkFlag "storepath" (StringVar "store.db") "file path for controller store persistence";
     mkFlag "prefix" (StringVar "100.70.0.0/24") "prefix to use for the overlay network";
     mkFlag "autocert" (BoolVar false) "enable autocert for controller";
     mkFlag "grpcport" (Uint16Var 50000) "port to listen for grpc connections";
     mkFlag "debug" (BoolVar false) "enable debug logging";
     mkFlag "httpport" (Uint16Var 8080) "port to listen for http connections"]) [].

Inductive LogLevel : Type := InfoLevel | DebugLevel.
Definition log_level (flags : Flags) : LogLevel := if debug flags then DebugLevel else InfoLevel.

(** ** Both: [Execute]

    [cobra]: what the library makes of a command line, with the error it returns. The result is
    the lines logged and the code the process exits with, if it does not return. *)
Definition Execute (cobra : CommandTree -> list string -> option string) (rootCmd : CommandTree) (args : list string) :
    list string * option Z :=
  match cobra rootCmd args with Some err => ([err], Some 1) | None => ([], None) end.

(** ** Lemmas *)

(** A name means one command. *)
Lemma node_commands_distinct : NoDup (Use <$> Commands node_rootCmd).
Proof. apply (bool_decide_unpack _). vm_compute. exact I. Qed.

(** The value of a flag nobody gives. *)
Definition flag_value (c : CobraCommand) (name : string) : option FlagDefault :=
  f_default <$> list_find (fun f => f_name f = name) (PersistentFlags c) ≫= fun x => Some x.2.

(** What [Serve.set_up] is given when nobody gives a flag is what is declared. *)
Lemma controller_defaults :
  (fun n => flag_value (root controller_rootCmd) n) <$> ["storepath"; "prefix"; "autocert"; "grpcport"; "httpport"; "debug"]%string =
  [Some (StringVar (storePath default_flags)); Some (StringVar (f_prefix default_flags));
   Some (BoolVar (autoCert default_flags)); Some (Uint16Var (grpcPort default_flags));
   Some (Uint16Var (httpPort default_flags)); Some (BoolVar (debug default_flags))].
Proof. vm_compute. reflexivity. Qed.

(** Both ways to start the service in the foreground or through a manager take the same flags. *)
Lemma start_and_run_agree : PersistentFlags start_command = PersistentFlags run_command.
Proof. done. Qed.
