(* ===== verification/Logger.v ===== *)
(** The log package, pkg/logger/logger.go: lines go into a channel of ten, from which whoever
    holds the logger takes them.  The two programs do not import it.

    Of [fmt] there is what the package's formats and plain operands use: the verbs %s, %v and %d
    and the doubled percent sign on strings and integers, and what Go prints for a verb that has
    no operand, an operand of the other type or an operand too many.  Flags and other verbs are
    not: [modelled] says which formats are meant.  The coloured printing of the color library
    is an argument. *)

From S2P Require Import Prelude GoStd.

(** ** fmt *)

Inductive Any : Type := AString (s : string) | AInt (n : Z).
Definition decimal (n : Z) : string := if bool_decide (n < 0) then "-" +:+ itoa (- n) else itoa n.
Definition value (a : Any) : string := match a with AString s => s | AInt n => decimal n end.
Definition with_type (a : Any) : string :=
  match a with AString s => "string=" +:+ s | AInt n => "int=" +:+ decimal n end.

Definition verb (c : ascii) (a : Any) : string :=
  match c, a with
  | "s"%char, AString s => s
  | "d"%char, AInt n => decimal n
  | "v"%char, _ => value a
  | _, _ => "%!" +:+ String c ("(" +:+ with_type a +:+ ")")
  end.

Fixpoint extra (v : list Any) : string :=
  match v with [] => "" | [a] => with_type a | a :: v' => with_type a +:+ ", " +:+ extra v' end.

Fixpoint Sprintf (format : string) (v : list Any) : string :=
  match format with
  | EmptyString => match v with [] => "" | _ => "%!(EXTRA " +:+ extra v +:+ ")" end
  | String "%" rest =>
      match rest with
      | EmptyString => "%!(NOVERB)" +:+ match v with [] => "" | _ => "%!(EXTRA " +:+ extra v +:+ ")" end
      | String "%" rest' => String "%" (Sprintf rest' v)
      | String c rest' =>
          match v with
          | [] => "%!" +:+ String c ("(MISSING)" +:+ Sprintf rest' [])
          | a :: v' => verb c a +:+ Sprintf rest' v'
          end
      end
  | String c rest => String c (Sprintf rest v)
  end.

(** Spaces go between operands neither of which is a string. *)
Fixpoint Sprint (v : list Any) : string :=
  match v with
  | [] => ""
  | a :: v' =>
      value a +:+ match a, v' with AInt _, AInt _ :: _ => " " | _, _ => "" end +:+ Sprint v'
  end.
Fixpoint Sprintln (v : list Any) : string :=
  match v with
  | [] => String "010" ""
  | [a] => value a +:+ String "010" ""
  | a :: v' => value a +:+ " " +:+ Sprintln v'
  end.

(** The formats of which every verb is one of the above. *)
Fixpoint modelled (format : string) : bool :=
  match format with
  | EmptyString => true
  | String "%" (String c rest) => bool_decide (c ∈ ["%"; "s"; "v"; "d"]%char) && modelled rest
  | String _ rest => modelled rest
  end.

(** ** The logger *)

Definition LogBuffer : nat := 10.
(** [iota] counts the constants of the block, [LogBuffer] too. *)
Definition LogLevelNone : Z := 1.
Definition LogLevelInfo : Z := 2.
Definition LogLevelWarn : Z := 3.
Definition LogLevelError : Z := 4.
Definition LogLevelDebug : Z := 5.

Inductive Color : Type := FgYellow | FgRed | FgGreen.

(** [logs] is the channel's content, oldest first, [logs_closed] that it is closed. *)
Record Logger : Type := mkLogger { logs : list string; logs_closed : bool; LogPrefix : string; LogLevel : Z }.
#[export] Instance Logger_rebuild : Rebuild Logger :=
  {| rebuild := fun l => mkLogger (logs l) (logs_closed l) (LogPrefix l) (LogLevel l) |}.

Definition New : Logger := mkLogger [] false "" 0.

Section Logger.
Context (color_Sprintf : Color -> string -> list Any -> string).

Definition SetLogLevel (level : Z) : go Logger unit :=
  if bool_decide (level < LogLevelNone) then mret tt
  else if bool_decide (LogLevelDebug < level) then mret tt
  else modify (fun l => l <| LogLevel := level |>).
Definition SetPrefix (prefix : string) : go Logger unit := modify (fun l => l <| LogPrefix := prefix |>).

(** A send waits for room, and panics on a closed channel. *)
Definition send_log (line : string) : go Logger unit :=
  c ← reads logs_closed;
  if (c : bool) then panic (PanicWith "send on closed channel")
  else
    q ← reads logs;
    if bool_decide (length q < LogBuffer)%nat then modify (fun l => l <| logs := q ++ [line] |>) else block WaitChan.
(** A receive from what [Logs] returns: nothing more once the channel is closed and empty. *)
Definition Logs_recv : go Logger (option string) :=
  q ← reads logs;
  match q with
  | line :: q' => _ ← modify (fun l => l <| logs := q' |>); mret (Some line)
  | [] => c ← reads logs_closed; if (c : bool) then mret None else block WaitChan
  end.
Definition Close : go Logger unit :=
  c ← reads logs_closed;
  if (c : bool) then panic (PanicWith "close of closed channel") else modify (fun l => l <| logs_closed := true |>).

Definition Printf (format : string) (v : list Any) : go Logger unit := send_log (Sprintf format v).
Definition Println (s : list Any) : go Logger unit := send_log (Sprintln s).
Definition Print (v : list Any) : go Logger unit := send_log (Sprint v).

Definition at_level (level : Z) (m : go Logger unit) : go Logger unit :=
  l ← reads LogLevel; when (bool_decide (level <= l)) m.

Definition Info (v : list Any) : go Logger unit := at_level LogLevelInfo (Print [AString (Sprintf "INFO: %s" v)]).
Definition Infof (format : string) (v : list Any) : go Logger unit :=
  at_level LogLevelInfo (Printf ("INFO: " +:+ format) v).
Definition Warn (v : list Any) : go Logger unit :=
  at_level LogLevelWarn (Print [AString (color_Sprintf FgYellow "WARN: %s" v)]).
Definition Warnf (format : string) (v : list Any) : go Logger unit :=
  at_level LogLevelWarn (Printf (color_Sprintf FgYellow ("WARN: " +:+ format) v) []).
Definition Error (v : list Any) : go Logger unit :=
  at_level LogLevelError (Print [AString (color_Sprintf FgRed "ERROR: %s" v)]).
Definition Errorf (format : string) (v : list Any) : go Logger unit :=
  at_level LogLevelError (Printf (color_Sprintf FgRed ("ERROR: " +:+ format) v) []).
Definition Debug (v : list Any) : go Logger unit :=
  at_level LogLevelDebug (Print [AString (color_Sprintf FgGreen "DEBUG: %s" v)]).
Definition Debugf (format : string) (v : list Any) : go Logger unit :=
  at_level LogLevelDebug (Printf (color_Sprintf FgGreen ("ERROR: " +:+ format) v) []).

(** ** Lemmas *)

Implicit Types (l : Logger).

(** A level outside the range is not clamped but ignored. *)
Lemma SetLogLevel_eq level l :
  SetLogLevel level l =
  Done tt (if bool_decide (LogLevelNone <= level <= LogLevelDebug) then l <| LogLevel := level |> else l).
Proof. unfold SetLogLevel. repeat case_bool_decide; try done; lia. Qed.

(** The lines a logger has room for come out in the order they went in. *)
Fixpoint sends (lines : list string) : go Logger unit :=
  match lines with [] => mret tt | x :: r => _ ← send_log x; sends r end.
Fixpoint recvs (n : nat) : go Logger (list string) :=
  match n with
  | O => mret []
  | S n => x ← Logs_recv; r ← recvs n; mret (default "" x :: r)
  end.
Lemma sends_eq lines l :
  logs_closed l = false -> (length (logs l) + length lines <= LogBuffer)%nat ->
  sends lines l = Done tt (l <| logs := logs l ++ lines |>).
Proof.
  revert l. induction lines as [|x r IH]; intros [q c p v] Hc Hl; cbn in *; subst; [by rewrite app_nil_r|].
  unfold send_log, mbind, go_bind, reads. cbn. rewrite bool_decide_true by lia. cbn.
  rewrite IH; cbn; [by rewrite <- app_assoc|done|rewrite length_app; cbn; lia].
Qed.
Lemma recvs_eq lines l : logs l = lines -> recvs (length lines) l = Done lines (l <| logs := [] |>).
Proof.
  revert l. induction lines as [|x r IH]; intros [q c p v] E; cbn in *; subst; [done|].
  unfold Logs_recv, mbind, go_bind, reads. cbn. fold (@mbind (go Logger)). by rewrite IH.
Qed.

(** An eleventh line waits for a reader, and a closed logger cannot be printed to. *)
Lemma full_logger_blocks line l :
  logs_closed l = false -> length (logs l) = LogBuffer -> send_log line l = Blocked WaitChan l.
Proof. intros Hc Hl. unfold send_log, mbind, go_bind, reads. by rewrite Hc, bool_decide_false by lia. Qed.
Lemma closed_logger_panics line l :
  logs_closed l = true -> crashes (send_log line) l (PanicWith "send on closed channel").
Proof. intros Hc. unfold crashes, send_log, mbind, go_bind, reads. by rewrite Hc. Qed.

(** A line below the level is not printed, whatever the channel's state. *)
Lemma at_level_eq level m l : at_level level m l = if bool_decide (level <= LogLevel l) then m l else Done tt l.
Proof. unfold at_level, mbind, go_bind, reads, when. by case_bool_decide. Qed.
(** A new logger prints nothing at all: its level is below the lowest. *)
Lemma new_logger_silent format v :
  Infof format v New = Done tt New /\ Warnf format v New = Done tt New /\ Errorf format v New = Done tt New /\
  Debugf format v New = Done tt New.
Proof. unfold Infof, Warnf, Errorf, Debugf. by rewrite !at_level_eq. Qed.

(** A text without a percent sign survives being used as a format; any other is read again. *)
Fixpoint no_percent (s : string) : bool :=
  match s with EmptyString => true | String c r => negb (bool_decide (c = "%"%char)) && no_percent r end.
Lemma Sprintf_plain s : no_percent s = true -> Sprintf s [] = s.
Proof.
  induction s as [|c s IH]; [done|]. cbn [no_percent]. rewrite andb_true_iff, negb_true_iff, bool_decide_eq_false.
  intros [Hc Hs]. rewrite <- (IH Hs) at 2. destruct c as [[] [] [] [] [] [] [] []]; done.
Qed.
Lemma Warnf_plain format v l :
  LogLevelWarn <= LogLevel l -> no_percent (color_Sprintf FgYellow ("WARN: " +:+ format) v) = true ->
  Warnf format v l = send_log (color_Sprintf FgYellow ("WARN: " +:+ format) v) l.
Proof. intros Hl Hp. unfold Warnf, Printf. by rewrite at_level_eq, bool_decide_true, Sprintf_plain by done. Qed.
End Logger.

(** The second reading: an operand with a percent sign is misprinted. *)
Example warnf_reads_twice :
  Warnf (fun _ => Sprintf) "disk at %s" [AString "90%"] (New <| LogLevel := LogLevelWarn |>)
  = Done tt (mkLogger ["WARN: disk at 90%!(NOVERB)"%string] false "" LogLevelWarn).
Proof. vm_compute. reflexivity. Qed.
